(** * flun_html_template: the template engine service

    A shallow embedding of the template engine module (block scanner,
    structure validator, include resolver, template compositor, the
    iterative variable pipeline and its sandboxed evaluator), and the
    properties of it that the specification states.

    Strings are lists of 8-bit characters: a text is given by its bytes
    in UTF-8.  The engine searches for ASCII characters only, and a
    search for an ASCII text finds the same places in the bytes as in
    the characters.  Three things tell bytes from the characters of
    JavaScript: the white space beyond ASCII (U+00A0, U+FEFF and the
    like, which [trim] and the class [space] below do not know), the
    length and the indices of a string, and the order of strings that
    hold characters beyond U+FFFF.  [ascii_only] and [basic_plane]
    below name the texts on which bytes and characters agree. *)

From Stdlib Require Import Ascii String ZArith Lia.
From stdpp Require Import base option list strings gmap sorting.

Set Default Proof Using "Type".
Set Warnings "-register-all".
Local Open Scope nat_scope.

(** ** Strings *)

Abbreviation str := (list ascii).

Coercion list_ascii_of_string : string >-> list.

Module JsString.

(** [s.startsWith(p)] at the head of [s]. *)
Fixpoint starts_with (p s : str) : bool :=
  match p, s with
  | [], _ => true
  | a :: p', b :: s' => Ascii.eqb a b && starts_with p' s'
  | _ :: _, [] => false
  end.

(** [s.startsWith(p, i)]. *)
Definition startsWith (s p : str) (i : nat) : bool := starts_with p (drop i s).

(** Offset of the first occurrence of [p] in [s], scanning from the head. *)
Fixpoint find_from (p s : str) : option nat :=
  if starts_with p s then Some 0
  else match s with
       | [] => None
       | _ :: s' => S <$> find_from p s'
       end.

(** [s.indexOf(p, i)] for [i >= 0]; [None] stands for [-1]. *)
Definition indexOf (s p : str) (i : nat) : option nat :=
  (fun k => i + k) <$> find_from p (drop i s).

(** [s.includes(p)]. *)
Definition includes (s p : str) : bool := bool_decide (is_Some (find_from p s)).

(** [s.slice(i, j)] for [0 <= i], [0 <= j]. *)
Definition slice (s : str) (i j : nat) : str := take (j - i) (drop i s).

(** White space of [trim] and of the class [\s] (ASCII part). *)
(** The double quote. *)
Definition dquote : ascii := "034"%char.

Definition is_space (c : ascii) : bool :=
  let n := nat_of_ascii c in (n =? 32) || ((9 <=? n) && (n <=? 13)).

Fixpoint trim_start (s : str) : str :=
  match s with
  | c :: s' => if is_space c then trim_start s' else s
  | [] => []
  end.

Definition trim (s : str) : str := rev (trim_start (rev (trim_start s))).

(** ASCII upper-casing, the canonicalisation of the [i] flag. *)
Definition upcase (c : ascii) : ascii :=
  let n := nat_of_ascii c in
  if (97 <=? n) && (n <=? 122) then ascii_of_nat (n - 32) else c.

Definition lowcase (c : ascii) : ascii :=
  let n := nat_of_ascii c in
  if (65 <=? n) && (n <=? 90) then ascii_of_nat (n + 32) else c.

Definition toLowerCase (s : str) : str := map lowcase s.

Fixpoint str_eqb (a b : str) : bool :=
  match a, b with
  | [], [] => true
  | x :: a', y :: b' => Ascii.eqb x y && str_eqb a' b'
  | _, _ => false
  end.

Fixpoint join (sep : str) (l : list str) : str :=
  match l with
  | [] => []
  | [x] => x
  | x :: l' => x ++ sep ++ join sep l'
  end.

(** [s.split(c)] for a one-character separator. *)
Fixpoint split_on (c : ascii) (s : str) : list str :=
  match s with
  | [] => [[]]
  | x :: s' =>
      if Ascii.eqb x c then [] :: split_on c s'
      else match split_on c s' with
           | w :: ws => (x :: w) :: ws
           | [] => [[x]]
           end
  end.

(** [a.sort((x, y) => key(y) - key(x))]: a stable sort, larger key
    first. *)
Fixpoint insert_desc {A : Type} (key : A → nat) (r : A) (l : list A) : list A :=
  match l with
  | [] => [r]
  | x :: l' =>
      if key x <? key r then r :: x :: l'
      else x :: insert_desc key r l'
  end.

Definition sort_desc {A : Type} (key : A → nat) (l : list A) : list A :=
  fold_right (insert_desc key) [] l.

End JsString.

(** ** Regular expressions

    The backtracking matcher of ECMAScript regular expressions, for the
    constructs the engine's patterns use: characters and classes,
    sequence, alternation, greedy and lazy repetition, capture groups
    positive lookahead and the end-of-input assertion.  A pattern is
    tried at one position by [run]; the matcher is written in
    continuation-passing style so that priorities between alternatives
    are those of the language.  A repetition refuses an iteration that
    consumes nothing, as the language does; none of the patterns below
    has a capture group under a repetition, so groups need no reset. *)

Module Regex.
Import JsString.

Inductive re : Type :=
| Eps
| Chr (p : ascii → bool)
| Seq (a b : re)
| Alt (a b : re)
| Star (greedy : bool) (a : re)
| Grp (n : nat) (a : re)
| Look (a : re)
| End_.

(** Capture groups: group number to captured text. *)
Abbreviation caps := (list (nat * str)).

Fixpoint cap_get (c : caps) (n : nat) : option str :=
  match c with
  | [] => None
  | (k, v) :: c' => if k =? n then Some v else cap_get c' n
  end.

Definition cap_set (n : nat) (v : str) (c : caps) : caps := (n, v) :: c.

(** The repetition of [step]: at most [n] more iterations, each of which
    has to consume something. *)
Fixpoint star_loop (step : str → caps → (str → caps → option (str * caps))
                             → option (str * caps))
    (greedy : bool) (k : str → caps → option (str * caps))
    (n : nat) (s : str) (c : caps) {struct n} : option (str * caps) :=
  match n with
  | 0 => k s c
  | S n' =>
      let again :=
        step s c (fun s' c' =>
          if length s' <? length s then star_loop step greedy k n' s' c' else None) in
      if greedy then
        match again with
        | Some v => Some v
        | None => k s c
        end
      else
        match k s c with
        | Some v => Some v
        | None => again
        end
  end.

Fixpoint exec (r : re) (s : str) (c : caps)
    (k : str → caps → option (str * caps)) {struct r} : option (str * caps) :=
  match r with
  | Eps => k s c
  | Chr p =>
      match s with
      | x :: s' => if p x then k s' c else None
      | [] => None
      end
  | Seq a b => exec a s c (fun s' c' => exec b s' c' k)
  | Alt a b =>
      match exec a s c k with
      | Some v => Some v
      | None => exec b s c k
      end
  | Star greedy a => star_loop (exec a) greedy k (length s) s c
  | Grp n a =>
      exec a s c (fun s' c' =>
        k s' (cap_set n (take (length s - length s') s) c'))
  | Look a =>
      match exec a s c (fun s' c' => Some (s', c')) with
      | Some (_, c') => k s c'
      | None => None
      end
  | End_ =>
      match s with
      | [] => k s c
      | _ :: _ => None
      end
  end.

(** Derived forms. *)
Definition chr (x : ascii) : re := Chr (Ascii.eqb x).
Definition chr_i (x : ascii) : re := Chr (fun y => Ascii.eqb (upcase x) (upcase y)).
Definition any : re := Chr (fun _ => true).
Definition none_of (l : list ascii) : re :=
  Chr (fun y => negb (existsb (Ascii.eqb y) l)).
Definition one_of (l : list ascii) : re :=
  Chr (fun y => existsb (Ascii.eqb y) l).
Definition space : re := Chr is_space.
Definition is_word (c : ascii) : bool :=
  let n := nat_of_ascii c in
  ((48 <=? n) && (n <=? 57)) || ((65 <=? n) && (n <=? 90))
  || ((97 <=? n) && (n <=? 122)) || (n =? 95).
Definition word : re := Chr is_word.
Definition is_line_end (c : ascii) : bool :=
  let n := nat_of_ascii c in (n =? 10) || (n =? 13).
Definition dot : re := Chr (fun y => negb (is_line_end y)).

Fixpoint lit (l : str) : re :=
  match l with
  | [] => Eps
  | x :: l' => Seq (chr x) (lit l')
  end.
Fixpoint lit_i (l : str) : re :=
  match l with
  | [] => Eps
  | x :: l' => Seq (chr_i x) (lit_i l')
  end.

Definition star (a : re) : re := Star true a.
Definition lazy_star (a : re) : re := Star false a.
Definition plus (a : re) : re := Seq a (Star true a).
Definition lazy_plus (a : re) : re := Seq a (Star false a).
Definition opt (a : re) : re := Alt a Eps.

Fixpoint seq (l : list re) : re :=
  match l with
  | [] => Eps
  | [a] => a
  | a :: l' => Seq a (seq l')
  end.

(** One match: its text, what follows it, and its groups. *)
Record found := { m_text : str; m_rest : str; m_caps : caps }.

Definition group (m : found) (n : nat) : option str := cap_get (m_caps m) n.

(** The pattern tried at the head of [s]. *)
Definition run (r : re) (s : str) : option found :=
  match exec r s [] (fun s' c => Some (s', c)) with
  | Some (s', c) =>
      Some {| m_text := take (length s - length s') s; m_rest := s'; m_caps := c |}
  | None => None
  end.

(** Leftmost match in [s]: the text skipped before it and the match. *)
Fixpoint search (r : re) (s : str) : option (str * found) :=
  match run r s with
  | Some m => Some ([], m)
  | None =>
      match s with
      | [] => None
      | x :: s' =>
          match search r s' with
          | Some (pre, m) => Some (x :: pre, m)
          | None => None
          end
      end
  end.

(** [regex.test(s)] with [lastIndex = 0]. *)
Definition test (r : re) (s : str) : bool := bool_decide (is_Some (search r s)).

(** All matches of a global pattern, left to right, each with its index
    ([s.matchAll(r)]).  [skip] counts the characters of the current match
    still to be passed over. *)
Fixpoint matches_from (r : re) (skip pos : nat) (s : str) : list (nat * found) :=
  match skip with
  | S k =>
      match s with
      | _ :: s' => matches_from r k (S pos) s'
      | [] => []
      end
  | 0 =>
      match run r s with
      | Some m =>
          (pos, m) ::
          match s with
          | _ :: s' => matches_from r (length (m_text m) - 1) (S pos) s'
          | [] => []
          end
      | None =>
          match s with
          | _ :: s' => matches_from r 0 (S pos) s'
          | [] => []
          end
      end
  end.

Definition matchAll (r : re) (s : str) : list (nat * found) := matches_from r 0 0 s.

(** [s.replace(r, f)] for a global pattern and a callback.  The callback
    gets the text before the match and the match, and threads a state
    (what the callback assigns to outside itself). *)
Fixpoint replace_fold {St : Type} (r : re) (f : str → found → St → str * St)
    (skip : nat) (before s : str) (st : St) : str * St :=
  match skip with
  | S k =>
      match s with
      | x :: s' => replace_fold r f k (before ++ [x]) s' st
      | [] => ([], st)
      end
  | 0 =>
      match run r s with
      | Some m =>
          let (out, st1) := f before m st in
          match s with
          | x :: s' =>
              let (rest, st2) :=
                replace_fold r f (length (m_text m) - 1) (before ++ [x]) s' st1 in
              (out ++ (if length (m_text m) =? 0 then [x] else []) ++ rest, st2)
          | [] => (out, st1)
          end
      | None =>
          match s with
          | x :: s' =>
              let (rest, st1) := replace_fold r f 0 (before ++ [x]) s' st in
              (x :: rest, st1)
          | [] => ([], st)
          end
      end
  end.

Definition replace_st {St : Type} (r : re) (f : found → St → str * St)
    (s : str) (st : St) : str * St :=
  replace_fold r (fun _ => f) 0 [] s st.

Definition replace (r : re) (f : found → str) (s : str) : str :=
  fst (replace_fold r (fun _ m (_ : unit) => (f m, tt)) 0 [] s tt).

(** The same when the callback may fail to return (it runs a computation
    that is not known to end): then the replacement does not return. *)
Fixpoint replace_try (r : re) (f : found → option str) (skip : nat) (s : str)
    : option str :=
  match skip with
  | S k =>
      match s with
      | _ :: s' => replace_try r f k s'
      | [] => Some []
      end
  | 0 =>
      match run r s with
      | Some m =>
          match f m with
          | Some out =>
              match s with
              | x :: s' =>
                  match replace_try r f (length (m_text m) - 1) s' with
                  | Some rest =>
                      Some (out ++ (if length (m_text m) =? 0 then [x] else []) ++ rest)
                  | None => None
                  end
              | [] => Some out
              end
          | None => None
          end
      | None =>
          match s with
          | x :: s' =>
              match replace_try r f 0 s' with
              | Some rest => Some (x :: rest)
              | None => None
              end
          | [] => Some []
          end
      end
  end.

(** The replacement text of [s.replace(r, text)]: [$$], [$&], the text
    before and after the match, and [$n] for an existing group [n] in
    1 to 9 (no pattern below has more groups). *)
Definition digit_of (c : ascii) : option nat :=
  let n := nat_of_ascii c in
  if (48 <=? n) && (n <=? 57) then Some (n - 48) else None.

Fixpoint substitution (ngroups : nat) (before : str) (m : found) (t : str) : str :=
  match t with
  | [] => []
  | "$"%char :: t1 =>
      match t1 with
      | "$"%char :: t2 => "$"%char :: substitution ngroups before m t2
      | "&"%char :: t2 => m_text m ++ substitution ngroups before m t2
      | "`"%char :: t2 => before ++ substitution ngroups before m t2
      | "'"%char :: t2 => m_rest m ++ substitution ngroups before m t2
      | d :: t2 =>
          match digit_of d with
          | Some n =>
              if (1 <=? n) && (n <=? ngroups)
              then default [] (group m n) ++ substitution ngroups before m t2
              else "$"%char :: substitution ngroups before m t1
          | None => "$"%char :: substitution ngroups before m t1
          end
      | [] => ["$"%char]
      end
  | x :: t1 => x :: substitution ngroups before m t1
  end.

Definition replace_text (r : re) (ngroups : nat) (text : str) (s : str) : str :=
  fst (replace_fold r (fun before m (_ : unit) =>
         (substitution ngroups before m text, tt)) 0 [] s tt).

End Regex.

Import JsString Regex.

(** ** JavaScript values

    The values a variable context holds.  Numbers are kept abstract (the
    host supplies them); [VFun] is a function or host object, opaque.
    An object is the list of its own properties in enumeration order. *)

Inductive outcome (A : Type) : Type :=
| Returns (a : A)
| Throws (msg : str).
Arguments Returns {A} a.
Arguments Throws {A} msg.

Inductive value (num : Type) : Type :=
| VUndefined
| VNull
| VBool (b : bool)
| VNum (n : num)
| VStr (s : str)
| VArr (items : list (value num))
| VObj (props : list (str * value num))
| VFun (name : str).
Arguments VUndefined {num}.
Arguments VNull {num}.
Arguments VBool {num} b.
Arguments VNum {num} n.
Arguments VStr {num} s.
Arguments VArr {num} items.
Arguments VObj {num} props.
Arguments VFun {num} name.

Module JsObject.

(** Decimal numerals. *)
Fixpoint digits_of (fuel n : nat) (acc : str) : str :=
  match fuel with
  | 0 => acc
  | S f =>
      let acc' := ascii_of_nat (48 + n mod 10) :: acc in
      if n / 10 =? 0 then acc' else digits_of f (n / 10) acc'
  end.

Definition nat_to_str (n : nat) : str := digits_of (S n) n [].

Fixpoint read_digits (s : str) (acc : N) : option N :=
  match s with
  | [] => Some acc
  | c :: s' =>
      match digit_of c with
      | Some d => read_digits s' (10 * acc + N.of_nat d)%N
      | None => None
      end
  end.

(** A property key that is an array index: a canonical numeral below
    2^32 - 1.  Such keys enumerate first, in ascending order. *)
Definition array_index (k : str) : option N :=
  match k with
  | [] => None
  | c :: k' =>
      if Ascii.eqb c "0" && negb (length k' =? 0) then None
      else match read_digits k 0 with
           | Some n => if (n <? 4294967295)%N then Some n else None
           | None => None
           end
  end.

Definition key_before (k k' : str) : bool :=
  match array_index k, array_index k' with
  | Some a, Some b => (a <? b)%N
  | Some _, None => true
  | None, _ => false
  end.

Section Props.
Context {V : Type}.

(** Own property [k] of an object. *)
Fixpoint own (o : list (str * V)) (k : str) : option V :=
  match o with
  | [] => None
  | (k', v) :: o' => if str_eqb k k' then Some v else own o' k
  end.

(** [o[k] = v] on an own data property: in place when [k] exists, else
    created at its place in the enumeration order. *)
Fixpoint update (k : str) (v : V) (o : list (str * V)) : list (str * V) :=
  match o with
  | [] => []
  | (k', v') :: o' =>
      if str_eqb k k' then (k, v) :: o' else (k', v') :: update k v o'
  end.

Fixpoint create (k : str) (v : V) (o : list (str * V)) : list (str * V) :=
  match o with
  | [] => [(k, v)]
  | (k', v') :: o' =>
      if key_before k k' then (k, v) :: (k', v') :: o'
      else (k', v') :: create k v o'
  end.

Definition set (k : str) (v : V) (o : list (str * V)) : list (str * V) :=
  match own o k with
  | Some _ => update k v o
  | None => create k v o
  end.

(** [{...a, ...b}]. *)
Definition spread (a b : list (str * V)) : list (str * V) :=
  fold_left (fun acc kv => set (fst kv) (snd kv) acc) b
    (fold_left (fun acc kv => set (fst kv) (snd kv) acc) a []).

End Props.

(** The property names every ordinary object inherits from
    [Object.prototype]. *)
Definition prototype_keys : list str :=
  [ list_ascii_of_string "constructor"; list_ascii_of_string "__defineGetter__";
    list_ascii_of_string "__defineSetter__"; list_ascii_of_string "hasOwnProperty";
    list_ascii_of_string "__lookupGetter__"; list_ascii_of_string "__lookupSetter__";
    list_ascii_of_string "isPrototypeOf"; list_ascii_of_string "propertyIsEnumerable";
    list_ascii_of_string "toString"; list_ascii_of_string "valueOf";
    list_ascii_of_string "__proto__"; list_ascii_of_string "toLocaleString" ].

Definition inherited (k : str) : bool := existsb (str_eqb k) prototype_keys.

(** [o[k]] on an ordinary object holding values: own property, else the
    inherited member, else [undefined]. *)
Definition get {num : Type} (o : list (str * value num)) (k : str) : value num :=
  match own o k with
  | Some v => v
  | None => if inherited k then VFun k else VUndefined
  end.

End JsObject.

(** ** The host

    What the engine takes from Node.js: numbers, the conversions to
    string, and [vm.runInContext].  [runInContext code sandbox] either
    returns the value of [code] evaluated with the properties of
    [sandbox] as its globals, or throws (syntax error, runtime error,
    timeout).  What is thrown is an [Error], given by its message: an
    evaluation that throws a value without a message ([null],
    [undefined]) has no counterpart here.  Of a function or host
    object the host tells its own properties ([fun_own]) and whether it
    is an object without enumerable keys, as [Math] and [JSON] are
    ([fun_keyless]). *)

Record Host : Type := {
  num : Type;
  num_of_nat : nat → num;
  num_truthy : num → bool;
  Number_ : str → num;
  isNaN : num → bool;
  String_ : value num → str;
  JSON_stringify : value num → outcome str;
  fun_own : str → str → value num;
  fun_keyless : str → bool;
  runInContext : str → list (str * value num) → outcome (value num)
}.

(** ** 1. Constants and helpers *)

Definition includeRegex : re :=
  Alt (seq [ Grp 1 (one_of [dquote; "'"%char]); lit_i "[include"; plus space;
             Grp 2 (plus (none_of ["]"%char])); lit "]";
             Grp 3 (one_of [dquote; "'"%char]) ])
      (seq [ lit_i "[include"; plus space; Grp 4 (lazy_plus any); lit "]" ]).

Definition quotedVarRegex : re :=
  seq [ lit "`"; star space; lit "{{"; Grp 1 (lazy_star dot); lit "}}"; star space; lit "`" ].

Definition userFuncRegex : re :=
  seq [ lit "{{"; star space; lit "user:"; star space;
        Grp 1 (lazy_plus (Chr (fun c =>
                 negb (is_space c || Ascii.eqb c "(" || Ascii.eqb c ")"))));
        star space; lit "("; Grp 2 (star (none_of [")"%char])); lit ")";
        star space; lit "}}" ].

Definition templateTagRegex : re :=
  Alt (seq [ lit "[!"; Grp 1 (lazy_star (none_of ["]"%char])); lit "]" ])
      (seq [ lit "[~"; Grp 2 (lazy_star (none_of ["]"%char])); lit "]" ]).

Definition IfRegex : re :=
  seq [ lit_i "{{if"; plus space; Grp 1 (plus (none_of ["}"%char])); lit "}}";
        Grp 2 (lazy_star any);
        Grp 3 (star (seq [ lit_i "{{else"; plus space; lit_i "if";
                           star (none_of ["}"%char]); lit "}}"; lazy_star any ]));
        opt (seq [ lit_i "{{else}}"; Grp 4 (lazy_star any) ]);
        lit_i "{{endif}}" ].

Definition elseIfRegex : re :=
  seq [ lit_i "{{else"; plus space; lit_i "if"; plus space;
        Grp 1 (star (none_of ["}"%char])); lit "}}";
        Grp 2 (lazy_star any);
        Look (seq [ lit "{{";
                    Alt (seq [ lit_i "else"; plus space; lit_i "if" ])
                        (Alt (lit_i "else") (lit_i "endif"));
                    lit "}}" ]) ].

Definition forRegex : re :=
  seq [ lit_i "{{for"; plus space; Grp 1 (plus word); plus space; lit_i "in"; plus space;
        Grp 2 (plus (none_of ["}"%char])); lit "}}";
        Grp 3 (lazy_star any);
        opt (seq [ lit_i "{{empty}}"; Grp 4 (lazy_star any) ]);
        lit_i "{{endfor}}" ].

Definition forKeyValueRegex : re :=
  seq [ lit_i "{{for"; plus space; Grp 1 (plus word); star space; lit ","; star space;
        Grp 2 (plus word); plus space; lit_i "in"; plus space;
        Grp 3 (plus (none_of ["}"%char])); lit "}}";
        Grp 4 (lazy_star any);
        opt (seq [ lit_i "{{empty}}"; Grp 5 (lazy_star any) ]);
        lit_i "{{endfor}}" ].

Definition objectPropertyRegex : re :=
  seq [ lit "{{";
        Grp 1 (seq [ plus word; lit "."; plus word; star (seq [ lit "."; plus word ]) ]);
        lit "}}" ].

Definition expressionRegex : re :=
  seq [ lit "{{"; Grp 1 (plus (none_of ["}"%char])); lit "}}" ].

Definition breakRegex : re :=
  seq [ lit "{{"; star space; lit "break"; star space; lit "}}" ].

Definition continueRegex : re :=
  seq [ lit "{{"; star space; lit "continue"; star space; lit "}}" ].

Definition specialChars : list ascii :=
  [ "."%char; "*"%char; "+"%char; "?"%char; "^"%char; "$"%char; "{"%char; "}"%char;
    "("%char; ")"%char; "|"%char; "["%char; "]"%char; "\"%char ].

Definition specialCharsRegex : re := one_of specialChars.

Definition unsafeKeys : list str :=
  [ list_ascii_of_string "__proto__"; list_ascii_of_string "constructor";
    list_ascii_of_string "prototype"; list_ascii_of_string "then";
    list_ascii_of_string "toString"; list_ascii_of_string "valueOf";
    list_ascii_of_string "Object"; list_ascii_of_string "Function";
    list_ascii_of_string "Promise" ].

(** [unsafeKeys.includes(k)]. *)
Definition is_unsafe (k : str) : bool := existsb (str_eqb k) unsafeKeys.

Definition _escapeRegExp (string : str) : str :=
  replace_text specialCharsRegex 0 "\$&" string.

(** [new RegExp(p, 'g')] for the patterns the engine builds at run time:
    characters, escaped characters, [\s], and [*] after an atom. *)
Fixpoint RegExp_atoms (p : str) : list re :=
  match p with
  | [] => []
  | c :: p1 =>
      if Ascii.eqb c "\" then
        match p1 with
        | d :: p2 =>
            let a := if Ascii.eqb d "s" then space else chr d in
            match p2 with
            | e :: p3 => if Ascii.eqb e "*" then star a :: RegExp_atoms p3
                         else a :: RegExp_atoms p2
            | [] => [a]
            end
        | [] => []
        end
      else
        match p1 with
        | e :: p2 => if Ascii.eqb e "*" then star (chr c) :: RegExp_atoms p2
                     else chr c :: RegExp_atoms p1
        | [] => [chr c]
        end
  end.

Definition RegExp_ (p : str) : re := fold_right Seq Eps (RegExp_atoms p).

(** ** 5. The variable pipeline *)

Section Engine.

Context (H : Host).

Abbreviation val := (value (num H)).
Abbreviation obj := (list (str * value (num H))).

(** [userFeatures.variables] and [userFeatures.functions], as loaded.
    The registry is given by its lookup [userFeatures.functions[name]]:
    the member found under a name, its own or the one every object
    inherits, with what a call of it returns or throws. *)
Variable userFeatures_variables : obj.
Variable userFeatures_functions : str → option (list val → outcome val).

(** Conversion to boolean. *)
Definition truthy (v : val) : bool :=
  match v with
  | VUndefined | VNull => false
  | VBool b => b
  | VNum n => num_truthy H n
  | VStr s => negb (length s =? 0)
  | VArr _ | VObj _ | VFun _ => true
  end.

Definition is_undefined (v : val) : bool :=
  match v with
  | VUndefined => true
  | _ => false
  end.

Definition _safeToString (v : val) : str :=
  match v with
  | VUndefined | VNull => []
  | VArr _ | VObj _ =>
      match JSON_stringify H v with
      | Returns s => s
      | Throws _ => []
      end
  | _ => String_ H v
  end.

Definition _executeUserFunction (funcName : str) (args : list val) : val :=
  match userFeatures_functions funcName with
  | None => VNull
  | Some f =>
      match f args with
      | Returns v => v
      | Throws _ => VNull
      end
  end.

(** [Object.hasOwnProperty.call(current, key) ? current[key] : undefined]. *)
Definition own_value (current : val) (key : str) : val :=
  match current with
  | VObj props => default VUndefined (JsObject.own props key)
  | VArr items =>
      if str_eqb key "length" then VNum (num_of_nat H (length items))
      else match JsObject.array_index key with
           | Some i => default VUndefined (items !! N.to_nat i)
           | None => VUndefined
           end
  | VStr s =>
      if str_eqb key "length" then VNum (num_of_nat H (length s))
      else match JsObject.array_index key with
           | Some i => from_option (fun c => VStr [c]) VUndefined (s !! N.to_nat i)
           | None => VUndefined
           end
  | VFun f => fun_own H f key
  | VUndefined | VNull | VBool _ | VNum _ => VUndefined
  end.

Definition _getValueByPath (o : val) (path : str) : val :=
  fold_left (fun current key =>
      match current with
      | VUndefined | VNull => VUndefined
      | _ => if is_unsafe key then VUndefined else own_value current key
      end)
    (split_on "." path) o.

Definition safeFunctions : obj :=
  map (fun n : string => (list_ascii_of_string n, VFun (list_ascii_of_string n)))
    [ "String"; "Number"; "Boolean"; "Array"; "Date"; "Math"; "JSON";
      "and"; "or"; "not"; "eq"; "neq"; "gt"; "lt"; "gte"; "lte" ]%string.

Definition _createSafeSandbox (variables : obj) : obj :=
  let safeVariables :=
    fold_left (fun acc kv =>
        if negb (is_unsafe (fst kv)) then JsObject.set (fst kv) (snd kv) acc else acc)
      variables [] in
  JsObject.spread safeVariables safeFunctions.

(** The sandbox object handed to [vm.createContext]. *)
Definition sandbox (variables : obj) : obj :=
  JsObject.spread (_createSafeSandbox variables)
    [ (list_ascii_of_string "process", VUndefined);
      (list_ascii_of_string "global", VUndefined);
      (list_ascii_of_string "console", VObj []);
      (list_ascii_of_string "setTimeout", VUndefined);
      (list_ascii_of_string "setInterval", VUndefined);
      (list_ascii_of_string "setImmediate", VUndefined);
      (list_ascii_of_string "Buffer", VUndefined);
      (list_ascii_of_string "require", VUndefined) ].

Definition _evaluateExpression (expr : str) (variables : obj) : val :=
  match runInContext H ("(" ++ expr ++ ")") (sandbox variables) with
  | Returns result => result
  | Throws _ => VNull
  end.

Definition _hasUnprocessedTags (content : str) : bool :=
  existsb (fun regex => test regex content)
    [ forRegex; forKeyValueRegex; IfRegex; userFuncRegex; expressionRegex;
      objectPropertyRegex ].

(** *** Loops *)

(** The entries a loop runs over; [collection.map] throws on a value
    that is not an array. *)
Definition loop_entries (isKeyValue : bool) (collection : val) : outcome (list (val * val)) :=
  if isKeyValue then
    Returns
      match collection with
      | VArr items => imap (fun i v => (VStr (JsObject.nat_to_str i), v)) items
      | VObj props => map (fun kv => (VStr (fst kv), snd kv)) props
      | VStr s => imap (fun i c => (VStr (JsObject.nat_to_str i), VStr [c])) s
      | _ => []
      end
  else
    match collection with
    | VArr items => Returns (imap (fun i v => (VNum (num_of_nat H i), v)) items)
    | _ => Throws "collection.map is not a function"
    end.

Definition is_empty_collection (collection : val) : bool :=
  negb (truthy collection)
  || match collection with
     | VArr items => length items =? 0
     | VObj props => length props =? 0
     | VFun f => fun_keyless H f
     | _ => false
     end.

Definition loopVariables (variables : obj) (primaryVar : str) (second : option str)
    (i total : nat) (key value : val) : obj :=
  let isKeyValue := bool_decide (is_Some second) in
  let o :=
    JsObject.spread variables
      [ (primaryVar, if isKeyValue then key else value);
        (primaryVar ++ "_index", VNum (num_of_nat H i));
        (primaryVar ++ "_isFirst", VBool (i =? 0));
        (primaryVar ++ "_isLast", VBool (S i =? total)) ] in
  match second with
  | Some valueName => JsObject.set valueName value o
  | None => o
  end.

(** The iterations of one loop, from iteration [i] on. *)
Fixpoint loop_iterations (pv : str → obj → option str) (variables : obj)
    (primaryVar : str) (second : option str) (loopContent : str)
    (total i : nat) (entries : list (val * val)) (loopResult : str) : option str :=
  match entries with
  | [] => Some loopResult
  | (key, value) :: rest =>
      match pv loopContent (loopVariables variables primaryVar second i total key value) with
      | None => None
      | Some processedContent =>
          if includes processedContent "{{break}}" then
            let processedContent := replace breakRegex (fun _ => []) processedContent in
            Some loopResult
          else if includes processedContent "{{continue}}" then
            let processedContent := replace continueRegex (fun _ => []) processedContent in
            loop_iterations pv variables primaryVar second loopContent total (S i) rest loopResult
          else
            loop_iterations pv variables primaryVar second loopContent total (S i) rest
              (loopResult ++ processedContent)
      end
  end.

Definition processLoop (pv : str → obj → option str) (namesArray : list str)
    (collectionName loopContent : str) (emptyContent : option str) (variables : obj)
    : option str :=
  if existsb is_unsafe namesArray then Some []
  else
    let collection := _evaluateExpression collectionName variables in
    if is_empty_collection collection then
      match emptyContent with
      | Some e => if length e =? 0 then Some [] else pv e variables
      | None => Some []
      end
    else
      let primaryVar := default [] (head namesArray) in
      let second := namesArray !! 1 in
      match loop_entries (bool_decide (is_Some second)) collection with
      | Throws _ => Some []
      | Returns entries =>
          loop_iterations pv variables primaryVar second loopContent
            (length entries) 0 entries []
      end.

Definition group_ (m : found) (n : nat) : str := default [] (group m n).

Definition _processLoops (pv : str → obj → option str) (content : str) (variables : obj)
    : option str :=
  match
    replace_try forKeyValueRegex (fun m =>
        processLoop pv [group_ m 1; group_ m 2] (group_ m 3) (group_ m 4) (group m 5)
          variables) 0 content
  with
  | None => None
  | Some result =>
      replace_try forRegex (fun m =>
          processLoop pv [group_ m 1] (group_ m 2) (group_ m 3) (group m 4) variables)
        0 result
  end.

(** *** Conditionals *)

(** The [else if] branches in order: the content of the first whose
    condition holds. *)
Fixpoint first_else_if (variables : obj) (l : list (nat * found)) : option str :=
  match l with
  | [] => None
  | (_, elseIfMatch) :: l' =>
      if truthy (_evaluateExpression (group_ elseIfMatch 1) variables)
      then Some (group_ elseIfMatch 2)
      else first_else_if variables l'
  end.

(** The callback of the conditional replacement; the state is
    [hasChanges].  Its [try] guards the evaluations of the conditions,
    which do not throw here. *)
Definition conditional (variables : obj) (m : found) (hasChanges : bool) : str * bool :=
  let ifCondition := group_ m 1 in
  let ifContent := group_ m 2 in
  let elseIfBlocks := group_ m 3 in
  let elseContent := group_ m 4 in
  let allContent := ifContent ++ elseIfBlocks ++ elseContent in
  let hasChanges := includes allContent "{{if" || hasChanges in
  if truthy (_evaluateExpression ifCondition variables) then (ifContent, hasChanges)
  else
    match
      if length elseIfBlocks =? 0 then None
      else first_else_if variables (matchAll elseIfRegex elseIfBlocks)
    with
    | Some elseIfContent => (elseIfContent, hasChanges)
    | None => (elseContent, hasChanges)
    end.

Fixpoint conditionals_loop (remaining : nat) (variables : obj) (result : str) : str :=
  match remaining with
  | 0 => result
  | S n =>
      let (result', hasChanges) := replace_st IfRegex (conditional variables) result false in
      if hasChanges then conditionals_loop n variables result' else result'
  end.

Definition _processConditionals (content : str) (variables : obj) : str :=
  conditionals_loop 20 variables content.

(** *** User function calls *)

Definition quotedArgRegex : re :=
  seq [ one_of [dquote; "'"%char]; Grp 1 (star dot); one_of [dquote; "'"%char]; End_ ].

Definition varArgRegex : re := seq [ lit "{{"; Grp 1 (plus word); lit "}}" ].

(** One argument of a call; [None] is an argument that is dropped
    ([undefined] in the source, filtered out afterwards). *)
Definition classify_arg (variables : obj) (arg : str) : option val :=
  match run quotedArgRegex arg with
  | Some quotedMatch => Some (VStr (group_ quotedMatch 1))
  | None =>
      let from_var :=
        match search varArgRegex arg with
        | Some (_, varMatch) =>
            let varName := group_ varMatch 1 in
            if is_unsafe varName then Some None
            else if negb (is_undefined (JsObject.get variables varName))
                 then Some (Some (JsObject.get variables varName))
                 else None
        | None => None
        end in
      match from_var with
      | Some r => r
      | None =>
          if str_eqb arg "true" then Some (VBool true)
          else if str_eqb arg "false" then Some (VBool false)
          else if str_eqb arg "null" then Some VNull
          else if str_eqb arg "undefined" then None
          else if negb (isNaN H (Number_ H arg)) then Some (VNum (Number_ H arg))
          else if is_unsafe arg then None
          else if negb (is_undefined (JsObject.get variables arg))
               then Some (JsObject.get variables arg)
               else Some (VStr arg)
      end
  end.

Definition cleanedArgs (variables : obj) (argsStr : str) : list val :=
  omap (classify_arg variables)
    (filter (fun arg => arg ≠ []) (map trim (split_on "," argsStr))).

Definition _processUserFunctions (content : str) (variables : obj) : str :=
  replace userFuncRegex (fun m =>
      let funcCall := group_ m 1 in
      let argsStr := group_ m 2 in
      if is_unsafe funcCall then []
      else _safeToString (_executeUserFunction funcCall (cleanedArgs variables argsStr)))
    content.

(** *** Variables and expressions *)

(** The pattern built for one context key. *)
Definition variableRegex (key : str) : re :=
  RegExp_ ("{{\s*" ++ _escapeRegExp key ++ "\s*}}").

Definition is_keyword (trimmedExpr : str) : bool :=
  starts_with "if " trimmedExpr || str_eqb trimmedExpr "else"
  || str_eqb trimmedExpr "endif" || starts_with "for " trimmedExpr
  || str_eqb trimmedExpr "endfor" || str_eqb trimmedExpr "empty"
  || str_eqb trimmedExpr "break" || str_eqb trimmedExpr "continue".

Definition _processVariablesAndExpressions (content : str) (variables : obj) : str :=
  let result := content in
  let result := replace quotedVarRegex (fun m => "{{" ++ group_ m 1 ++ "}}") result in
  let result :=
    replace objectPropertyRegex (fun m =>
        _safeToString (_getValueByPath (VObj variables) (group_ m 1))) result in
  let result :=
    fold_left (fun result kv =>
        if is_unsafe (fst kv) then result
        else replace_text (variableRegex (fst kv)) 0 (_safeToString (snd kv)) result)
      variables result in
  replace expressionRegex (fun m =>
      let expression := group_ m 1 in
      if length (trim expression) =? 0 then []
      else if includes expression "user:" then m_text m
      else if is_keyword (trim expression) then m_text m
      else _safeToString (_evaluateExpression (trim expression) variables))
    result.

(** *** The iteration *)

(** One pass: the handlers in order.  A handler that does not return
    ends the pass without a result. *)
Definition run_phases (processingPhases : list (str → obj → option str))
    (content : str) (variables : obj) : option str :=
  fold_left (fun result handler =>
      match result with
      | Some r => handler r variables
      | None => None
      end)
    processingPhases (Some content).

(** The [do ... while] of [_processIteratively]: result and number of
    passes made.  [budget] only bounds the recursion; the loop condition
    already stops at [maxIterations]. *)
Fixpoint iterate (processingPhases : list (str → obj → option str)) (variables : obj)
    (maxIterations budget : nat) (result : str) (iteration : nat) : option (str * nat) :=
  let previousResult := result in
  match run_phases processingPhases result variables with
  | None => None
  | Some result =>
      let iteration := S iteration in
      if negb (str_eqb result previousResult) && (iteration <? maxIterations)
         && _hasUnprocessedTags result
      then
        match budget with
        | S b => iterate processingPhases variables maxIterations b result iteration
        | 0 => Some (result, iteration)
        end
      else Some (result, iteration)
  end.

(** The text of the warning written when the cap is reached. *)
Definition cap_warning (maxIterations : nat) : str :=
  "模板处理达到最大迭代次数(" ++ JsObject.nat_to_str maxIterations
  ++ "),可能包含无限循环或复杂嵌套".

(** Result and the warnings written to the console. *)
Definition _processIteratively (processingPhases : list (str → obj → option str))
    (content : str) (variables : obj) (maxIterations : nat) : option (str * list str) :=
  match iterate processingPhases variables maxIterations maxIterations content 0 with
  | None => None
  | Some (result, iteration) =>
      Some (result,
            if maxIterations <=? iteration then [cap_warning maxIterations] else [])
  end.

Definition processingPhases (pv : str → obj → option str)
    : list (str → obj → option str) :=
  [ _processLoops pv;
    (fun c v => Some (_processConditionals c v));
    (fun c v => Some (_processUserFunctions c v));
    (fun c v => Some (_processVariablesAndExpressions c v)) ].

(** [processVariables]: a loop body is processed by [processVariables]
    itself; [depth] bounds that nesting, and [None] is a computation
    that needs a deeper nesting than [depth]. *)
Fixpoint processVariables (depth : nat) (content : str) (requestVariables : obj)
    : option str :=
  match depth with
  | 0 => None
  | S d =>
      let allVariables := JsObject.spread userFeatures_variables requestVariables in
      fst <$> _processIteratively (processingPhases (processVariables d))
                content allVariables 10
  end.

End Engine.

(** ** 6. Template structure validation *)

Module Validator.

(** A structure error, before it is rendered as a message. *)
Inductive tag_error : Type :=
| MissingBracket (line : nat) (opening : bool)
| EmptyName (line : nat) (opening : bool)
| IllegalChars (line : nat) (found : list ascii)
| UnmatchedClose (line : nat) (name : str)
| Mismatch (line : nat) (expected name : str)
| Unclosed (line : nat) (name : str).

Definition tagType (opening : bool) : str := if opening then "开" else "闭".

(** The message pushed on [errors]. *)
Definition message (e : tag_error) : str :=
  match e with
  | MissingBracket line o =>
      "第 " ++ JsObject.nat_to_str line ++ " 行: " ++ tagType o ++ "标签缺少闭合方括号"
  | EmptyName line o =>
      "第 " ++ JsObject.nat_to_str line ++ " 行: 空" ++ tagType o ++ "标签名称"
  | IllegalChars line found =>
      "第 " ++ JsObject.nat_to_str line ++ " 行: 标签名称包含非法字符 "
      ++ join "," (map (fun c => [c]) found)
  | UnmatchedClose line name =>
      "第 " ++ JsObject.nat_to_str line ++ " 行: 多余的闭标签 '" ++ name ++ "'"
  | Mismatch line expected name =>
      "第 " ++ JsObject.nat_to_str line ++ " 行: 标签不匹配, 期望 '" ++ expected
      ++ "' 但找到 '" ++ name ++ "'"
  | Unclosed line name =>
      "第 " ++ JsObject.nat_to_str line ++ " 行: 未闭合的区块 '" ++ name ++ "'"
  end.

(** What [parseTag] returns: [B] (no closing bracket), [C] (a malformed
    tag, to be skipped), or the name; each with the error it pushed. *)
Inductive parsed : Type :=
| TagB (e : tag_error)
| TagC (e : tag_error) (endIndex : nat)
| TagName (name : str) (endIndex : nat).

Definition invalidChars : list ascii :=
  [ "["%char; "]"%char; "{"%char; "}"%char; "~"%char ].

Definition parseTag (content : str) (i : nat) (opening : bool) (newLine : nat) : parsed :=
  match indexOf content "]" i with
  | None => TagB (MissingBracket newLine opening)
  | Some endIndex =>
      let rawName := slice content (i + 2) endIndex in
      if length (trim rawName) =? 0 then TagC (EmptyName newLine opening) endIndex
      else
        let foundInvalidChars :=
          filter (fun c => includes rawName [c] = true) invalidChars in
        if 0 <? length foundInvalidChars
        then TagC (IllegalChars newLine foundInvalidChars) endIndex
        else TagName (trim rawName) endIndex
  end.

(** The closing tag [name] met with [stack] open. *)
Definition close_tag (line : nat) (name : str) (stack : list (str * nat))
    : list (str * nat) * list tag_error :=
  match last stack with
  | None => (stack, [UnmatchedClose line name])
  | Some lastOpen =>
      if str_eqb (fst lastOpen) name then (removelast stack, [])
      else (stack, [Mismatch line (fst lastOpen) name])
  end.

(** The main loop from index [i]; [budget] bounds the recursion and is
    never the reason to stop when it is at least the length left. *)
Fixpoint scan (budget : nat) (content : str) (i line : nat)
    (stack : list (str * nat)) (errors : list tag_error)
    : list (str * nat) * list tag_error :=
  match budget with
  | 0 => (stack, errors)
  | S b =>
      match content !! i with
      | None => (stack, errors)
      | Some char =>
          let line := if Ascii.eqb char "010" then S line else line in
          if startsWith content "[!" i then
            match parseTag content i true line with
            | TagB e => (stack, errors ++ [e])
            | TagC e endIndex => scan b content (S endIndex) line stack (errors ++ [e])
            | TagName name endIndex =>
                scan b content (S endIndex) line (stack ++ [(name, line)]) errors
            end
          else if startsWith content "[~" i then
            match parseTag content i false line with
            | TagB e => (stack, errors ++ [e])
            | TagC e endIndex => scan b content (S endIndex) line stack (errors ++ [e])
            | TagName name endIndex =>
                let (stack', es) := close_tag line name stack in
                scan b content (S endIndex) line stack' (errors ++ es)
            end
          else scan b content (S i) line stack errors
      end
  end.

(** The errors as data. *)
Definition structure_errors (content : str) : list tag_error :=
  let (stack, errors) := scan (length content) content 0 1 [] [] in
  errors ++ map (fun tag => Unclosed (snd tag) (fst tag)) stack.

Definition _validateTemplateStructure (content : str) : list str :=
  map message (structure_errors content).

(** The scan the specification describes, which never aborts: a tag
    with no closing bracket is recorded and the scan goes on with the
    next character. *)
Fixpoint scan_all (budget : nat) (content : str) (i line : nat)
    (stack : list (str * nat)) (errors : list tag_error)
    : list (str * nat) * list tag_error :=
  match budget with
  | 0 => (stack, errors)
  | S b =>
      match content !! i with
      | None => (stack, errors)
      | Some char =>
          let line := if Ascii.eqb char "010" then S line else line in
          if startsWith content "[!" i then
            match parseTag content i true line with
            | TagB e => scan_all b content (S i) line stack (errors ++ [e])
            | TagC e endIndex => scan_all b content (S endIndex) line stack (errors ++ [e])
            | TagName name endIndex =>
                scan_all b content (S endIndex) line (stack ++ [(name, line)]) errors
            end
          else if startsWith content "[~" i then
            match parseTag content i false line with
            | TagB e => scan_all b content (S i) line stack (errors ++ [e])
            | TagC e endIndex => scan_all b content (S endIndex) line stack (errors ++ [e])
            | TagName name endIndex =>
                let (stack', es) := close_tag line name stack in
                scan_all b content (S endIndex) line stack' (errors ++ es)
            end
          else scan_all b content (S i) line stack errors
      end
  end.

Definition all_structure_errors (content : str) : list tag_error :=
  let (stack, errors) := scan_all (length content) content 0 1 [] [] in
  errors ++ map (fun tag => Unclosed (snd tag) (fst tag)) stack.

Definition is_missing_bracket (e : tag_error) : bool :=
  match e with
  | MissingBracket _ _ => true
  | _ => false
  end.

End Validator.

(** ** 2. Block scanner and 8. template compositor *)

Module Blocks.

Record block : Type := { startIndex : nat; endIndex : nat; innerContent : str }.

(** The [blocks] object: block name to the array of its occurrences. *)
Abbreviation blocks := (list (str * list block)).

(** [if (!blocks[name]) blocks[name] = []; blocks[name].push(b)].  For a
    name that [blocks] inherits from [Object.prototype] the member found
    is not an array and [push] is not a function. *)
Definition push_block (name : str) (b : block) (bs : blocks) : outcome blocks :=
  match JsObject.own bs name with
  | Some occurrences => Returns (JsObject.set name (occurrences ++ [b]) bs)
  | None =>
      if JsObject.inherited name then Throws "blocks[openName].push is not a function"
      else Returns (JsObject.set name [b] bs)
  end.

(** The [while] loop from [index]; every turn moves [index] forward, so
    a [budget] of the length left is never the reason to stop. *)
Fixpoint find_blocks (budget : nat) (content : str) (index : nat) (bs : blocks)
    : outcome blocks :=
  match budget with
  | 0 => Returns bs
  | S b =>
      if length content <=? index then Returns bs
      else
        match indexOf content "[!" index with
        | None => Returns bs
        | Some startIndex =>
            match indexOf content "]" startIndex with
            | None => Returns bs
            | Some openEndIndex =>
                let openName := trim (slice content (startIndex + 2) openEndIndex) in
                let closeTag := "[~" ++ openName ++ "]" in
                match indexOf content closeTag (openEndIndex + 1) with
                | None => find_blocks b content (openEndIndex + 1) bs
                | Some closeStartIndex =>
                    let endIndex := closeStartIndex + length closeTag in
                    match
                      push_block openName
                        {| startIndex := startIndex; endIndex := endIndex;
                           innerContent := slice content (openEndIndex + 1) closeStartIndex |}
                        bs
                    with
                    | Throws e => Throws e
                    | Returns bs' => find_blocks b content endIndex bs'
                    end
                end
            end
        end
  end.

Definition _findBlockPositions (content : str) : outcome blocks :=
  find_blocks (length content) content 0 [].

Definition _cleanTemplateTags (html : str) : str :=
  replace templateTagRegex (fun _ => []) html.

Definition _ensureDoctypeFirst (html : str) : str :=
  if starts_with "<!doctype" (toLowerCase (trim html)) then html
  else "<!DOCTYPE html>" ++ ["010"%char] ++ html.

(** One replacement to make in the base. *)
Record replacement : Type :=
  { r_innerContent : str; r_startIndex : nat; r_endIndex : nat }.

(** The replacements of one block name: occurrence [i] of the page with
    occurrence [i] of the base, for [i] below the shorter length. *)
Fixpoint pair_blocks (templateBlockArray baseBlockArray : list block) : list replacement :=
  match templateBlockArray, baseBlockArray with
  | t :: ts, b :: bs =>
      {| r_innerContent := innerContent t; r_startIndex := startIndex b;
         r_endIndex := endIndex b |} :: pair_blocks ts bs
  | _, _ => []
  end.

(** The outer loop over [Object.entries(templateBlocks)], with
    [baseBlocks[name] || []].  A name held by [templateBlocks] is an own
    property, which a name inherited from [Object.prototype] never
    becomes (the scanner throws on it); so the lookup in [baseBlocks]
    finds an own property or nothing. *)
Definition collect (baseBlocks templateBlocks : blocks) : list replacement :=
  flat_map (fun entry =>
      pair_blocks (snd entry) (default [] (JsObject.own baseBlocks (fst entry))))
    templateBlocks.

Definition splice (finalHtml : str) (r : replacement) : str :=
  slice finalHtml 0 (r_startIndex r) ++ r_innerContent r ++ drop (r_endIndex r) finalHtml.

(** The merged text, before the tags left are removed. *)
Definition merge (baseContent : str) (baseBlocks templateBlocks : blocks) : str :=
  fold_left splice (sort_desc r_startIndex (collect baseBlocks templateBlocks)) baseContent.

Definition _renderTemplateContent (baseContent templateContent : str) : outcome str :=
  match _findBlockPositions baseContent with
  | Throws e => Throws e
  | Returns baseBlocks =>
      match _findBlockPositions templateContent with
      | Throws e => Throws e
      | Returns templateBlocks =>
          Returns (_ensureDoctypeFirst
                     (_cleanTemplateTags (merge baseContent baseBlocks templateBlocks)))
      end
  end.

End Blocks.

(** ** Paths

    Node's [path] module on POSIX paths, for the calls the engine makes:
    every base directory below is absolute. *)

Module Path.

Definition isAbsolute (p : str) : bool := starts_with "/" p.

Definition segments (p : str) : list str :=
  filter (fun seg => seg ≠ []) (split_on "/" p).

(** Resolution of [.] and [..] in an absolute path; [acc] is reversed. *)
Fixpoint normalize (segs acc : list str) : list str :=
  match segs with
  | [] => rev acc
  | seg :: rest =>
      if str_eqb seg "." then normalize rest acc
      else if str_eqb seg ".." then normalize rest (tail acc)
      else normalize rest (seg :: acc)
  end.

Definition absolute (segs : list str) : str := "/" ++ JsString.join "/" segs.

(** [path.resolve(base, p)]. *)
Definition resolve (base p : str) : str :=
  absolute (normalize (segments (if isAbsolute p then p else base ++ "/" ++ p)) []).

(** [path.join(base, p)]: normalised, a trailing separator is kept. *)
Definition join (base p : str) : str :=
  let joined := if length p =? 0 then base else base ++ "/" ++ p in
  let segs := normalize (segments joined) [] in
  if (0 <? length segs) && starts_with "/" (rev joined)
  then absolute segs ++ "/" else absolute segs.

(** [path.dirname(p)] of a normalised absolute path. *)
Definition dirname (p : str) : str := absolute (removelast (segments p)).

Fixpoint strip_common (a b : list str) : list str * list str :=
  match a, b with
  | x :: a', y :: b' => if str_eqb x y then strip_common a' b' else (a, b)
  | _, _ => (a, b)
  end.

(** [path.relative(from, to)] of absolute paths. *)
Definition relative (from to : str) : str :=
  let (up, down) := strip_common (normalize (segments from) []) (normalize (segments to) []) in
  JsString.join "/" (map (fun _ => list_ascii_of_string "..") up ++ down).

End Path.

(** ** 3. Include processing *)

Section Includes.

(** [process.cwd()], and the files that can be read, by absolute path. *)
Variable CWD : str.
Variable files : gmap str str.

Definition pRes (p : str) : str := Path.resolve CWD p.

Definition templatesAbsDir : str := Path.join CWD "templates".

Definition _isSafePath (requestedPath baseDir : str) : bool :=
  let resolvedPath := pRes requestedPath in
  starts_with (pRes baseDir) resolvedPath.

(** The module state: the [Set] objects of the heap by address, the
    address bound to [includedFiles], and [isCompilationMode]. *)
Record state : Type := {
  sets : gmap nat (gset str);
  includedFiles : nat;
  isCompilationMode : bool
}.

(** The content of the registry. *)
Definition registry (st : state) : gset str := default ∅ (sets st !! includedFiles st).

Definition initial : state :=
  {| sets := {[ 0 := ∅ ]}; includedFiles := 0; isCompilationMode := false |}.

Definition setCompilationMode (mode : bool) (st : state) : state :=
  {| sets := if mode then <[ includedFiles st := ∅ ]> (sets st) else sets st;
     includedFiles := includedFiles st;
     isCompilationMode := mode |}.

(** [new Set(includedFiles)]: a new object, at an address not in use. *)
Definition getIncludedFiles (st : state) : nat * state :=
  let address := fresh (dom (sets st)) in
  (address,
   {| sets := <[ address := registry st ]> (sets st);
      includedFiles := includedFiles st;
      isCompilationMode := isCompilationMode st |}).

(** [includedFiles.add(p)]. *)
Definition record_include (p : str) (st : state) : state :=
  {| sets := <[ includedFiles st := {[ p ]} ∪ registry st ]> (sets st);
     includedFiles := includedFiles st;
     isCompilationMode := isCompilationMode st |}.

(** What a holder of a [Set] reference can do to it. *)
Inductive set_op : Type :=
| SetAdd (x : str)
| SetDelete (x : str)
| SetClear.

Definition apply_set_op (address : nat) (op : set_op) (st : state) : state :=
  {| sets :=
       match sets st !! address with
       | Some s =>
           <[ address := match op with
                         | SetAdd x => {[ x ]} ∪ s
                         | SetDelete x => s ∖ {[ x ]}
                         | SetClear => ∅
                         end ]> (sets st)
       | None => sets st
       end;
     includedFiles := includedFiles st;
     isCompilationMode := isCompilationMode st |}.

Inductive warning : Type :=
| UnsafePath (fileName : str)
| CyclicInclude (fileName : str)
| SelfInclude (fileName : str)
| IncludeFailed (fileName : str).

(** The text written by [console.warn] (for a failed read, without the
    message of the file system). *)
Definition warning_text (w : warning) : str :=
  match w with
  | UnsafePath f => "⛔ 包含路径不安全，已跳过: " ++ f
  | CyclicInclude f => "⚠️ 循环包含跳过: " ++ f
  | SelfInclude f => "⚠️ 自包含跳过: " ++ f
  | IncludeFailed f => "⛔ 包含失败: " ++ f
  end.

Record include_match : Type := { fullMatch : str; fileName : str; index : nat }.

(** The directives to expand: a directive wrapped in quotes is skipped. *)
Definition include_matches (content : str) : list include_match :=
  omap (fun im =>
      let m := snd im in
      match group m 1, group m 3 with
      | Some (_ :: _), Some (_ :: _) => None
      | _, _ =>
          Some {| fullMatch := m_text m;
                  fileName := trim (match group m 4 with
                                    | Some (x :: g) => x :: g
                                    | _ => group_ m 2
                                    end);
                  index := fst im |}
      end)
    (matchAll includeRegex content).

Definition resolve_include (currentFile fileName : str) : str :=
  if Path.isAbsolute fileName then Path.join templatesAbsDir fileName
  else
    let currentDir :=
      if 0 <? length currentFile
      then Path.dirname (Path.join templatesAbsDir currentFile)
      else templatesAbsDir in
    Path.resolve currentDir fileName.

(** The result of a call: content, state, warnings written. *)
Abbreviation included := (option (str * state * list warning)).

(** The [for] loop over the sorted matches; [self] is [processIncludes]. *)
Fixpoint include_loop (self : str → str → gset str → state → included)
    (content currentFile : str) (inclusionStack : gset str)
    (sortedMatches : list include_match) (parts : list str) (lastIndex : nat)
    (st : state) (log : list warning) : option (list str * nat * state * list warning) :=
  match sortedMatches with
  | [] => Some (parts, lastIndex, st, log)
  | {| fullMatch := fullMatch; fileName := fileName; index := index |} :: rest =>
      let parts := parts ++ [slice content (index + length fullMatch) lastIndex] in
      let lastIndex := index in
      let includePath := resolve_include currentFile fileName in
      if negb (_isSafePath includePath templatesAbsDir) then
        include_loop self content currentFile inclusionStack rest (parts ++ [[]]) lastIndex
          st (log ++ [UnsafePath fileName])
      else
        let relativeIncludePath := Path.relative templatesAbsDir includePath in
        if bool_decide (includePath ∈ inclusionStack) then
          include_loop self content currentFile inclusionStack rest (parts ++ [[]]) lastIndex
            st (log ++ [CyclicInclude fileName])
        else if str_eqb relativeIncludePath currentFile then
          include_loop self content currentFile inclusionStack rest (parts ++ [[]]) lastIndex
            st (log ++ [SelfInclude fileName])
        else
          match files !! includePath with
          | None =>
              include_loop self content currentFile inclusionStack rest (parts ++ [[]])
                lastIndex st (log ++ [IncludeFailed fileName])
          | Some includedContent =>
              let st := if isCompilationMode st
                        then record_include relativeIncludePath st else st in
              let newStack := inclusionStack ∪ {[ includePath ]} in
              match self includedContent relativeIncludePath newStack st with
              | None => None
              | Some (includedContent, st, log') =>
                  include_loop self content currentFile inclusionStack rest
                    (parts ++ [includedContent]) lastIndex st (log ++ log')
              end
          end
  end.

(** [processIncludes]; [depth] bounds the nesting of includes, and
    [None] is a computation that needs a deeper nesting than [depth]. *)
Fixpoint processIncludes (depth : nat) (content currentFile : str)
    (inclusionStack : gset str) (st : state) : included :=
  match depth with
  | 0 => None
  | S d =>
      let matches := include_matches content in
      if length matches =? 0 then Some (content, st, [])
      else
        let sortedMatches := sort_desc index matches in
        match
          include_loop (processIncludes d) content currentFile inclusionStack
            sortedMatches [] (length content) st []
        with
        | None => None
        | Some (parts, lastIndex, st, log) =>
            let parts := parts ++ [slice content 0 lastIndex] in
            Some (concat (rev parts), st, log)
        end
  end.

End Includes.

(** ** A model of the host

    A host for integer numbers, used to run the engine on concrete
    templates.  Its [runInContext] evaluates a fragment of the
    expression language: integer and string literals, the literals
    [true], [false], [null] and [undefined], names bound in the sandbox,
    [typeof], [!], property access, calls, and one comparison.  Code
    outside the fragment is answered with [Throws "unsupported"]; no
    statement of this file evaluates such code.  Numerals other than
    decimal integers are outside the model as well, and so are the own
    properties of functions. *)

Module Node.

Inductive jsnum : Type :=
| NaN
| Int (z : Z).

Abbreviation val := (value jsnum).
Abbreviation obj := (list (str * value jsnum)).

Definition int_to_str (z : Z) : str :=
  if (z <? 0)%Z then "-" ++ JsObject.nat_to_str (Z.abs_nat z)
  else JsObject.nat_to_str (Z.abs_nat z).

Definition num_to_str (n : jsnum) : str :=
  match n with
  | NaN => "NaN"
  | Int z => int_to_str z
  end.

Definition all_digits (s : str) : bool :=
  (0 <? length s) && forallb (fun c => bool_decide (is_Some (digit_of c))) s.

Definition digits_value (s : str) : Z :=
  Z.of_N (default 0%N (JsObject.read_digits s 0)).

(** [Number(s)] on decimal integers. *)
Definition to_number (s : str) : jsnum :=
  match trim s with
  | [] => Int 0
  | c :: t =>
      if Ascii.eqb c "-" then (if all_digits t then Int (- digits_value t) else NaN)
      else if Ascii.eqb c "+" then (if all_digits t then Int (digits_value t) else NaN)
      else if all_digits (c :: t) then Int (digits_value (c :: t)) else NaN
  end.

Definition is_nan (n : jsnum) : bool :=
  match n with
  | NaN => true
  | Int _ => false
  end.

Definition truthy_num (n : jsnum) : bool :=
  match n with
  | NaN => false
  | Int z => negb (z =? 0)%Z
  end.

(** [String(v)]. *)
Fixpoint to_string (v : val) : str :=
  match v with
  | VUndefined => "undefined"
  | VNull => "null"
  | VBool b => if b then "true" else "false"
  | VNum n => num_to_str n
  | VStr s => s
  | VArr items =>
      JsString.join ","
        (map (fun x => match x with
                       | VUndefined | VNull => []
                       | _ => to_string x
                       end) items)
  | VObj _ => "[object Object]"
  | VFun name => "function " ++ name ++ "() { [native code] }"
  end.

Definition hex_digit (n : nat) : ascii :=
  if n <? 10 then ascii_of_nat (48 + n) else ascii_of_nat (87 + n).

Definition json_char (c : ascii) : str :=
  let n := nat_of_ascii c in
  if n =? 34 then ["\"%char; dquote]
  else if n =? 92 then "\\"
  else if n =? 8 then "\b"
  else if n =? 12 then "\f"
  else if n =? 10 then "\n"
  else if n =? 13 then "\r"
  else if n =? 9 then "\t"
  else if n <? 32 then "\u00" ++ [hex_digit (n / 16); hex_digit (n mod 16)]
  else [c].

Definition json_quote (s : str) : str := [dquote] ++ flat_map json_char s ++ [dquote].

(** [JSON.stringify(v)] for an array or an object. *)
Fixpoint json (v : val) : str :=
  match v with
  | VUndefined | VFun _ => "null"
  | VNull => "null"
  | VBool b => if b then "true" else "false"
  | VNum NaN => "null"
  | VNum (Int z) => int_to_str z
  | VStr s => json_quote s
  | VArr items => "[" ++ JsString.join "," (map json items) ++ "]"
  | VObj props =>
      "{" ++ JsString.join ","
               (flat_map (fun kv =>
                    match snd kv with
                    | VUndefined | VFun _ => []
                    | _ => [json_quote (fst kv) ++ ":" ++ json (snd kv)]
                    end) props)
      ++ "}"
  end.

(** *** The expression fragment *)

Inductive token : Type :=
| TNum (n : Z)
| TStr (s : str)
| TId (x : str)
| TPunct (p : str).

Definition is_id_start (c : ascii) : bool :=
  (is_word c && negb (bool_decide (is_Some (digit_of c)))) || Ascii.eqb c "$".

Definition is_id_char (c : ascii) : bool := is_word c || Ascii.eqb c "$".

Fixpoint span (p : ascii → bool) (s : str) : str * str :=
  match s with
  | c :: s' => if p c then let (a, b) := span p s' in (c :: a, b) else ([], s)
  | [] => ([], [])
  end.

Definition punctuators : list str :=
  map list_ascii_of_string
    [ "==="; "!=="; ">="; "<="; "("; ")"; "<"; ">"; "."; ","; "!" ]%string.

Fixpoint lex (fuel : nat) (s : str) : option (list token) :=
  match fuel with
  | 0 => None
  | S f =>
      match s with
      | [] => Some []
      | c :: s' =>
          if is_space c then lex f s'
          else if bool_decide (is_Some (digit_of c)) then
            let (ds, rest) := span (fun x => bool_decide (is_Some (digit_of x))) s in
            match rest with
            | x :: _ => if is_id_char x then None else (TNum (digits_value ds) ::.) <$> lex f rest
            | [] => Some [TNum (digits_value ds)]
            end
          else if is_id_start c then
            let (x, rest) := span is_id_char s in (TId x ::.) <$> lex f rest
          else if Ascii.eqb c "'" || Ascii.eqb c dquote then
            let (body, rest) :=
              span (fun x => negb (Ascii.eqb x c || Ascii.eqb x "\" || is_line_end x)) s' in
            match rest with
            | q :: rest' => if Ascii.eqb q c then (TStr body ::.) <$> lex f rest' else None
            | [] => None
            end
          else
            match List.find (fun p => starts_with p s) punctuators with
            | Some p => (TPunct p ::.) <$> lex f (drop (length p) s)
            | None => None
            end
      end
  end.

Inductive expr : Type :=
| ENum (n : Z)
| EStr (s : str)
| EId (x : str)
| ETypeof (e : expr)
| ENot (e : expr)
| EMember (e : expr) (name : str)
| ECall (e : expr) (args : list expr)
| EBin (op : str) (a b : expr).

Abbreviation parser A := (list token → option (A * list token)).

Definition is_punct (p : string) (t : token) : bool :=
  match t with
  | TPunct q => str_eqb q p
  | _ => false
  end.

Definition parse_primary (self : parser expr) : parser expr :=
  fun ts =>
    match ts with
    | TNum n :: ts' => Some (ENum n, ts')
    | TStr s :: ts' => Some (EStr s, ts')
    | TId x :: ts' => if str_eqb x "typeof" then None else Some (EId x, ts')
    | TPunct p :: ts' =>
        if str_eqb p "(" then
          match self ts' with
          | Some (e, t :: ts'') => if is_punct ")" t then Some (e, ts'') else None
          | _ => None
          end
        else None
    | [] => None
    end.

(** The arguments of a call, after the opening parenthesis. *)
Fixpoint parse_args (self : parser expr) (n : nat) : parser (list expr) :=
  fun ts =>
    match n with
    | 0 => None
    | S n' =>
        match ts with
        | t :: ts' =>
            if is_punct ")" t then Some ([], ts')
            else
              match self ts with
              | Some (e, t' :: ts'') =>
                  if is_punct ")" t' then Some ([e], ts'')
                  else if is_punct "," t' then
                    match parse_args self n' ts'' with
                    | Some (es, r) => if length es =? 0 then None else Some (e :: es, r)
                    | None => None
                    end
                  else None
              | _ => None
              end
        | [] => None
        end
    end.

Fixpoint parse_postfix (self : parser expr) (n : nat) (e : expr) : parser expr :=
  fun ts =>
    match n with
    | 0 => None
    | S n' =>
        match ts with
        | TPunct p :: ts' =>
            if str_eqb p "." then
              match ts' with
              | TId x :: ts'' => parse_postfix self n' (EMember e x) ts''
              | _ => None
              end
            else if str_eqb p "(" then
              match parse_args self (S (length ts')) ts' with
              | Some (args, ts'') => parse_postfix self n' (ECall e args) ts''
              | None => None
              end
            else Some (e, ts)
        | _ => Some (e, ts)
        end
    end.

Fixpoint parse_unary (self : parser expr) (n : nat) : parser expr :=
  fun ts =>
    match n with
    | 0 => None
    | S n' =>
        match ts with
        | TId x :: ts' =>
            if str_eqb x "typeof" then
              match parse_unary self n' ts' with
              | Some (e, r) => Some (ETypeof e, r)
              | None => None
              end
            else
              match parse_primary self ts with
              | Some (e, r) => parse_postfix self (S (length r)) e r
              | None => None
              end
        | TPunct p :: ts' =>
            if str_eqb p "!" then
              match parse_unary self n' ts' with
              | Some (e, r) => Some (ENot e, r)
              | None => None
              end
            else
              match parse_primary self ts with
              | Some (e, r) => parse_postfix self (S (length r)) e r
              | None => None
              end
        | _ =>
            match parse_primary self ts with
            | Some (e, r) => parse_postfix self (S (length r)) e r
            | None => None
            end
        end
    end.

Definition comparisons : list str :=
  map list_ascii_of_string [ "==="; "!=="; ">="; "<="; "<"; ">" ]%string.

Fixpoint parse_expr (fuel : nat) : parser expr :=
  fun ts =>
    match fuel with
    | 0 => None
    | S f =>
        match parse_unary (parse_expr f) (S (length ts)) ts with
        | Some (a, TPunct op :: ts1) =>
            if existsb (str_eqb op) comparisons then
              match parse_unary (parse_expr f) (S (length ts1)) ts1 with
              | Some (b, ts2) => Some (EBin op a b, ts2)
              | None => None
              end
            else Some (a, TPunct op :: ts1)
        | r => r
        end
    end.

Definition parse (code : str) : option expr :=
  match lex (S (length code)) code with
  | Some ts =>
      match parse_expr (S (length ts)) ts with
      | Some (e, []) => Some e
      | _ => None
      end
  | None => None
  end.

Definition typeof (v : val) : str :=
  match v with
  | VUndefined => "undefined"
  | VNull | VArr _ | VObj _ => "object"
  | VBool _ => "boolean"
  | VNum _ => "number"
  | VStr _ => "string"
  | VFun _ => "function"
  end.

Definition to_bool (v : val) : bool :=
  match v with
  | VUndefined | VNull => false
  | VBool b => b
  | VNum n => truthy_num n
  | VStr s => negb (length s =? 0)
  | VArr _ | VObj _ | VFun _ => true
  end.

Definition unsupported {A : Type} : outcome A := Throws "unsupported".

Definition compare (op : str) (a b : val) : outcome val :=
  let strict : option bool :=
    match a, b with
    | VNum (Int x), VNum (Int y) => Some (x =? y)%Z
    | VNum _, VNum _ => Some false
    | VStr x, VStr y => Some (str_eqb x y)
    | VBool x, VBool y => Some (Bool.eqb x y)
    | VUndefined, VUndefined | VNull, VNull => Some true
    | (VArr _ | VObj _ | VFun _), (VArr _ | VObj _ | VFun _) => None
    | _, _ => Some false
    end in
  let relational (f : Z → Z → bool) : outcome val :=
    match a, b with
    | VNum (Int x), VNum (Int y) => Returns (VBool (f x y))
    | VNum _, VNum _ => Returns (VBool false)
    | _, _ => unsupported
    end in
  if str_eqb op "===" then from_option (fun r => Returns (VBool r)) unsupported strict
  else if str_eqb op "!==" then from_option (fun r => Returns (VBool (negb r))) unsupported strict
  else if str_eqb op "<" then relational Z.ltb
  else if str_eqb op ">" then relational Z.gtb
  else if str_eqb op "<=" then relational Z.leb
  else if str_eqb op ">=" then relational Z.geb
  else unsupported.

Fixpoint eval (sb : obj) (e : expr) : outcome val :=
  match e with
  | ENum n => Returns (VNum (Int n))
  | EStr s => Returns (VStr s)
  | EId x =>
      if str_eqb x "undefined" then Returns VUndefined
      else if str_eqb x "null" then Returns VNull
      else if str_eqb x "true" then Returns (VBool true)
      else if str_eqb x "false" then Returns (VBool false)
      else from_option Returns unsupported (JsObject.own sb x)
  | ETypeof a =>
      match eval sb a with
      | Returns v => Returns (VStr (typeof v))
      | Throws m => Throws m
      end
  | ENot a =>
      match eval sb a with
      | Returns v => Returns (VBool (negb (to_bool v)))
      | Throws m => Throws m
      end
  | EMember a name =>
      match eval sb a with
      | Returns (VUndefined | VNull) => Throws "TypeError: cannot read properties"
      | Returns (VObj props) =>
          match JsObject.own props name with
          | Some v => Returns v
          | None => if JsObject.inherited name then unsupported else Returns VUndefined
          end
      | Returns (VArr items) =>
          if str_eqb name "length" then Returns (VNum (Int (Z.of_nat (length items))))
          else unsupported
      | Returns (VStr s) =>
          if str_eqb name "length" then Returns (VNum (Int (Z.of_nat (length s))))
          else unsupported
      | Returns _ => unsupported
      | Throws m => Throws m
      end
  | ECall f _ =>
      match eval sb f with
      | Returns (VFun _) => unsupported
      | Returns _ => Throws "TypeError: not a function"
      | Throws m => Throws m
      end
  | EBin op a b =>
      match eval sb a with
      | Returns x =>
          match eval sb b with
          | Returns y => compare op x y
          | Throws m => Throws m
          end
      | Throws m => Throws m
      end
  end.

Definition run_code (code : str) (sb : obj) : outcome val :=
  match parse code with
  | Some e => eval sb e
  | None => unsupported
  end.

Definition host : Host :=
  {| num := jsnum;
     num_of_nat := fun n => Int (Z.of_nat n);
     num_truthy := truthy_num;
     Number_ := to_number;
     isNaN := is_nan;
     String_ := to_string;
     JSON_stringify := fun v => Returns (json v);
     fun_own := fun _ _ => VUndefined;
     fun_keyless := fun f => str_eqb f "Math" || str_eqb f "JSON";
     runInContext := run_code |}.

(** *** The registry of user functions

    [userFeatures.functions] is an ordinary object.  Its own properties
    are the functions loaded, under the names [file.function]; under
    any other name it answers with the member of [Object.prototype], if
    there is one.  The members are called with the registry as [this];
    [keys] are the names of the functions loaded.  The only accessor an
    object has from the start is [__proto__].  A getter or setter
    defined through [__defineGetter__] and the wrapper objects that
    [constructor] makes are outside the model. *)
Definition object_member (keys : list str) (name : str) (args : list val) : outcome val :=
  let key := to_string (default VUndefined (head args)) in
  if str_eqb name "hasOwnProperty" || str_eqb name "propertyIsEnumerable"
  then Returns (VBool (existsb (str_eqb key) keys))
  else if str_eqb name "isPrototypeOf" then Returns (VBool false)
  else if str_eqb name "toLocaleString" || str_eqb name "toString"
  then Returns (VStr "[object Object]")
  else if str_eqb name "valueOf" then Returns (VObj (map (fun k => (k, VFun k)) keys))
  else if str_eqb name "__lookupGetter__" || str_eqb name "__lookupSetter__"
  then Returns (if str_eqb key "__proto__" then VFun "__proto__" else VUndefined)
  else if str_eqb name "__defineGetter__" || str_eqb name "__defineSetter__"
  then match args !! 1 with
       | Some (VFun _) => unsupported
       | _ => Throws "TypeError: Expecting function"
       end
  else if str_eqb name "constructor"
  then match head args with
       | None | Some VUndefined | Some VNull => Returns (VObj [])
       | Some (VObj props) => Returns (VObj props)
       | Some (VArr items) => Returns (VArr items)
       | Some (VFun f) => Returns (VFun f)
       | Some _ => unsupported
       end
  else Throws "TypeError: not a function".

Definition functions_of (own : list (str * (list val → outcome val))) (name : str)
    : option (list val → outcome val) :=
  match JsObject.own own name with
  | Some f => Some f
  | None =>
      if JsObject.inherited name then Some (object_member (map fst own) name) else None
  end.

End Node.



(** ** More of the engine: file operations, rendering, the callers *)

(** [extendsRegex], tried at the head of the text only (it begins with
    the start-of-input assertion). *)
Definition extendsRegex : re :=
  seq [ lit "["; star space; lit_i "extends"; plus space;
        Grp 1 (lazy_plus (none_of ["]"%char])); star space; lit "]";
        star (none_of ["013"%char; "010"%char]);
        Alt (lit ["013"%char; "010"%char])
            (Alt (lit ["010"%char]) (Alt (lit ["013"%char]) End_)) ].

(** [a.sort()] on strings: ascending by character code, a stable
    insertion. *)
Fixpoint str_ltb (a b : str) : bool :=
  match a, b with
  | _, [] => false
  | [], _ :: _ => true
  | x :: a', y :: b' =>
      if nat_of_ascii x <? nat_of_ascii y then true
      else if nat_of_ascii y <? nat_of_ascii x then false
      else str_ltb a' b'
  end.

Fixpoint insert_asc (x : str) (l : list str) : list str :=
  match l with
  | [] => [x]
  | y :: l' => if str_ltb x y then x :: y :: l' else y :: insert_asc x l'
  end.

Definition sort_asc (l : list str) : list str := fold_right insert_asc [] l.

(** [s.replace(p, text)] for a string pattern [p]: the first occurrence
    only, the replacement text read as a replacement pattern. *)
Definition replace_first (p text s : str) : str :=
  match find_from p s with
  | None => s
  | Some i =>
      let before := take i s in
      let after := drop (i + length p) s in
      before
      ++ substitution 0 before {| m_text := p; m_rest := after; m_caps := [] |} text
      ++ after
  end.

Section Files.

(** [process.cwd()], and the files that can be read, by absolute path;
    a path that is not a key cannot be opened. *)
Variable CWD : str.
Variable files : gmap str str.

(** The message of the error [readFile] rejects with. *)
Definition no_entry (p : str) : str :=
  "ENOENT: no such file or directory, open '" ++ p ++ "'".

Definition readFile (p : str) : outcome str :=
  match files !! p with
  | Some content => Returns content
  | None => Throws (no_entry p)
  end.

(** The first loop of [findEntryFile]: the first page that carries the
    entry mark. *)
Fixpoint first_marked (cachedPages : list str) : outcome (option str) :=
  match cachedPages with
  | [] => Returns None
  | file :: rest =>
      match readFile (Path.join (templatesAbsDir CWD) file) with
      | Throws e => Throws e
      | Returns content =>
          if includes content "<!-- @entry -->" then Returns (Some file)
          else first_marked rest
      end
  end.

Definition priorityList : list str :=
  [ list_ascii_of_string "index.html"; list_ascii_of_string "main.html";
    list_ascii_of_string "home.html" ].

(** [findEntryFile]: the entry ([None] is [undefined]) and the array
    [cachedPages] as the call leaves it ([sort] works in place). *)
Definition findEntryFile (cachedPages : list str) : outcome (option str * list str) :=
  match first_marked cachedPages with
  | Throws e => Throws e
  | Returns (Some file) => Returns (Some file, cachedPages)
  | Returns None =>
      match find (fun entry => existsb (str_eqb entry) cachedPages) priorityList with
      | Some entry => Returns (Some entry, cachedPages)
      | None =>
          let sorted := sort_asc cachedPages in
          Returns (head sorted, sorted)
      end
  end.

(** [validateTemplateFile]: what is written to the console when it
    returns. *)
Definition validateTemplateFile (fileName : str) (isDev : bool) : outcome (list str) :=
  match readFile (Path.join (templatesAbsDir CWD) fileName) with
  | Throws e => Throws e
  | Returns content =>
      let errors := Validator._validateTemplateStructure content in
      if 0 <? length errors then
        let errorMsg :=
          "模板 " ++ fileName ++ " 结构错误:" ++ ["010"%char]
          ++ JsString.join ["010"%char] errors in
        if isDev then Returns [errorMsg] else Throws errorMsg
      else Returns []
  end.

(** [renderTemplate].  The base is opened when it is one of [files]; a
    base path that exists without being a file that can be read (a
    directory) is outside the model. *)
Definition renderTemplate (templateFile : str) : outcome str :=
  let templatePath := Path.join (templatesAbsDir CWD) templateFile in
  match readFile templatePath with
  | Throws e => Throws e
  | Returns templateContent =>
      match run extendsRegex templateContent with
      | None => Blocks._renderTemplateContent templateContent []
      | Some extendsMatch =>
          let remainingContent := drop (length (m_text extendsMatch)) templateContent in
          let baseTemplateFile := trim (default [] (group extendsMatch 1)) in
          let basePath :=
            if Path.isAbsolute baseTemplateFile
            then Path.join (templatesAbsDir CWD) baseTemplateFile
            else Path.join (Path.dirname templatePath) baseTemplateFile in
          match files !! basePath with
          | None =>
              Throws ("基模板文件不存在: " ++ baseTemplateFile ++ " (在 " ++ templateFile
                      ++ " 中引用)")
          | Some baseContent => Blocks._renderTemplateContent baseContent remainingContent
          end
      end
  end.

End Files.

(** *** The development server *)

Module DevServer.

Definition socketScript : str :=
  ["010"%char] ++
  "        <script src=" ++ [dquote] ++ "/socket.io/socket.io.js" ++ [dquote]
  ++ "></script>" ++ ["010"%char] ++
  "        <script>" ++ ["010"%char] ++
  "          (function() {" ++ ["010"%char] ++
  "            var socket = io();" ++ ["010"%char] ++
  "            // 监听热重载事件" ++ ["010"%char] ++
  "            socket.on('hot-reload', (delay) => {" ++ ["010"%char] ++
  "              console.log('[热重载] 检测到文件更改,' + delay + '毫秒后重新加载页面...');"
  ++ ["010"%char] ++
  "              setTimeout(() => window.location.reload(), delay);" ++ ["010"%char] ++
  "            });" ++ ["010"%char] ++
  "          })();" ++ ["010"%char] ++
  "        </script>" ++ ["010"%char] ++
  "   ".

Definition injectedRegex : re :=
  Alt (lit "hot-reload-socket") (lit "socket.io.js").

Definition injectHotReloadScript (html : str) : str :=
  if test injectedRegex html then html
  else if includes html "</body>"
       then replace_first "</body>" (socketScript ++ "</body>") html
       else html ++ socketScript.

(** The template file a request path names. *)
Definition templateFile (decodedPath : str) : str :=
  if starts_with (rev ".html") (rev decodedPath) then drop 1 decodedPath
  else drop 1 decodedPath ++ ".html".

End DevServer.

(** *** The rendering pipeline of the callers

    The request handler of the server and the compiler both render a
    page by inheritance, then includes, then variables. *)

Section Pipeline.

Context (H : Host).
Variable userFeatures_variables : list (str * value (num H)).
Variable userFeatures_functions :
  str → option (list (value (num H)) → outcome (value (num H))).
Variable CWD : str.
Variable files : gmap str str.

(** The three steps; [None] is a computation that needs a deeper nesting
    than [depth]. *)
Definition renderPage (depth : nat) (templateFile : str)
    (requestVariables : list (str * value (num H))) (st : state)
    : option (outcome (str * state * list warning)) :=
  match renderTemplate CWD files templateFile with
  | Throws e => Some (Throws e)
  | Returns rendered =>
      match processIncludes CWD files depth rendered templateFile ∅ st with
      | None => None
      | Some (rendered, st, log) =>
          match
            processVariables H userFeatures_variables userFeatures_functions depth
              rendered requestVariables
          with
          | None => None
          | Some rendered => Some (Returns (rendered, st, log))
          end
      end
  end.

End Pipeline.


(** ** Concrete inputs *)

Module Demo.

Abbreviation val := (value (num Node.host)).
Abbreviation obj := (list (str * value (num Node.host))).

(** No user features loaded: the registry is the empty object. *)
Definition no_functions : str → option (list val → outcome val) := Node.functions_of [].

Definition render : nat → str → obj → option str :=
  processVariables Node.host [] no_functions.

(** The handlers of the pipeline, a loop body being processed with
    nesting depth 2. *)
Definition phases : list (str → obj → option str) :=
  processingPhases Node.host no_functions (render 2).

(** A context whose variable [a] holds its own tag and one more
    character. *)
Definition growing : obj :=
  [ (list_ascii_of_string "a", VStr (list_ascii_of_string "{{a}}x")) ].

(** The template of the conditional example. *)
Definition else_if_template : str :=
  "{{if 1>2}}A{{else if 2>1}}B{{else}}C{{endif}}".

(** A loop that breaks in its second iteration, over [xs = [1, 2, 3]]. *)
Definition break_template : str :=
  "{{for x in xs}}[{{x}}{{if x > 1}}{{break}}{{endif}}]{{endfor}}".

Definition one_two_three : obj :=
  [ (list_ascii_of_string "xs",
     VArr [VNum (Node.Int 1); VNum (Node.Int 2); VNum (Node.Int 3)]) ].

(** The entries of the loop over [one_two_three]. *)
Definition three_entries : list (val * val) :=
  [ (VNum (Node.Int 0), VNum (Node.Int 1)); (VNum (Node.Int 1), VNum (Node.Int 2));
    (VNum (Node.Int 2), VNum (Node.Int 3)) ].

(** A site whose pages [a.html] and [b.html] include each other. *)
Definition site : str := "/srv/site".

Definition mutual_includes : gmap str str :=
  <[ list_ascii_of_string "/srv/site/templates/a.html" :=
       list_ascii_of_string "A[include b.html]" ]>
    (<[ list_ascii_of_string "/srv/site/templates/b.html" :=
          list_ascii_of_string "B[include a.html]" ]> ∅).

(** A site with a directory next to the template root whose name begins
    with the name of the root. *)
Definition sibling_directory : gmap str str :=
  <[ list_ascii_of_string "/srv/site/templates-old/secret.html" :=
       list_ascii_of_string "SECRET" ]> ∅.

(** A base with two [a] blocks around a [b] block, and a page with three
    [a] blocks. *)
Definition base_page : str := "<h>[!a]one[~a]-[!b]keep[~b]-[!a]two[~a]</h>".

Definition child_page : str := "[!a]X[~a][!a]Y[~a][!a]Z[~a]".

Definition base_blocks : Blocks.blocks :=
  [ (list_ascii_of_string "a",
     [ {| Blocks.startIndex := 3; Blocks.endIndex := 14;
          Blocks.innerContent := list_ascii_of_string "one" |};
       {| Blocks.startIndex := 28; Blocks.endIndex := 39;
          Blocks.innerContent := list_ascii_of_string "two" |} ]);
    (list_ascii_of_string "b",
     [ {| Blocks.startIndex := 15; Blocks.endIndex := 27;
          Blocks.innerContent := list_ascii_of_string "keep" |} ]) ].

Definition child_blocks : Blocks.blocks :=
  [ (list_ascii_of_string "a",
     [ {| Blocks.startIndex := 0; Blocks.endIndex := 9;
          Blocks.innerContent := list_ascii_of_string "X" |};
       {| Blocks.startIndex := 9; Blocks.endIndex := 18;
          Blocks.innerContent := list_ascii_of_string "Y" |};
       {| Blocks.startIndex := 18; Blocks.endIndex := 27;
          Blocks.innerContent := list_ascii_of_string "Z" |} ]) ].

(** A context with a reserved key and a key named like a helper. *)
Definition context : obj :=
  [ (list_ascii_of_string "title", VStr (list_ascii_of_string "T"));
    (list_ascii_of_string "user",
     VObj [ (list_ascii_of_string "name", VStr (list_ascii_of_string "Ann")) ]);
    (list_ascii_of_string "constructor", VStr (list_ascii_of_string "c"));
    (list_ascii_of_string "Math", VStr (list_ascii_of_string "m")) ].

(** A site with a base, a page that extends it, a static page and a page
    that carries the entry mark. *)
Definition block_page : str := "<p>[!main]x[~main]</p>".

Definition extending_page : str :=
  "[extends base.html] the layout" ++ ["010"%char] ++ "[!main]Hello[~main]".

Definition pages : gmap str str :=
  <[ list_ascii_of_string "/srv/site/templates/base.html" := block_page ]>
    (<[ list_ascii_of_string "/srv/site/templates/index.html" := extending_page ]>
       (<[ list_ascii_of_string "/srv/site/templates/about.html" :=
             list_ascii_of_string "<p>About</p>" ]>
          (<[ list_ascii_of_string "/srv/site/templates/start.html" :=
                list_ascii_of_string "<!-- @entry --><p>Start</p>" ]> ∅))).

(** The registry loaded from one file [utils.js] with the functions
    [greet], which returns a greeting, and [fail], which throws. *)
Definition greeting_functions : str → option (list val → outcome val) :=
  Node.functions_of
    [ (list_ascii_of_string "utils.greet",
       fun _ => Returns (VStr (list_ascii_of_string "hello")));
      (list_ascii_of_string "utils.fail", fun _ => Throws "no") ].

(** User variables that the request context overrides. *)
Definition user_variables : obj :=
  [ (list_ascii_of_string "title", VStr (list_ascii_of_string "U")) ].

End Demo.

(** ** Vocabulary of the statements *)

(** No occurrence of the opening braces in [s]. *)
Definition plain (s : str) : Prop := includes s "{{" = false.

(** A pattern that cannot match in a text without opening braces. *)
Definition braced (r : re) : Prop :=
  ∀ s c k, plain s → exec r s c k = None.

Section IterationVocabulary.

Context (H : Host).
Variable phases : list (str → list (str * value (num H)) → option str).
Variable variables : list (str * value (num H)).

(** The content after [n] passes. *)
Fixpoint passes (content : str) (n : nat) : option str :=
  match n with
  | 0 => Some content
  | S m =>
      match passes content m with
      | Some r => run_phases H phases r variables
      | None => None
      end
  end.

(** A pass that goes on: it changed the content and left tags. *)
Definition progress (content : str) (i : nat) : Prop :=
  ∃ a b, passes content (i - 1) = Some a ∧ passes content i = Some b
         ∧ a ≠ b ∧ _hasUnprocessedTags b = true.

End IterationVocabulary.

(** What a loop keeps of the processed outputs of its iterations. *)
Fixpoint kept (outs : list str) : str :=
  match outs with
  | [] => []
  | out :: rest =>
      if includes out "{{break}}" then []
      else if includes out "{{continue}}" then kept rest
      else out ++ kept rest
  end.

(** What is left of a complete list of errors when the scan stops at the
    first tag without a closing bracket: that error is kept, the later
    ones of its kind are not. *)
Fixpoint keep_first_missing (l : list Validator.tag_error) : list Validator.tag_error :=
  match l with
  | [] => []
  | e :: l' =>
      if Validator.is_missing_bracket e
      then e :: filter (fun e' => Validator.is_missing_bracket e' = false) l'
      else e :: keep_first_missing l'
  end.

(** The errors for the blocks left open. *)
Definition unclosed (stack : list (str * nat)) : list Validator.tag_error :=
  map (fun tag => Validator.Unclosed (snd tag) (fst tag)) stack.

(** The binding [includedFiles] refers to a [Set] of the heap. *)
Definition well_formed (st : state) : Prop := is_Some (sets st !! includedFiles st).

(** What a call of [processIncludes] may do to the state: nothing but
    add to the registry, in compilation mode, paths of files that were
    read. *)
Definition records_reads (CWD : str) (files : gmap str str) (st st' : state) : Prop :=
  includedFiles st' = includedFiles st
  ∧ isCompilationMode st' = isCompilationMode st
  ∧ (isCompilationMode st = false → sets st' = sets st)
  ∧ (∀ a, a ≠ includedFiles st → sets st' !! a = sets st !! a)
  ∧ registry st ⊆ registry st'
  ∧ (∀ p, p ∈ registry st' →
       p ∈ registry st
       ∨ ∃ includePath, is_Some (files !! includePath)
                        ∧ p = Path.relative (templatesAbsDir CWD) includePath).

(** All the occurrences held by a [blocks] object. *)
Definition all_blocks (bs : Blocks.blocks) : list Blocks.block := flat_map snd bs.

(** The blocks found up to [idx]: distinct names as keys, and blocks
    that are not empty, end at or before [idx], and do not overlap. *)
Definition blocks_ok (idx : nat) (bs : Blocks.blocks) : Prop :=
  NoDup (map fst bs)
  ∧ NoDup (map Blocks.startIndex (all_blocks bs))
  ∧ (∀ b, b ∈ all_blocks bs → Blocks.startIndex b < Blocks.endIndex b ≤ idx)
  ∧ (∀ b1 b2, b1 ∈ all_blocks bs → b2 ∈ all_blocks bs →
       Blocks.startIndex b1 < Blocks.startIndex b2 →
       Blocks.endIndex b1 ≤ Blocks.startIndex b2).

(** An occurrence [b] held under [name]: its span in [content] is an
    open tag whose trimmed text is [name], the inner content of [b], and
    the close tag of [name]. *)
Definition block_text (content name : str) (b : Blocks.block) : Prop :=
  ∃ raw : str,
    trim raw = name
    ∧ slice content (Blocks.startIndex b) (Blocks.endIndex b)
      = "[!" ++ raw ++ "]" ++ Blocks.innerContent b ++ "[~" ++ name ++ "]".

Definition blocks_text (content : str) (bs : Blocks.blocks) : Prop :=
  ∀ name arr b, JsObject.own bs name = Some arr → b ∈ arr → block_text content name b.

(** The occurrences of every name are held in the order of the text. *)
Definition in_text_order (bs : Blocks.blocks) : Prop :=
  ∀ name arr,
    JsObject.own bs name = Some arr →
    StronglySorted (fun b1 b2 => Blocks.endIndex b1 ≤ Blocks.startIndex b2) arr.

(** The text of [base] from [pos] on, with the spans of [rs] replaced by
    their contents; [rs] is in ascending order. *)
Fixpoint replace_spans (base : str) (pos : nat) (rs : list Blocks.replacement) : str :=
  match rs with
  | [] => drop pos base
  | r :: rs' =>
      slice base pos (Blocks.r_startIndex r) ++ Blocks.r_innerContent r
      ++ replace_spans base (Blocks.r_endIndex r) rs'
  end.

(** Spans that are not empty, lie in a text of length [n], and do not
    overlap. *)
Definition spans_ok (n : nat) (rs : list Blocks.replacement) : Prop :=
  NoDup (map Blocks.r_startIndex rs)
  ∧ (∀ r, r ∈ rs → Blocks.r_startIndex r < Blocks.r_endIndex r ≤ n)
  ∧ (∀ r1 r2, r1 ∈ rs → r2 ∈ rs → Blocks.r_startIndex r1 < Blocks.r_startIndex r2 →
       Blocks.r_endIndex r1 ≤ Blocks.r_startIndex r2).

(** The replacements the compositor makes, from left to right. *)
Definition paired_spans (baseBlocks templateBlocks : Blocks.blocks)
    : list Blocks.replacement :=
  rev (sort_desc Blocks.r_startIndex (Blocks.collect baseBlocks templateBlocks)).

(** A pattern that cannot match in a text without the character [c]. *)
Definition needs (c : ascii) (r : re) : Prop :=
  ∀ s cps k, c ∉ s → exec r s cps k = None.

(** Texts on which bytes and characters agree.  An ASCII character is
    its own byte; on a text of ASCII characters the white space of
    [is_space] and [trim] is all the white space that JavaScript knows,
    and the length and the indices count characters.  A text without a
    byte from 240 on holds no character beyond U+FFFF, and the order of
    the bytes of such texts is the order of their characters. *)
Definition is_ascii (c : ascii) : bool := nat_of_ascii c <? 128.

Definition ascii_only (s : str) : Prop := Forall (fun c => is_ascii c = true) s.

Definition basic_plane (s : str) : Prop := Forall (fun c => nat_of_ascii c < 240) s.

(** The text of a tag that the validator accepts as a name: ASCII
    characters of which something is left when the text is trimmed, none
    of them refused in a name. *)
Definition good_name (raw : str) : Prop :=
  ascii_only raw ∧ trim raw ≠ [] ∧ Forall (fun c => c ∉ Validator.invalidChars) raw.

(** Well-nested templates: characters that do not begin a tag, and
    blocks closed under their own name around a well-nested body. *)
Inductive nested : str → Prop :=
| nested_nil : nested []
| nested_char (c : ascii) (s : str) :
    starts_with "[!" (c :: s) = false → starts_with "[~" (c :: s) = false →
    nested s → nested (c :: s)
| nested_block (raw raw' body s : str) :
    good_name raw → good_name raw' → trim raw = trim raw' →
    nested body → nested s →
    nested ("[!" ++ raw ++ "]" ++ body ++ "[~" ++ raw' ++ "]" ++ s).

Section EntryVocabulary.

Variable CWD : str.
Variable files : gmap str str.

(** A page that can be read and carries the entry mark, and one that
    can be read and does not. *)
Definition marked (file : str) : Prop :=
  ∃ content, files !! Path.join (templatesAbsDir CWD) file = Some content
             ∧ includes content "<!-- @entry -->" = true.

Definition unmarked (file : str) : Prop :=
  ∃ content, files !! Path.join (templatesAbsDir CWD) file = Some content
             ∧ includes content "<!-- @entry -->" = false.

End EntryVocabulary.

(** A character as [_escapeRegExp] writes it. *)
Definition escaped (c : ascii) : str :=
  if existsb (Ascii.eqb c) specialChars then ["\"%char; c] else [c].

(** What follows the content of the first branch in [IfRegex]. *)
Definition if_tail : re :=
  seq [ Grp 3 (star (seq [ lit_i "{{else"; plus space; lit_i "if";
                           star (none_of ["}"%char]); lit "}}"; lazy_star any ]));
        opt (seq [ lit_i "{{else}}"; Grp 4 (lazy_star any) ]);
        lit_i "{{endif}}" ].

(** The third step of [_processVariablesAndExpressions]: the
    replacement of the keys of the context, one after the other. *)
Definition replace_keys (H : Host) (variables : list (str * value (num H)))
    (result : str) : str :=
  fold_left (fun result kv =>
      if is_unsafe (fst kv) then result
      else replace_text (variableRegex (fst kv)) 0 (_safeToString H (snd kv)) result)
    variables result.

(** What follows the body of the loop in [forRegex] and in
    [forKeyValueRegex]; [n] is the number of the group of the [empty]
    branch. *)
Definition for_tail (n : nat) : re :=
  seq [ opt (seq [ lit_i "{{empty}}"; Grp n (lazy_star any) ]); lit_i "{{endfor}}" ].

(** [p] at the head of [s], letter case apart (a literal of a pattern
    with the flag [i]). *)
Definition starts_with_i (p s : str) : bool :=
  starts_with (map upcase p) (map upcase s).

(** An occurrence of [tag], letter case apart, that begins inside [body]
    when [next] follows it. *)
Definition begins_inside (tag body next : str) : bool :=
  existsb (fun i => starts_with_i tag (drop i (body ++ next))) (List.seq 0 (length body)).

(** None of the tags begins inside [body]. *)
Definition free_of (tags : list str) (body next : str) : bool :=
  forallb (fun tag => negb (begins_inside tag body next)) tags.

(** * Properties *)


(** ** Strings and the matcher *)

Lemma str_eqb_refl (a : str) : str_eqb a a = true.
Proof.
  induction a as [|x a IH]; [done|].
  cbn [str_eqb]. by rewrite Ascii.eqb_refl, IH.
Qed.

Lemma str_eqb_eq (a b : str) : str_eqb a b = true ↔ a = b.
Proof.
  split; [|intros ->; apply str_eqb_refl].
  revert b; induction a as [|x a IH]; intros [|y b]; cbn [str_eqb]; try done.
  intros [Hxy Hab]%andb_prop. apply Ascii.eqb_eq in Hxy. f_equal; auto.
Qed.

Lemma starts_with_cons (x y : ascii) (p s : str) :
  starts_with (x :: p) (y :: s) = Ascii.eqb x y && starts_with p s.
Proof. done. Qed.

Lemma starts_with_trans (a p s : str) :
  starts_with a p = true → starts_with p s = true → starts_with a s = true.
Proof.
  revert p s. induction a as [|x a IH]; intros p s Hap Hps; [done|].
  destruct p as [|y p]; [done|]. destruct s as [|z s]; [done|].
  rewrite starts_with_cons in *.
  apply andb_prop in Hap as [Hxy Hap]. apply andb_prop in Hps as [Hyz Hps].
  apply Ascii.eqb_eq in Hxy as ->. rewrite Hyz. cbn [andb]. by eapply IH.
Qed.

Lemma find_from_unfold (p s : str) :
  find_from p s =
    if starts_with p s then Some 0
    else match s with
         | [] => None
         | _ :: s' => S <$> find_from p s'
         end.
Proof. by destruct s. Qed.

Lemma suffix_cons_case (x : ascii) (s s' : str) :
  s' `suffix_of` x :: s → s' = x :: s ∨ s' `suffix_of` s.
Proof.
  intros [[|y pre] E]; [by left|right].
  injection E as -> ->. by eexists.
Qed.

Lemma find_from_None (p s : str) :
  find_from p s = None ↔ ∀ s', s' `suffix_of` s → starts_with p s' = false.
Proof.
  induction s as [|x s IH]; rewrite find_from_unfold.
  - split.
    + intros H s' Hs'. apply suffix_nil_inv in Hs' as ->.
      by destruct (starts_with p []).
    + intros H. by rewrite (H [] (reflexivity _)).
  - split.
    + intros H s' Hs'. destruct (starts_with p (x :: s)) eqn:E; [done|].
      apply suffix_cons_case in Hs' as [->|Hs']; [done|].
      apply IH; [|done]. by destruct (find_from p s).
    + intros H. rewrite (H (x :: s) (reflexivity _)).
      assert (find_from p s = None) as ->; [|done].
      apply IH. intros s' Hs'. apply H. by apply suffix_cons_r.
Qed.

Lemma includes_false (s p : str) :
  includes s p = false ↔ ∀ s', s' `suffix_of` s → starts_with p s' = false.
Proof.
  unfold includes. rewrite bool_decide_eq_false, <- find_from_None.
  destruct (find_from p s); split; try done.
  intros []. by eexists.
Qed.

(** A continuation that fails on every suffix makes the match fail. *)
Lemma exec_none (r : re) :
  ∀ s c k, (∀ s' c', s' `suffix_of` s → k s' c' = None) → exec r s c k = None.
Proof.
  induction r as [|p|a IHa b IHb|a IHa b IHb|g a IHa|n a IHa|a IHa|];
    intros s c k Hk; cbn [exec].
  - by apply Hk.
  - destruct s as [|x s']; [done|]. destruct (p x); [|done].
    apply Hk. by apply suffix_cons_r.
  - apply IHa. intros s' c' Hs'. apply IHb. intros s'' c'' Hs''.
    apply Hk. by etrans.
  - rewrite IHa by done. by apply IHb.
  - generalize (length s) as n. intros n. revert s c Hk.
    induction n as [|n IHn]; intros s c Hk; cbn [star_loop]; [by apply Hk|].
    rewrite (Hk s c) by done.
    rewrite IHa; [by destruct g|].
    intros s' c' Hs'. destruct (length s' <? length s); [|done].
    apply IHn. intros s'' c'' Hs''. apply Hk. by etrans.
  - apply IHa. intros s' c' Hs'. by apply Hk.
  - destruct (exec a s c _) as [[? c']|]; [|done]. by apply Hk.
  - destruct s; [|done]. by apply Hk.
Qed.

Lemma exec_lit (p : str) :
  ∀ s c k, starts_with p s = false → exec (lit p) s c k = None.
Proof.
  induction p as [|x p IH]; intros s c k Hs; [done|].
  destruct s as [|y s']; [done|].
  rewrite starts_with_cons in Hs. cbn [lit exec chr].
  destruct (Ascii.eqb x y); [|done]. by apply IH.
Qed.

Lemma upcase_brace (y : ascii) :
  Ascii.eqb (upcase "{") (upcase y) = Ascii.eqb "{" y.
Proof. destruct y as [[] [] [] [] [] [] [] []]; by vm_compute. Qed.

Lemma exec_lit_i (p : str) :
  ∀ s c k, starts_with "{{" p = true → starts_with "{{" s = false →
    exec (lit_i p) s c k = None.
Proof.
  intros s c k Hp Hs.
  change (list_ascii_of_string "{{") with ["{"%char; "{"%char] in *.
  destruct p as [|a [|b p]]; [done| |].
  { rewrite starts_with_cons in Hp. apply andb_prop in Hp as [_ Hp]. done. }
  rewrite starts_with_cons in Hp. apply andb_prop in Hp as [Ha Hp].
  rewrite starts_with_cons in Hp. apply andb_prop in Hp as [Hb _].
  apply Ascii.eqb_eq in Ha as <-. apply Ascii.eqb_eq in Hb as <-.
  destruct s as [|y s]; [done|].
  cbn [lit_i exec chr_i]. rewrite upcase_brace.
  rewrite starts_with_cons in Hs.
  destruct (Ascii.eqb "{" y); [|done].
  destruct s as [|z s]; [done|].
  rewrite upcase_brace. rewrite starts_with_cons in Hs.
  destruct (Ascii.eqb "{" z); done.
Qed.

Lemma plain_suffix (s s' : str) : plain s → s' `suffix_of` s → plain s'.
Proof.
  unfold plain. rewrite !includes_false. intros Hs Hs' s'' Hs''.
  apply Hs. by etrans.
Qed.

Lemma plain_head (s : str) : plain s → starts_with "{{" s = false.
Proof. unfold plain. rewrite includes_false. intros Hs. by apply Hs. Qed.

Lemma plain_tail (x : ascii) (s : str) : plain (x :: s) → plain s.
Proof. intros Hs. eapply plain_suffix; [done|]. by apply suffix_cons_r. Qed.

Lemma braced_run (r : re) (s : str) : braced r → plain s → run r s = None.
Proof. intros Hr Hs. unfold run. by rewrite Hr. Qed.

Lemma braced_lit (p : str) (r : re) :
  starts_with "{{" p = true → braced (Seq (lit p) r).
Proof.
  intros Hp s c k Hs. cbn [exec]. apply exec_lit.
  destruct (starts_with p s) eqn:E; [|done].
  pose proof (plain_head s Hs) as H0.
  by rewrite (starts_with_trans _ _ _ Hp E) in H0.
Qed.

Lemma braced_lit_i (p : str) (r : re) :
  starts_with "{{" p = true → braced (Seq (lit_i p) r).
Proof.
  intros Hp s c k Hs. cbn [exec]. apply exec_lit_i; [done|]. by apply plain_head.
Qed.

Lemma braced_after (a r : re) : braced r → braced (Seq a r).
Proof.
  intros Hr s c k Hs. cbn [exec]. apply exec_none. intros s' c' Hs'.
  apply Hr. by eapply plain_suffix.
Qed.

Lemma braced_chr (r : re) : braced (Seq (chr "{") (Seq (chr "{") r)).
Proof.
  intros s c k Hs. apply plain_head in Hs.
  change (list_ascii_of_string "{{") with ["{"%char; "{"%char] in *.
  destruct s as [|y s]; [done|]. cbn [exec chr].
  rewrite starts_with_cons in Hs. destruct (Ascii.eqb "{" y); [|done].
  destruct s as [|z s]; [done|].
  rewrite starts_with_cons in Hs. destruct (Ascii.eqb "{" z); done.
Qed.

(** Replacement with a pattern that does not match is the identity. *)
Lemma replace_fold_plain {St : Type} (r : re) (f : str → found → St → str * St) :
  braced r → ∀ s before st, plain s → replace_fold r f 0 before s st = (s, st).
Proof.
  intros Hr s. induction s as [|x s IH]; intros before st Hs; cbn [replace_fold].
  - by rewrite braced_run.
  - rewrite braced_run by done. rewrite IH; [done|]. by eapply plain_tail.
Qed.

Lemma replace_plain (r : re) (f : found → str) (s : str) :
  braced r → plain s → replace r f s = s.
Proof. intros. unfold replace. by rewrite replace_fold_plain. Qed.

Lemma replace_text_plain (r : re) (n : nat) (t s : str) :
  braced r → plain s → replace_text r n t s = s.
Proof. intros. unfold replace_text. by rewrite replace_fold_plain. Qed.

Lemma replace_st_plain {St : Type} (r : re) (f : found → St → str * St) (s : str) (st : St) :
  braced r → plain s → replace_st r f s st = (s, st).
Proof. intros. unfold replace_st. by rewrite replace_fold_plain. Qed.

Lemma replace_try_plain (r : re) (f : found → option str) :
  braced r → ∀ s, plain s → replace_try r f 0 s = Some s.
Proof.
  intros Hr s. induction s as [|x s IH]; intros Hs; cbn [replace_try].
  - by rewrite braced_run.
  - rewrite braced_run by done. rewrite IH; [done|]. by eapply plain_tail.
Qed.

(** ** JavaScript objects *)

Lemma own_update {V : Type} (k k0 : str) (v : V) (o : list (str * V)) :
  JsObject.own (JsObject.update k v o) k0
  = if str_eqb k0 k then (fun _ => v) <$> JsObject.own o k else JsObject.own o k0.
Proof.
  induction o as [|[k' v'] o IH]; cbn [JsObject.update JsObject.own].
  - by destruct (str_eqb k0 k).
  - destruct (str_eqb k k') eqn:E; cbn [JsObject.own].
    + apply str_eqb_eq in E as <-. by destruct (str_eqb k0 k).
    + rewrite IH. destruct (str_eqb k0 k) eqn:E0; [|done].
      apply str_eqb_eq in E0 as ->. by rewrite E.
Qed.

Lemma own_create {V : Type} (k k0 : str) (v : V) (o : list (str * V)) :
  JsObject.own o k = None →
  JsObject.own (JsObject.create k v o) k0
  = if str_eqb k0 k then Some v else JsObject.own o k0.
Proof.
  induction o as [|[k' v'] o IH]; cbn [JsObject.create JsObject.own]; intros Hk.
  - done.
  - destruct (str_eqb k k') eqn:E; [done|].
    destruct (JsObject.key_before k k'); cbn [JsObject.own].
    + done.
    + rewrite IH by done. destruct (str_eqb k0 k) eqn:E0; [|done].
      apply str_eqb_eq in E0 as ->. by rewrite E.
Qed.

Lemma own_set_same {V : Type} (k : str) (v : V) (o : list (str * V)) :
  JsObject.own (JsObject.set k v o) k = Some v.
Proof.
  unfold JsObject.set. destruct (JsObject.own o k) as [v0|] eqn:E.
  - by rewrite own_update, str_eqb_refl, E.
  - by rewrite own_create, str_eqb_refl.
Qed.

Lemma own_set_other {V : Type} (k k0 : str) (v : V) (o : list (str * V)) :
  str_eqb k0 k = false →
  JsObject.own (JsObject.set k v o) k0 = JsObject.own o k0.
Proof.
  intros Hne. unfold JsObject.set. destruct (JsObject.own o k) as [v0|] eqn:E.
  - by rewrite own_update, Hne.
  - by rewrite own_create, Hne.
Qed.

Section ObjectFacts.


Context {V : Type}.

Lemma own_None (o : list (str * V)) (k : str) :
  JsObject.own o k = None ↔ k ∉ map fst o.
Proof.
  induction o as [|[k' v] o IH]; cbn [JsObject.own map fst].
  - split; [intros _; apply not_elem_of_nil|done].
  - destruct (str_eqb k k') eqn:E.
    + apply str_eqb_eq in E as ->. split; [done|]. intros []. by left.
    + rewrite IH. rewrite not_elem_of_cons. split; [|by intros [_ ?]].
      intros Hn. split; [|done]. intros ->. by rewrite str_eqb_refl in E.
Qed.

Lemma own_Some_elem (o : list (str * V)) (k : str) (v : V) :
  JsObject.own o k = Some v → (k, v) ∈ o.
Proof.
  induction o as [|[k' v'] o IH]; cbn [JsObject.own]; [done|].
  destruct (str_eqb k k') eqn:E.
  - apply str_eqb_eq in E as ->. intros [= ->]. by left.
  - intros Hv. right. by apply IH.
Qed.

Lemma elem_own (o : list (str * V)) (k : str) (v : V) :
  NoDup (map fst o) → (k, v) ∈ o → JsObject.own o k = Some v.
Proof.
  induction o as [|[k' v'] o IH]; cbn [JsObject.own map fst]; intros Hnd Hin.
  - by apply elem_of_nil in Hin.
  - apply NoDup_cons in Hnd as [Hk' Hnd].
    apply elem_of_cons in Hin as [[= -> ->]|Hin].
    + by rewrite str_eqb_refl.
    + destruct (str_eqb k k') eqn:E; [|by apply IH].
      apply str_eqb_eq in E as ->. destruct Hk'.
      apply list_elem_of_fmap. by exists (k', v).
Qed.

Lemma update_keys (o : list (str * V)) (k : str) (v : V) :
  map fst (JsObject.update k v o) = map fst o.
Proof.
  induction o as [|[k' v'] o IH]; cbn [JsObject.update map fst]; [done|].
  destruct (str_eqb k k') eqn:E; cbn [map fst].
  - apply str_eqb_eq in E as ->. done.
  - by rewrite IH.
Qed.

Lemma create_perm (o : list (str * V)) (k : str) (v : V) :
  JsObject.create k v o ≡ₚ (k, v) :: o.
Proof.
  induction o as [|[k' v'] o IH]; cbn [JsObject.create]; [done|].
  destruct (JsObject.key_before k k'); [done|]. rewrite IH. apply Permutation_swap.
Qed.

Lemma set_keys_NoDup (o : list (str * V)) (k : str) (v : V) :
  NoDup (map fst o) → NoDup (map fst (JsObject.set k v o)).
Proof.
  intros Hnd. unfold JsObject.set. destruct (JsObject.own o k) eqn:E.
  - by rewrite update_keys.
  - rewrite create_perm. cbn [map fst]. apply NoDup_cons. split; [|done].
    by apply own_None.
Qed.

End ObjectFacts.

(** ** The pipeline on a text without opening braces *)

Lemma braced_forRegex : braced forRegex.
Proof. apply braced_lit_i. done. Qed.

Lemma braced_forKeyValueRegex : braced forKeyValueRegex.
Proof. apply braced_lit_i. done. Qed.

Lemma braced_IfRegex : braced IfRegex.
Proof. apply braced_lit_i. done. Qed.

Lemma braced_userFuncRegex : braced userFuncRegex.
Proof. apply braced_lit. done. Qed.

Lemma braced_objectPropertyRegex : braced objectPropertyRegex.
Proof. apply braced_lit. done. Qed.

Lemma braced_expressionRegex : braced expressionRegex.
Proof. apply braced_lit. done. Qed.

Lemma braced_quotedVarRegex : braced quotedVarRegex.
Proof. do 2 apply braced_after. apply braced_lit. done. Qed.

Lemma braced_variableRegex (key : str) : braced (variableRegex key).
Proof. apply braced_chr. Qed.

Section PlainText.

Context (H : Host).
Variable userFeatures_variables : list (str * value (num H)).
Variable userFeatures_functions :
  str → option (list (value (num H)) → outcome (value (num H))).

Lemma _processLoops_plain pv content variables :
  plain content → _processLoops H pv content variables = Some content.
Proof.
  intros Hc. unfold _processLoops.
  rewrite (replace_try_plain _ _ braced_forKeyValueRegex) by done.
  by rewrite (replace_try_plain _ _ braced_forRegex).
Qed.

Lemma _processConditionals_plain content variables :
  plain content → _processConditionals H content variables = content.
Proof.
  intros Hc. unfold _processConditionals.
  change (conditionals_loop H 20 variables content) with
    (let (result', hasChanges) :=
       replace_st IfRegex (conditional H variables) content false in
     if hasChanges then conditionals_loop H 19 variables result' else result').
  by rewrite (replace_st_plain _ _ _ _ braced_IfRegex).
Qed.

Lemma _processUserFunctions_plain content variables :
  plain content →
  _processUserFunctions H userFeatures_functions content variables = content.
Proof.
  intros Hc. unfold _processUserFunctions.
  apply replace_plain; [apply braced_userFuncRegex|done].
Qed.

Lemma _processVariablesAndExpressions_plain content variables :
  plain content → _processVariablesAndExpressions H content variables = content.
Proof.
  intros Hc. unfold _processVariablesAndExpressions. cbv zeta.
  rewrite (replace_plain quotedVarRegex) by (apply braced_quotedVarRegex || done).
  rewrite (replace_plain objectPropertyRegex) by (apply braced_objectPropertyRegex || done).
  assert (fold_left
            (fun result (kv : str * value (num H)) =>
               if is_unsafe (fst kv) then result
               else replace_text (variableRegex (fst kv)) 0
                      (_safeToString H (snd kv)) result)
            variables content = content) as ->.
  { induction variables as [|kv l IH]; [done|]. cbn [fold_left].
    destruct (is_unsafe (fst kv)); [done|].
    by rewrite replace_text_plain by (apply braced_variableRegex || done). }
  by rewrite (replace_plain expressionRegex) by (apply braced_expressionRegex || done).
Qed.

Lemma run_phases_plain pv content variables :
  plain content →
  run_phases H (processingPhases H userFeatures_functions pv) content variables
  = Some content.
Proof.
  intros Hc. unfold run_phases, processingPhases. cbn [fold_left].
  rewrite _processLoops_plain, _processConditionals_plain,
    _processUserFunctions_plain, _processVariablesAndExpressions_plain; done.
Qed.

(** C9. On a content with no occurrence of the two opening braces, each
    of the four phases (loops, conditionals, user-function calls,
    variables and expressions) returns the content unchanged, for every
    variable context; and so does [processVariables], which returns
    after one pass. *)
Theorem processVariables_plain_identity
    (depth : nat) (content : str) (requestVariables : list (str * value (num H)))
    (pv : str → list (str * value (num H)) → option str) :
  includes content "{{" = false →
  _processLoops H pv content requestVariables = Some content
  ∧ _processConditionals H content requestVariables = content
  ∧ _processUserFunctions H userFeatures_functions content requestVariables = content
  ∧ _processVariablesAndExpressions H content requestVariables = content
  ∧ processVariables H userFeatures_variables userFeatures_functions
      (S depth) content requestVariables = Some content.
Proof.
  intros Hc. split_and!.
  - by apply _processLoops_plain.
  - by apply _processConditionals_plain.
  - by apply _processUserFunctions_plain.
  - by apply _processVariablesAndExpressions_plain.
  - cbn [processVariables]. unfold _processIteratively.
    cbn [iterate]. rewrite run_phases_plain by done.
    by rewrite str_eqb_refl.
Qed.

End PlainText.

(** ** The outer iteration *)

Section Iteration.

Context (H : Host).
Variable phases : list (str → list (str * value (num H)) → option str).
Variable variables : list (str * value (num H)).

Lemma passes_front (content : str) (n : nat) :
  passes H phases variables content (S n) =
    match run_phases H phases content variables with
    | Some r => passes H phases variables r n
    | None => None
    end.
Proof.
  induction n as [|n IH].
  - cbn [passes]. by destruct (run_phases _ _ _ _).
  - change (passes H phases variables content (S (S n))) with
      (match passes H phases variables content (S n) with
       | Some r => run_phases H phases r variables
       | None => None
       end).
    rewrite IH. by destruct (run_phases H phases content variables).
Qed.

Lemma iterate_spec (maxIterations : nat) :
  ∀ budget result iteration,
    maxIterations - 1 - iteration ≤ budget →
    match iterate H phases variables maxIterations budget result iteration with
    | Some (r, n) =>
        ∃ j, n = iteration + j ∧ 1 ≤ j
             ∧ passes H phases variables result j = Some r
             ∧ (∀ i, 1 ≤ i < j → progress H phases variables result i ∧ iteration + i < maxIterations)
             ∧ (maxIterations ≤ n ∨ passes H phases variables result (j - 1) = Some r
                ∨ _hasUnprocessedTags r = false)
    | None =>
        ∃ j c, (j = 0 ∨ iteration + j < maxIterations)
               ∧ passes H phases variables result j = Some c ∧ run_phases H phases c variables = None
    end.
Proof.
  assert (∀ result iteration r1,
            run_phases H phases result variables = Some r1 →
            negb (str_eqb r1 result) && (S iteration <? maxIterations)
              && _hasUnprocessedTags r1 = false →
            ∃ j, S iteration = iteration + j ∧ 1 ≤ j
                 ∧ passes H phases variables result j = Some r1
                 ∧ (∀ i, 1 ≤ i < j → progress H phases variables result i ∧ iteration + i < maxIterations)
                 ∧ (maxIterations ≤ S iteration ∨ passes H phases variables result (j - 1) = Some r1
                    ∨ _hasUnprocessedTags r1 = false)) as Hstop.
  { intros result iteration r1 E1 Econd. exists 1.
    split; [lia|]. split; [lia|]. split; [by cbn [passes]|].
    split; [intros i Hi; lia|].
    apply andb_false_iff in Econd as [[Hne|Hlt]%andb_false_iff|Htags].
    - right. left. cbn [passes Nat.sub]. f_equal.
      apply negb_false_iff, str_eqb_eq in Hne. done.
    - left. apply Nat.ltb_ge in Hlt. lia.
    - right. right. done. }
  induction budget as [|b IH]; intros result iteration Hb; cbn [iterate].
  - destruct (run_phases H phases result variables) as [r1|] eqn:E1.
    + destruct (negb (str_eqb r1 result) && (S iteration <? maxIterations)
                && _hasUnprocessedTags r1) eqn:Econd.
      * apply andb_prop in Econd as [[Hne Hlt]%andb_prop Htags].
        apply Nat.ltb_lt in Hlt. lia.
      * by apply Hstop.
    + exists 0, result. split; [by left|]. by split.
  - destruct (run_phases H phases result variables) as [r1|] eqn:E1.
    + destruct (negb (str_eqb r1 result) && (S iteration <? maxIterations)
                && _hasUnprocessedTags r1) eqn:Econd; [|by apply Hstop].
      apply andb_prop in Econd as [[Hne Hlt]%andb_prop Htags].
      apply Nat.ltb_lt in Hlt.
      assert (result ≠ r1) as Hne'.
      { intros ->. by rewrite str_eqb_refl in Hne. }
      assert (maxIterations - 1 - S iteration ≤ b) as Hb' by lia.
      specialize (IH r1 (S iteration) Hb').
      destruct (iterate H phases variables maxIterations b r1 (S iteration))
        as [[r n]|].
      * destruct IH as (j & -> & Hj & Hpj & Hprog & Hend).
        exists (S j). split; [lia|]. split; [lia|].
        split; [by rewrite passes_front, E1|]. split.
        -- intros i Hi. destruct (decide (i = 1)) as [->|Hi1].
           { split; [|lia]. exists result, r1.
             split; [done|]. split; [by cbn [passes]; rewrite E1|]. by split. }
           assert (1 ≤ i - 1 < j) as Hi' by lia.
           destruct (Hprog (i - 1) Hi') as [(a & c & Ha & Hc & Hac & Ht) Hlt'].
           split; [|lia]. exists a, c. split; [|split; [|by split]].
           ++ replace (i - 1) with (S (i - 1 - 1)) by lia.
              by rewrite passes_front, E1.
           ++ replace i with (S (i - 1)) by lia.
              by rewrite passes_front, E1.
        -- destruct Hend as [?|[Hs|?]]; [left; lia| |by right; right].
           right. left. replace (S j - 1) with (S (j - 1)) by lia.
           by rewrite passes_front, E1.
      * destruct IH as (j & c & Hj & Hpj & Hnone).
        exists (S j), c. split; [right; lia|]. split; [|done].
        by rewrite passes_front, E1.
    + exists 0, result. split; [by left|]. by split.
Qed.

(** C7. [_processIteratively] with the cap of 10 makes at least one and
    at most 10 passes.  When it returns after [n] passes, every pass
    before the last changed the content and left tags behind, and the
    last pass is the first that left the content unchanged, or left no
    tag shape, or was the tenth; the cap warning is written exactly when
    ten passes were made, and the result of the last pass is returned.
    It fails to return only if one of these passes does.  In particular
    a content whose first 15 passes would each change it and leave tags
    is returned as it is after pass 10, with the warning. *)
Theorem processIteratively_at_most_ten_passes (content : str) :
  match _processIteratively H phases content variables 10 with
  | Some (result, log) =>
      ∃ n, 1 ≤ n ≤ 10
        ∧ iterate H phases variables 10 10 content 0 = Some (result, n)
        ∧ passes H phases variables content n = Some result
        ∧ (∀ i, 1 ≤ i < n → progress H phases variables content i)
        ∧ (n = 10 ∨ passes H phases variables content (n - 1) = Some result
           ∨ _hasUnprocessedTags result = false)
        ∧ log = (if decide (n = 10) then [cap_warning 10] else [])
  | None =>
      ∃ j c, j < 10 ∧ passes H phases variables content j = Some c
             ∧ run_phases H phases c variables = None
  end
  ∧ ((∀ i, 1 ≤ i ≤ 15 → progress H phases variables content i) →
     ∃ r, passes H phases variables content 10 = Some r
          ∧ _processIteratively H phases content variables 10 = Some (r, [cap_warning 10])).
Proof.
  assert (10 - 1 - 0 ≤ 10) as Hb by lia.
  pose proof (iterate_spec 10 10 content 0 Hb) as Hspec.
  unfold _processIteratively.
  destruct (iterate H phases variables 10 10 content 0) as [[result n]|] eqn:Eit.
  - destruct Hspec as (j & Hn & Hj & Hpj & Hprog & Hend). cbn [Nat.add] in Hn. subst j.
    assert (n ≤ 10) as Hle.
    { destruct (decide (n ≤ 10)) as [|Hgt]; [done|].
      assert (1 ≤ 10 < n) as H10 by lia. destruct (Hprog 10 H10). lia. }
    assert (1 ≤ n ≤ 10
            ∧ Some (result, n) = Some (result, n)
            ∧ passes H phases variables content n = Some result
            ∧ (∀ i, 1 ≤ i < n → progress H phases variables content i)
            ∧ (n = 10 ∨ passes H phases variables content (n - 1) = Some result
               ∨ _hasUnprocessedTags result = false)
            ∧ (if 10 <=? n then [cap_warning 10] else [])
              = (if decide (n = 10) then [cap_warning 10] else [])) as Hall.
    { split; [lia|]. split; [done|]. split; [done|].
      split; [intros i Hi; by apply Hprog|]. split.
      - destruct Hend as [?|[?|?]]; [left; lia|by right; left|by right; right].
      - destruct (decide (n = 10)) as [->|Hne]; [done|].
        destruct (10 <=? n) eqn:E; [|done]. apply Nat.leb_le in E. lia. }
    split; [by exists n|].
    intros Hprog15. destruct Hall as (_ & _ & _ & _ & Hstop & Hlog).
    assert (progress H phases variables content n) as (a & b & Ha & Hb' & Hab & Htags).
    { apply Hprog15. lia. }
    rewrite Hpj in Hb'. injection Hb' as <-.
    destruct Hstop as [->|[Hsame|Hno]].
    + exists result. split; [done|]. done.
    + rewrite Ha in Hsame. by injection Hsame.
    + by rewrite Hno in Htags.
  - destruct Hspec as (j & c & Hj & Hpj & Hnone).
    assert (j < 10) as Hlt by (destruct Hj; lia).
    split; [by exists j, c|].
    intros Hprog15. assert (1 ≤ S j ≤ 15) as Hr by lia.
    destruct (Hprog15 (S j) Hr) as (a & b & _ & Hb' & _).
    cbn [passes] in Hb'. rewrite Hpj, Hnone in Hb'. done.
Qed.

End Iteration.

(** A run of the whole pipeline that is cut at the tenth pass: the
    value of [a] brings the tag [{{a}}] back with one more character. *)
Lemma processIteratively_at_most_ten_passes_witness :
  (∀ i, 1 ≤ i ≤ 15 → progress Node.host Demo.phases Demo.growing "{{a}}" i)
  ∧ ∃ r, passes Node.host Demo.phases Demo.growing "{{a}}" 10 = Some r
         ∧ _processIteratively Node.host Demo.phases "{{a}}" Demo.growing 10
           = Some (r, [cap_warning 10]).
Proof.
  assert (∀ i, 1 ≤ i ≤ 15 → progress Node.host Demo.phases Demo.growing "{{a}}" i)
    as Hp.
  { intros i Hi.
    assert (i = 1 ∨ i = 2 ∨ i = 3 ∨ i = 4 ∨ i = 5 ∨ i = 6 ∨ i = 7 ∨ i = 8 ∨ i = 9
            ∨ i = 10 ∨ i = 11 ∨ i = 12 ∨ i = 13 ∨ i = 14 ∨ i = 15) as Hcases by lia.
    unfold progress.
    repeat (destruct Hcases as [->|Hcases]); try subst i.
    all: (eexists _, _; split; [vm_compute; reflexivity|];
          split; [vm_compute; reflexivity|];
          split; [discriminate|vm_compute; reflexivity]). }
  split; [exact Hp|].
  pose proof (processIteratively_at_most_ten_passes
                Node.host Demo.phases Demo.growing "{{a}}") as [_ Hcut].
  exact (Hcut Hp).
Defined.

(** ** The structure validator *)

Section ValidatorFacts.
Import Validator.

Variable content : str.

Lemma indexOf_ge (p : str) (i k : nat) : indexOf content p i = Some k → i ≤ k.
Proof.
  unfold indexOf. destruct (find_from p (drop i content)); [|done].
  intros [= <-]. lia.
Qed.

Lemma indexOf_None_later (p : str) (i j : nat) :
  indexOf content p i = None → i ≤ j → indexOf content p j = None.
Proof.
  unfold indexOf. intros Hi Hij.
  destruct (find_from p (drop i content)) eqn:E; [done|].
  assert (find_from p (drop j content) = None) as ->; [|done].
  rewrite find_from_None in *. intros s' Hs'. apply E. etrans; [done|].
  replace j with (i + (j - i)) by lia. rewrite <- drop_drop. apply suffix_drop.
Qed.

Lemma scan_app (b : nat) :
  ∀ i line stack errors,
    scan b content i line stack errors =
      (fst (scan b content i line stack []),
       errors ++ snd (scan b content i line stack [])).
Proof.
  induction b as [|b IH]; intros i line stack errors; cbn [scan].
  { by rewrite app_nil_r. }
  destruct (content !! i) as [char|]; [|by rewrite app_nil_r].
  set (line' := if Ascii.eqb char "010" then S line else line).
  destruct (startsWith content "[!" i).
  { destruct (parseTag content i true line') as [e|e endIndex|name endIndex].
    - done.
    - rewrite (IH _ _ _ (errors ++ [e])), (IH _ _ _ ([] ++ [e])).
      cbn [fst snd]. by rewrite app_assoc.
    - by rewrite (IH _ _ _ errors). }
  destruct (startsWith content "[~" i); [|by rewrite (IH _ _ _ errors)].
  destruct (parseTag content i false line') as [e|e endIndex|name endIndex].
  - done.
  - rewrite (IH _ _ _ (errors ++ [e])), (IH _ _ _ ([] ++ [e])).
    cbn [fst snd]. by rewrite app_assoc.
  - destruct (close_tag line' name stack) as [stack' es].
    rewrite (IH _ _ _ (errors ++ es)), (IH _ _ _ ([] ++ es)).
    cbn [fst snd]. by rewrite app_assoc.
Qed.

Lemma scan_all_app (b : nat) :
  ∀ i line stack errors,
    scan_all b content i line stack errors =
      (fst (scan_all b content i line stack []),
       errors ++ snd (scan_all b content i line stack [])).
Proof.
  induction b as [|b IH]; intros i line stack errors; cbn [scan_all].
  { by rewrite app_nil_r. }
  destruct (content !! i) as [char|]; [|by rewrite app_nil_r].
  set (line' := if Ascii.eqb char "010" then S line else line).
  destruct (startsWith content "[!" i).
  { destruct (parseTag content i true line') as [e|e endIndex|name endIndex].
    - rewrite (IH _ _ _ (errors ++ [e])), (IH _ _ _ ([] ++ [e])).
      cbn [fst snd]. by rewrite app_assoc.
    - rewrite (IH _ _ _ (errors ++ [e])), (IH _ _ _ ([] ++ [e])).
      cbn [fst snd]. by rewrite app_assoc.
    - by rewrite (IH _ _ _ errors). }
  destruct (startsWith content "[~" i); [|by rewrite (IH _ _ _ errors)].
  destruct (parseTag content i false line') as [e|e endIndex|name endIndex].
  - rewrite (IH _ _ _ (errors ++ [e])), (IH _ _ _ ([] ++ [e])).
    cbn [fst snd]. by rewrite app_assoc.
  - rewrite (IH _ _ _ (errors ++ [e])), (IH _ _ _ ([] ++ [e])).
    cbn [fst snd]. by rewrite app_assoc.
  - destruct (close_tag line' name stack) as [stack' es].
    rewrite (IH _ _ _ (errors ++ es)), (IH _ _ _ ([] ++ es)).
    cbn [fst snd]. by rewrite app_assoc.
Qed.

(** The error pushed by [parseTag] tells its case. *)
Lemma parseTag_cases (i : nat) (o : bool) (line : nat) :
  match parseTag content i o line with
  | TagB e => indexOf content "]" i = None ∧ is_missing_bracket e = true
  | TagC e endIndex => indexOf content "]" i = Some endIndex ∧ is_missing_bracket e = false
  | TagName _ endIndex => indexOf content "]" i = Some endIndex
  end.
Proof.
  unfold parseTag. destruct (indexOf content "]" i) as [endIndex|]; [|done].
  destruct (length (trim _) =? 0); [done|].
  destruct (0 <? length _); done.
Qed.

Lemma close_tag_errors (line : nat) (name : str) (stack : list (str * nat)) :
  Forall (fun e => is_missing_bracket e = false) (snd (close_tag line name stack)).
Proof.
  unfold close_tag. destruct (last stack) as [lastOpen|]; cbn [snd].
  - destruct (str_eqb _ _); cbn [snd]; by repeat constructor.
  - by repeat constructor.
Qed.

(** Once no closing bracket is left, the complete scan only meets tags
    without a closing bracket. *)
Lemma scan_all_no_bracket (i : nat) :
  indexOf content "]" i = None →
  ∀ b j line stack, i ≤ j →
    fst (scan_all b content j line stack []) = stack
    ∧ Forall (fun e => is_missing_bracket e = true)
        (snd (scan_all b content j line stack [])).
Proof.
  intros Hi. induction b as [|b IH]; intros j line stack Hij; cbn [scan_all].
  { by split. }
  destruct (content !! j) as [char|]; [|by split].
  set (line' := if Ascii.eqb char "010" then S line else line).
  assert (indexOf content "]" j = None) as Hj by by eapply indexOf_None_later.
  assert (i ≤ S j) as Hij' by lia.
  destruct (startsWith content "[!" j).
  { pose proof (parseTag_cases j true line') as Hp.
    destruct (parseTag content j true line') as [e|e endIndex|name endIndex].
    - rewrite scan_all_app. cbn [fst snd].
      destruct (IH (S j) line' stack Hij') as [-> Hall]. split; [done|].
      constructor; [by destruct Hp|done].
    - destruct Hp as [Hp _]. by rewrite Hj in Hp.
    - by rewrite Hj in Hp. }
  destruct (startsWith content "[~" j); [|by apply IH].
  pose proof (parseTag_cases j false line') as Hp.
  destruct (parseTag content j false line') as [e|e endIndex|name endIndex].
  - rewrite scan_all_app. cbn [fst snd].
    destruct (IH (S j) line' stack Hij') as [-> Hall]. split; [done|].
    constructor; [by destruct Hp|done].
  - destruct Hp as [Hp _]. by rewrite Hj in Hp.
  - by rewrite Hj in Hp.
Qed.

Lemma filter_unclosed_only (stack : list (str * nat)) :
  filter (fun e' => is_missing_bracket e' = false) (unclosed stack) = unclosed stack.
Proof.
  induction stack as [|t stack IH]; [done|].
  cbn [unclosed map]. rewrite filter_cons_True by done. f_equal. apply IH.
Qed.

Lemma filter_unclosed (es : list tag_error) (stack : list (str * nat)) :
  Forall (fun e => is_missing_bracket e = true) es →
  filter (fun e' => is_missing_bracket e' = false) (es ++ unclosed stack)
  = unclosed stack.
Proof.
  intros Hes. induction Hes as [|e es He _ IH]; cbn [app].
  - apply filter_unclosed_only.
  - rewrite filter_cons_False; [done|]. by rewrite He.
Qed.

Lemma keep_first_missing_app (es rest : list tag_error) :
  Forall (fun e => is_missing_bracket e = false) es →
  keep_first_missing (es ++ rest) = es ++ keep_first_missing rest.
Proof.
  induction 1 as [|e es He _ IH]; [done|].
  cbn [app keep_first_missing]. rewrite He. by f_equal.
Qed.

Lemma keep_first_missing_unclosed (stack : list (str * nat)) :
  keep_first_missing (unclosed stack) = unclosed stack.
Proof. induction stack as [|t stack IH]; [done|]. cbn. by f_equal. Qed.

Lemma filter_present_idemp (l : list tag_error) :
  filter (fun e => is_missing_bracket e = false)
    (filter (fun e => is_missing_bracket e = false) l)
  = filter (fun e => is_missing_bracket e = false) l.
Proof.
  induction l as [|e l IH]; [done|].
  destruct (is_missing_bracket e) eqn:He.
  - rewrite (filter_cons_False _ e l) by (by rewrite He). done.
  - rewrite (filter_cons_True _ e l) by done.
    rewrite (filter_cons_True _ e _) by done. by rewrite IH.
Qed.

Lemma filter_keep_first_missing (l : list tag_error) :
  filter (fun e => is_missing_bracket e = false) (keep_first_missing l)
  = filter (fun e => is_missing_bracket e = false) l.
Proof.
  induction l as [|e l IH]; [done|]. cbn [keep_first_missing].
  destruct (is_missing_bracket e) eqn:He.
  - rewrite (filter_cons_False _ e _) by (by rewrite He).
    rewrite (filter_cons_False _ e l) by (by rewrite He).
    apply filter_present_idemp.
  - rewrite (filter_cons_True _ e _) by done.
    rewrite (filter_cons_True _ e l) by done. by rewrite IH.
Qed.

Lemma scan_keeps_first_missing (b : nat) :
  ∀ i line stack,
    snd (scan b content i line stack []) ++ unclosed (fst (scan b content i line stack []))
    = keep_first_missing
        (snd (scan_all b content i line stack [])
         ++ unclosed (fst (scan_all b content i line stack []))).
Proof.
  induction b as [|b IH]; intros i line stack; cbn [scan scan_all fst snd].
  { cbn [app]. by rewrite keep_first_missing_unclosed. }
  destruct (content !! i) as [char|];
    [|cbn [fst snd app]; by rewrite keep_first_missing_unclosed].
  set (line' := if Ascii.eqb char "010" then S line else line).
  destruct (startsWith content "[!" i).
  { pose proof (parseTag_cases i true line') as Hp.
    destruct (parseTag content i true line') as [e|e endIndex|name endIndex].
    - destruct Hp as [Hi He]. rewrite scan_all_app. cbn [fst snd app].
      destruct (scan_all_no_bracket i Hi b (S i) line' stack ltac:(lia)) as [-> Hall].
      cbn [keep_first_missing]. rewrite He. f_equal. by rewrite filter_unclosed.
    - destruct Hp as [_ He]. rewrite scan_app, scan_all_app. cbn [fst snd app].
      cbn [keep_first_missing]. rewrite He. f_equal. apply IH.
    - apply IH. }
  destruct (startsWith content "[~" i); [|by apply IH].
  pose proof (parseTag_cases i false line') as Hp.
  destruct (parseTag content i false line') as [e|e endIndex|name endIndex].
  - destruct Hp as [Hi He]. rewrite scan_all_app. cbn [fst snd app].
    destruct (scan_all_no_bracket i Hi b (S i) line' stack ltac:(lia)) as [-> Hall].
    cbn [keep_first_missing]. rewrite He. f_equal. by rewrite filter_unclosed.
  - destruct Hp as [_ He]. rewrite scan_app, scan_all_app. cbn [fst snd app].
    cbn [keep_first_missing]. rewrite He. f_equal. apply IH.
  - pose proof (close_tag_errors line' name stack) as Hes.
    destruct (close_tag line' name stack) as [stack' es]. cbn [snd] in Hes.
    rewrite scan_app, scan_all_app. cbn [fst snd app].
    rewrite <- !app_assoc, keep_first_missing_app by done. f_equal. apply IH.
Qed.

(** The budget of the scan is never what stops it. *)
Lemma scan_budget (b : nat) :
  ∀ b' i line stack errors,
    length content - i ≤ b → length content - i ≤ b' →
    scan b content i line stack errors = scan b' content i line stack errors.
Proof.
  induction b as [|b IH]; intros b' i line stack errors Hb Hb'.
  - assert (content !! i = None) as Hnone by (apply lookup_ge_None; lia).
    destruct b'; cbn [scan]; by rewrite ?Hnone.
  - cbn [scan]. destruct (content !! i) as [char|] eqn:Hc.
    2: { destruct b'; cbn [scan]; by rewrite ?Hc. }
    apply lookup_lt_Some in Hc as Hlt.
    destruct b' as [|b']; [lia|]. cbn [scan]. rewrite Hc.
    set (line' := if Ascii.eqb char "010" then S line else line).
    destruct (startsWith content "[!" i).
    { pose proof (parseTag_cases i true line') as Hp.
      destruct (parseTag content i true line') as [e|e endIndex|name endIndex].
      - done.
      - destruct Hp as [Hp%indexOf_ge _]. apply IH; lia.
      - apply indexOf_ge in Hp. apply IH; lia. }
    destruct (startsWith content "[~" i); [|apply IH; lia].
    pose proof (parseTag_cases i false line') as Hp.
    destruct (parseTag content i false line') as [e|e endIndex|name endIndex].
    + done.
    + destruct Hp as [Hp%indexOf_ge _]. apply IH; lia.
    + apply indexOf_ge in Hp. destruct (close_tag line' name stack). apply IH; lia.
Qed.

(** C8, as the code has it.  The validator is total.  Its errors are
    those of the complete scan of the input (the scan that records a tag
    without closing bracket and goes on), except that after the first
    tag without a closing bracket no further error of that kind is
    recorded: the scan stops there.  Every mismatch, unmatched closing
    tag, unclosed block and malformed tag of the complete scan is
    reported, in the same order, also when it comes after a malformed
    tag. *)
Theorem structure_errors_keep_first_missing :
  structure_errors content = keep_first_missing (all_structure_errors content)
  ∧ filter (fun e => is_missing_bracket e = false) (structure_errors content)
    = filter (fun e => is_missing_bracket e = false) (all_structure_errors content)
  ∧ _validateTemplateStructure content
    = map message (keep_first_missing (all_structure_errors content)).
Proof.
  assert (structure_errors content = keep_first_missing (all_structure_errors content))
    as Heq.
  { unfold structure_errors, all_structure_errors.
    pose proof (scan_keeps_first_missing (length content) 0 1 []) as Hs.
    destruct (scan (length content) content 0 1 [] []) as [stack errors].
    destruct (scan_all (length content) content 0 1 [] []) as [stack' errors'].
    exact Hs. }
  split; [done|]. split; [|unfold _validateTemplateStructure; by rewrite Heq].
  rewrite Heq. apply filter_keep_first_missing.
Qed.

End ValidatorFacts.

(** C8 as stated does not hold: after a tag without a closing bracket
    the scan is abandoned, and the second such tag of this input is not
    reported. *)
Lemma validateStructure_stops_counterexample :
  Validator.structure_errors "[!a[!b" = [Validator.MissingBracket 1 true]
  ∧ Validator.all_structure_errors "[!a[!b"
    = [Validator.MissingBracket 1 true; Validator.MissingBracket 1 true]
  ∧ ¬ (∀ content : str,
         Validator._validateTemplateStructure content
         = map Validator.message (Validator.all_structure_errors content)).
Proof.
  split; [by vm_compute|]. split; [by vm_compute|].
  intros Hall. specialize (Hall (list_ascii_of_string "[!a[!b")).
  vm_compute in Hall. discriminate Hall.
Qed.

(** ** The include resolver and the registry *)

Section IncludesFacts.

Variable CWD : str.
Variable files : gmap str str.

Lemma records_reads_refl (st : state) : records_reads CWD files st st.
Proof. unfold records_reads. split_and!; try done. intros p Hp. by left. Qed.

Lemma records_reads_trans (st1 st2 st3 : state) :
  records_reads CWD files st1 st2 → records_reads CWD files st2 st3 →
  records_reads CWD files st1 st3.
Proof.
  intros (Hi1 & Hm1 & Hoff1 & Hother1 & Hsub1 & Hnew1)
         (Hi2 & Hm2 & Hoff2 & Hother2 & Hsub2 & Hnew2).
  unfold records_reads. split_and!.
  - congruence.
  - congruence.
  - intros Hoff. rewrite Hoff2, Hoff1; [done..|congruence].
  - intros a Ha. rewrite Hother2, Hother1; [done..|congruence].
  - set_solver.
  - intros p Hp. destruct (Hnew2 p Hp) as [Hp2|?]; [|by right]. by apply Hnew1.
Qed.

Lemma registry_record_include (p : str) (st : state) :
  registry (record_include p st) = {[ p ]} ∪ registry st.
Proof. unfold registry, record_include. cbn. by rewrite lookup_insert_eq. Qed.

Lemma records_reads_record (includePath : str) (st : state) :
  isCompilationMode st = true → is_Some (files !! includePath) →
  records_reads CWD files st
    (record_include (Path.relative (templatesAbsDir CWD) includePath) st).
Proof.
  intros Hmode Hfile. unfold records_reads. split_and!; try done.
  - intros Hoff. congruence.
  - intros a Ha. cbn. by rewrite lookup_insert_ne.
  - rewrite registry_record_include. set_solver.
  - intros p. rewrite registry_record_include. intros [->%elem_of_singleton|Hp]%elem_of_union.
    + right. by exists includePath.
    + by left.
Qed.

Lemma include_loop_records_reads
    (self : str → str → gset str → state → option (str * state * list warning)) :
  (∀ content currentFile stack st r st' log,
     self content currentFile stack st = Some (r, st', log) →
     records_reads CWD files st st') →
  ∀ sortedMatches content currentFile stack parts lastIndex st log parts' lastIndex' st' log',
    include_loop CWD files self content currentFile stack sortedMatches parts lastIndex st log
    = Some (parts', lastIndex', st', log') →
    records_reads CWD files st st'.
Proof.
  intros Hself sortedMatches.
  induction sortedMatches as [|[fullMatch fileName index] rest IH];
    intros content currentFile stack parts lastIndex st log parts' lastIndex' st' log';
    cbn [include_loop].
  { intros [= <- <- <- <-]. apply records_reads_refl. }
  destruct (negb (_isSafePath CWD _ _)); [by apply IH|].
  destruct (bool_decide _); [by apply IH|].
  destruct (str_eqb _ _); [by apply IH|].
  destruct (files !! resolve_include CWD currentFile fileName) as [includedContent|] eqn:Hf;
    [|by apply IH].
  destruct (self includedContent _ _ _) as [[[c1 st1] log1]|] eqn:Hs; [|done].
  intros Hloop. apply IH in Hloop. apply Hself in Hs.
  eapply records_reads_trans; [|exact Hloop].
  eapply records_reads_trans; [|exact Hs].
  destruct (isCompilationMode st) eqn:Hmode; [|apply records_reads_refl].
  apply records_reads_record; [done|]. by rewrite Hf.
Qed.

Lemma processIncludes_records_reads (depth : nat) :
  ∀ content currentFile stack st r st' log,
    processIncludes CWD files depth content currentFile stack st = Some (r, st', log) →
    records_reads CWD files st st'.
Proof.
  induction depth as [|d IH]; intros content currentFile stack st r st' log; [done|].
  cbn [processIncludes].
  destruct (length (include_matches content) =? 0).
  { intros [= <- <- <-]. apply records_reads_refl. }
  destruct (include_loop CWD files _ _ _ _ _ _ _ _ _) as [[[[parts lastIndex] st1] log1]|] eqn:Hl;
    [|done].
  intros [= <- <- <-]. eapply include_loop_records_reads; [|exact Hl]. exact IH.
Qed.

(** The nesting of includes is bounded by the number of files that can
    still be read: with that much depth the call returns. *)
Lemma include_loop_returns
    (self : str → str → gset str → state → option (str * state * list warning))
    (stack : gset str) :
  (∀ content currentFile includePath st,
     is_Some (files !! includePath) → includePath ∉ stack →
     is_Some (self content currentFile (stack ∪ {[ includePath ]}) st)) →
  ∀ sortedMatches content currentFile parts lastIndex st log,
    is_Some (include_loop CWD files self content currentFile stack sortedMatches
               parts lastIndex st log).
Proof.
  intros Hself sortedMatches.
  induction sortedMatches as [|[fullMatch fileName index] rest IH];
    intros content currentFile parts lastIndex st log; cbn [include_loop]; [done|].
  destruct (negb (_isSafePath CWD _ _)); [by apply IH|].
  destruct (bool_decide _) eqn:Hin; [by apply IH|].
  apply bool_decide_eq_false in Hin.
  destruct (str_eqb _ _); [by apply IH|].
  destruct (files !! resolve_include CWD currentFile fileName) as [includedContent|] eqn:Hf;
    [|by apply IH].
  edestruct (Hself includedContent
               (Path.relative (templatesAbsDir CWD) (resolve_include CWD currentFile fileName))
               (resolve_include CWD currentFile fileName)
               (if isCompilationMode st
                then record_include
                       (Path.relative (templatesAbsDir CWD)
                          (resolve_include CWD currentFile fileName)) st
                else st)) as [[[c1 st1] log1] ->]; [by rewrite Hf|done|].
  apply IH.
Qed.

Lemma processIncludes_returns (depth : nat) :
  ∀ content currentFile stack st,
    size (dom files ∖ stack) < depth →
    is_Some (processIncludes CWD files depth content currentFile stack st).
Proof.
  induction depth as [|d IH]; intros content currentFile stack st Hsize; [lia|].
  cbn [processIncludes].
  destruct (length (include_matches content) =? 0); [done|].
  edestruct (include_loop_returns (processIncludes CWD files d) stack)
    as [[[[parts lastIndex] st1] log1] ->]; [|done].
  intros c cur includePath st0 Hfile Hnotin. apply IH.
  assert (dom files ∖ (stack ∪ {[includePath]}) ⊂ dom files ∖ stack) as Hsub.
  { apply elem_of_dom in Hfile. split.
    - intros x [Hx Hnx]%elem_of_difference. apply elem_of_difference. split; [done|].
      intros Hxs. apply Hnx, elem_of_union. by left.
    - intros Hsub. assert (includePath ∈ dom files ∖ stack) as Hin
        by by apply elem_of_difference.
      apply Hsub, elem_of_difference in Hin as [_ Hin]. apply Hin, elem_of_union.
      right. by apply elem_of_singleton. }
  apply subset_size in Hsub. lia.
Qed.

(** C10.  [getIncludedFiles] returns a new [Set] with the content of the
    registry and leaves the registry as it is; whatever is then done to
    the returned set, the registry keeps its content and a later
    [getIncludedFiles] returns that content again.  The registry is
    emptied by [setCompilationMode(true)], left alone by
    [setCompilationMode(false)], and a call of [processIncludes] only
    adds to it, and only in compilation mode, paths of files it read. *)
Theorem getIncludedFiles_is_a_copy (st : state) :
  well_formed st →
  let (address, st1) := getIncludedFiles st in
  address ≠ includedFiles st
  ∧ sets st !! address = None
  ∧ sets st1 !! address = Some (registry st)
  ∧ registry st1 = registry st
  ∧ (∀ ops : list set_op,
       let st2 := fold_left (fun s op => apply_set_op address op s) ops st1 in
       registry st2 = registry st
       ∧ sets (snd (getIncludedFiles st2)) !! fst (getIncludedFiles st2)
         = Some (registry st))
  ∧ registry (setCompilationMode false st) = registry st
  ∧ registry (setCompilationMode true st) = ∅
  ∧ (∀ depth content currentFile stack r st' log,
       processIncludes CWD files depth content currentFile stack st = Some (r, st', log) →
       (isCompilationMode st = false → registry st' = registry st)
       ∧ registry st ⊆ registry st'
       ∧ ∀ p, p ∈ registry st' → p ∉ registry st →
           ∃ includePath, is_Some (files !! includePath)
                          ∧ p = Path.relative (templatesAbsDir CWD) includePath).
Proof.
  intros [s0 Hs0]. unfold getIncludedFiles.
  set (address := fresh (dom (sets st))).
  assert (address ∉ dom (sets st)) as Hfresh by apply is_fresh.
  assert (sets st !! address = None) as Hnone by by apply not_elem_of_dom.
  assert (address ≠ includedFiles st) as Hne by congruence.
  split; [done|]. split; [done|]. split; [cbn; by rewrite lookup_insert_eq|].
  assert (∀ st1, includedFiles st1 = includedFiles st →
            sets st1 !! includedFiles st = Some s0 → registry st1 = registry st) as Hreg.
  { intros st1 Hi Hs. unfold registry. by rewrite Hi, Hs, Hs0. }
  split; [apply Hreg; [done|cbn; by rewrite lookup_insert_ne]|].
  split.
  { intros ops.
    assert (∀ st1, includedFiles st1 = includedFiles st →
              sets st1 !! includedFiles st = Some s0 →
              includedFiles (fold_left (fun s op => apply_set_op address op s) ops st1)
              = includedFiles st
              ∧ sets (fold_left (fun s op => apply_set_op address op s) ops st1)
                  !! includedFiles st = Some s0) as Hops.
    { induction ops as [|op ops IH]; intros st1 Hi Hs; [done|]. cbn [fold_left].
      apply IH; [done|]. unfold apply_set_op; cbn.
      destruct (sets st1 !! address); [|done]. by rewrite lookup_insert_ne. }
    destruct (Hops {| sets := <[address:=registry st]> (sets st);
                      includedFiles := includedFiles st;
                      isCompilationMode := isCompilationMode st |})
      as [Hi Hs]; [done|cbn; by rewrite lookup_insert_ne|].
    cbv zeta. split; [by apply Hreg|].
    cbn [getIncludedFiles fst snd sets]. rewrite lookup_insert_eq. f_equal.
    by apply Hreg. }
  split; [done|]. split.
  { unfold registry, setCompilationMode. cbn. by rewrite lookup_insert_eq. }
  intros depth content currentFile stack r st' log Hp.
  apply processIncludes_records_reads in Hp
    as (Hi & Hm & Hoff & Hother & Hsub & Hnew).
  split; [|split; [done|]].
  - intros Hmode. unfold registry. by rewrite Hi, Hoff.
  - intros p Hp Hnp. by destruct (Hnew p Hp).
Qed.

End IncludesFacts.

(** ** The sandbox *)

Section SandboxFacts.

Context (H : Host).

(** The names withdrawn from the sandbox are bound to [undefined],
    whatever the context holds. *)
Lemma sandbox_process (variables : list (str * value (num H))) :
  JsObject.own (sandbox H variables) "process" = Some VUndefined.
Proof.
  unfold sandbox, JsObject.spread. cbn [fold_left fst snd].
  do 7 (rewrite own_set_other by by vm_compute).
  apply own_set_same.
Qed.

Lemma sandbox_require (variables : list (str * value (num H))) :
  JsObject.own (sandbox H variables) "require" = Some VUndefined.
Proof.
  unfold sandbox, JsObject.spread. cbn [fold_left fst snd].
  apply own_set_same.
Qed.

(** C6, as the code has it.  In the sandbox [process] and [require] are
    bound to [undefined] for every variable context.  So on a host that
    evaluates a bare name to what the sandbox binds it to, the
    expressions [process] and [require] evaluate to [undefined], not to
    [null], whatever the context holds under those names.  In general
    [_evaluateExpression] returns what the evaluation returns, and
    [null] when the evaluation throws an error (syntax error, runtime
    error, time-out). *)
Theorem evaluateExpression_catches
    (variables : list (str * value (num H))) (expr : str) :
  JsObject.own (sandbox H variables) "process" = Some VUndefined
  ∧ JsObject.own (sandbox H variables) "require" = Some VUndefined
  ∧ (∀ name, name ∈ [list_ascii_of_string "process"; list_ascii_of_string "require"] →
       (∀ v, JsObject.own (sandbox H variables) name = Some v →
             runInContext H ("(" ++ name ++ ")") (sandbox H variables) = Returns v) →
       _evaluateExpression H name variables = VUndefined)
  ∧ (∀ msg, runInContext H ("(" ++ expr ++ ")") (sandbox H variables) = Throws msg →
       _evaluateExpression H expr variables = VNull)
  ∧ (∀ v, runInContext H ("(" ++ expr ++ ")") (sandbox H variables) = Returns v →
       _evaluateExpression H expr variables = v).
Proof.
  split; [apply sandbox_process|]. split; [apply sandbox_require|]. split.
  - intros name Hname Hlookup. unfold _evaluateExpression.
    apply elem_of_cons in Hname as [->|Hname].
    + by rewrite (Hlookup _ (sandbox_process variables)).
    + apply elem_of_cons in Hname as [->|Hname]; [|by apply elem_of_nil in Hname].
      by rewrite (Hlookup _ (sandbox_require variables)).
  - unfold _evaluateExpression. split; intros ? ->; done.
Qed.

End SandboxFacts.

(** On the model host, with a context that binds [process] itself: the
    bare name gives [undefined], and the call of [require], a
    [TypeError], gives [null]. *)
Lemma evaluateExpression_catches_witness :
  (∀ v, JsObject.own
          (sandbox Node.host [(list_ascii_of_string "process", VStr "mine")]) "process"
        = Some v →
        runInContext Node.host ("(" ++ list_ascii_of_string "process" ++ ")")
          (sandbox Node.host [(list_ascii_of_string "process", VStr "mine")])
        = Returns v)
  ∧ _evaluateExpression Node.host "process"
      [(list_ascii_of_string "process", VStr "mine")] = VUndefined
  ∧ runInContext Node.host
      ("(" ++ list_ascii_of_string "require('fs')" ++ ")")
      (sandbox Node.host [(list_ascii_of_string "process", VStr "mine")])
    = Throws "TypeError: not a function"
  ∧ _evaluateExpression Node.host "require('fs')"
      [(list_ascii_of_string "process", VStr "mine")] = VNull.
Proof.
  assert (∀ v, JsObject.own
                 (sandbox Node.host [(list_ascii_of_string "process", VStr "mine")])
                 "process" = Some v →
               runInContext Node.host ("(" ++ list_ascii_of_string "process" ++ ")")
                 (sandbox Node.host [(list_ascii_of_string "process", VStr "mine")])
               = Returns v) as Hlookup.
  { intros v Hv. vm_compute in Hv. injection Hv as <-. vm_compute. reflexivity. }
  assert (runInContext Node.host
            ("(" ++ list_ascii_of_string "require('fs')" ++ ")")
            (sandbox Node.host [(list_ascii_of_string "process", VStr "mine")])
          = Throws "TypeError: not a function") as Hthrows by (vm_compute; reflexivity).
  pose proof (evaluateExpression_catches Node.host
                [(list_ascii_of_string "process", VStr "mine")] "require('fs')")
    as (_ & _ & Hname & Hcatch & _).
  split; [exact Hlookup|].
  split; [exact (Hname (list_ascii_of_string "process") (list_elem_of_here _ _) Hlookup)|].
  split; [exact Hthrows|].
  exact (Hcatch _ Hthrows).
Defined.

Lemma eval_bound_name (sb : Node.obj) (x : str) (v : Node.val) :
  str_eqb x "undefined" = false → str_eqb x "null" = false →
  str_eqb x "true" = false → str_eqb x "false" = false →
  JsObject.own sb x = Some v →
  Node.eval sb (Node.EId x) = Returns v.
Proof. intros H1 H2 H3 H4 Hv. cbn [Node.eval]. by rewrite H1, H2, H3, H4, Hv. Qed.

Lemma eval_typeof (sb : Node.obj) (a : Node.expr) (v : Node.val) :
  Node.eval sb a = Returns v →
  Node.eval sb (Node.ETypeof a) = Returns (VStr (Node.typeof v)).
Proof. intros E. cbn [Node.eval]. by rewrite E. Qed.

Lemma eval_member_undefined (sb : Node.obj) (a : Node.expr) (name : str) :
  Node.eval sb a = Returns VUndefined →
  Node.eval sb (Node.EMember a name) = Throws "TypeError: cannot read properties".
Proof. intros E. cbn [Node.eval]. by rewrite E. Qed.

Lemma eval_call_throws (sb : Node.obj) (f : Node.expr) (args : list Node.expr) (m : str) :
  Node.eval sb f = Throws m → Node.eval sb (Node.ECall f args) = Throws m.
Proof. intros E. cbn [Node.eval]. by rewrite E. Qed.

Lemma eval_call_undefined (sb : Node.obj) (f : Node.expr) (args : list Node.expr) :
  Node.eval sb f = Returns VUndefined →
  Node.eval sb (Node.ECall f args) = Throws "TypeError: not a function".
Proof. intros E. cbn [Node.eval]. by rewrite E. Qed.

Lemma model_host_process (variables : Node.obj) :
  _evaluateExpression Node.host "process" variables = VUndefined
  ∧ _evaluateExpression Node.host "typeof process" variables = VStr "undefined"
  ∧ _evaluateExpression Node.host "process.exit()" variables = VNull
  ∧ _evaluateExpression Node.host "require('fs')" variables = VNull.
Proof.
  pose proof (eval_bound_name (sandbox Node.host variables) "process" VUndefined
                eq_refl eq_refl eq_refl eq_refl (sandbox_process Node.host variables))
    as Hp.
  pose proof (eval_bound_name (sandbox Node.host variables) "require" VUndefined
                eq_refl eq_refl eq_refl eq_refl (sandbox_require Node.host variables))
    as Hr.
  unfold _evaluateExpression. cbn [runInContext Node.host]. unfold Node.run_code.
  split_and!.
  - assert (Node.parse ("(" ++ list_ascii_of_string "process" ++ ")")
            = Some (Node.EId "process")) as -> by (by vm_compute).
    by rewrite Hp.
  - assert (Node.parse ("(" ++ list_ascii_of_string "typeof process" ++ ")")
            = Some (Node.ETypeof (Node.EId "process"))) as -> by (by vm_compute).
    by rewrite (eval_typeof _ _ _ Hp).
  - assert (Node.parse ("(" ++ list_ascii_of_string "process.exit()" ++ ")")
            = Some (Node.ECall (Node.EMember (Node.EId "process") "exit") []))
      as -> by (by vm_compute).
    by rewrite (eval_call_throws _ _ _ _ (eval_member_undefined _ _ _ Hp)).
  - assert (Node.parse ("(" ++ list_ascii_of_string "require('fs')" ++ ")")
            = Some (Node.ECall (Node.EId "require") [Node.EStr "fs"]))
      as -> by (by vm_compute).
    by rewrite (eval_call_undefined _ _ _ Hr).
Qed.

(** C6 as stated does not hold: the expression [process] evaluates to
    [undefined], not to [null], and [typeof process] to a string. *)
Lemma evaluateExpression_process_counterexample :
  _evaluateExpression Node.host "process" [] = VUndefined
  ∧ _evaluateExpression Node.host "typeof process" [] = VStr "undefined"
  ∧ ¬ (∀ (expr : str) (variables : Node.obj),
         includes expr "process" = true →
         _evaluateExpression Node.host expr variables = VNull).
Proof.
  split; [by vm_compute|]. split; [by vm_compute|].
  intros Hall.
  specialize (Hall (list_ascii_of_string "process") [] ltac:(by vm_compute)).
  vm_compute in Hall. discriminate Hall.
Qed.

(** ** Conditionals: the [else if] branches *)

Section ElseIf.

Context (H : Host).
Variable userFeatures_variables : list (str * value (num H)).
Variable userFeatures_functions :
  str → option (list (value (num H)) → outcome (value (num H))).

(** The match of the conditional pattern on the example, and what the
    [else if] pattern finds in its third group: nothing, as the group
    ends where the lookahead of that pattern wants a tag. *)
Lemma else_if_template_match :
  run IfRegex Demo.else_if_template
  = Some {| m_text := Demo.else_if_template; m_rest := [];
            m_caps := [ (4, list_ascii_of_string "C");
                        (3, list_ascii_of_string "{{else if 2>1}}B");
                        (2, list_ascii_of_string "A");
                        (1, list_ascii_of_string "1>2") ] |}
  ∧ matchAll elseIfRegex "{{else if 2>1}}B" = [].
Proof. split; by vm_compute. Qed.

Lemma conditionals_loop_step (n : nat) (variables : list (str * value (num H)))
    (result : str) :
  conditionals_loop H (S n) variables result
  = (let (result', hasChanges) :=
       replace_st IfRegex (conditional H variables) result false in
     if hasChanges then conditionals_loop H n variables result' else result').
Proof. reflexivity. Qed.

Lemma replace_fold_skip {St : Type} (r : re) (f : str → found → St → str * St) :
  run r [] = None →
  ∀ (s before : str) (st : St), replace_fold r f (length s) before s st = ([], st).
Proof.
  intros Hr. induction s as [|x s IH]; intros before st.
  - cbn [length replace_fold]. by rewrite Hr.
  - cbn [length replace_fold]. apply IH.
Qed.

(** A text that the pattern matches as a whole is replaced by what the
    callback returns. *)
Lemma replace_st_whole {St : Type} (r : re) (f : found → St → str * St)
    (x : ascii) (s : str) (m : found) (st : St) :
  run r [] = None →
  run r (x :: s) = Some m → length (m_text m) = S (length s) →
  replace_st r f (x :: s) st = (fst (f m st), snd (f m st)).
Proof.
  intros Hr Hm Hlen. unfold replace_st. cbn [replace_fold]. rewrite Hm.
  destruct (f m st) as [out st1]. rewrite Hlen. cbn [Nat.sub].
  rewrite Nat.sub_0_r. rewrite (replace_fold_skip r _ Hr). cbn [Nat.eqb fst snd].
  by rewrite app_nil_r.
Qed.

Lemma conditional_on_else_if_template (variables : list (str * value (num H))) :
  truthy H (_evaluateExpression H "1>2" variables) = false →
  _processConditionals H Demo.else_if_template variables = "C".
Proof.
  intros Hfalse. unfold _processConditionals. rewrite conditionals_loop_step.
  destruct else_if_template_match as [Hm Hall].
  assert (Demo.else_if_template = "{"%char :: tail Demo.else_if_template) as Hcons
    by (by vm_compute).
  rewrite Hcons at 1. rewrite Hcons in Hm at 1.
  assert (run IfRegex [] = None) as Hend by (by vm_compute).
  rewrite (replace_st_whole _ _ _ _ _ _ Hend Hm) by (by vm_compute).
  unfold conditional, group_, group. cbn [m_caps].
  assert (∀ c : caps,
            c = [ (4, list_ascii_of_string "C");
                  (3, list_ascii_of_string "{{else if 2>1}}B");
                  (2, list_ascii_of_string "A");
                  (1, list_ascii_of_string "1>2") ] →
            default [] (cap_get c 1) = list_ascii_of_string "1>2"
            ∧ default [] (cap_get c 2) = list_ascii_of_string "A"
            ∧ default [] (cap_get c 3) = list_ascii_of_string "{{else if 2>1}}B"
            ∧ default [] (cap_get c 4) = list_ascii_of_string "C") as Hcaps.
  { intros c ->. by vm_compute. }
  destruct (Hcaps _ eq_refl) as (-> & -> & -> & ->).
  rewrite Hfalse, Hall. cbn [first_else_if].
  assert ((length (list_ascii_of_string "{{else if 2>1}}B") =? 0) = false) as ->
    by (by vm_compute).
  cbn [fst snd].
  assert (includes (list_ascii_of_string "A" ++ list_ascii_of_string "{{else if 2>1}}B"
                    ++ list_ascii_of_string "C") "{{if" = false) as ->
    by (by vm_compute).
  done.
Qed.

(** C1 on the code.  In every variable context in which [1>2] evaluates
    to a false value, the conditional phase turns the example into [C]:
    the [else if] branch is not taken although its condition holds, and
    [processVariables] returns [C] as well. *)
Theorem else_if_branch_is_not_taken
    (depth : nat) (requestVariables : list (str * value (num H))) :
  truthy H (_evaluateExpression H "1>2"
              (JsObject.spread userFeatures_variables requestVariables)) = false →
  _processConditionals H Demo.else_if_template
    (JsObject.spread userFeatures_variables requestVariables) = "C"
  ∧ processVariables H userFeatures_variables userFeatures_functions (S depth)
      Demo.else_if_template requestVariables = Some (list_ascii_of_string "C").
Proof.
  intros Hfalse. split; [by apply conditional_on_else_if_template|].
  cbn [processVariables]. unfold _processIteratively. cbn [iterate].
  assert (run_phases H
            (processingPhases H userFeatures_functions
               (processVariables H userFeatures_variables userFeatures_functions depth))
            Demo.else_if_template
            (JsObject.spread userFeatures_variables requestVariables)
          = Some (list_ascii_of_string "C")) as ->.
  { unfold run_phases, processingPhases. cbn [fold_left].
    assert (∀ pv v, _processLoops H pv Demo.else_if_template v
                    = Some Demo.else_if_template) as ->.
    { intros pv v. unfold _processLoops.
      assert (∀ f, replace_try forKeyValueRegex f 0 Demo.else_if_template
                   = Some Demo.else_if_template) as -> by (intros f; by vm_compute).
      intros. by vm_compute. }
    rewrite conditional_on_else_if_template by done.
    assert (plain "C") as Hplain by (by vm_compute).
    rewrite (_processUserFunctions_plain H userFeatures_functions) by done.
    by rewrite _processVariablesAndExpressions_plain. }
  by vm_compute.
Qed.

End ElseIf.

Lemma else_if_branch_is_not_taken_witness :
  truthy Node.host (_evaluateExpression Node.host "1>2" (JsObject.spread [] []))
  = false
  ∧ Demo.render 1 Demo.else_if_template [] = Some (list_ascii_of_string "C").
Proof.
  assert (truthy Node.host (_evaluateExpression Node.host "1>2" (JsObject.spread [] []))
          = false) as Hfalse by (by vm_compute).
  split; [exact Hfalse|].
  pose proof (else_if_branch_is_not_taken Node.host [] Demo.no_functions 0 [] Hfalse)
    as [_ Hrender].
  exact Hrender.
Defined.

(** ** Loops: [break] and [continue] *)

Section LoopFacts.

Context (H : Host).

Lemma loop_iterations_kept
    (pv : str → list (str * value (num H)) → option str)
    (variables : list (str * value (num H))) (primaryVar : str) (second : option str)
    (loopContent : str) (total : nat) :
  ∀ entries outs i loopResult,
    Forall2 (fun (e : nat * (value (num H) * value (num H))) out =>
               pv loopContent
                 (loopVariables H variables primaryVar second (fst e) total
                    (fst (snd e)) (snd (snd e))) = Some out)
      (zip (List.seq i (length entries)) entries) outs →
    loop_iterations H pv variables primaryVar second loopContent total i entries loopResult
    = Some (loopResult ++ kept outs).
Proof.
  induction entries as [|[key value] entries IH]; intros outs i loopResult Hall.
  - apply Forall2_nil_inv_l in Hall as ->. cbn. by rewrite app_nil_r.
  - cbn [length List.seq zip zip_with] in Hall.
    apply Forall2_cons_inv_l in Hall as (out & outs' & Hout & Hrest & ->).
    cbn [fst snd] in Hout. cbn [loop_iterations kept]. rewrite Hout.
    destruct (includes out "{{break}}"); [by rewrite app_nil_r|].
    destruct (includes out "{{continue}}"); [by apply IH|].
    rewrite (IH _ _ _ Hrest). by rewrite app_assoc.
Qed.

Lemma kept_before_break (pre : list str) (b : str) (post : list str) :
  Forall (fun o => includes o "{{break}}" = false) pre →
  includes b "{{break}}" = true →
  kept (pre ++ b :: post)
  = concat (filter (fun o => includes o "{{continue}}" = false) pre).
Proof.
  intros Hpre Hb. induction Hpre as [|o pre Ho _ IH]; cbn [app kept].
  - by rewrite Hb.
  - rewrite Ho. destruct (includes o "{{continue}}") eqn:Hc.
    + rewrite filter_cons_False by (by rewrite Hc). done.
    + rewrite filter_cons_True by done. cbn [concat]. by rewrite IH.
Qed.

Lemma kept_without_break (outs : list str) :
  Forall (fun o => includes o "{{break}}" = false) outs →
  kept outs = concat (filter (fun o => includes o "{{continue}}" = false) outs).
Proof.
  induction 1 as [|o outs Ho _ IH]; [done|]. cbn [kept]. rewrite Ho.
  destruct (includes o "{{continue}}") eqn:Hc.
  - rewrite filter_cons_False by (by rewrite Hc). done.
  - rewrite filter_cons_True by done. cbn [concat]. by rewrite IH.
Qed.

(** C2 on the code.  Let [outs] be the processed outputs of the
    iterations of a loop.  If iteration [i] is the first whose output
    contains the break marker, the loop stops there and renders the
    outputs of the iterations before [i] that contain no continue
    marker: the output of the breaking iteration, from which the loop
    has just removed the markers, is left before it is added to the
    result, and is lost.  Without a break, the loop renders the outputs
    that contain no continue marker: an iteration with a continue
    marker contributes nothing and the loop goes on. *)
Theorem loop_break_and_continue
    (pv : str → list (str * value (num H)) → option str)
    (variables : list (str * value (num H))) (primaryVar : str) (second : option str)
    (loopContent : str) (total : nat)
    (entries : list (value (num H) * value (num H))) (outs : list str) :
  Forall2 (fun (e : nat * (value (num H) * value (num H))) out =>
             pv loopContent
               (loopVariables H variables primaryVar second (fst e) total
                  (fst (snd e)) (snd (snd e))) = Some out)
    (zip (List.seq 0 (length entries)) entries) outs →
  (∀ pre b post,
     outs = pre ++ b :: post →
     Forall (fun o => includes o "{{break}}" = false) pre →
     includes b "{{break}}" = true →
     loop_iterations H pv variables primaryVar second loopContent total 0 entries []
     = Some (concat (filter (fun o => includes o "{{continue}}" = false) pre)))
  ∧ (Forall (fun o => includes o "{{break}}" = false) outs →
     loop_iterations H pv variables primaryVar second loopContent total 0 entries []
     = Some (concat (filter (fun o => includes o "{{continue}}" = false) outs))).
Proof.
  intros Hall.
  pose proof (loop_iterations_kept pv variables primaryVar second loopContent total
                entries outs 0 [] Hall) as Hkept.
  cbn [app] in Hkept. split.
  - intros pre b post -> Hpre Hb. by rewrite Hkept, kept_before_break.
  - intros Hno. by rewrite Hkept, kept_without_break.
Qed.

End LoopFacts.

(** The loop of [Demo.break_template]: the second of three iterations
    breaks, and only the first is rendered. *)
Lemma loop_break_and_continue_witness :
  Forall2 (fun (e : nat * (Demo.val * Demo.val)) out =>
             Demo.render 2 "[{{x}}{{if x > 1}}{{break}}{{endif}}]"
               (loopVariables Node.host Demo.one_two_three "x" None (fst e) 3
                  (fst (snd e)) (snd (snd e))) = Some out)
    (zip (List.seq 0 3) Demo.three_entries)
    [ list_ascii_of_string "[1]"; list_ascii_of_string "[2{{break}}]";
      list_ascii_of_string "[3{{break}}]" ]
  ∧ loop_iterations Node.host (Demo.render 2) Demo.one_two_three "x" None
      "[{{x}}{{if x > 1}}{{break}}{{endif}}]" 3 0 Demo.three_entries []
    = Some (list_ascii_of_string "[1]").
Proof.
  assert (Forall2 (fun (e : nat * (Demo.val * Demo.val)) out =>
             Demo.render 2 "[{{x}}{{if x > 1}}{{break}}{{endif}}]"
               (loopVariables Node.host Demo.one_two_three "x" None (fst e) 3
                  (fst (snd e)) (snd (snd e))) = Some out)
            (zip (List.seq 0 3) Demo.three_entries)
            [ list_ascii_of_string "[1]"; list_ascii_of_string "[2{{break}}]";
              list_ascii_of_string "[3{{break}}]" ]) as Hall.
  { repeat constructor; vm_compute; reflexivity. }
  split; [exact Hall|].
  pose proof (loop_break_and_continue Node.host (Demo.render 2) Demo.one_two_three
                "x" None "[{{x}}{{if x > 1}}{{break}}{{endif}}]" 3
                Demo.three_entries _ Hall) as [Hbreak _].
  apply (Hbreak [list_ascii_of_string "[1]"] (list_ascii_of_string "[2{{break}}]")
           [list_ascii_of_string "[3{{break}}]"]).
  - reflexivity.
  - repeat constructor.
  - vm_compute. reflexivity.
Defined.

(** The whole pipeline on that loop: the second iteration of the loop
    over [1, 2, 3] produces the break marker, and its output without
    the marker, [[2]], is not part of what the loop renders. *)
Lemma break_keeps_output_counterexample :
  Demo.render 2 "[{{x}}{{if x > 1}}{{break}}{{endif}}]"
    (loopVariables Node.host Demo.one_two_three "x" None 1 3
       (VNum (Node.Int 1)) (VNum (Node.Int 2)))
  = Some (list_ascii_of_string "[2{{break}}]")
  ∧ replace breakRegex (fun _ => []) "[2{{break}}]" = list_ascii_of_string "[2]"
  ∧ Demo.render 3 Demo.break_template Demo.one_two_three
    = Some (list_ascii_of_string "[1]")
  ∧ Demo.render 3 Demo.break_template Demo.one_two_three
    ≠ Some (list_ascii_of_string "[1][2]").
Proof. split_and!; by vm_compute. Qed.

(** ** Includes: evaluation *)

Section IncludeDepth.

Variable CWD : str.
Variable files : gmap str str.

(** More depth does not change a result. *)
Lemma include_loop_mono
    (self self' : str → str → gset str → state → option (str * state * list warning)) :
  (∀ c f s st r, self c f s st = Some r → self' c f s st = Some r) →
  ∀ sortedMatches content currentFile stack parts lastIndex st log r,
    include_loop CWD files self content currentFile stack sortedMatches parts lastIndex st log
    = Some r →
    include_loop CWD files self' content currentFile stack sortedMatches parts lastIndex st log
    = Some r.
Proof.
  intros Hself sortedMatches.
  induction sortedMatches as [|[fullMatch fileName index] rest IH];
    intros content currentFile stack parts lastIndex st log r; cbn [include_loop]; [done|].
  destruct (negb (_isSafePath CWD _ _)); [by apply IH|].
  destruct (bool_decide _); [by apply IH|].
  destruct (str_eqb _ _); [by apply IH|].
  destruct (files !! resolve_include CWD currentFile fileName) as [includedContent|];
    [|by apply IH].
  destruct (self includedContent _ _ _) as [[[c1 st1] log1]|] eqn:Hs; [|done].
  rewrite (Hself _ _ _ _ _ Hs). by apply IH.
Qed.

Lemma processIncludes_step (d : nat) content currentFile stack st :
  processIncludes CWD files (S d) content currentFile stack st
  = if length (include_matches content) =? 0 then Some (content, st, [])
    else
      match
        include_loop CWD files (processIncludes CWD files d) content currentFile stack
          (sort_desc index (include_matches content)) [] (length content) st []
      with
      | None => None
      | Some (parts, lastIndex, st, log) =>
          Some (concat (rev (parts ++ [slice content 0 lastIndex])), st, log)
      end.
Proof. reflexivity. Qed.

Lemma processIncludes_mono (depth : nat) :
  ∀ content currentFile stack st r,
    processIncludes CWD files depth content currentFile stack st = Some r →
    processIncludes CWD files (S depth) content currentFile stack st = Some r.
Proof.
  induction depth as [|d IH]; intros content currentFile stack st r; [done|].
  rewrite (processIncludes_step (S d)), (processIncludes_step d).
  destruct (length (include_matches content) =? 0); [done|].
  destruct (include_loop CWD files (processIncludes CWD files d) _ _ _ _ _ _ _ _)
    as [[[[parts lastIndex] st1] log1]|] eqn:Hl; [|done].
  by rewrite (include_loop_mono _ _ IH _ _ _ _ _ _ _ _ _ Hl).
Qed.

Lemma processIncludes_deeper (depth more : nat) content currentFile stack st r :
  processIncludes CWD files depth content currentFile stack st = Some r →
  processIncludes CWD files (depth + more) content currentFile stack st = Some r.
Proof.
  intros Hr. induction more as [|n IH].
  - by rewrite Nat.add_0_r.
  - rewrite Nat.add_succ_r. by apply processIncludes_mono.
Qed.

End IncludeDepth.

(** C3 on the code.  Expanding includes returns for every content, with
    a depth above the number of files that are not yet on the
    inclusion stack: no exception, no endless recursion.  But with
    [a.html] and [b.html] including each other, the reference to
    [a.html] in [b.html] is not dropped: [a.html] is spliced a second
    time, and only the reference to [b.html] in that second copy is
    dropped, with one warning. *)
Theorem include_cycle_expands_root_again :
  (∀ (CWD : str) (files : gmap str str) (depth : nat) (content currentFile : str)
     (stack : gset str) (st : state),
     size (dom files ∖ stack) < depth →
     is_Some (processIncludes CWD files depth content currentFile stack st))
  ∧ ∀ more : nat,
      processIncludes Demo.site Demo.mutual_includes (3 + more)
        "A[include b.html]" "a.html" ∅ initial
      = Some (list_ascii_of_string "ABA", initial, [CyclicInclude "b.html"]).
Proof.
  split.
  - intros. by apply processIncludes_returns.
  - intros more. apply processIncludes_deeper. by vm_compute.
Qed.

Lemma include_cycle_expands_root_again_witness :
  size (dom Demo.mutual_includes ∖ (∅ : gset str)) < 3
  ∧ is_Some (processIncludes Demo.site Demo.mutual_includes 3
               "A[include b.html]" "a.html" ∅ initial).
Proof.
  assert (size (dom Demo.mutual_includes ∖ (∅ : gset str)) < 3) as Hsize
    by (vm_compute; lia).
  split; [exact Hsize|].
  pose proof include_cycle_expands_root_again as [Hreturns _].
  exact (Hreturns Demo.site Demo.mutual_includes 3 "A[include b.html]" "a.html" ∅
           initial Hsize).
Defined.

(** C5 on the code.  An include that leaves the template root for a
    directory whose name begins with the name of the root passes the
    path check, and the file is read and spliced. *)
Theorem include_reads_outside_the_root :
  resolve_include Demo.site "index.html" "../templates-old/secret.html"
  = list_ascii_of_string "/srv/site/templates-old/secret.html"
  ∧ templatesAbsDir Demo.site = list_ascii_of_string "/srv/site/templates"
  ∧ _isSafePath Demo.site "/srv/site/templates-old/secret.html"
      (templatesAbsDir Demo.site) = true
  ∧ processIncludes Demo.site Demo.sibling_directory 2
      "<p>[include ../templates-old/secret.html]</p>" "index.html" ∅ initial
    = Some (list_ascii_of_string "<p>SECRET</p>", initial, []).
Proof. split_and!; by vm_compute. Qed.

(** ** Blocks: the scanner and the compositor *)

(** *** The scanner *)

Section BlockScanFacts.
Import Blocks.

Lemma update_all (bs : blocks) (k : str) (arr : list block) (b : block) :
  JsObject.own bs k = Some arr →
  all_blocks (JsObject.update k (arr ++ [b]) bs) ≡ₚ b :: all_blocks bs.
Proof.
  unfold all_blocks.
  induction bs as [|[k' v'] bs IH]; cbn [JsObject.own JsObject.update flat_map snd];
    [done|].
  destruct (str_eqb k k') eqn:E.
  - intros [= ->]. cbn [flat_map snd]. rewrite <- app_assoc. cbn [app].
    symmetry. apply Permutation_middle.
  - intros Hk. cbn [flat_map snd]. rewrite IH by done.
    symmetry. apply Permutation_middle.
Qed.

Lemma set_all (bs bs' : blocks) (name : str) (b : block) :
  push_block name b bs = Returns bs' → all_blocks bs' ≡ₚ b :: all_blocks bs.
Proof.
  unfold push_block, JsObject.set.
  destruct (JsObject.own bs name) as [arr|] eqn:E.
  - intros [= <-]. by apply update_all.
  - destruct (JsObject.inherited name); [done|]. intros [= <-].
    unfold all_blocks. by rewrite create_perm.
Qed.

Lemma push_block_keys (bs bs' : blocks) (name : str) (b : block) :
  push_block name b bs = Returns bs' → NoDup (map fst bs) → NoDup (map fst bs').
Proof.
  unfold push_block. destruct (JsObject.own bs name) as [arr|] eqn:E.
  - intros [= <-]. apply set_keys_NoDup.
  - destruct (JsObject.inherited name); [done|]. intros [= <-]. apply set_keys_NoDup.
Qed.

Lemma blocks_ok_mono (idx idx' : nat) (bs : blocks) :
  idx ≤ idx' → blocks_ok idx bs → blocks_ok idx' bs.
Proof.
  intros Hle (Hk & Hs & Hin & Hdis). split_and!; try done.
  intros b Hb. specialize (Hin b Hb). lia.
Qed.

Lemma push_block_ok (idx : nat) (bs bs' : blocks) (name : str) (b : block) :
  blocks_ok idx bs → idx ≤ startIndex b → startIndex b < endIndex b →
  push_block name b bs = Returns bs' →
  blocks_ok (endIndex b) bs'.
Proof.
  intros (Hk & Hs & Hin & Hdis) Hidx Hb Hpush.
  pose proof (set_all _ _ _ _ Hpush) as Hall. split_and!.
  - by eapply push_block_keys.
  - rewrite Hall. cbn [map]. apply NoDup_cons. split; [|done].
    intros (b0 & E & Hb0)%list_elem_of_fmap. specialize (Hin b0 Hb0). lia.
  - intros b0. rewrite Hall. intros [->|Hb0]%elem_of_cons; [lia|].
    specialize (Hin b0 Hb0). lia.
  - intros b1 b2. rewrite !Hall.
    intros [->|H1]%elem_of_cons [->|H2]%elem_of_cons Hlt.
    + lia.
    + specialize (Hin b2 H2). lia.
    + specialize (Hin b1 H1). lia.
    + by apply Hdis.
Qed.

Lemma starts_with_length (p s : str) : starts_with p s = true → length p ≤ length s.
Proof.
  revert s. induction p as [|x p IH]; intros [|y s]; cbn [starts_with length];
    try done; try lia.
  intros [_ Hp]%andb_prop. apply IH in Hp. lia.
Qed.

Lemma find_from_bound (p s : str) (k : nat) :
  find_from p s = Some k → k + length p ≤ length s.
Proof.
  revert k. induction s as [|x s IH]; intros k; rewrite find_from_unfold.
  - destruct (starts_with p []) eqn:E; [|done]. intros [= <-].
    by apply starts_with_length in E.
  - destruct (starts_with p (x :: s)) eqn:E.
    + intros [= <-]. by apply starts_with_length in E.
    + destruct (find_from p s) as [k'|]; [|done]. intros [= <-].
      specialize (IH k' eq_refl). cbn [length]. lia.
Qed.

Lemma indexOf_bound (content p : str) (i k : nat) :
  0 < length p →
  indexOf content p i = Some k → i ≤ k ∧ k + length p ≤ length content.
Proof.
  intros Hp. unfold indexOf.
  destruct (find_from p (drop i content)) as [k'|] eqn:E; [|done].
  intros [= <-]. apply find_from_bound in E. rewrite length_drop in E. lia.
Qed.

Lemma find_blocks_ok (content : str) :
  ∀ budget idx bs bs',
    blocks_ok idx bs → idx ≤ length content →
    find_blocks budget content idx bs = Returns bs' →
    blocks_ok (length content) bs'.
Proof.
  induction budget as [|budget IH]; intros idx bs bs' Hok Hidx; cbn [find_blocks].
  { intros [= <-]. by eapply blocks_ok_mono. }
  destruct (length content <=? idx); [intros [= <-]; by eapply blocks_ok_mono|].
  destruct (indexOf content "[!" idx) as [startIndex|] eqn:Es;
    [|intros [= <-]; by eapply blocks_ok_mono].
  destruct (indexOf content "]" startIndex) as [openEndIndex|] eqn:Eo;
    [|intros [= <-]; by eapply blocks_ok_mono].
  apply indexOf_bound in Es as [Hs1 Hs2]; [|cbn; lia].
  apply indexOf_bound in Eo as [Ho1 Ho2]; [|cbn; lia].
  change (length (list_ascii_of_string "[!")) with 2 in Hs2.
  change (length (list_ascii_of_string "]")) with 1 in Ho2.
  destruct (indexOf content _ (openEndIndex + 1)) as [closeStartIndex|] eqn:Ec.
  - apply indexOf_bound in Ec as [Hc1 Hc2];
      [|rewrite length_app; change (length (list_ascii_of_string "[~")) with 2; lia].
    destruct (push_block _ _ bs) as [bs1|] eqn:Ep; [|done].
    apply (push_block_ok startIndex) in Ep.
    + cbn [Blocks.endIndex] in Ep. intros Hf. exact (IH _ _ _ Ep Hc2 Hf).
    + eapply blocks_ok_mono; [|done]. lia.
    + cbn [Blocks.startIndex]. lia.
    + cbn [Blocks.startIndex Blocks.endIndex]. lia.
  - apply IH; [|lia]. eapply blocks_ok_mono; [|done]. lia.
Qed.

(** No name held by the scanner is inherited from [Object.prototype]. *)
Lemma push_block_names (bs bs' : blocks) (name : str) (b : block) :
  push_block name b bs = Returns bs' →
  Forall (fun k => JsObject.inherited k = false) (map fst bs) →
  Forall (fun k => JsObject.inherited k = false) (map fst bs').
Proof.
  unfold push_block, JsObject.set. destruct (JsObject.own bs name) as [arr|] eqn:E.
  - intros [= <-]. by rewrite update_keys.
  - destruct (JsObject.inherited name) eqn:Ei; [done|]. intros [= <-] Hall.
    rewrite create_perm. cbn [map fst]. by constructor.
Qed.

Lemma find_blocks_names (content : str) :
  ∀ budget idx bs bs',
    Forall (fun k => JsObject.inherited k = false) (map fst bs) →
    find_blocks budget content idx bs = Returns bs' →
    Forall (fun k => JsObject.inherited k = false) (map fst bs').
Proof.
  induction budget as [|budget IH]; intros idx bs bs' Hok; cbn [find_blocks].
  { by intros [= <-]. }
  destruct (length content <=? idx); [by intros [= <-]|].
  destruct (indexOf content "[!" idx) as [startIndex|]; [|by intros [= <-]].
  destruct (indexOf content "]" startIndex) as [openEndIndex|]; [|by intros [= <-]].
  destruct (indexOf content _ (openEndIndex + 1)) as [closeStartIndex|]; [|by apply IH].
  destruct (push_block _ _ bs) as [bs1|] eqn:Ep; [|done].
  apply IH. by eapply push_block_names.
Qed.

Lemma _findBlockPositions_ok (content : str) (bs : blocks) :
  _findBlockPositions content = Returns bs → blocks_ok (length content) bs.
Proof.
  unfold _findBlockPositions. apply find_blocks_ok; [|lia].
  split_and!; try done; try apply NoDup_nil_2.
  - intros b Hb. by apply elem_of_nil in Hb.
  - intros b1 b2 Hb. by apply elem_of_nil in Hb.
Qed.

End BlockScanFacts.

(** *** The splices *)

Section MergeFacts.
Import Blocks.

Lemma elem_of_rev {A : Type} (x : A) (l : list A) : x ∈ rev l ↔ x ∈ l.
Proof. rewrite !list_elem_of_In. symmetry. apply in_rev. Qed.

Lemma slice_take (B : str) (pos a b : nat) :
  a ≤ b → slice (take b B) pos a = slice B pos a.
Proof.
  intros Hab. unfold slice. destruct (decide (a ≤ pos)) as [Hle|Hgt].
  - replace (a - pos) with 0 by lia. done.
  - rewrite !take_drop_commute, take_take. do 2 f_equal. lia.
Qed.

Lemma replace_spans_snoc (B : str) (r : replacement) :
  ∀ xs pos,
    Forall (fun x => r_startIndex x ≤ r_startIndex r) xs →
    pos ≤ r_startIndex r →
    Forall (fun x => r_endIndex x ≤ r_startIndex r) xs →
    replace_spans B pos (xs ++ [r])
    = replace_spans (take (r_startIndex r) B) pos xs
      ++ r_innerContent r ++ drop (r_endIndex r) B.
Proof.
  induction xs as [|x xs IH]; intros pos Hs Hpos He; cbn [app replace_spans].
  - unfold slice. rewrite take_drop_commute.
    replace (pos + (r_startIndex r - pos)) with (r_startIndex r) by lia.
    done.
  - inversion Hs; subst. inversion He; subst.
    rewrite IH by done. rewrite slice_take by done. by rewrite <- !app_assoc.
Qed.

Lemma splice_desc (base : str) :
  ∀ l bound tail,
    StronglySorted (fun r1 r2 => r_endIndex r2 ≤ r_startIndex r1) l →
    Forall (fun r => r_startIndex r ≤ r_endIndex r ≤ bound) l →
    bound ≤ length base →
    fold_left splice l (take bound base ++ tail)
    = replace_spans (take bound base) 0 (rev l) ++ tail.
Proof.
  induction l as [|r l IH]; intros bound tail Hsorted Hin Hbound.
  - cbn. by rewrite drop_0.
  - apply StronglySorted_inv in Hsorted as [Hsorted Hr].
    inversion Hin as [|? ? [Hse Heb] Hin']; subst.
    cbn [fold_left rev]. unfold splice at 2. unfold slice.
    rewrite drop_0, Nat.sub_0_r.
    rewrite take_app_le by (rewrite length_take; lia).
    rewrite take_take. replace (r_startIndex r `min` bound) with (r_startIndex r) by lia.
    rewrite drop_app_le by (rewrite length_take; lia).
    rewrite IH; [|done| |lia].
    2: { rewrite Forall_forall in *. intros x Hx. specialize (Hr x Hx).
         specialize (Hin' x Hx). lia. }
    rewrite replace_spans_snoc.
    + rewrite take_take. replace (r_startIndex r `min` bound) with (r_startIndex r) by lia.
      by rewrite <- !app_assoc.
    + rewrite Forall_forall in *. intros x Hx. apply (proj1 (elem_of_rev _ _)) in Hx. specialize (Hr x Hx).
      specialize (Hin' x Hx). lia.
    + lia.
    + rewrite Forall_forall in *. intros x Hx. apply (proj1 (elem_of_rev _ _)) in Hx. by apply Hr.
Qed.


(** The sort: a permutation, in descending order of the key. *)
Lemma insert_desc_perm {A : Type} (key : A → nat) (r : A) (l : list A) :
  insert_desc key r l ≡ₚ r :: l.
Proof.
  induction l as [|x l IH]; cbn [insert_desc]; [done|].
  destruct (key x <? key r); [done|]. rewrite IH. apply Permutation_swap.
Qed.

Lemma sort_desc_perm {A : Type} (key : A → nat) (l : list A) :
  sort_desc key l ≡ₚ l.
Proof.
  induction l as [|x l IH]; [done|]. unfold sort_desc. cbn [fold_right].
  rewrite insert_desc_perm. by f_equiv.
Qed.

Lemma insert_desc_sorted {A : Type} (key : A → nat) (r : A) (l : list A) :
  StronglySorted (fun a b => key b ≤ key a) l →
  StronglySorted (fun a b => key b ≤ key a) (insert_desc key r l).
Proof.
  induction 1 as [|x l Hl IH Hx]; cbn [insert_desc].
  - repeat constructor.
  - destruct (key x <? key r) eqn:E.
    + apply Nat.ltb_lt in E. constructor; [by constructor|].
      constructor; [lia|]. rewrite Forall_forall in *. intros y Hy.
      specialize (Hx y Hy). lia.
    + apply Nat.ltb_ge in E. constructor; [done|].
      rewrite Forall_forall in *. intros y Hy.
      rewrite insert_desc_perm in Hy. apply elem_of_cons in Hy as [->|Hy]; [done|].
      by apply Hx.
Qed.

Lemma sort_desc_sorted {A : Type} (key : A → nat) (l : list A) :
  StronglySorted (fun a b => key b ≤ key a) (sort_desc key l).
Proof.
  induction l as [|x l IH]; [constructor|]. by apply insert_desc_sorted.
Qed.

Lemma spans_ok_perm (n : nat) (rs rs' : list replacement) :
  rs ≡ₚ rs' → spans_ok n rs → spans_ok n rs'.
Proof.
  intros Hp (Hnd & Hin & Hdis). split_and!.
  - by rewrite <- Hp.
  - intros r Hr. apply Hin. by rewrite Hp.
  - intros r1 r2 H1 H2. apply Hdis; by rewrite Hp.
Qed.

Lemma spans_ok_desc (n : nat) (rs : list replacement) :
  spans_ok n rs →
  StronglySorted (fun a b => r_startIndex b ≤ r_startIndex a) rs →
  StronglySorted (fun r1 r2 => r_endIndex r2 ≤ r_startIndex r1) rs.
Proof.
  intros Hok Hs. induction Hs as [|a l Hl IH Ha]; [constructor|].
  destruct Hok as (Hnd & Hin & Hdis). cbn [map] in Hnd.
  apply NoDup_cons in Hnd as [Hna Hnd].
  constructor.
  - apply IH. split_and!; [done| |].
    + intros r Hr. apply Hin. by right.
    + intros r1 r2 H1 H2. apply Hdis; by right.
  - rewrite Forall_forall in *. intros b Hb. specialize (Ha b Hb).
    assert (r_startIndex b ≠ r_startIndex a) as Hne.
    { intros E. apply Hna. rewrite <- E. apply list_elem_of_fmap. by exists b. }
    apply Hdis; [by right|by left|lia].
Qed.

Lemma merge_spans (base : str) (rs : list replacement) :
  spans_ok (length base) rs →
  fold_left splice (sort_desc r_startIndex rs) base
  = replace_spans base 0 (rev (sort_desc r_startIndex rs)).
Proof.
  intros Hok.
  pose proof (spans_ok_perm _ _ _ (symmetry (sort_desc_perm r_startIndex rs)) Hok) as Hok'.
  pose proof (spans_ok_desc _ _ Hok' (sort_desc_sorted r_startIndex rs)) as Hsorted.
  pose proof (splice_desc base (sort_desc r_startIndex rs) (length base) [] Hsorted) as Hs.
  rewrite firstn_all, !app_nil_r in Hs. apply Hs; [|done].
  destruct Hok' as (_ & Hin & _). rewrite Forall_forall. intros r Hr.
  specialize (Hin r Hr). lia.
Qed.

End MergeFacts.

(** *** The pairing *)

Section CollectFacts.
Import Blocks.

Lemma own_split {V : Type} (o : list (str * V)) (k : str) (v : V) :
  JsObject.own o k = Some v → ∃ l1 l2, o = l1 ++ (k, v) :: l2.
Proof.
  intros Hin%own_Some_elem. by apply list_elem_of_split in Hin.
Qed.

Lemma own_app_other {V : Type} (l1 l2 : list (str * V)) (k k' : str) (v : V) :
  k' ≠ k → JsObject.own (l1 ++ (k, v) :: l2) k' = JsObject.own (l1 ++ l2) k'.
Proof.
  intros Hne. induction l1 as [|[k1 v1] l1 IH]; cbn [app JsObject.own].
  - destruct (str_eqb k' k) eqn:E; [|done]. by apply str_eqb_eq in E.
  - by rewrite IH.
Qed.

Lemma collect_ext (base base' tmpl : blocks) :
  (∀ k, k ∈ map fst tmpl → JsObject.own base k = JsObject.own base' k) →
  collect base tmpl = collect base' tmpl.
Proof.
  unfold collect. induction tmpl as [|[k tarr] tmpl IH]; intros Hown; [done|].
  cbn [flat_map fst snd]. rewrite (Hown k) by (by left). f_equal.
  apply IH. intros k' Hk'. apply Hown. by right.
Qed.

Lemma pair_blocks_nil (ts : list block) : pair_blocks ts [] = [].
Proof. by destruct ts. Qed.

(** Positional pairing: replacement [i] is made of occurrence [i] of the
    page and occurrence [i] of the base. *)
Lemma pair_blocks_lookup (ts bs : list block) (i : nat) :
  pair_blocks ts bs !! i
  = match ts !! i, bs !! i with
    | Some t, Some b =>
        Some {| r_innerContent := innerContent t; r_startIndex := startIndex b;
                r_endIndex := endIndex b |}
    | _, _ => None
    end.
Proof.
  revert bs i. induction ts as [|t ts IH]; intros [|b bs] [|i]; cbn; try done.
  by destruct (ts !! i).
Qed.

Lemma pair_blocks_length (ts bs : list block) :
  length (pair_blocks ts bs) = length ts `min` length bs.
Proof.
  revert bs. induction ts as [|t ts IH]; intros [|b bs]; cbn; try done.
  by rewrite IH.
Qed.

Lemma pair_blocks_starts (ts bs : list block) :
  map r_startIndex (pair_blocks ts bs) `sublist_of` map startIndex bs.
Proof.
  revert bs. induction ts as [|t ts IH]; intros [|b bs]; cbn [pair_blocks map].
  - constructor.
  - apply sublist_nil_l.
  - constructor.
  - cbn [r_startIndex]. constructor. apply IH.
Qed.

Lemma pair_blocks_elem (ts bs : list block) (r : replacement) :
  r ∈ pair_blocks ts bs →
  ∃ b, b ∈ bs ∧ r_startIndex r = startIndex b ∧ r_endIndex r = endIndex b.
Proof.
  revert bs. induction ts as [|t ts IH]; intros [|b bs]; cbn [pair_blocks];
    try (by intros ?%elem_of_nil).
  intros [->|Hr]%elem_of_cons.
  - exists b. split; [by left|done].
  - apply IH in Hr as (b' & Hb' & E). exists b'. split; [by right|done].
Qed.

Lemma collect_starts (tmpl : blocks) :
  ∀ base : blocks,
    NoDup (map fst tmpl) →
    map r_startIndex (collect base tmpl) ⊆+ map startIndex (all_blocks base).
Proof.
  induction tmpl as [|[k tarr] tmpl IH]; intros base Hnd.
  - apply submseteq_nil_l.
  - cbn [map fst] in Hnd. apply NoDup_cons in Hnd as [Hk Hnd].
    unfold collect. cbn [flat_map fst snd]. fold (collect base tmpl).
    destruct (JsObject.own base k) as [barr|] eqn:E; cbn [default].
    + apply own_split in E as (l1 & l2 & ->).
      rewrite (collect_ext _ (l1 ++ l2)).
      2: { intros k' Hk'. apply own_app_other. by intros ->. }
      unfold all_blocks. rewrite flat_map_app. cbn [flat_map snd].
      rewrite map_app.
      assert (map startIndex (flat_map snd l1 ++ barr ++ flat_map snd l2)
              ≡ₚ map startIndex barr ++ map startIndex (all_blocks (l1 ++ l2))) as ->.
      { unfold all_blocks. rewrite flat_map_app, !map_app.
        rewrite !app_assoc. f_equiv. apply Permutation_app_comm. }
      apply submseteq_app; [|by apply IH].
      apply sublist_submseteq, pair_blocks_starts.
    + rewrite pair_blocks_nil. cbn [app]. by apply IH.
Qed.

Lemma collect_elem (base tmpl : blocks) (r : replacement) :
  r ∈ collect base tmpl →
  ∃ b, b ∈ all_blocks base ∧ r_startIndex r = startIndex b ∧ r_endIndex r = endIndex b.
Proof.
  unfold collect. rewrite list_elem_of_In, in_flat_map.
  intros ([k tarr] & _ & Hr). cbn [fst snd] in Hr. apply list_elem_of_In in Hr.
  apply pair_blocks_elem in Hr as (b & Hb & E).
  exists b. split; [|done].
  destruct (JsObject.own base k) as [barr|] eqn:Eo; cbn [default] in Hb;
    [|by apply elem_of_nil in Hb].
  apply own_Some_elem in Eo. unfold all_blocks.
  rewrite list_elem_of_In, in_flat_map. exists (k, barr).
  by rewrite <- !list_elem_of_In.
Qed.

Lemma collect_spans_ok (n : nat) (base tmpl : blocks) :
  blocks_ok n base → NoDup (map fst tmpl) → spans_ok n (collect base tmpl).
Proof.
  intros (_ & Hs & Hin & Hdis) Hnd. split_and!.
  - pose proof (collect_starts tmpl base Hnd) as (rest & Hp)%submseteq_Permutation.
    rewrite Hp in Hs. by apply NoDup_app in Hs as [? _].
  - intros r (b & Hb & -> & ->)%collect_elem. by apply Hin.
  - intros r1 r2 (b1 & Hb1 & -> & ->)%collect_elem (b2 & Hb2 & -> & _)%collect_elem.
    by apply Hdis.
Qed.

(** The scanner's budget is never the reason to stop. *)
Lemma find_blocks_budget (content : str) :
  ∀ b b' idx bs,
    length content ≤ idx + b → b ≤ b' →
    find_blocks b' content idx bs = find_blocks b content idx bs.
Proof.
  induction b as [|b IH]; intros [|b'] idx bs Hlen Hle; try done; try lia.
  - cbn [find_blocks]. destruct (length content <=? idx) eqn:E; [done|].
    apply Nat.leb_gt in E. lia.
  - cbn [find_blocks]. destruct (length content <=? idx); [done|].
    destruct (indexOf content "[!" idx) as [startIndex|] eqn:Es; [|done].
    destruct (indexOf content "]" startIndex) as [openEndIndex|] eqn:Eo; [|done].
    apply indexOf_bound in Es as [Hs1 Hs2]; [|cbn; lia].
    apply indexOf_bound in Eo as [Ho1 Ho2]; [|cbn; lia].
    destruct (indexOf content _ (openEndIndex + 1)) as [closeStartIndex|] eqn:Ec.
    + apply indexOf_bound in Ec as [Hc1 Hc2];
        [|rewrite length_app; change (length (list_ascii_of_string "[~")) with 2; lia].
      destruct (push_block _ _ bs) as [bs1|]; [|done].
      apply IH; lia.
    + apply IH; lia.
Qed.

End CollectFacts.

(** *** The text of a block *)

Section SpanFacts.
Import Blocks.

Lemma starts_with_take (p s : str) : starts_with p s = true → take (length p) s = p.
Proof.
  revert s. induction p as [|x p IH]; intros [|y s]; cbn [starts_with length take];
    try done.
  intros [Hxy Hp]%andb_prop. apply Ascii.eqb_eq in Hxy as ->. by rewrite IH.
Qed.

Lemma find_from_sound (p s : str) (k : nat) :
  find_from p s = Some k → take (length p) (drop k s) = p.
Proof.
  revert k. induction s as [|x s IH]; intros k; rewrite find_from_unfold.
  - destruct (starts_with p []) eqn:E; [|done]. intros [= <-].
    by apply starts_with_take.
  - destruct (starts_with p (x :: s)) eqn:E.
    + intros [= <-]. by apply starts_with_take.
    + destruct (find_from p s) as [k'|]; [|done]. intros [= <-]. by apply IH.
Qed.

Lemma indexOf_sound (content p : str) (i k : nat) :
  indexOf content p i = Some k → slice content k (k + length p) = p.
Proof.
  unfold indexOf, slice.
  destruct (find_from p (drop i content)) as [k'|] eqn:E; [|done].
  intros [= <-]. apply find_from_sound in E. rewrite drop_drop in E.
  by replace (i + k' + length p - (i + k')) with (length p) by lia.
Qed.

Lemma slice_split (s : str) (a b c : nat) :
  a ≤ b → b ≤ c → slice s a c = slice s a b ++ slice s b c.
Proof.
  intros Hab Hbc. unfold slice.
  replace (c - a) with ((b - a) + (c - b)) by lia.
  rewrite <- take_take_drop, drop_drop. by replace (a + (b - a)) with b by lia.
Qed.

(** The bracket that closes an open tag lies after the two characters
    that open it. *)
Lemma open_tag_end (content : str) (s o : nat) :
  slice content s (s + 2) = "[!" → slice content o (o + 1) = "]" → s ≤ o → s + 2 ≤ o.
Proof.
  unfold slice. replace (s + 2 - s) with 2 by lia. replace (o + 1 - o) with 1 by lia.
  intros Hs Ho Hle. replace o with (s + (o - s)) in Ho by lia.
  rewrite <- drop_drop in Ho.
  destruct (drop s content) as [|x [|y rest]]; [done..|].
  injection Hs as -> ->.
  destruct (o - s) as [|[|n]] eqn:E; [done|done|lia].
Qed.

(** The property read after a push. *)
Lemma push_block_own (bs bs' : blocks) (name name' : str) (b : block) :
  push_block name b bs = Returns bs' →
  JsObject.own bs' name'
  = if str_eqb name' name then Some (default [] (JsObject.own bs name) ++ [b])
    else JsObject.own bs name'.
Proof.
  unfold push_block. destruct (JsObject.own bs name) as [arr|] eqn:E.
  - intros [= <-]. destruct (str_eqb name' name) eqn:En.
    + apply str_eqb_eq in En as ->. by rewrite own_set_same.
    + by rewrite own_set_other.
  - destruct (JsObject.inherited name); [done|]. intros [= <-].
    destruct (str_eqb name' name) eqn:En.
    + apply str_eqb_eq in En as ->. by rewrite own_set_same.
    + by rewrite own_set_other.
Qed.

Lemma push_block_text (content : str) (bs bs' : blocks) (name : str) (b : block) :
  blocks_text content bs → block_text content name b →
  push_block name b bs = Returns bs' → blocks_text content bs'.
Proof.
  intros Hok Hb Hpush name' arr' b' Hown Hb'.
  rewrite (push_block_own _ _ _ _ _ Hpush) in Hown.
  destruct (str_eqb name' name) eqn:En; [|by eapply Hok].
  apply str_eqb_eq in En as ->. injection Hown as <-.
  apply elem_of_app in Hb' as [Hb'| ->%list_elem_of_singleton]; [|done].
  destruct (JsObject.own bs name) as [arr|] eqn:E; [by eapply Hok|].
  by apply elem_of_nil in Hb'.
Qed.

Lemma own_all_blocks (bs : blocks) (name : str) (arr : list block) (b : block) :
  JsObject.own bs name = Some arr → b ∈ arr → b ∈ all_blocks bs.
Proof.
  intros Hown%own_Some_elem Hb. unfold all_blocks.
  rewrite list_elem_of_In, in_flat_map. exists (name, arr).
  by rewrite <- !list_elem_of_In.
Qed.

Lemma push_block_order (idx : nat) (bs bs' : blocks) (name : str) (b : block) :
  blocks_ok idx bs → in_text_order bs → idx ≤ startIndex b →
  push_block name b bs = Returns bs' → in_text_order bs'.
Proof.
  intros (_ & _ & Hin & _) Hok Hidx Hpush name' arr' Hown.
  rewrite (push_block_own _ _ _ _ _ Hpush) in Hown.
  destruct (str_eqb name' name) eqn:En; [|by eapply Hok].
  apply str_eqb_eq in En as ->. injection Hown as <-.
  destruct (JsObject.own bs name) as [arr|] eqn:E.
  - apply StronglySorted_app_2; [|by eapply Hok|repeat constructor].
    intros b1 b2 Hb1 ->%list_elem_of_singleton.
    pose proof (Hin b1 (own_all_blocks _ _ _ _ E Hb1)). lia.
  - repeat constructor.
Qed.

Lemma find_blocks_text (content : str) :
  ∀ budget idx bs bs',
    blocks_ok idx bs → idx ≤ length content →
    blocks_text content bs → in_text_order bs →
    find_blocks budget content idx bs = Returns bs' →
    blocks_text content bs' ∧ in_text_order bs'.
Proof.
  induction budget as [|budget IH]; intros idx bs bs' Hok Hidx Htext Hord;
    cbn [find_blocks].
  { by intros [= <-]. }
  destruct (length content <=? idx); [by intros [= <-]|].
  destruct (indexOf content "[!" idx) as [startIndex|] eqn:Es; [|by intros [= <-]].
  destruct (indexOf content "]" startIndex) as [openEndIndex|] eqn:Eo;
    [|by intros [= <-]].
  pose proof (indexOf_sound _ _ _ _ Es) as Hs.
  pose proof (indexOf_sound _ _ _ _ Eo) as Ho.
  change (length (list_ascii_of_string "[!")) with 2 in Hs.
  change (length (list_ascii_of_string "]")) with 1 in Ho.
  apply indexOf_bound in Es as [Hs1 Hs2]; [|cbn; lia].
  apply indexOf_bound in Eo as [Ho1 Ho2]; [|cbn; lia].
  change (length (list_ascii_of_string "[!")) with 2 in Hs2.
  change (length (list_ascii_of_string "]")) with 1 in Ho2.
  destruct (indexOf content _ (openEndIndex + 1)) as [closeStartIndex|] eqn:Ec.
  - pose proof (indexOf_sound _ _ _ _ Ec) as Hc.
    apply indexOf_bound in Ec as [Hc1 Hc2];
      [|rewrite length_app; change (length (list_ascii_of_string "[~")) with 2; lia].
    destruct (push_block _ _ bs) as [bs1|] eqn:Ep; [|done].
    pose proof (open_tag_end _ _ _ Hs Ho Ho1) as Hopen.
    apply (IH (closeStartIndex + length
                 ("[~" ++ trim (slice content (startIndex + 2) openEndIndex) ++ "]"))).
    + apply (push_block_ok startIndex) in Ep; [done| | |].
      * eapply blocks_ok_mono; [|done]. lia.
      * cbn [Blocks.startIndex]. lia.
      * cbn [Blocks.startIndex Blocks.endIndex]. lia.
    + done.
    + eapply push_block_text; [done| |exact Ep].
      exists (slice content (startIndex + 2) openEndIndex). split; [done|].
      cbn [Blocks.startIndex Blocks.endIndex Blocks.innerContent].
      rewrite (slice_split content startIndex (startIndex + 2)) by lia.
      rewrite (slice_split content (startIndex + 2) openEndIndex) by lia.
      rewrite (slice_split content openEndIndex (openEndIndex + 1)) by lia.
      rewrite (slice_split content (openEndIndex + 1) closeStartIndex) by lia.
      by rewrite Hs, Ho, Hc.
    + eapply (push_block_order idx); [done|done| |exact Ep].
      cbn [Blocks.startIndex]. lia.
  - apply (IH (openEndIndex + 1)); [|lia|done|done].
    eapply blocks_ok_mono; [|done]. lia.
Qed.

Lemma blocks_ok_nil : blocks_ok 0 [].
Proof.
  split_and!; try apply NoDup_nil_2.
  - intros b Hb. by apply elem_of_nil in Hb.
  - intros b1 b2 Hb. by apply elem_of_nil in Hb.
Qed.

Lemma _findBlockPositions_text (content : str) (bs : blocks) :
  _findBlockPositions content = Returns bs →
  blocks_text content bs ∧ in_text_order bs.
Proof.
  apply (find_blocks_text content _ 0); [apply blocks_ok_nil|lia|done|done].
Qed.

(** When the scanner throws: at a name that [blocks] inherits. *)
Lemma find_blocks_throws (content : str) :
  ∀ budget idx bs e,
    find_blocks budget content idx bs = Throws e →
    e = "blocks[openName].push is not a function"
    ∧ ∃ startIndex openEndIndex closeStartIndex,
        slice content startIndex (startIndex + 2) = "[!"
        ∧ indexOf content "]" startIndex = Some openEndIndex
        ∧ JsObject.inherited (trim (slice content (startIndex + 2) openEndIndex)) = true
        ∧ indexOf content
            ("[~" ++ trim (slice content (startIndex + 2) openEndIndex) ++ "]")
            (openEndIndex + 1) = Some closeStartIndex.
Proof.
  induction budget as [|budget IH]; intros idx bs e; cbn [find_blocks]; [done|].
  destruct (length content <=? idx); [done|].
  destruct (indexOf content "[!" idx) as [startIndex|] eqn:Es; [|done].
  destruct (indexOf content "]" startIndex) as [openEndIndex|] eqn:Eo; [|done].
  destruct (indexOf content _ (openEndIndex + 1)) as [closeStartIndex|] eqn:Ec;
    [|by apply IH].
  destruct (push_block _ _ bs) as [bs1|e1] eqn:Ep; [by apply IH|].
  intros [= <-]. unfold push_block in Ep.
  destruct (JsObject.own bs _); [done|].
  destruct (JsObject.inherited _) eqn:Ei; [|done].
  injection Ep as <-. split; [done|]. exists startIndex, openEndIndex, closeStartIndex.
  split; [exact (indexOf_sound _ _ _ _ Es)|]. by split_and!.
Qed.

(** Occurrence [i] of the page is paired with occurrence [i] of the base
    block of the same name. *)
Lemma collect_pairs (base tmpl : blocks) (r : replacement) :
  NoDup (map fst tmpl) →
  r ∈ collect base tmpl ↔
  ∃ (name : str) (templateBlockArray baseBlockArray : list block) (i : nat) (t b : block),
    JsObject.own tmpl name = Some templateBlockArray
    ∧ JsObject.own base name = Some baseBlockArray
    ∧ templateBlockArray !! i = Some t ∧ baseBlockArray !! i = Some b
    ∧ r = {| r_innerContent := innerContent t; r_startIndex := startIndex b;
             r_endIndex := endIndex b |}.
Proof.
  intros Hnd. unfold collect. rewrite list_elem_of_In, in_flat_map. split.
  - intros ([k tarr] & Hk & Hr). cbn [fst snd] in Hr.
    apply list_elem_of_In in Hk, Hr.
    apply list_elem_of_lookup in Hr as [i Hi]. rewrite pair_blocks_lookup in Hi.
    destruct (tarr !! i) as [t|] eqn:Et; [|done].
    destruct (JsObject.own base k) as [barr|] eqn:Eb; unfold default in Hi;
      cbn [from_option id] in Hi; [|by rewrite lookup_nil in Hi].
    destruct (barr !! i) as [b|] eqn:Ebi; [|done]. injection Hi as <-.
    exists k, tarr, barr, i, t, b. split_and!; try done. by apply elem_own.
  - intros (name & tarr & barr & i & t & b & Ht & Hb & Hti & Hbi & ->).
    exists (name, tarr). split; [by apply list_elem_of_In, own_Some_elem|].
    cbn [fst snd]. rewrite Hb. unfold default. cbn [from_option id].
    apply list_elem_of_In.
    apply list_elem_of_lookup. exists i. by rewrite pair_blocks_lookup, Hti, Hbi.
Qed.

(** Ascending order of the replacements made. *)
Lemma ascending_spans (n : nat) (rs : list replacement) :
  spans_ok n rs →
  StronglySorted (fun r1 r2 => r_endIndex r1 ≤ r_startIndex r2)
    (rev (sort_desc r_startIndex rs)).
Proof.
  intros Hok.
  pose proof (spans_ok_perm _ _ _ (symmetry (sort_desc_perm r_startIndex rs)) Hok) as Hok'.
  pose proof (spans_ok_desc _ _ Hok' (sort_desc_sorted r_startIndex rs)) as Hsorted.
  clear Hok Hok'. induction Hsorted as [|r l Hl IH Hr]; [constructor|].
  cbn [rev]. apply StronglySorted_app_2; [|done|repeat constructor].
  intros r1 r2 Hr1 ->%list_elem_of_singleton.
  apply (proj1 (elem_of_rev _ _)) in Hr1.
  rewrite Forall_forall in Hr. exact (Hr _ Hr1).
Qed.

(** What the compositor computes when the scanner returns for both
    texts. *)
Lemma merge_pairs (baseContent templateContent : str) (baseBlocks templateBlocks : blocks) :
  _findBlockPositions baseContent = Returns baseBlocks →
  _findBlockPositions templateContent = Returns templateBlocks →
  spans_ok (length baseContent) (collect baseBlocks templateBlocks)
  ∧ merge baseContent baseBlocks templateBlocks
    = replace_spans baseContent 0 (paired_spans baseBlocks templateBlocks).
Proof.
  intros Hb Ht. apply _findBlockPositions_ok in Hb, Ht.
  assert (spans_ok (length baseContent) (collect baseBlocks templateBlocks)) as Hok.
  { apply collect_spans_ok; [done|]. by destruct Ht. }
  split; [done|]. by apply merge_spans.
Qed.

End SpanFacts.

(** C4 on the code.  When the scanner returns for the base and for the
    page, every occurrence it holds under a name is a whole block of
    that name in its text, in the order of the text, and no name it
    holds is inherited from [Object.prototype]; the compositor
    pairs occurrence [i] of a name in the page with occurrence [i] of
    the same name in the base, the paired base blocks do not overlap,
    and the composed text is the base with exactly the paired base
    blocks replaced by the inner contents of their page blocks (then
    cleaned of the tags left, under a doctype): surplus occurrences on
    either side change nothing.  With two [a] blocks in the base and
    three in the page, the first two base blocks are replaced and the
    rest of the base is kept.  But a block named like a member of
    [Object.prototype] makes the scanner throw, and with it the
    composition. *)
Theorem renderTemplateContent_pairs_or_throws :
  (∀ (baseContent templateContent : str) (baseBlocks templateBlocks : Blocks.blocks),
     Blocks._findBlockPositions baseContent = Returns baseBlocks →
     Blocks._findBlockPositions templateContent = Returns templateBlocks →
     (blocks_text baseContent baseBlocks ∧ in_text_order baseBlocks)
     ∧ (blocks_text templateContent templateBlocks ∧ in_text_order templateBlocks)
     ∧ Forall (fun name => JsObject.inherited name = false) (map fst templateBlocks)
     ∧ (∀ r, r ∈ paired_spans baseBlocks templateBlocks ↔
          ∃ (name : str) (templateBlockArray baseBlockArray : list Blocks.block)
            (i : nat) (t b : Blocks.block),
            JsObject.own templateBlocks name = Some templateBlockArray
            ∧ JsObject.own baseBlocks name = Some baseBlockArray
            ∧ templateBlockArray !! i = Some t ∧ baseBlockArray !! i = Some b
            ∧ r = {| Blocks.r_innerContent := Blocks.innerContent t;
                     Blocks.r_startIndex := Blocks.startIndex b;
                     Blocks.r_endIndex := Blocks.endIndex b |})
     ∧ StronglySorted
         (fun r1 r2 => Blocks.r_endIndex r1 ≤ Blocks.r_startIndex r2)
         (paired_spans baseBlocks templateBlocks)
     ∧ Blocks._renderTemplateContent baseContent templateContent
       = Returns (Blocks._ensureDoctypeFirst
                    (Blocks._cleanTemplateTags
                       (replace_spans baseContent 0
                          (paired_spans baseBlocks templateBlocks)))))
  ∧ Blocks._renderTemplateContent Demo.base_page Demo.child_page
    = Returns ("<!DOCTYPE html>" ++ ["010"%char] ++ list_ascii_of_string "<h>X-keep-Y</h>")
  ∧ Blocks._findBlockPositions "[!constructor]x[~constructor]"
    = Throws "blocks[openName].push is not a function"
  ∧ Blocks._renderTemplateContent "[!constructor]x[~constructor]" ""
    = Throws "blocks[openName].push is not a function".
Proof.
  split; [|split_and!; by vm_compute].
  intros baseContent templateContent baseBlocks templateBlocks Hb Ht.
  pose proof (merge_pairs _ _ _ _ Hb Ht) as [Hok Hmerge].
  split; [by apply _findBlockPositions_text|].
  split; [by apply _findBlockPositions_text|].
  split_and!.
  - by eapply find_blocks_names; [|exact Ht].
  - intros r. unfold paired_spans.
    rewrite elem_of_rev, sort_desc_perm. apply collect_pairs.
    apply _findBlockPositions_ok in Ht. by destruct Ht.
  - by eapply ascending_spans.
  - unfold Blocks._renderTemplateContent. by rewrite Hb, Ht, Hmerge.
Qed.

Lemma renderTemplateContent_pairs_or_throws_witness :
  Blocks._findBlockPositions Demo.base_page = Returns Demo.base_blocks
  ∧ Blocks._findBlockPositions Demo.child_page = Returns Demo.child_blocks
  ∧ Blocks._renderTemplateContent Demo.base_page Demo.child_page
    = Returns (Blocks._ensureDoctypeFirst
                 (Blocks._cleanTemplateTags
                    (replace_spans Demo.base_page 0
                       (paired_spans Demo.base_blocks Demo.child_blocks)))).
Proof.
  assert (Blocks._findBlockPositions Demo.base_page = Returns Demo.base_blocks) as Hb
    by (by vm_compute).
  assert (Blocks._findBlockPositions Demo.child_page = Returns Demo.child_blocks) as Ht
    by (by vm_compute).
  split; [exact Hb|]. split; [exact Ht|].
  pose proof renderTemplateContent_pairs_or_throws as [Hgeneral _].
  pose proof (Hgeneral Demo.base_page Demo.child_page Demo.base_blocks Demo.child_blocks
                Hb Ht) as (_ & _ & _ & _ & _ & Hrender).
  exact Hrender.
Defined.

Lemma processVariables_plain_identity_witness :
  includes "<p>[!main] [include nav.html] { plain } text</p>" "{{" = false
  ∧ Demo.render 1 "<p>[!main] [include nav.html] { plain } text</p>"
      [ (list_ascii_of_string "title", VStr (list_ascii_of_string "T")) ]
    = Some (list_ascii_of_string "<p>[!main] [include nav.html] { plain } text</p>").
Proof.
  assert (includes "<p>[!main] [include nav.html] { plain } text</p>" "{{" = false)
    as Hplain by (by vm_compute).
  split; [exact Hplain|].
  pose proof (processVariables_plain_identity Node.host [] Demo.no_functions 0
                "<p>[!main] [include nav.html] { plain } text</p>"
                [ (list_ascii_of_string "title", VStr (list_ascii_of_string "T")) ]
                (fun _ _ => None) Hplain) as (_ & _ & _ & _ & Hid).
  exact Hid.
Defined.

Lemma getIncludedFiles_is_a_copy_witness :
  well_formed initial
  ∧ registry (snd (getIncludedFiles initial)) = registry initial.
Proof.
  assert (well_formed initial) as Hwf by (by eexists).
  split; [exact Hwf|].
  pose proof (getIncludedFiles_is_a_copy Demo.site Demo.mutual_includes initial Hwf)
    as Hcopy.
  unfold getIncludedFiles in Hcopy. cbv beta iota in Hcopy.
  destruct Hcopy as (_ & _ & _ & Hreg & _). exact Hreg.
Defined.

(** * Further properties *)

(** ** Objects: lookups after a spread *)

Section SpreadFacts.

Context {V : Type}.

Lemma own_app (a b : list (str * V)) (k : str) :
  JsObject.own (a ++ b) k
  = match JsObject.own a k with
    | Some v => Some v
    | None => JsObject.own b k
    end.
Proof.
  induction a as [|[k' v'] a IH]; cbn [app JsObject.own]; [done|].
  by destruct (str_eqb k k').
Qed.

Lemma own_fold_set (l : list (str * V)) :
  ∀ (acc : list (str * V)) (k : str),
    JsObject.own (fold_left (fun acc kv => JsObject.set (fst kv) (snd kv) acc) l acc) k
    = match JsObject.own (rev l) k with
      | Some v => Some v
      | None => JsObject.own acc k
      end.
Proof.
  induction l as [|[k0 v0] l IH]; intros acc k; cbn [fold_left rev fst snd]; [done|].
  rewrite IH, own_app. destruct (JsObject.own (rev l) k); [done|].
  cbn [JsObject.own]. destruct (str_eqb k k0) eqn:E.
  - apply str_eqb_eq in E as ->. by rewrite own_set_same.
  - by rewrite own_set_other.
Qed.

Lemma fold_set_NoDup (l : list (str * V)) :
  ∀ acc : list (str * V),
    NoDup (map fst acc) →
    NoDup (map fst (fold_left (fun acc kv => JsObject.set (fst kv) (snd kv) acc) l acc)).
Proof.
  induction l as [|kv l IH]; intros acc Hacc; cbn [fold_left]; [done|].
  apply IH. by apply set_keys_NoDup.
Qed.

Lemma own_rev_NoDup (l : list (str * V)) (k : str) :
  NoDup (map fst l) → JsObject.own (rev l) k = JsObject.own l k.
Proof.
  intros Hnd.
  assert (NoDup (map fst (rev l))) as Hnd'.
  { rewrite map_rev. by apply NoDup_ListNoDup, List.NoDup_rev, NoDup_ListNoDup. }
  destruct (JsObject.own l k) as [v|] eqn:E.
  - apply elem_own; [done|]. apply own_Some_elem in E.
    rewrite list_elem_of_In in *. by apply in_rev in E.
  - apply own_None. apply own_None in E. rewrite map_rev.
    intros Hin. apply E. rewrite list_elem_of_In in *. by apply in_rev.
Qed.

Lemma own_spread (a b : list (str * V)) (k : str) :
  JsObject.own (JsObject.spread a b) k
  = match JsObject.own (rev b) k with
    | Some v => Some v
    | None => JsObject.own (rev a) k
    end.
Proof.
  unfold JsObject.spread. rewrite !own_fold_set.
  destruct (JsObject.own (rev b) k); [done|]. by destruct (JsObject.own (rev a) k).
Qed.

Lemma spread_NoDup (a b : list (str * V)) : NoDup (map fst (JsObject.spread a b)).
Proof. unfold JsObject.spread. do 2 apply fold_set_NoDup. apply NoDup_nil_2. Qed.

(** What [{...a, ...b}] holds under a key, for objects [a] and [b]. *)
Lemma own_spread_objects (a b : list (str * V)) (k : str) :
  NoDup (map fst a) → NoDup (map fst b) →
  JsObject.own (JsObject.spread a b) k
  = match JsObject.own b k with
    | Some v => Some v
    | None => JsObject.own a k
    end.
Proof. intros Ha Hb. by rewrite own_spread, !own_rev_NoDup. Qed.

End SpreadFacts.

(** ** The sandbox: what the context can and cannot bring in *)

Section SandboxKeys.

Context (H : Host).

Lemma own_safeVariables (variables : list (str * value (num H))) :
  ∀ (acc : list (str * value (num H))) (k : str),
    JsObject.own
      (fold_left (fun acc kv =>
           if negb (is_unsafe (fst kv)) then JsObject.set (fst kv) (snd kv) acc else acc)
         variables acc) k
    = match (if is_unsafe k then None else JsObject.own (rev variables) k) with
      | Some v => Some v
      | None => JsObject.own acc k
      end.
Proof.
  induction variables as [|[k0 v0] l IH]; intros acc k; cbn [fold_left rev fst snd].
  { by destruct (is_unsafe k). }
  rewrite IH, own_app. destruct (is_unsafe k) eqn:Ek.
  - destruct (is_unsafe k0) eqn:E0; cbn [negb]; [done|].
    rewrite own_set_other; [done|].
    destruct (str_eqb k k0) eqn:E; [|done]. apply str_eqb_eq in E as ->. congruence.
  - destruct (JsObject.own (rev l) k); [done|]. cbn [JsObject.own].
    destruct (str_eqb k k0) eqn:E.
    + apply str_eqb_eq in E as ->. rewrite Ek. cbn [negb]. by rewrite own_set_same.
    + destruct (is_unsafe k0); cbn [negb]; [done|]. by rewrite own_set_other.
Qed.

Lemma safeVariables_NoDup (variables : list (str * value (num H))) :
  ∀ acc : list (str * value (num H)),
    NoDup (map fst acc) →
    NoDup (map fst
      (fold_left (fun acc kv =>
           if negb (is_unsafe (fst kv)) then JsObject.set (fst kv) (snd kv) acc else acc)
         variables acc)).
Proof.
  induction variables as [|kv l IH]; intros acc Hacc; cbn [fold_left]; [done|].
  apply IH. destruct (negb _); [|done]. by apply set_keys_NoDup.
Qed.

Lemma own_createSafeSandbox (variables : list (str * value (num H))) (k : str) :
  JsObject.own (_createSafeSandbox H variables) k
  = match JsObject.own (safeFunctions H) k with
    | Some v => Some v
    | None => if is_unsafe k then None else JsObject.own (rev variables) k
    end.
Proof.
  unfold _createSafeSandbox. cbv zeta. rewrite own_spread.
  rewrite (own_rev_NoDup (safeFunctions H)) by (apply (bool_decide_unpack _); by vm_compute).
  destruct (JsObject.own (safeFunctions H) k); [done|].
  rewrite own_rev_NoDup by (apply safeVariables_NoDup, NoDup_nil_2).
  rewrite own_safeVariables. cbn [JsObject.own].
  by destruct (if is_unsafe k then None else JsObject.own (rev variables) k).
Qed.

End SandboxKeys.

Section SandboxTheorems.

Context (H : Host).

Lemma own_sandbox (variables : list (str * value (num H))) (k : str) :
  JsObject.own (sandbox H variables) k
  = match JsObject.own (sandbox H []) k with
    | Some v => Some v
    | None => if is_unsafe k then None else JsObject.own (rev variables) k
    end.
Proof.
  unfold sandbox. rewrite !own_spread.
  destruct (JsObject.own (rev _) k) as [v|] eqn:Eo; [done|].
  rewrite !own_rev_NoDup by (unfold _createSafeSandbox; apply spread_NoDup).
  rewrite !own_createSafeSandbox.
  destruct (JsObject.own (safeFunctions H) k); [done|].
  cbn [rev app JsObject.own]. by destruct (is_unsafe k).
Qed.

Lemma is_unsafe_elem (k : str) : is_unsafe k = true ↔ k ∈ unsafeKeys.
Proof.
  unfold is_unsafe. rewrite existsb_exists. split.
  - intros (x & Hx & ->%str_eqb_eq). by apply list_elem_of_In.
  - intros Hk. exists k. split; [by apply list_elem_of_In|apply str_eqb_refl].
Qed.

(** X1.  The own properties of the object that [_evaluateExpression] hands
    to [vm.createContext], whatever the context holds: none under an
    unsafe key, the helper under each of the sixteen helper names (the
    context cannot replace one), an empty object under [console], and
    [undefined] under the seven host names withdrawn.  (This is about
    the object; what a name denotes during the evaluation, where the
    members of [Object.prototype] and the built-ins of the vm context
    are found as well, is the host's matter.) *)
Theorem sandbox_guards_its_names (variables : list (str * value (num H))) :
  (∀ k, is_unsafe k = true → JsObject.own (sandbox H variables) k = None)
  ∧ (∀ n, n ∈ map fst (safeFunctions H) →
       JsObject.own (sandbox H variables) n = Some (VFun n))
  ∧ JsObject.own (sandbox H variables) "console" = Some (VObj [])
  ∧ (∀ n, n ∈ [ list_ascii_of_string "process"; list_ascii_of_string "global";
                list_ascii_of_string "setTimeout"; list_ascii_of_string "setInterval";
                list_ascii_of_string "setImmediate"; list_ascii_of_string "Buffer";
                list_ascii_of_string "require" ] →
       JsObject.own (sandbox H variables) n = Some VUndefined).
Proof.
  split_and!.
  - intros k Hk. rewrite own_sandbox, Hk.
    apply is_unsafe_elem in Hk. unfold unsafeKeys in Hk.
    repeat (apply elem_of_cons in Hk as [->|Hk]; [by vm_compute|]).
    by apply elem_of_nil in Hk.
  - intros n Hn. rewrite own_sandbox.
    assert (map fst (safeFunctions H)
            = map list_ascii_of_string
                [ "String"; "Number"; "Boolean"; "Array"; "Date"; "Math"; "JSON";
                  "and"; "or"; "not"; "eq"; "neq"; "gt"; "lt"; "gte"; "lte" ]%string)
      as E by done.
    rewrite E in Hn. cbn [map] in Hn.
    repeat (apply elem_of_cons in Hn as [->|Hn]; [by vm_compute|]).
    by apply elem_of_nil in Hn.
  - rewrite own_sandbox. by vm_compute.
  - intros n Hn. rewrite own_sandbox.
    repeat (apply elem_of_cons in Hn as [->|Hn]; [by vm_compute|]).
    by apply elem_of_nil in Hn.
Qed.

(** X2.  Every other variable of the context reaches the sandbox with its
    value: a key that is not unsafe and is not bound in the sandbox of
    the empty context. *)
Theorem sandbox_passes_safe_variables
    (variables : list (str * value (num H))) (k : str) :
  NoDup (map fst variables) →
  is_unsafe k = false →
  JsObject.own (sandbox H []) k = None →
  JsObject.own (sandbox H variables) k = JsObject.own variables k.
Proof.
  intros Hnd Hk Hfree. by rewrite own_sandbox, Hfree, Hk, own_rev_NoDup.
Qed.

Lemma str_eqb_app (p a b : str) : str_eqb (p ++ a) (p ++ b) = str_eqb a b.
Proof.
  induction p as [|x p IH]; [done|]. cbn [app str_eqb]. by rewrite Ascii.eqb_refl.
Qed.

Lemma str_eqb_app_nil (p a : str) : str_eqb p (p ++ a) = str_eqb [] a.
Proof. by rewrite <- (app_nil_r p) at 1; rewrite str_eqb_app. Qed.

Lemma str_eqb_app_nil_l (p a : str) : str_eqb (p ++ a) p = str_eqb a [].
Proof. by rewrite <- (app_nil_r p) at 2; rewrite str_eqb_app. Qed.

Lemma str_eqb_false (a b : str) : a ≠ b → str_eqb a b = false.
Proof.
  intros Hne. destruct (str_eqb a b) eqn:E; [|done]. by apply str_eqb_eq in E.
Qed.

(** The names a simple loop binds in an iteration. *)
Lemma own_loopVariables_simple
    (variables : list (str * value (num H))) (x : str) (i total : nat)
    (key value : value (num H)) (k : str) :
  JsObject.own (loopVariables H variables x None i total key value) k
  = if str_eqb k (x ++ "_isLast") then Some (VBool (S i =? total))
    else if str_eqb k (x ++ "_isFirst") then Some (VBool (i =? 0))
    else if str_eqb k (x ++ "_index") then Some (VNum (num_of_nat H i))
    else if str_eqb k x then Some value
    else JsObject.own (rev variables) k.
Proof.
  unfold loopVariables. cbn [bool_decide decide_rel]. rewrite own_spread.
  cbn [rev app JsObject.own].
  replace (bool_decide (is_Some (@None str))) with false; [|done].
  by repeat destruct (str_eqb k _).
Qed.

(** X3.  In iteration [i] of [total] of a loop over [x], [x] is the item,
    [x_index] is [i], [x_isFirst] and [x_isLast] tell the first and the
    last iteration, and every other variable of the context keeps its
    value; in a loop over [x, y], [x] is the key and [y] the value. *)
Theorem loopVariables_binds
    (variables : list (str * value (num H))) (x : str) (i total : nat)
    (key value : value (num H)) :
  NoDup (map fst variables) →
  (let inner := loopVariables H variables x None i total key value in
   JsObject.own inner x = Some value
   ∧ JsObject.own inner (x ++ "_index") = Some (VNum (num_of_nat H i))
   ∧ JsObject.own inner (x ++ "_isFirst") = Some (VBool (i =? 0))
   ∧ JsObject.own inner (x ++ "_isLast") = Some (VBool (S i =? total))
   ∧ ∀ k, k ∉ [x; x ++ "_index"; x ++ "_isFirst"; x ++ "_isLast"] →
          JsObject.own inner k = JsObject.own variables k)
  ∧ ∀ y, y ∉ [x; x ++ "_index"; x ++ "_isFirst"; x ++ "_isLast"] →
      let inner := loopVariables H variables x (Some y) i total key value in
      JsObject.own inner x = Some key
      ∧ JsObject.own inner y = Some value
      ∧ JsObject.own inner (x ++ "_index") = Some (VNum (num_of_nat H i))
      ∧ ∀ k, k ∉ [x; y; x ++ "_index"; x ++ "_isFirst"; x ++ "_isLast"] →
             JsObject.own inner k = JsObject.own variables k.
Proof.
  intros Hnd.
  assert (∀ a b : str, str_eqb (x ++ a) (x ++ b) = str_eqb a b) as Happ
    by (intros; apply str_eqb_app).
  split.
  - cbv zeta. split_and!.
    + rewrite own_loopVariables_simple, !str_eqb_app_nil, str_eqb_refl. done.
    + rewrite own_loopVariables_simple, !Happ. done.
    + rewrite own_loopVariables_simple, !Happ. done.
    + rewrite own_loopVariables_simple, !Happ. done.
    + intros k Hk. rewrite own_loopVariables_simple.
      rewrite !not_elem_of_cons in Hk. destruct Hk as (H1 & H2 & H3 & H4 & _).
      rewrite !str_eqb_false by done. by apply own_rev_NoDup.
  - intros y Hy. cbv zeta.
    rewrite !not_elem_of_cons in Hy. destruct Hy as (H1 & H2 & H3 & H4 & _).
    assert (∀ k, JsObject.own (loopVariables H variables x (Some y) i total key value) k
                 = if str_eqb k y then Some value
                   else if str_eqb k (x ++ "_isLast") then Some (VBool (S i =? total))
                   else if str_eqb k (x ++ "_isFirst") then Some (VBool (i =? 0))
                   else if str_eqb k (x ++ "_index") then Some (VNum (num_of_nat H i))
                   else if str_eqb k x then Some key
                   else JsObject.own (rev variables) k) as Hown.
    { intros k. unfold loopVariables. destruct (str_eqb k y) eqn:E.
      - apply str_eqb_eq in E as ->. by rewrite own_set_same.
      - rewrite own_set_other by done. rewrite own_spread.
        cbn [rev app JsObject.own].
        replace (bool_decide (is_Some (Some y))) with true; [|done].
        by repeat destruct (str_eqb k _). }
    split_and!.
    + rewrite Hown, !str_eqb_app_nil, str_eqb_refl.
      by rewrite (str_eqb_false x y) by done.
    + by rewrite Hown, str_eqb_refl.
    + rewrite Hown, !Happ. by rewrite (str_eqb_false _ y) by done.
    + intros k Hk. rewrite Hown.
      rewrite !not_elem_of_cons in Hk. destruct Hk as (K1 & K2 & K3 & K4 & K5 & _).
      rewrite !str_eqb_false by done. by apply own_rev_NoDup.
Qed.

End SandboxTheorems.

(** ** Paths into the context *)

Section PathFacts.

Context (H : Host).

Lemma getValueByPath_undefined (keys : list str) :
  fold_left (fun (current : value (num H)) key =>
      match current with
      | VUndefined | VNull => VUndefined
      | _ => if is_unsafe key then VUndefined else own_value H current key
      end) keys VUndefined = VUndefined.
Proof. induction keys as [|key keys IH]; [done|]. by cbn [fold_left]. Qed.

(** X4.  A path with an unsafe segment yields [undefined], whatever the
    object holds there and whatever follows the segment. *)
Theorem getValueByPath_stops_at_unsafe_key (o : value (num H)) (path key : str) :
  key ∈ split_on "." path → is_unsafe key = true →
  _getValueByPath H o path = VUndefined.
Proof.
  unfold _getValueByPath. generalize (split_on "." path). intros keys Hin Hk.
  revert o. induction keys as [|k keys IH]; intros o; [by apply elem_of_nil in Hin|].
  cbn [fold_left]. apply elem_of_cons in Hin as [<-|Hin].
  - rewrite Hk. destruct o; apply getValueByPath_undefined.
  - by apply IH.
Qed.

Lemma split_on_plain (c : ascii) (s : str) : c ∉ s → split_on c s = [s].
Proof.
  induction s as [|x s IH]; intros Hc; [done|]. cbn [split_on].
  apply not_elem_of_cons in Hc as [Hx Hs].
  destruct (Ascii.eqb x c) eqn:E; [by apply Ascii.eqb_eq in E|].
  by rewrite IH.
Qed.

Lemma split_on_app (c : ascii) (a b : str) :
  c ∉ a → split_on c (a ++ c :: b) = a :: split_on c b.
Proof.
  induction a as [|x a IH]; intros Hc; cbn [app split_on].
  - by rewrite Ascii.eqb_refl.
  - apply not_elem_of_cons in Hc as [Hx Hs].
    destruct (Ascii.eqb x c) eqn:E; [by apply Ascii.eqb_eq in E|].
    by rewrite IH.
Qed.

(** The segments of a dotted path are looked up one after the other as
    own properties: splitting undoes the joining of segments that hold
    no dot. *)
Lemma split_on_join (c : ascii) (keys : list str) :
  keys ≠ [] → Forall (fun key => c ∉ key) keys →
  split_on c (JsString.join [c] keys) = keys.
Proof.
  intros Hne Hall. induction Hall as [|key keys Hkey Hall IH]; [done|].
  destruct keys as [|key' keys'].
  - cbn [JsString.join]. by apply split_on_plain.
  - change (JsString.join [c] (key :: key' :: keys'))
      with (key ++ c :: JsString.join [c] (key' :: keys')).
    rewrite split_on_app by done. by rewrite IH.
Qed.

(** X5.  [{{a.b}}]: the own property [b] of the object that the context
    holds under [a]; [undefined] when [a] is not an object of the
    context with that property (no exception on the way).  A string
    under [a] is taken with ASCII characters only, so that its length
    and its characters are those of its bytes. *)
Theorem getValueByPath_own_properties
    (variables : list (str * value (num H))) (a b : str) :
  "."%char ∉ a → "."%char ∉ b → is_unsafe a = false → is_unsafe b = false →
  (∀ s, JsObject.own variables a = Some (VStr s) → ascii_only s) →
  _getValueByPath H (VObj variables) (a ++ "." ++ b)
  = match JsObject.own variables a with
    | Some (VObj props) => default VUndefined (JsObject.own props b)
    | Some (VArr items) => own_value H (VArr items) b
    | Some (VStr s) => own_value H (VStr s) b
    | Some (VFun f) => fun_own H f b
    | _ => VUndefined
    end.
Proof.
  intros Ha Hb Hsa Hsb _. unfold _getValueByPath.
  change (a ++ list_ascii_of_string "." ++ b) with (a ++ "."%char :: b).
  rewrite split_on_app, split_on_plain by done.
  cbn [fold_left own_value]. rewrite Hsa, Hsb.
  by destruct (JsObject.own variables a) as [[]|].
Qed.

End PathFacts.

(** ** The doctype *)

Section DoctypeFacts.
Import Blocks.

Lemma trim_start_app (a b : str) (y : ascii) (b' : str) :
  b = y :: b' → is_space y = false → trim_start (a ++ b) = trim_start a ++ b.
Proof.
  intros -> Hy. induction a as [|x a IH]; cbn [app trim_start].
  - by rewrite Hy.
  - by destruct (is_space x).
Qed.

Lemma starts_with_app (q a b : str) :
  starts_with q a = true → starts_with q (a ++ b) = true.
Proof.
  revert a. induction q as [|x q IH]; intros [|y a]; cbn [app]; try done.
  rewrite !starts_with_cons. intros [-> Hq]%andb_prop. by rewrite IH.
Qed.

Lemma trim_doctype (html : str) :
  ∃ t, trim ("<!DOCTYPE html>" ++ ["010"%char] ++ html) = "<!DOCTYPE html>" ++ t.
Proof.
  unfold trim.
  change (trim_start (list_ascii_of_string "<!DOCTYPE html>" ++ ["010"%char] ++ html))
    with (list_ascii_of_string "<!DOCTYPE html>" ++ ["010"%char] ++ html).
  rewrite rev_app_distr.
  erewrite trim_start_app; [|by vm_compute|done].
  rewrite rev_app_distr, rev_involutive. by eexists.
Qed.

(** X6.  For a page whose first character after the ASCII white space is an
    ASCII character (so that no other white space stands before its
    text): the text [_ensureDoctypeFirst] returns begins, white space
    and case apart, with a doctype; it ends with the text given, and a
    second application changes nothing. *)
Theorem ensureDoctypeFirst_puts_doctype_first (html : str) :
  (∀ c rest, trim_start html = c :: rest → is_ascii c = true) →
  starts_with "<!doctype" (toLowerCase (trim (_ensureDoctypeFirst html))) = true
  ∧ html `suffix_of` _ensureDoctypeFirst html
  ∧ _ensureDoctypeFirst (_ensureDoctypeFirst html) = _ensureDoctypeFirst html.
Proof.
  intros _.
  assert (starts_with "<!doctype" (toLowerCase (trim (_ensureDoctypeFirst html))) = true)
    as Hfirst.
  { unfold _ensureDoctypeFirst.
    destruct (starts_with "<!doctype" (toLowerCase (trim html))) eqn:E; [done|].
    destruct (trim_doctype html) as [t ->]. unfold toLowerCase. rewrite map_app.
    by apply starts_with_app. }
  split; [done|]. split.
  - clear Hfirst. unfold _ensureDoctypeFirst. destruct (starts_with _ _); [by exists []|].
    rewrite app_assoc. by eexists.
  - unfold _ensureDoctypeFirst at 1. by rewrite Hfirst.
Qed.

End DoctypeFacts.

(** ** Texts without an opening bracket *)

Lemma not_elem_suffix (c : ascii) (s s' : str) : c ∉ s → s' `suffix_of` s → c ∉ s'.
Proof. intros Hc [pre ->] Hin. apply Hc, elem_of_app. by right. Qed.

Lemma needs_chr (c : ascii) : needs c (chr c).
Proof.
  intros [|y s] cps k Hc; [done|]. cbn [exec chr].
  destruct (Ascii.eqb c y) eqn:E; [|done].
  apply Ascii.eqb_eq in E as ->. destruct Hc. by left.
Qed.

Lemma upcase_bracket (y : ascii) :
  Ascii.eqb (upcase "[") (upcase y) = Ascii.eqb "[" y.
Proof. destruct y as [[] [] [] [] [] [] [] []]; by vm_compute. Qed.

Lemma needs_chr_i_bracket : needs "[" (chr_i "[").
Proof.
  intros [|y s] cps k Hc; [done|]. cbn [exec chr_i]. rewrite upcase_bracket.
  destruct (Ascii.eqb "[" y) eqn:E; [|done].
  apply Ascii.eqb_eq in E as <-. destruct Hc. by left.
Qed.

Lemma needs_seq_l (c : ascii) (a b : re) : needs c a → needs c (Seq a b).
Proof. intros Ha s cps k Hc. cbn [exec]. by apply Ha. Qed.

Lemma needs_seq_r (c : ascii) (a b : re) : needs c b → needs c (Seq a b).
Proof.
  intros Hb s cps k Hc. cbn [exec]. apply exec_none. intros s' c' Hs'.
  apply Hb. by eapply not_elem_suffix.
Qed.

Lemma needs_alt (c : ascii) (a b : re) : needs c a → needs c b → needs c (Alt a b).
Proof. intros Ha Hb s cps k Hc. cbn [exec]. rewrite Ha by done. by apply Hb. Qed.

Lemma needs_run (c : ascii) (r : re) (s : str) : needs c r → c ∉ s → run r s = None.
Proof. intros Hr Hc. unfold run. by rewrite Hr. Qed.

Lemma needs_search (c : ascii) (r : re) (s : str) :
  needs c r → c ∉ s → search r s = None.
Proof.
  intros Hr. induction s as [|x s IH]; intros Hc; cbn [search].
  - by rewrite (needs_run c).
  - rewrite (needs_run c) by done. rewrite IH; [done|].
    by apply not_elem_of_cons in Hc as [_ ?].
Qed.

Lemma needs_matchAll (c : ascii) (r : re) (s : str) :
  needs c r → c ∉ s → matchAll r s = [].
Proof.
  intros Hr. unfold matchAll.
  enough (∀ pos, c ∉ s → matches_from r 0 pos s = []) by auto.
  induction s as [|x s IH]; intros pos Hc; cbn [matches_from].
  - by rewrite (needs_run c).
  - rewrite (needs_run c) by done. apply IH.
    by apply not_elem_of_cons in Hc as [_ ?].
Qed.

Lemma needs_replace_fold {St : Type} (c : ascii) (r : re)
    (f : str → found → St → str * St) :
  needs c r → ∀ s before st, c ∉ s → replace_fold r f 0 before s st = (s, st).
Proof.
  intros Hr s. induction s as [|x s IH]; intros before st Hc; cbn [replace_fold].
  - by rewrite (needs_run c).
  - rewrite (needs_run c) by done. rewrite IH; [done|].
    by apply not_elem_of_cons in Hc as [_ ?].
Qed.

Lemma needs_replace (c : ascii) (r : re) (f : found → str) (s : str) :
  needs c r → c ∉ s → replace r f s = s.
Proof. intros. unfold replace. by erewrite needs_replace_fold. Qed.

Lemma needs_templateTagRegex : needs "[" templateTagRegex.
Proof. apply needs_alt; do 2 apply needs_seq_l; apply needs_chr. Qed.

Lemma needs_includeRegex : needs "[" includeRegex.
Proof.
  apply needs_alt.
  - apply needs_seq_r. do 2 apply needs_seq_l. apply needs_chr_i_bracket.
  - do 2 apply needs_seq_l. apply needs_chr_i_bracket.
Qed.

Lemma needs_extendsRegex : needs "[" extendsRegex.
Proof. do 2 apply needs_seq_l. apply needs_chr. Qed.

(** A replacement by the empty text only removes characters. *)
Lemma replace_fold_deletes {St : Type} (r : re) (f : str → found → St → str * St) :
  (∀ before m st, fst (f before m st) = []) →
  ∀ s skip before st, fst (replace_fold r f skip before s st) `sublist_of` s.
Proof.
  intros Hf s. induction s as [|x s IH]; intros skip before st.
  - destruct skip; cbn [replace_fold]; [|done].
    destruct (run r []) as [m|]; [|done].
    specialize (Hf before m st). destruct (f before m st) as [out st1].
    cbn [fst] in *. by rewrite Hf.
  - destruct skip as [|skip]; cbn [replace_fold].
    + destruct (run r (x :: s)) as [m|].
      * specialize (Hf before m st). destruct (f before m st) as [out st1].
        cbn [fst] in Hf. subst out.
        specialize (IH (length (m_text m) - 1) (before ++ [x]) st1).
        destruct (replace_fold r f _ _ s st1) as [rest st2]. cbn [fst app] in *.
        destruct (length (m_text m) =? 0); cbn [app].
        -- by apply sublist_skip.
        -- by apply sublist_cons.
      * specialize (IH 0 (before ++ [x]) st).
        destruct (replace_fold r f 0 _ s st) as [rest st1]. cbn [fst] in *.
        by apply sublist_skip.
    + apply sublist_cons, IH.
Qed.

Lemma cleanTemplateTags_identity (html : str) :
  "["%char ∉ html → Blocks._cleanTemplateTags html = html.
Proof.
  intros Hc. unfold Blocks._cleanTemplateTags.
  by apply (needs_replace "["); [apply needs_templateTagRegex|].
Qed.

(** X7.  [_cleanTemplateTags] only removes characters, and removes none from a
    text without an opening bracket. *)
Theorem cleanTemplateTags_only_removes (html : str) :
  Blocks._cleanTemplateTags html `sublist_of` html
  ∧ ("["%char ∉ html → Blocks._cleanTemplateTags html = html).
Proof.
  split.
  - unfold Blocks._cleanTemplateTags, replace. by apply replace_fold_deletes.
  - apply cleanTemplateTags_identity.
Qed.

Section IncludesPlain.

Variable CWD : str.
Variable files : gmap str str.

Lemma processIncludes_no_bracket
    (depth : nat) (content currentFile : str) (inclusionStack : gset str) (st : state) :
  "["%char ∉ content →
  processIncludes CWD files (S depth) content currentFile inclusionStack st
  = Some (content, st, []).
Proof.
  intros Hc. rewrite processIncludes_step. unfold include_matches.
  by rewrite (needs_matchAll "[") by (apply needs_includeRegex || done).
Qed.

(** X8.  A text without an opening bracket has no include directive:
    [processIncludes] returns it as it is, reads no file, writes no
    warning and leaves the registry alone, whatever the current file and
    the inclusion stack. *)
Theorem processIncludes_without_bracket
    (depth : nat) (content currentFile : str) (inclusionStack : gset str) (st : state) :
  "["%char ∉ content →
  processIncludes CWD files (S depth) content currentFile inclusionStack st
  = Some (content, st, []).
Proof. apply processIncludes_no_bracket. Qed.

End IncludesPlain.

(** ** The validator on well-nested templates *)

Section NestedFacts.
Import Validator.

Lemma lookup_at (pre : str) (x : ascii) (rest : str) :
  (pre ++ x :: rest) !! length pre = Some x.
Proof. by rewrite list_lookup_middle. Qed.

Lemma startsWith_at (pre rest p : str) :
  startsWith (pre ++ rest) p (length pre) = starts_with p rest.
Proof. unfold startsWith. by rewrite drop_app_length. Qed.

Lemma indexOf_at (pre rest p : str) :
  indexOf (pre ++ rest) p (length pre) = (fun k => length pre + k) <$> find_from p rest.
Proof. unfold indexOf. by rewrite drop_app_length. Qed.

Lemma find_from_char (c : ascii) (a rest : str) :
  c ∉ a → find_from [c] (a ++ c :: rest) = Some (length a).
Proof.
  induction a as [|x a IH]; intros Hc; rewrite find_from_unfold; cbn [app].
  - by rewrite starts_with_cons, Ascii.eqb_refl.
  - apply not_elem_of_cons in Hc as [Hx Ha]. rewrite starts_with_cons.
    destruct (Ascii.eqb c x) eqn:E; [by apply Ascii.eqb_eq in E|].
    cbn [andb]. by rewrite IH.
Qed.

Lemma find_from_char_None (c : ascii) (a : str) : c ∉ a → find_from [c] a = None.
Proof.
  induction a as [|x a IH]; intros Hc; rewrite find_from_unfold; [done|].
  apply not_elem_of_cons in Hc as [Hx Ha]. rewrite starts_with_cons.
  destruct (Ascii.eqb c x) eqn:E; [by apply Ascii.eqb_eq in E|].
  cbn [andb]. by rewrite IH.
Qed.

Lemma slice_at (pre mid rest : str) :
  slice (pre ++ mid ++ rest) (length pre) (length pre + length mid) = mid.
Proof.
  unfold slice. rewrite drop_app_length.
  replace (length pre + length mid - length pre) with (length mid) by lia.
  by rewrite take_app_length.
Qed.

Lemma filter_none {A : Type} (P : A → Prop) `{∀ x, Decision (P x)} (l : list A) :
  (∀ x, x ∈ l → ¬ P x) → filter P l = [].
Proof.
  induction l as [|x l IH]; intros Hl; [done|].
  rewrite filter_cons_False by (apply Hl; by left).
  apply IH. intros y Hy. apply Hl. by right.
Qed.

(** A tag with a good name, read at its place. *)
Lemma parseTag_good (pre raw rest : str) (t : ascii) (o : bool) (line : nat) :
  good_name raw → t ≠ "]"%char →
  parseTag (pre ++ "["%char :: t :: raw ++ "]"%char :: rest) (length pre) o line
  = TagName (trim raw) (length pre + 2 + length raw).
Proof.
  intros (_ & Hne & Hgood) Ht. unfold parseTag.
  assert ("]"%char ∉ raw) as Hraw.
  { intros Hin. rewrite Forall_forall in Hgood. apply (Hgood _ Hin).
    by apply (bool_decide_unpack _). }
  rewrite indexOf_at.
  change (list_ascii_of_string "]") with ["]"%char].
  change ("["%char :: t :: raw ++ "]"%char :: rest)
    with (("["%char :: t :: raw) ++ "]"%char :: rest).
  rewrite find_from_char.
  2: { rewrite !not_elem_of_cons. split_and!; try done. }
  cbn [fmap option_fmap option_map length].
  replace (length pre + S (S (length raw))) with (length pre + 2 + length raw) by lia.
  assert (slice (pre ++ ("["%char :: t :: raw) ++ "]"%char :: rest)
            (length pre + 2) (length pre + 2 + length raw) = raw) as ->.
  { change (pre ++ ("["%char :: t :: raw) ++ "]"%char :: rest)
      with (pre ++ ["["%char; t] ++ raw ++ "]"%char :: rest).
    rewrite app_assoc.
    replace (length pre + 2) with (length (pre ++ ["["%char; t]))
      by (rewrite length_app; cbn [length]; lia).
    apply slice_at. }
  destruct (length (trim raw) =? 0) eqn:E.
  { apply Nat.eqb_eq in E. by destruct (trim raw). }
  rewrite filter_none; [done|].
  intros c Hc Hinc. unfold includes in Hinc.
  destruct (decide (c ∈ raw)) as [Hin|Hnin].
  - rewrite Forall_forall in Hgood. by apply (Hgood _ Hin).
  - by rewrite find_from_char_None in Hinc.
Qed.

Lemma starts_with_two (a b c : ascii) (s post : str) :
  (post = [] ∨ ∃ post', post = "["%char :: post') →
  b ≠ "["%char →
  starts_with [a; b] (c :: s ++ post) = starts_with [a; b] (c :: s).
Proof.
  intros Hpost Hb. rewrite !starts_with_cons. destruct (Ascii.eqb a c); [|done].
  cbn [andb]. destruct s as [|x s]; cbn [app]; [|by rewrite !starts_with_cons].
  destruct Hpost as [->|[post' ->]]; [done|].
  rewrite starts_with_cons. destruct (Ascii.eqb b "[") eqn:E; [|done].
  by apply Ascii.eqb_eq in E.
Qed.

(** The scan over a well-nested part of the text leaves the stack and
    the errors as they were. *)
Lemma scan_nested (doc : str) :
  nested doc →
  ∀ (content pre post : str) (line : nat) (stack : list (str * nat))
    (errors : list tag_error) (b : nat),
    content = pre ++ doc ++ post →
    (post = [] ∨ ∃ post', post = "["%char :: post') →
    length doc + length post ≤ b →
    ∃ line' b',
      length post ≤ b'
      ∧ scan b content (length pre) line stack errors
        = scan b' content (length pre + length doc) line' stack errors.
Proof.
  induction 1 as [|c s Hopen Hclose Hs IH
                  |raw raw' body s Hraw Hraw' Hsame Hbody IHbody Hs IHs];
    intros content pre post line stack errors b Hcontent Hpost Hb.
  - exists line, b. cbn [app length] in *. by rewrite Nat.add_0_r.
  - destruct b as [|b]; [cbn [length] in Hb; lia|]. cbn [scan].
    assert (content !! length pre = Some c) as -> by (subst content; apply lookup_at).
    set (line1 := if Ascii.eqb c "010" then S line else line).
    assert (startsWith content "[!" (length pre) = false) as ->.
    { subst content. rewrite startsWith_at.
      change (list_ascii_of_string "[!") with ["["%char; "!"%char] in *.
      cbn [app]. by rewrite starts_with_two. }
    assert (startsWith content "[~" (length pre) = false) as ->.
    { subst content. rewrite startsWith_at.
      change (list_ascii_of_string "[~") with ["["%char; "~"%char] in *.
      cbn [app]. by rewrite starts_with_two. }
    destruct (IH content (pre ++ [c]) post line1 stack errors b)
      as (line' & b' & Hb' & E).
    + subst content. by rewrite <- app_assoc.
    + done.
    + cbn [length] in Hb. lia.
    + exists line', b'. split; [done|].
      rewrite length_app in E. cbn [length] in *.
      replace (length pre + S (length s)) with (length pre + 1 + length s) by lia.
      by replace (S (length pre)) with (length pre + 1) by lia.
  - change (list_ascii_of_string "[!") with ["["%char; "!"%char] in *.
    change (list_ascii_of_string "[~") with ["["%char; "~"%char] in *.
    change (list_ascii_of_string "]") with ["]"%char] in *.
    cbn [app] in *.
    repeat (rewrite length_app in Hb || cbn [length] in Hb).
    set (post1 := "["%char :: "~"%char :: raw' ++ "]"%char :: s ++ post).
    assert (content = pre ++ "["%char :: "!"%char :: raw ++ "]"%char :: body ++ post1)
      as E1.
    { subst content post1. by repeat (rewrite <- !app_assoc; cbn [app]). }
    assert (content = (pre ++ "["%char :: "!"%char :: raw ++ ["]"%char]) ++ body ++ post1)
      as E2.
    { rewrite E1. by repeat (rewrite <- !app_assoc; cbn [app]). }
    assert (content = (pre ++ "["%char :: "!"%char :: raw ++ "]"%char :: body)
                      ++ "["%char :: "~"%char :: raw' ++ "]"%char :: s ++ post) as E3.
    { rewrite E1. subst post1. by repeat (rewrite <- !app_assoc; cbn [app]). }
    assert (content = (pre ++ "["%char :: "!"%char :: raw ++ "]"%char :: body
                       ++ "["%char :: "~"%char :: raw' ++ ["]"%char]) ++ s ++ post) as E4.
    { rewrite E1. subst post1. by repeat (rewrite <- !app_assoc; cbn [app]). }
    (* the open tag *)
    destruct b as [|b]; [lia|]. cbn [scan].
    assert (content !! length pre = Some "["%char) as ->
      by (rewrite E1; apply lookup_at).
    change (Ascii.eqb "[" "010") with false. cbv iota.
    assert (startsWith content "[!" (length pre) = true) as ->.
    { rewrite E1, startsWith_at. done. }
    assert (parseTag content (length pre) true line
            = TagName (trim raw) (length pre + 2 + length raw)) as ->.
    { rewrite E1. by apply parseTag_good. }
    (* the body *)
    destruct (IHbody content (pre ++ "["%char :: "!"%char :: raw ++ ["]"%char]) post1
                line (stack ++ [(trim raw, line)]) errors b)
      as (line1 & b1 & Hb1 & Ebody).
    { done. }
    { right. by eexists. }
    { subst post1. repeat (rewrite length_app || cbn [length]). lia. }
    replace (length (pre ++ "["%char :: "!"%char :: raw ++ ["]"%char]))
      with (S (length pre + 2 + length raw)) in Ebody
      by (repeat (rewrite length_app || cbn [length]); lia).
    rewrite Ebody. clear Ebody.
    (* the close tag *)
    subst post1. repeat (rewrite length_app in Hb1 || cbn [length] in Hb1).
    destruct b1 as [|b1]; [lia|]. cbn [scan].
    replace (S (length pre + 2 + length raw) + length body)
      with (length (pre ++ "["%char :: "!"%char :: raw ++ "]"%char :: body))
      by (repeat (rewrite length_app || cbn [length]); lia).
    assert (content !! length (pre ++ "["%char :: "!"%char :: raw ++ "]"%char :: body)
            = Some "["%char) as -> by (rewrite E3 at 1; apply lookup_at).
    change (Ascii.eqb "[" "010") with false. cbv iota.
    assert (startsWith content "[!"
              (length (pre ++ "["%char :: "!"%char :: raw ++ "]"%char :: body)) = false)
      as ->.
    { rewrite E3 at 1. rewrite startsWith_at. done. }
    assert (startsWith content "[~"
              (length (pre ++ "["%char :: "!"%char :: raw ++ "]"%char :: body)) = true)
      as ->.
    { rewrite E3 at 1. rewrite startsWith_at. done. }
    assert (parseTag content
              (length (pre ++ "["%char :: "!"%char :: raw ++ "]"%char :: body)) false line1
            = TagName (trim raw')
                (length (pre ++ "["%char :: "!"%char :: raw ++ "]"%char :: body)
                 + 2 + length raw')) as ->.
    { rewrite E3 at 1. by apply parseTag_good. }
    unfold close_tag. rewrite last_snoc. cbn [fst].
    rewrite Hsame, str_eqb_refl, removelast_last, app_nil_r.
    (* what follows the block *)
    destruct (IHs content
                (pre ++ "["%char :: "!"%char :: raw ++ "]"%char :: body
                 ++ "["%char :: "~"%char :: raw' ++ ["]"%char]) post
                line1 stack errors b1)
      as (line2 & b2 & Hb2 & Es).
    { done. }
    { done. }
    { lia. }
    exists line2, b2. split; [done|].
    replace (S (length (pre ++ "["%char :: "!"%char :: raw ++ "]"%char :: body)
                + 2 + length raw'))
      with (length (pre ++ "["%char :: "!"%char :: raw ++ "]"%char :: body
                    ++ "["%char :: "~"%char :: raw' ++ ["]"%char]))
      by (repeat (rewrite length_app || cbn [length]); lia).
    rewrite Es. f_equal.
    repeat (rewrite length_app || cbn [length]). lia.
Qed.

(** A well-nested template has no structure error. *)
Lemma structure_errors_nested (content : str) :
  nested content → structure_errors content = [].
Proof.
  intros Hn. unfold structure_errors.
  destruct (scan_nested content Hn content [] [] 1 [] [] (length content))
    as (line' & b' & _ & E).
  - by rewrite app_nil_r.
  - by left.
  - cbn [length]. lia.
  - cbn [length] in E. rewrite E.
    assert (scan b' content (0 + length content) line' [] [] = ([], [])) as ->; [|done].
    destruct b'; cbn [scan]; [done|].
    by rewrite (proj2 (lookup_ge_None content (0 + length content))) by lia.
Qed.

End NestedFacts.

(** ** Rendering a template file *)

Section MatcherSteps.

(** A repetition over a class of characters where the text does not
    go on in the class. *)
Lemma star_stops (p : ascii → bool) (greedy : bool) (s : str) (c : caps)
    (k : str → caps → option (str * caps)) :
  (∀ x s', s = x :: s' → p x = false) →
  exec (Star greedy (Chr p)) s c k = k s c.
Proof.
  intros Hs. cbn [exec]. destruct s as [|x s']; [done|].
  cbn [length star_loop exec]. rewrite (Hs x s' eq_refl).
  destruct greedy; [done|]. by destruct (k (x :: s') c).
Qed.

Lemma star_loop_greedy (p : ascii → bool) (a b : str) (v : str * caps)
    (k : str → caps → option (str * caps)) :
  ∀ (n : nat) (c : caps),
    Forall (fun y => p y = true) a → length a ≤ n →
    (∀ x b', b = x :: b' → p x = false) →
    k b c = Some v →
    star_loop (exec (Chr p)) true k n (a ++ b) c = Some v.
Proof.
  induction a as [|y a IH]; intros n c Ha Hn Hb Hk; cbn [app].
  - destruct n as [|n]; cbn [star_loop]; [done|].
    destruct b as [|x b']; cbn [exec]; [by rewrite Hk|].
    by rewrite (Hb x b' eq_refl), Hk.
  - destruct n as [|n]; [cbn [length] in Hn; lia|].
    apply Forall_cons in Ha as [Hy Ha]. cbn [star_loop exec]. rewrite Hy.
    cbn [length]. replace (length (a ++ b) <? S (length (a ++ b))) with true
      by (symmetry; apply Nat.ltb_lt; lia).
    rewrite IH; [done|done| |done|done]. cbn [length] in Hn. lia.
Qed.

Lemma star_greedy (p : ascii → bool) (a b : str) (c : caps) (v : str * caps)
    (k : str → caps → option (str * caps)) :
  Forall (fun y => p y = true) a →
  (∀ x b', b = x :: b' → p x = false) →
  k b c = Some v →
  exec (Star true (Chr p)) (a ++ b) c k = Some v.
Proof.
  intros Ha Hb Hk. cbn [exec]. apply star_loop_greedy; try done.
  rewrite length_app. lia.
Qed.

Lemma star_loop_lazy (p : ascii → bool) (b : str) (c : caps) (v : str * caps)
    (k : str → caps → option (str * caps)) :
  ∀ (a : str) (n : nat),
    Forall (fun y => p y = true) a → length a ≤ n →
    (∀ a1 x a2, a = a1 ++ x :: a2 → k (x :: a2 ++ b) c = None) →
    k b c = Some v →
    star_loop (exec (Chr p)) false k n (a ++ b) c = Some v.
Proof.
  induction a as [|y a IH]; intros n Ha Hn Hfail Hk; cbn [app].
  - destruct n as [|n]; cbn [star_loop]; by rewrite Hk.
  - destruct n as [|n]; [cbn [length] in Hn; lia|].
    apply Forall_cons in Ha as [Hy Ha]. cbn [star_loop exec].
    rewrite (Hfail [] y a eq_refl), Hy. cbn [length].
    replace (length (a ++ b) <? S (length (a ++ b))) with true
      by (symmetry; apply Nat.ltb_lt; lia).
    apply IH; [done| |  |done].
    + cbn [length] in Hn. lia.
    + intros a1 x a2 ->. by apply (Hfail (y :: a1) x a2).
Qed.

Lemma exec_lit_app (p s : str) (c : caps) (k : str → caps → option (str * caps)) :
  exec (lit p) (p ++ s) c k = k s c.
Proof.
  induction p as [|x p IH]; [done|]. cbn [lit app exec chr].
  by rewrite Ascii.eqb_refl.
Qed.

Lemma exec_lit_i_app (p s : str) (c : caps) (k : str → caps → option (str * caps)) :
  exec (lit_i p) (p ++ s) c k = k s c.
Proof.
  induction p as [|x p IH]; [done|]. cbn [lit_i app exec chr_i].
  by rewrite Ascii.eqb_refl.
Qed.

Lemma exec_chr_cons (p : ascii → bool) (x : ascii) (s : str) (c : caps)
    (k : str → caps → option (str * caps)) :
  exec (Chr p) (x :: s) c k = if p x then k s c else None.
Proof. done. Qed.

Lemma exec_grp (n : nat) (a : re) (s : str) (c : caps)
    (k : str → caps → option (str * caps)) :
  exec (Grp n a) s c k
  = exec a s c (fun s' c' => k s' (cap_set n (take (length s - length s') s) c')).
Proof. done. Qed.

Lemma exec_star (greedy : bool) (a : re) (s : str) (c : caps)
    (k : str → caps → option (str * caps)) :
  exec (Star greedy a) s c k = star_loop (exec a) greedy k (length s) s c.
Proof. done. Qed.

Lemma exec_seq (a b : re) (s : str) (c : caps) (k : str → caps → option (str * caps)) :
  exec (Seq a b) s c k = exec a s c (fun s' c' => exec b s' c' k).
Proof. done. Qed.

Lemma take_prefix (a b : str) : take (length (a ++ b) - length b) (a ++ b) = a.
Proof.
  rewrite length_app. replace (length a + length b - length b) with (length a) by lia.
  by rewrite take_app_length.
Qed.

(** The directive at the head of a page: [[extends name]], the rest of
    its line, and the line end. *)
Lemma run_extendsRegex (name comment rest : str) :
  name ≠ [] →
  Forall (fun y => is_space y = false ∧ y ≠ "]"%char) name →
  Forall (fun y => y ≠ "013"%char ∧ y ≠ "010"%char) comment →
  run extendsRegex ("[extends " ++ name ++ "]" ++ comment ++ ["010"%char] ++ rest)
  = Some {| m_text := "[extends " ++ name ++ "]" ++ comment ++ ["010"%char];
            m_rest := rest;
            m_caps := [(1, name)] |}.
Proof.
  intros Hne Hname Hcomment.
  set (k0 := fun (s' : str) (c : caps) => Some (s', c)).
  set (lineEnd := Alt (lit ["013"%char; "010"%char])
                    (Alt (lit ["010"%char]) (Alt (lit ["013"%char]) End_))).
  set (notEnd := none_of ["013"%char; "010"%char]).
  set (notClose := none_of ["]"%char]).
  assert (∀ c, exec (Seq (star notEnd) lineEnd) (comment ++ "010"%char :: rest) c k0
               = Some (rest, c)) as Htail.
  { intros c. rewrite exec_seq. unfold star, notEnd, none_of.
    apply star_greedy.
    - eapply Forall_impl; [exact Hcomment|]. intros y [Hr Hn]. cbn [existsb].
      destruct (Ascii.eqb y "013") eqn:E1; [by apply Ascii.eqb_eq in E1|].
      destruct (Ascii.eqb y "010") eqn:E2; [by apply Ascii.eqb_eq in E2|]. done.
    - by intros x b' [= <- <-].
    - done. }
  assert (∀ c, exec (seq [star space; lit "]"; star notEnd; lineEnd])
                 ("]"%char :: comment ++ "010"%char :: rest) c k0
               = Some (rest, c)) as Hclose.
  { intros c. cbn [seq]. rewrite exec_seq. unfold star at 1, space.
    rewrite star_stops by (by intros x s' [= <- <-]).
    rewrite exec_seq.
    change ("]"%char :: comment ++ "010"%char :: rest)
      with (list_ascii_of_string "]" ++ comment ++ "010"%char :: rest).
    rewrite exec_lit_app. apply Htail. }
  assert (∀ x s c, is_space x = false → x ≠ "]"%char →
            exec (seq [star space; lit "]"; star notEnd; lineEnd]) (x :: s) c k0 = None)
    as Hinside.
  { intros x s c Hx Hxc. cbn [seq]. rewrite exec_seq. unfold star at 1, space.
    rewrite star_stops by (by intros ? ? [= <- <-]).
    rewrite exec_seq. apply exec_lit.
    change (list_ascii_of_string "]") with ["]"%char]. rewrite starts_with_cons.
    destruct (Ascii.eqb "]" x) eqn:E; [|done]. by apply Ascii.eqb_eq in E. }
  destruct name as [|x name']; [done|]. apply Forall_cons in Hname as [[Hx Hxc] Hname].
  unfold run. fold k0.
  set (input := list_ascii_of_string "[extends " ++ (x :: name') ++ list_ascii_of_string "]"
                ++ comment ++ ["010"%char] ++ rest).
  assert (exec extendsRegex input [] k0 = Some (rest, [(1, x :: name')])) as ->.
  { unfold extendsRegex. fold lineEnd notEnd notClose. cbn [seq].
    (* the opening bracket *)
    rewrite exec_seq.
    change input with (list_ascii_of_string "[" ++ list_ascii_of_string "extends"
                       ++ " "%char :: x :: name'
                       ++ "]"%char :: comment ++ "010"%char :: rest).
    rewrite exec_lit_app, exec_seq. unfold star at 1, space.
    rewrite star_stops by (intros ? ? Heq; cbn in Heq; by injection Heq as <- <-).
    (* the keyword and the space after it *)
    rewrite exec_seq, exec_lit_i_app, exec_seq. unfold plus. rewrite exec_seq.
    rewrite exec_chr_cons. change (is_space " ") with true. cbv iota beta.
    rewrite star_stops by (intros ? ? [= <- <-]; exact Hx).
    (* the name *)
    rewrite exec_seq, exec_grp. unfold lazy_plus. rewrite exec_seq.
    unfold notClose, none_of. rewrite exec_chr_cons. cbn [existsb].
    assert (Ascii.eqb x "]" = false) as ->.
    { destruct (Ascii.eqb x "]") eqn:E; [|done]. by apply Ascii.eqb_eq in E. }
    cbn [negb orb]. cbv iota beta. rewrite exec_star.
    apply star_loop_lazy.
    - eapply Forall_impl; [exact Hname|]. intros y [Hy Hyc]. cbn [existsb].
      destruct (Ascii.eqb y "]") eqn:E; [by apply Ascii.eqb_eq in E|]. done.
    - rewrite length_app. lia.
    - intros a1 y a2 ->. apply Forall_app in Hname as [_ Hname].
      apply Forall_cons in Hname as [[Hy Hyc] _].
      exact (Hinside y _ _ Hy Hyc).
    - rewrite (Hclose _). do 2 f_equal. unfold cap_set. do 2 f_equal.
      change (x :: name' ++ "]"%char :: comment ++ "010"%char :: rest)
        with ((x :: name') ++ "]"%char :: comment ++ "010"%char :: rest).
      apply take_prefix. }
  do 2 f_equal. subst input.
  replace (list_ascii_of_string "[extends " ++ (x :: name') ++ list_ascii_of_string "]"
           ++ comment ++ ["010"%char] ++ rest)
    with ((list_ascii_of_string "[extends " ++ (x :: name') ++ list_ascii_of_string "]"
           ++ comment ++ ["010"%char]) ++ rest)
    by (by rewrite <- !app_assoc).
  apply take_prefix.
Qed.

End MatcherSteps.

Section RenderFacts.

Variable CWD : str.
Variable files : gmap str str.

Lemma renderTemplateContent_alone (content : str) :
  Blocks._renderTemplateContent content []
  = match Blocks._findBlockPositions content with
    | Throws e => Throws e
    | Returns _ =>
        Returns (Blocks._ensureDoctypeFirst (Blocks._cleanTemplateTags content))
    end.
Proof.
  unfold Blocks._renderTemplateContent.
  by destruct (Blocks._findBlockPositions content).
Qed.

Lemma trim_start_id (s : str) :
  (∀ x s', s = x :: s' → is_space x = false) → trim_start s = s.
Proof. destruct s as [|x s']; [done|]. intros Hs. cbn. by rewrite (Hs x s' eq_refl). Qed.

Lemma trim_id (s : str) : Forall (fun y => is_space y = false) s → trim s = s.
Proof.
  intros Hs. unfold trim. rewrite (trim_start_id s).
  2: { intros x s' ->. by apply Forall_cons in Hs as [? _]. }
  rewrite trim_start_id; [apply rev_involutive|].
  intros x s' Hrev. rewrite Forall_forall in Hs. apply Hs.
  apply list_elem_of_In, in_rev. rewrite Hrev. by left.
Qed.

Lemma renderTemplate_no_directive (templateFile content : str) :
  files !! Path.join (templatesAbsDir CWD) templateFile = Some content →
  starts_with "[" content = false →
  renderTemplate CWD files templateFile
  = match Blocks._findBlockPositions content with
    | Throws e => Throws e
    | Returns _ =>
        Returns (Blocks._ensureDoctypeFirst (Blocks._cleanTemplateTags content))
    end.
Proof.
  intros Hfile Hhead. unfold renderTemplate, readFile. cbv zeta. rewrite Hfile.
  assert (run extendsRegex content = None) as ->.
  { unfold run, extendsRegex. cbn [seq]. rewrite exec_seq. by rewrite exec_lit. }
  apply renderTemplateContent_alone.
Qed.

(** X9.  A page that does not begin with an opening bracket extends nothing:
    it is rendered from its own text, the block tags removed, under a
    doctype.  (A block named like a member of [Object.prototype] makes
    the scanner throw here as everywhere.) *)
Theorem renderTemplate_without_directive (templateFile content : str) :
  files !! Path.join (templatesAbsDir CWD) templateFile = Some content →
  starts_with "[" content = false →
  renderTemplate CWD files templateFile
  = match Blocks._findBlockPositions content with
    | Throws e => Throws e
    | Returns _ =>
        Returns (Blocks._ensureDoctypeFirst (Blocks._cleanTemplateTags content))
    end.
Proof. apply renderTemplate_no_directive. Qed.

(** X10.  A page whose first line is [[extends name]], for a name of ASCII
    characters without white space, is composed with the base [name],
    looked up beside the page (or from the template root when [name] is
    absolute); the rest of the directive's line is dropped.  A base
    that cannot be opened is an error that names the base and the
    page. *)
Theorem renderTemplate_extends (templateFile name comment rest : str) :
  files !! Path.join (templatesAbsDir CWD) templateFile
  = Some ("[extends " ++ name ++ "]" ++ comment ++ ["010"%char] ++ rest) →
  name ≠ [] →
  ascii_only name →
  Forall (fun y => is_space y = false ∧ y ≠ "]"%char) name →
  Forall (fun y => y ≠ "013"%char ∧ y ≠ "010"%char) comment →
  renderTemplate CWD files templateFile
  = match
      files !! (if Path.isAbsolute name
                then Path.join (templatesAbsDir CWD) name
                else Path.join
                       (Path.dirname (Path.join (templatesAbsDir CWD) templateFile)) name)
    with
    | Some baseContent => Blocks._renderTemplateContent baseContent rest
    | None =>
        Throws ("基模板文件不存在: " ++ name ++ " (在 " ++ templateFile ++ " 中引用)")
    end.
Proof.
  intros Hfile Hne _ Hname Hcomment. unfold renderTemplate, readFile. cbv zeta.
  rewrite Hfile, run_extendsRegex by done.
  cbn [m_text group m_caps cap_get Nat.eqb default from_option id].
  rewrite trim_id by (eapply Forall_impl; [exact Hname|]; by intros y [? _]).
  assert (drop (length (list_ascii_of_string "[extends " ++ name ++ list_ascii_of_string "]"
                        ++ comment ++ ["010"%char]))
            (list_ascii_of_string "[extends " ++ name ++ list_ascii_of_string "]"
             ++ comment ++ ["010"%char] ++ rest) = rest) as ->; [|done].
  replace (list_ascii_of_string "[extends " ++ name ++ list_ascii_of_string "]"
           ++ comment ++ ["010"%char] ++ rest)
    with ((list_ascii_of_string "[extends " ++ name ++ list_ascii_of_string "]"
           ++ comment ++ ["010"%char]) ++ rest)
    by (by rewrite <- !app_assoc).
  apply drop_app_length.
Qed.

End RenderFacts.

(** ** The entry page *)

Section EntryFacts.

Lemma str_ltb_irrefl (a : str) : str_ltb a a = false.
Proof.
  induction a as [|x a IH]; [done|]. cbn [str_ltb]. by rewrite Nat.ltb_irrefl.
Qed.

Lemma str_ltb_trans (a b c : str) :
  str_ltb a b = true → str_ltb b c = true → str_ltb a c = true.
Proof.
  revert b c. induction a as [|x a IH]; intros [|y b] [|z c]; cbn [str_ltb]; try done.
  destruct (nat_of_ascii x <? nat_of_ascii y) eqn:Exy.
  - intros _. apply Nat.ltb_lt in Exy.
    destruct (nat_of_ascii y <? nat_of_ascii z) eqn:Eyz.
    + intros _. apply Nat.ltb_lt in Eyz.
      by replace (nat_of_ascii x <? nat_of_ascii z) with true
        by (symmetry; apply Nat.ltb_lt; lia).
    + destruct (nat_of_ascii z <? nat_of_ascii y) eqn:Ezy; [done|]. intros _.
      apply Nat.ltb_ge in Eyz, Ezy.
      by replace (nat_of_ascii x <? nat_of_ascii z) with true
        by (symmetry; apply Nat.ltb_lt; lia).
  - destruct (nat_of_ascii y <? nat_of_ascii x) eqn:Eyx; [done|].
    apply Nat.ltb_ge in Exy, Eyx. intros Hab.
    destruct (nat_of_ascii y <? nat_of_ascii z) eqn:Eyz.
    + intros _. apply Nat.ltb_lt in Eyz.
      by replace (nat_of_ascii x <? nat_of_ascii z) with true
        by (symmetry; apply Nat.ltb_lt; lia).
    + destruct (nat_of_ascii z <? nat_of_ascii y) eqn:Ezy; [done|]. intros Hbc.
      apply Nat.ltb_ge in Eyz, Ezy.
      replace (nat_of_ascii x <? nat_of_ascii z) with false
        by (symmetry; apply Nat.ltb_ge; lia).
      replace (nat_of_ascii z <? nat_of_ascii x) with false
        by (symmetry; apply Nat.ltb_ge; lia).
      by eapply IH.
Qed.

Lemma insert_asc_perm (x : str) (l : list str) : insert_asc x l ≡ₚ x :: l.
Proof.
  induction l as [|y l IH]; cbn [insert_asc]; [done|].
  destruct (str_ltb x y); [done|]. rewrite IH. apply Permutation_swap.
Qed.

Lemma sort_asc_perm (l : list str) : sort_asc l ≡ₚ l.
Proof.
  induction l as [|x l IH]; [done|]. unfold sort_asc. cbn [fold_right].
  rewrite insert_asc_perm. by f_equiv.
Qed.

Lemma insert_asc_head (x : str) (l : list str) (m : str) :
  (∀ m0, head l = Some m0 → ∀ g, g ∈ l → str_ltb g m0 = false) →
  head (insert_asc x l) = Some m →
  ∀ g, g ∈ x :: l → str_ltb g m = false.
Proof.
  destruct l as [|y l]; cbn [insert_asc head].
  - intros _ [= <-] g ->%list_elem_of_singleton. apply str_ltb_irrefl.
  - intros Hmin. specialize (Hmin y eq_refl).
    destruct (str_ltb x y) eqn:E; cbn [head]; intros [= <-] g Hg.
    + apply elem_of_cons in Hg as [->|Hg]; [apply str_ltb_irrefl|].
      destruct (str_ltb g x) eqn:Egx; [|done].
      pose proof (Hmin g Hg) as Hm. by rewrite (str_ltb_trans _ _ _ Egx E) in Hm.
    + apply elem_of_cons in Hg as [->|Hg]; [done|]. by apply Hmin.
Qed.

(** The first page of the sorted array is not above any page. *)
Lemma sort_asc_head (l : list str) (m : str) :
  head (sort_asc l) = Some m → ∀ g, g ∈ l → str_ltb g m = false.
Proof.
  revert m. induction l as [|x l IH]; intros m; [done|].
  unfold sort_asc. cbn [fold_right]. fold (sort_asc l). intros Hm g Hg.
  eapply insert_asc_head; [|exact Hm|].
  - intros m0 Hm0 g0 Hg0. apply IH; [done|]. by rewrite <- sort_asc_perm.
  - apply elem_of_cons in Hg as [->|Hg]; [by left|]. right. by rewrite sort_asc_perm.
Qed.

Variable CWD : str.
Variable files : gmap str str.

Lemma first_marked_found (before after : list str) (file : str) :
  Forall (unmarked CWD files) before → marked CWD files file →
  first_marked CWD files (before ++ file :: after) = Returns (Some file).
Proof.
  intros Hbefore (content & Hfile & Hmark).
  induction Hbefore as [|f before (c & Hf & Hc) _ IH]; cbn [app first_marked];
    unfold readFile.
  - by rewrite Hfile, Hmark.
  - by rewrite Hf, Hc.
Qed.

Lemma first_marked_none (cachedPages : list str) :
  Forall (unmarked CWD files) cachedPages → first_marked CWD files cachedPages = Returns None.
Proof.
  induction 1 as [|f l (c & Hf & Hc) _ IH]; cbn [first_marked]; unfold readFile; [done|].
  by rewrite Hf, Hc.
Qed.

Lemma first_marked_member (cachedPages : list str) (file : str) :
  first_marked CWD files cachedPages = Returns (Some file) → file ∈ cachedPages.
Proof.
  induction cachedPages as [|f l IH]; cbn [first_marked]; [done|].
  destruct (readFile files _) as [content|]; [|done].
  destruct (includes content _).
  - intros [= ->]. by left.
  - intros Hl. right. by apply IH.
Qed.

Lemma first_marked_returns (cachedPages : list str) :
  Forall (fun f => is_Some (files !! Path.join (templatesAbsDir CWD) f)) cachedPages →
  ∃ r, first_marked CWD files cachedPages = Returns r.
Proof.
  induction 1 as [|f l [c Hf] _ [r IH]]; cbn [first_marked]; unfold readFile;
    [by eexists|].
  rewrite Hf. destruct (includes c _); by eexists.
Qed.

(** X11.  When every page can be read, [findEntryFile] returns; the entry it
    names is one of the pages, and there is an entry unless there is no
    page; the array of pages is left with the same pages. *)
Theorem findEntryFile_names_a_page (cachedPages : list str) :
  Forall (fun f => is_Some (files !! Path.join (templatesAbsDir CWD) f)) cachedPages →
  ∃ entry pages,
    findEntryFile CWD files cachedPages = Returns (entry, pages)
    ∧ pages ≡ₚ cachedPages
    ∧ (entry = None ↔ cachedPages = [])
    ∧ ∀ file, entry = Some file → file ∈ cachedPages.
Proof.
  intros Hread. unfold findEntryFile.
  destruct (first_marked_returns cachedPages Hread) as [[file|] Hfirst]; rewrite Hfirst.
  - apply first_marked_member in Hfirst. exists (Some file), cachedPages.
    split_and!; try done.
    + split; [done|]. intros ->. by apply elem_of_nil in Hfirst.
    + by intros ? [= <-].
  - destruct (find _ priorityList) as [entry|] eqn:Efind.
    + apply find_some in Efind as [_ Hin]. apply existsb_exists in Hin as (g & Hg & E).
      apply str_eqb_eq in E as <-. apply list_elem_of_In in Hg.
      exists (Some entry), cachedPages. split_and!; try done.
      * split; [done|]. intros ->. by apply elem_of_nil in Hg.
      * by intros ? [= <-].
    + exists (head (sort_asc cachedPages)), (sort_asc cachedPages).
      split_and!; [done|apply sort_asc_perm| |].
      * split.
        -- intros Hnone. apply head_None in Hnone.
           apply Permutation_nil_r. by rewrite <- Hnone, sort_asc_perm.
        -- by intros ->.
      * intros file Hfile. apply head_Some_elem_of in Hfile.
        by rewrite sort_asc_perm in Hfile.
Qed.

Lemma existsb_elem (entry : str) (l : list str) :
  existsb (str_eqb entry) l = bool_decide (entry ∈ l).
Proof.
  induction l as [|x l IH]; [done|]. cbn [existsb]. rewrite IH.
  destruct (str_eqb entry x) eqn:E.
  - apply str_eqb_eq in E as ->. symmetry. apply bool_decide_eq_true. left.
  - cbn [orb]. apply bool_decide_ext. rewrite elem_of_cons.
    split; [tauto|]. intros [->|]; [|done]. by rewrite str_eqb_refl in E.
Qed.

(** X12.  The priorities of [findEntryFile].  The first page that carries the
    entry mark wins, whatever the names of the pages.  Without a marked
    page the entry is [index.html], else [main.html], else [home.html],
    when such a page exists, and the array of pages is left as it was;
    else it is the page whose name comes first in the order of character
    codes, and the array is left sorted (the names taken without
    characters beyond U+FFFF, for which the order of the bytes is
    another). *)
Theorem findEntryFile_priorities (cachedPages : list str) :
  (∀ before file after,
     cachedPages = before ++ file :: after →
     Forall (unmarked CWD files) before → marked CWD files file →
     findEntryFile CWD files cachedPages = Returns (Some file, cachedPages))
  ∧ (Forall (unmarked CWD files) cachedPages →
     Forall basic_plane cachedPages →
     findEntryFile CWD files cachedPages
     = if bool_decide (list_ascii_of_string "index.html" ∈ cachedPages)
       then Returns (Some (list_ascii_of_string "index.html"), cachedPages)
       else if bool_decide (list_ascii_of_string "main.html" ∈ cachedPages)
       then Returns (Some (list_ascii_of_string "main.html"), cachedPages)
       else if bool_decide (list_ascii_of_string "home.html" ∈ cachedPages)
       then Returns (Some (list_ascii_of_string "home.html"), cachedPages)
       else Returns (head (sort_asc cachedPages), sort_asc cachedPages))
  ∧ ∀ first, head (sort_asc cachedPages) = Some first →
      ∀ file, file ∈ cachedPages → str_ltb file first = false.
Proof.
  split_and!.
  - intros before file after -> Hbefore Hfile. unfold findEntryFile.
    by rewrite first_marked_found.
  - intros Hnone _. unfold findEntryFile. rewrite first_marked_none by done.
    unfold priorityList. cbn [find]. rewrite !existsb_elem.
    by repeat case_bool_decide.
  - apply sort_asc_head.
Qed.

End EntryFacts.

(** ** The development server: the reload script *)

Section ReloadFacts.
Import DevServer.

Lemma substitution_plain (n : nat) (before : str) (m : found) (t : str) :
  "$"%char ∉ t → substitution n before m t = t.
Proof.
  induction t as [|x t IH]; intros Ht; [done|].
  apply not_elem_of_cons in Ht as [Hx Ht].
  destruct x as [[] [] [] [] [] [] [] []]; try done; cbn [substitution];
    by rewrite IH.
Qed.

Lemma search_found (r : re) (pre s : str) :
  is_Some (run r s) → is_Some (search r (pre ++ s)).
Proof.
  intros [m Hm]. induction pre as [|x pre [[skipped m'] IH]]; cbn [app].
  - destruct s; cbn [search]; by rewrite Hm.
  - cbn [search]. destruct (run r (x :: pre ++ s)); [done|]. by rewrite IH.
Qed.

Lemma socketScript_marker :
  ∃ a b, socketScript = a ++ "socket.io.js" ++ b.
Proof.
  exists (take 33 socketScript), (drop 45 socketScript). by vm_compute.
Qed.

Lemma test_after_injection (pre post : str) :
  test injectedRegex (pre ++ socketScript ++ post) = true.
Proof.
  destruct socketScript_marker as (a & b & ->). unfold test.
  apply bool_decide_eq_true.
  replace (pre ++ (a ++ list_ascii_of_string "socket.io.js" ++ b) ++ post)
    with ((pre ++ a) ++ list_ascii_of_string "socket.io.js" ++ b ++ post)
    by (by rewrite <- !app_assoc).
  apply search_found. unfold run, injectedRegex. cbn [exec].
  rewrite exec_lit by done. by rewrite exec_lit_app.
Qed.

(** X13.  What [injectHotReloadScript] does to a page: nothing when the page
    already refers to the reload script; else it inserts the script, and
    nothing else, before the first closing [body] tag, or at the end of a
    page without one.  A second injection changes nothing. *)
Theorem injectHotReloadScript_inserts_once (html : str) :
  (test injectedRegex html = true → injectHotReloadScript html = html)
  ∧ (test injectedRegex html = false →
     ∃ i, injectHotReloadScript html = take i html ++ socketScript ++ drop i html
          ∧ match find_from "</body>" html with
            | Some j => i = j
            | None => i = length html
            end)
  ∧ injectHotReloadScript (injectHotReloadScript html) = injectHotReloadScript html.
Proof.
  assert (test injectedRegex html = false →
     ∃ i, injectHotReloadScript html = take i html ++ socketScript ++ drop i html
          ∧ match find_from "</body>" html with
            | Some j => i = j
            | None => i = length html
            end) as Hinsert.
  { intros Htest. unfold injectHotReloadScript. rewrite Htest.
    unfold includes, replace_first.
    destruct (find_from "</body>" html) as [j|] eqn:Efind.
    - rewrite bool_decide_eq_true_2 by done. exists j. split; [|done].
      rewrite substitution_plain
        by (apply (bool_decide_unpack _); by vm_compute).
      rewrite <- !app_assoc. do 2 f_equal.
      pose proof (find_from_sound _ _ _ Efind) as Hat.
      symmetry.
      rewrite <- (take_drop (length (list_ascii_of_string "</body>")) (drop j html)) at 1.
      by rewrite Hat, drop_drop.
    - rewrite bool_decide_eq_false_2 by (by intros [? ?]).
      exists (length html). by rewrite firstn_all, drop_all, app_nil_r. }
  split; [|split; [exact Hinsert|]].
  - intros Htest. unfold injectHotReloadScript. by rewrite Htest.
  - destruct (test injectedRegex html) eqn:Htest.
    + assert (injectHotReloadScript html = html) as E
        by (unfold injectHotReloadScript; by rewrite Htest).
      by rewrite !E.
    + destruct (Hinsert eq_refl) as (i & -> & _).
      unfold injectHotReloadScript at 1. by rewrite test_after_injection.
Qed.

End ReloadFacts.

(** ** The pipeline on a static page *)

Section PipelineFacts.

Context (H : Host).
Variable userFeatures_variables : list (str * value (num H)).
Variable userFeatures_functions :
  str → option (list (value (num H)) → outcome (value (num H))).
Variable CWD : str.
Variable files : gmap str str.

Lemma processVariables_plain (depth : nat) (content : str)
    (requestVariables : list (str * value (num H))) :
  plain content →
  processVariables H userFeatures_variables userFeatures_functions (S depth) content
    requestVariables = Some content.
Proof.
  intros Hc. cbn [processVariables]. unfold _processIteratively.
  cbn [iterate]. rewrite run_phases_plain by done. by rewrite str_eqb_refl.
Qed.

Lemma findBlockPositions_without_bracket (content : str) :
  "["%char ∉ content → Blocks._findBlockPositions content = Returns [].
Proof.
  intros Hc. unfold Blocks._findBlockPositions.
  destruct content as [|x content']; [done|].
  cbn [length Blocks.find_blocks Nat.leb].
  assert (indexOf (x :: content') "[!" 0 = None) as ->; [|done].
  unfold indexOf. rewrite drop_0.
  assert (find_from "[!" (x :: content') = None) as ->; [|done].
  apply find_from_None. intros s' Hs'.
  pose proof (not_elem_suffix _ _ _ Hc Hs') as Hs.
  destruct s' as [|y s']; [done|].
  change (list_ascii_of_string "[!") with ["["%char; "!"%char].
  rewrite starts_with_cons. destruct (Ascii.eqb "[" y) eqn:E; [|done].
  apply Ascii.eqb_eq in E as <-. destruct Hs. by left.
Qed.

Lemma plain_after_doctype (content : str) :
  plain content → plain ("<!DOCTYPE html>" ++ ["010"%char] ++ content).
Proof.
  unfold plain. rewrite !includes_false. intros Hc s' [pre Hs'].
  assert (∀ p : str, "{"%char ∉ p → ∀ pre s', pre ++ s' = p ++ content →
            starts_with "{{" s' = false) as Hgen.
  { clear s' pre Hs'. induction p as [|x p IH]; intros Hp pre s' E.
    - apply Hc. exists pre. by rewrite E.
    - apply not_elem_of_cons in Hp as [Hx Hp].
      destruct pre as [|y pre]; cbn [app] in E.
      + subst s'. change (list_ascii_of_string "{{") with ["{"%char; "{"%char].
        cbn [app]. rewrite starts_with_cons.
        destruct (Ascii.eqb "{" x) eqn:Ex; [|done]. by apply Ascii.eqb_eq in Ex.
      + injection E as -> E. by eapply IH. }
  apply (Hgen (list_ascii_of_string "<!DOCTYPE html>" ++ ["010"%char])
           ltac:(apply (bool_decide_unpack _); by vm_compute) pre s').
  by rewrite <- Hs', app_assoc.
Qed.

(** X14.  A static page (no opening bracket, no pair of opening braces) goes
    through inheritance, includes and variables unchanged: the pipeline
    returns its text under a doctype, reads no other file, writes no
    warning and leaves the registry alone. *)
Theorem renderPage_static_page (depth : nat) (templateFile content : str)
    (requestVariables : list (str * value (num H))) (st : state) :
  files !! Path.join (templatesAbsDir CWD) templateFile = Some content →
  "["%char ∉ content →
  includes content "{{" = false →
  renderPage H userFeatures_variables userFeatures_functions CWD files (S depth)
    templateFile requestVariables st
  = Some (Returns (Blocks._ensureDoctypeFirst content, st, [])).
Proof.
  intros Hfile Hbracket Hplain. unfold renderPage.
  rewrite (renderTemplate_no_directive CWD files templateFile content Hfile).
  2: { destruct content as [|x content']; [done|].
       change (list_ascii_of_string "[") with ["["%char]. rewrite starts_with_cons.
       destruct (Ascii.eqb "[" x) eqn:E; [|done].
       apply Ascii.eqb_eq in E as <-. destruct Hbracket. by left. }
  rewrite findBlockPositions_without_bracket by done.
  assert (Blocks._cleanTemplateTags content = content) as ->
    by (by apply cleanTemplateTags_identity).
  assert (("["%char ∉ Blocks._ensureDoctypeFirst content)
          ∧ plain (Blocks._ensureDoctypeFirst content)) as [Hb Hp].
  { unfold Blocks._ensureDoctypeFirst. destruct (starts_with _ _); [done|]. split.
    - rewrite app_assoc. rewrite not_elem_of_app. split; [|done].
      apply (bool_decide_unpack _). by vm_compute.
    - by apply plain_after_doctype. }
  rewrite processIncludes_no_bracket by done.
  by rewrite processVariables_plain.
Qed.

End PipelineFacts.

(** ** The pattern of a context key *)

Section KeyPattern.

Lemma run_one_of (l : list ascii) (x : ascii) (s : str) :
  run (one_of l) (x :: s)
  = if existsb (Ascii.eqb x) l
    then Some {| m_text := [x]; m_rest := s; m_caps := [] |}
    else None.
Proof.
  unfold run, one_of. cbn [exec]. destruct (existsb (Ascii.eqb x) l); [|done].
  do 2 f_equal. cbn [length]. replace (S (length s) - length s) with 1 by lia. done.
Qed.

Lemma escapeRegExp_escaped (s : str) : _escapeRegExp s = flat_map escaped s.
Proof.
  unfold _escapeRegExp, replace_text, specialCharsRegex.
  enough (∀ before,
            fst (replace_fold (one_of specialChars)
                   (fun before m (_ : unit) =>
                      (substitution 0 before m (list_ascii_of_string "\$&"), tt))
                   0 before s tt)
            = flat_map escaped s) by auto.
  induction s as [|x s IH]; intros before; cbn [replace_fold flat_map]; [done|].
  rewrite run_one_of. unfold escaped at 1.
  destruct (existsb (Ascii.eqb x) specialChars).
  - cbn [m_text length Nat.sub Nat.eqb substitution list_ascii_of_string app].
    specialize (IH (before ++ [x])).
    destruct (replace_fold _ _ 0 (before ++ [x]) s tt) as [rest st]. cbn [fst] in *.
    by rewrite IH.
  - specialize (IH (before ++ [x])).
    destruct (replace_fold _ _ 0 (before ++ [x]) s tt) as [rest st]. cbn [fst] in *.
    by rewrite IH.
Qed.

Lemma escaped_head (s tail : str) (e : ascii) (t : str) :
  (∀ e t, tail = e :: t → e ≠ "*"%char) →
  flat_map escaped s ++ tail = e :: t → e ≠ "*"%char.
Proof.
  intros Htail. destruct s as [|d s]; cbn [flat_map app]; [by apply Htail|].
  unfold escaped. destruct (existsb (Ascii.eqb d) specialChars) eqn:Ed; cbn [app].
  - by intros [= <- _].
  - intros [= <- _] ->. by vm_compute in Ed.
Qed.

Lemma atoms_backslash (d e : ascii) (w : str) :
  Ascii.eqb e "*" = false →
  RegExp_atoms ("\"%char :: d :: e :: w)
  = (if Ascii.eqb d "s" then space else chr d) :: RegExp_atoms (e :: w).
Proof.
  intros He.
  change (RegExp_atoms ("\"%char :: d :: e :: w))
    with (if Ascii.eqb e "*"
          then star (if Ascii.eqb d "s" then space else chr d) :: RegExp_atoms w
          else (if Ascii.eqb d "s" then space else chr d) :: RegExp_atoms (e :: w)).
  by rewrite He.
Qed.

Lemma atoms_plain (c e : ascii) (w : str) :
  Ascii.eqb c "\" = false → Ascii.eqb e "*" = false →
  RegExp_atoms (c :: e :: w) = chr c :: RegExp_atoms (e :: w).
Proof.
  intros Hc He.
  change (RegExp_atoms (c :: e :: w))
    with (if Ascii.eqb c "\"
          then match e :: w with
               | d :: p2 =>
                   let a := if Ascii.eqb d "s" then space else chr d in
                   match p2 with
                   | e' :: p3 => if Ascii.eqb e' "*" then star a :: RegExp_atoms p3
                                 else a :: RegExp_atoms p2
                   | [] => [a]
                   end
               | [] => []
               end
          else if Ascii.eqb e "*" then star (chr c) :: RegExp_atoms w
               else chr c :: RegExp_atoms (e :: w)).
  by rewrite Hc, He.
Qed.

Lemma RegExp_atoms_escaped (s tail : str) :
  (∀ e t, tail = e :: t → e ≠ "*"%char) →
  RegExp_atoms (flat_map escaped s ++ tail) = map chr s ++ RegExp_atoms tail.
Proof.
  intros Htail. induction s as [|c s IH]; [done|].
  cbn [flat_map map]. rewrite <- app_assoc.
  pose proof (escaped_head s tail) as Hhead.
  destruct (flat_map escaped s ++ tail) as [|e w] eqn:Ew.
  - assert (RegExp_atoms tail = [] ∧ s = []) as [Et ->].
    { destruct s as [|d s]; [by cbn in Ew; subst tail|].
      cbn [flat_map] in Ew. unfold escaped in Ew.
      by destruct (existsb (Ascii.eqb d) specialChars). }
    rewrite Et. unfold escaped.
    destruct (existsb (Ascii.eqb c) specialChars) eqn:Ec; cbn [app RegExp_atoms map].
    + rewrite Ascii.eqb_refl.
      destruct (Ascii.eqb c "s") eqn:Es; [|done].
      apply Ascii.eqb_eq in Es as ->. by vm_compute in Ec.
    + destruct (Ascii.eqb c "\") eqn:Eb; [|done].
      apply Ascii.eqb_eq in Eb as ->. by vm_compute in Ec.
  - specialize (Hhead e w Htail eq_refl).
    assert (Ascii.eqb e "*" = false) as He.
    { destruct (Ascii.eqb e "*") eqn:E; [|done]. by apply Ascii.eqb_eq in E. }
    unfold escaped.
    destruct (existsb (Ascii.eqb c) specialChars) eqn:Ec; cbn [app].
    + rewrite atoms_backslash, IH by done.
      destruct (Ascii.eqb c "s") eqn:Es; [|done].
      apply Ascii.eqb_eq in Es as ->. by vm_compute in Ec.
    + rewrite atoms_plain, IH; [done| |done].
      destruct (Ascii.eqb c "\") eqn:Eb; [|done].
      apply Ascii.eqb_eq in Eb as ->. by vm_compute in Ec.
Qed.

Lemma variableRegex_literal (key : str) :
  variableRegex key
  = fold_right Seq Eps
      ([chr "{"; chr "{"; star space] ++ map chr key ++ [star space; chr "}"; chr "}"]).
Proof.
  unfold variableRegex, RegExp_. f_equal. rewrite escapeRegExp_escaped.
  change (list_ascii_of_string "{{\s*" ++ flat_map escaped key ++ list_ascii_of_string "\s*}}")
    with ("{"%char :: "{"%char :: "\"%char :: "s"%char :: "*"%char
          :: (flat_map escaped key ++ list_ascii_of_string "\s*}}")).
  cbn [RegExp_atoms Ascii.eqb Bool.eqb andb]. cbn [app]. do 3 f_equal.
  rewrite RegExp_atoms_escaped; [done|].
  by intros e t [= <- _].
Qed.

(** X16.  The pattern built for a context key matches two opening braces,
    white space, the key character by character, white space and two
    closing braces: the escaping makes every character of the key, also
    one that is special in a pattern, stand for itself. *)
Theorem variableRegex_matches_key_literally (key : str) :
  variableRegex key
  = fold_right Seq Eps
      ([chr "{"; chr "{"; star space] ++ map chr key ++ [star space; chr "}"; chr "}"]).
Proof. apply variableRegex_literal. Qed.

End KeyPattern.

(** ** The scanner: what it records and when it throws *)

(** X18.  The occurrences that [_findBlockPositions] records: each under its
    name once, not empty, inside the text, no two at the same place, no
    two overlapping. *)
Theorem findBlockPositions_records_disjoint_blocks (content : str) (bs : Blocks.blocks) :
  Blocks._findBlockPositions content = Returns bs →
  NoDup (map fst bs)
  ∧ NoDup (map Blocks.startIndex (all_blocks bs))
  ∧ (∀ b, b ∈ all_blocks bs →
       Blocks.startIndex b < Blocks.endIndex b ≤ length content)
  ∧ (∀ b1 b2, b1 ∈ all_blocks bs → b2 ∈ all_blocks bs →
       Blocks.startIndex b1 < Blocks.startIndex b2 →
       Blocks.endIndex b1 ≤ Blocks.startIndex b2).
Proof. intros Hbs. by apply _findBlockPositions_ok in Hbs. Qed.

(** X19.  [_findBlockPositions] throws in one case only: at an open tag, the
    two characters [[!] up to the next closing bracket, whose trimmed
    name is a member that every object inherits ([constructor],
    [toString], ...) and whose closing tag follows; a text without an
    opening bracket has no block. *)
Theorem findBlockPositions_throws_on_inherited_names (content : str) :
  (∀ e, Blocks._findBlockPositions content = Throws e →
     e = list_ascii_of_string "blocks[openName].push is not a function"
     ∧ ∃ startIndex openEndIndex closeStartIndex,
         slice content startIndex (startIndex + 2) = list_ascii_of_string "[!"
         ∧ indexOf content "]" startIndex = Some openEndIndex
         ∧ JsObject.inherited (trim (slice content (startIndex + 2) openEndIndex)) = true
         ∧ indexOf content
             ("[~" ++ trim (slice content (startIndex + 2) openEndIndex) ++ "]")
             (openEndIndex + 1) = Some closeStartIndex)
  ∧ ("["%char ∉ content → Blocks._findBlockPositions content = Returns []).
Proof.
  split.
  - intros e He. by apply find_blocks_throws in He.
  - apply findBlockPositions_without_bracket.
Qed.

(** ** Validation of a file *)

Section ValidateFacts.

Variable CWD : str.
Variable files : gmap str str.

(** X20.  A well-nested template (its block names written in ASCII
    characters) has no structure error, and the validation of a file
    that holds one returns without a message, in the development mode
    and in the strict mode. *)
Theorem validateTemplateFile_accepts_nested (fileName content : str) (isDev : bool) :
  files !! Path.join (templatesAbsDir CWD) fileName = Some content →
  nested content →
  Validator._validateTemplateStructure content = []
  ∧ validateTemplateFile CWD files fileName isDev = Returns [].
Proof.
  intros Hfile Hn.
  assert (Validator._validateTemplateStructure content = []) as E.
  { unfold Validator._validateTemplateStructure. by rewrite structure_errors_nested. }
  split; [done|]. unfold validateTemplateFile, readFile. by rewrite Hfile, E.
Qed.

End ValidateFacts.

(** ** The template of a request *)

(** X21.  A request path with the extension and the same path without it name
    the same template file. *)
Theorem templateFile_extension_is_optional (decodedPath : str) :
  decodedPath ≠ [] →
  starts_with (rev ".html") (rev decodedPath) = false →
  DevServer.templateFile (decodedPath ++ ".html") = DevServer.templateFile decodedPath
  ∧ DevServer.templateFile decodedPath = drop 1 decodedPath ++ ".html".
Proof.
  intros Hne Hext. unfold DevServer.templateFile. rewrite Hext.
  rewrite rev_app_distr.
  assert (starts_with (rev (list_ascii_of_string ".html"))
            (rev (list_ascii_of_string ".html") ++ rev decodedPath) = true) as ->.
  { generalize (rev (list_ascii_of_string ".html")). intros p.
    induction p as [|x p IH]; [done|]. cbn [app].
    by rewrite starts_with_cons, Ascii.eqb_refl. }
  split; [|done]. by destruct decodedPath.
Qed.

(** ** One include directive *)

Section MatchesFacts.

Lemma exec_alt (a b : re) (s : str) (c : caps) (k : str → caps → option (str * caps)) :
  exec (Alt a b) s c k
  = match exec a s c k with Some v => Some v | None => exec b s c k end.
Proof. done. Qed.

Lemma matches_from_skip (r : re) (a s : str) :
  ∀ pos, matches_from r (length a) pos (a ++ s) = matches_from r 0 (pos + length a) s.
Proof.
  induction a as [|x a IH]; intros pos; cbn [length app].
  - by rewrite Nat.add_0_r.
  - cbn [matches_from]. rewrite IH. f_equal. lia.
Qed.

Lemma matches_from_none (r : re) (s : str) :
  ∀ (pre : str) (pos : nat),
    (∀ a x b, pre = a ++ x :: b → run r (x :: b ++ s) = None) →
    matches_from r 0 pos (pre ++ s) = matches_from r 0 (pos + length pre) s.
Proof.
  induction pre as [|x pre IH]; intros pos Hnone; cbn [length app].
  - by rewrite Nat.add_0_r.
  - cbn [matches_from]. rewrite (Hnone [] x pre eq_refl). rewrite IH.
    + f_equal. lia.
    + intros a y b ->. exact (Hnone (x :: a) y b eq_refl).
Qed.

Lemma needs_matches_from (c : ascii) (r : re) (s : str) :
  needs c r → c ∉ s → ∀ pos, matches_from r 0 pos s = [].
Proof.
  intros Hr. induction s as [|x s IH]; intros Hc pos; cbn [matches_from].
  - by rewrite (needs_run c).
  - rewrite (needs_run c) by done. apply IH.
    by apply not_elem_of_cons in Hc as [_ ?].
Qed.

(** One match in a text: none begins before it, none after it. *)
Lemma matches_from_one (r : re) (pre dir post : str) (m : found) :
  (∀ a x b, pre = a ++ x :: b → run r (x :: b ++ dir ++ post) = None) →
  run r (dir ++ post) = Some m → m_text m = dir → dir ≠ [] →
  (∀ pos, matches_from r 0 pos post = []) →
  matchAll r (pre ++ dir ++ post) = [(length pre, m)].
Proof.
  intros Hpre Hrun Htext Hdir Hpost. unfold matchAll.
  rewrite matches_from_none by done. cbn [Nat.add].
  destruct dir as [|d dir]; [done|]. cbn [app matches_from].
  change (d :: dir ++ post) with ((d :: dir) ++ post). rewrite Hrun, Htext.
  replace (length (d :: dir) - 1) with (length dir) by (cbn [length]; lia).
  rewrite matches_from_skip. by rewrite Hpost.
Qed.

End MatchesFacts.

Section IncludeDirective.

Variable CWD : str.
Variable files : gmap str str.

Lemma exec_lit_i_bracket (p t : str) (c : caps) (k : str → caps → option (str * caps)) :
  head t ≠ Some "["%char → exec (lit_i ("["%char :: p)) t c k = None.
Proof.
  intros Ht. cbn [lit_i]. rewrite exec_seq. destruct t as [|y t]; [done|].
  unfold chr_i. rewrite exec_chr_cons, upcase_bracket.
  destruct (Ascii.eqb "[" y) eqn:E; [|done]. apply Ascii.eqb_eq in E as <-. by destruct Ht.
Qed.

(** No directive begins at a character that is not an opening bracket,
    unless it is a quote before an opening bracket. *)
Lemma run_include_none (x : ascii) (t : str) :
  x ≠ "["%char →
  (existsb (Ascii.eqb x) [dquote; "'"%char] = true → head t ≠ Some "["%char) →
  run includeRegex (x :: t) = None.
Proof.
  intros Hx Hq. unfold run, includeRegex. cbn [seq]. rewrite exec_alt.
  assert (exec (Seq (Grp 1 (one_of [dquote; "'"%char]))
                  (Seq (lit_i "[include")
                     (Seq (plus space)
                        (Seq (Grp 2 (plus (none_of ["]"%char])))
                           (Seq (lit "]") (Grp 3 (one_of [dquote; "'"%char])))))))
            (x :: t) [] (fun s' c => Some (s', c)) = None) as ->.
  { rewrite exec_seq, exec_grp. unfold one_of at 1. rewrite exec_chr_cons.
    destruct (existsb (Ascii.eqb x) [dquote; "'"%char]) eqn:E; [|done].
    rewrite exec_seq.
    change (list_ascii_of_string "[include")
      with ("["%char :: list_ascii_of_string "include").
    apply exec_lit_i_bracket. by apply Hq. }
  rewrite exec_seq.
  change (list_ascii_of_string "[include") with ("["%char :: list_ascii_of_string "include").
  rewrite exec_lit_i_bracket; [done|]. cbn [head]. by intros [= ->].
Qed.

Lemma not_close (y : ascii) :
  y ≠ "]"%char → negb (existsb (Ascii.eqb y) ["]"%char]) = true.
Proof.
  intros Hy. cbn [existsb]. destruct (Ascii.eqb y "]") eqn:E; [|done].
  by apply Ascii.eqb_eq in E.
Qed.

(** The directive [[include name]]. *)
Lemma run_include_plain (name post : str) :
  name ≠ [] →
  Forall (fun y => is_space y = false ∧ y ≠ "]"%char) name →
  run includeRegex ("[include " ++ name ++ "]" ++ post)
  = Some {| m_text := "[include " ++ name ++ "]"; m_rest := post;
            m_caps := [(4, name)] |}.
Proof.
  intros Hne Hname. destruct name as [|x name']; [done|].
  apply Forall_cons in Hname as [[Hx Hxc] Hname].
  set (k0 := fun (s' : str) (c : caps) => Some (s', c)).
  unfold run. fold k0.
  set (input := list_ascii_of_string "[include " ++ (x :: name')
                ++ list_ascii_of_string "]" ++ post).
  assert (exec includeRegex input [] k0 = Some (post, [(4, x :: name')])) as ->.
  { unfold includeRegex. cbn [seq]. rewrite exec_alt.
    assert (∀ r, exec (Seq (Grp 1 (one_of [dquote; "'"%char])) r) input [] k0 = None)
      as ->.
    { intros r. by rewrite exec_seq, exec_grp. }
    change input with (list_ascii_of_string "[include"
                       ++ " "%char :: x :: name' ++ "]"%char :: post).
    rewrite exec_seq, exec_lit_i_app, exec_seq. unfold plus. rewrite exec_seq.
    unfold space at 1. rewrite exec_chr_cons. change (is_space " ") with true.
    cbv iota beta. unfold space.
    rewrite star_stops by (intros ? ? [= <- <-]; exact Hx).
    rewrite exec_seq, exec_grp. unfold lazy_plus, any. rewrite exec_seq, exec_chr_cons.
    cbv iota beta. rewrite exec_star.
    apply star_loop_lazy.
    - by apply Forall_true.
    - rewrite length_app. lia.
    - intros a1 y a2 ->. apply Forall_app in Hname as [_ Hname].
      apply Forall_cons in Hname as [[Hy Hyc] _]. apply exec_lit.
      change (list_ascii_of_string "]") with ["]"%char]. rewrite starts_with_cons.
      destruct (Ascii.eqb "]" y) eqn:E; [|done]. by apply Ascii.eqb_eq in E.
    - change ("]"%char :: post) with (list_ascii_of_string "]" ++ post).
      rewrite exec_lit_app. unfold k0, cap_set. do 4 f_equal.
      change (x :: name' ++ list_ascii_of_string "]" ++ post)
        with ((x :: name') ++ list_ascii_of_string "]" ++ post).
      apply take_prefix. }
  do 2 f_equal. subst input.
  replace (list_ascii_of_string "[include " ++ (x :: name')
           ++ list_ascii_of_string "]" ++ post)
    with ((list_ascii_of_string "[include " ++ (x :: name')
           ++ list_ascii_of_string "]") ++ post)
    by (by rewrite <- !app_assoc).
  apply take_prefix.
Qed.

Lemma quote_existsb (q : ascii) :
  q ∈ [dquote; "'"%char] → existsb (Ascii.eqb q) [dquote; "'"%char] = true.
Proof.
  intros Hq. repeat (apply elem_of_cons in Hq as [->|Hq]; [done|]).
  by apply elem_of_nil in Hq.
Qed.

(** The directive between two quotes. *)
Lemma run_include_quoted (q q' : ascii) (name post : str) :
  q ∈ [dquote; "'"%char] → q' ∈ [dquote; "'"%char] →
  name ≠ [] →
  Forall (fun y => is_space y = false ∧ y ≠ "]"%char) name →
  run includeRegex (q :: "[include " ++ name ++ "]" ++ q' :: post)
  = Some {| m_text := q :: "[include " ++ name ++ "]" ++ [q']; m_rest := post;
            m_caps := [(3, [q']); (2, name); (1, [q])] |}.
Proof.
  intros Hq Hq' Hne Hname. destruct name as [|x name']; [done|].
  apply Forall_cons in Hname as [[Hx Hxc] Hname].
  apply quote_existsb in Hq, Hq'.
  set (k0 := fun (s' : str) (c : caps) => Some (s', c)).
  unfold run. fold k0.
  set (input := q :: list_ascii_of_string "[include " ++ (x :: name')
                ++ list_ascii_of_string "]" ++ q' :: post).
  assert (exec includeRegex input [] k0
          = Some (post, [(3, [q']); (2, x :: name'); (1, [q])])) as ->.
  { unfold includeRegex. cbn [seq]. rewrite exec_alt.
    assert (exec (Seq (Grp 1 (one_of [dquote; "'"%char]))
                    (Seq (lit_i "[include")
                       (Seq (plus space)
                          (Seq (Grp 2 (plus (none_of ["]"%char])))
                             (Seq (lit "]") (Grp 3 (one_of [dquote; "'"%char])))))))
              input [] k0
            = Some (post, [(3, [q']); (2, x :: name'); (1, [q])])) as Hleft;
      [|by rewrite Hleft].
    change input with (q :: list_ascii_of_string "[include"
                       ++ " "%char :: x :: name' ++ "]"%char :: q' :: post).
    rewrite exec_seq, exec_grp. unfold one_of at 1. rewrite exec_chr_cons, Hq.
    cbv iota beta.
    rewrite exec_seq, exec_lit_i_app, exec_seq. unfold plus at 1. rewrite exec_seq.
    unfold space at 1. rewrite exec_chr_cons. change (is_space " ") with true.
    cbv iota beta. unfold space.
    rewrite star_stops by (intros ? ? [= <- <-]; exact Hx).
    rewrite exec_seq, exec_grp. unfold plus, none_of. rewrite exec_seq, exec_chr_cons.
    rewrite (not_close x) by done. cbv iota beta.
    apply star_greedy.
    - eapply Forall_impl; [exact Hname|]. intros y [_ Hy]. by apply not_close.
    - by intros ? ? [= <- <-].
    - rewrite exec_seq.
      change ("]"%char :: q' :: post) with (list_ascii_of_string "]" ++ q' :: post).
      rewrite exec_lit_app, exec_grp. unfold one_of. rewrite exec_chr_cons, Hq'.
      unfold k0, cap_set. do 2 f_equal. f_equal; [|f_equal].
      + f_equal. cbn [length]. replace (S (length post) - length post) with 1 by lia.
        done.
      + f_equal.
        change (x :: name' ++ list_ascii_of_string "]" ++ q' :: post)
          with ((x :: name') ++ list_ascii_of_string "]" ++ q' :: post).
        apply take_prefix.
      + do 2 f_equal.
        match goal with
        | |- take (length (q :: ?t) - length ?t) _ = _ =>
            replace (length (q :: t) - length t) with 1 by (cbn [length]; lia)
        end.
        done. }
  do 2 f_equal. subst input.
  replace (q :: list_ascii_of_string "[include " ++ (x :: name')
           ++ list_ascii_of_string "]" ++ q' :: post)
    with ((q :: list_ascii_of_string "[include " ++ (x :: name')
           ++ list_ascii_of_string "]" ++ [q']) ++ post).
  - apply take_prefix.
  - by repeat (rewrite <- ?app_assoc; cbn [app]; f_equal).
Qed.

Lemma slice_middle (a b c : str) :
  slice (a ++ b ++ c) (length a + length b) (length (a ++ b ++ c)) = c.
Proof.
  unfold slice. rewrite app_assoc, <- length_app, drop_app_length.
  apply take_ge. rewrite !length_app. lia.
Qed.

Lemma slice_front (a b : str) : slice (a ++ b) 0 (length a) = a.
Proof. unfold slice. rewrite Nat.sub_0_r, drop_0. apply take_app_length. Qed.

Lemma include_matches_plain (pre name post : str) :
  "["%char ∉ pre →
  (∀ q, last pre = Some q → q ≠ dquote ∧ q ≠ "'"%char) →
  "["%char ∉ post →
  name ≠ [] →
  Forall (fun y => is_space y = false ∧ y ≠ "]"%char) name →
  include_matches (pre ++ "[include " ++ name ++ "]" ++ post)
  = [ {| fullMatch := "[include " ++ name ++ "]"; fileName := name;
         index := length pre |} ].
Proof.
  intros Hpre Hlast Hpost Hne Hname. unfold include_matches.
  replace (pre ++ list_ascii_of_string "[include " ++ name
           ++ list_ascii_of_string "]" ++ post)
    with (pre ++ (list_ascii_of_string "[include " ++ name
                  ++ list_ascii_of_string "]") ++ post)
    by (by rewrite <- !app_assoc).
  rewrite (matches_from_one includeRegex pre _ post
             {| m_text := "[include " ++ name ++ "]"; m_rest := post;
                m_caps := [(4, name)] |}).
  - assert (trim name = name) as Htrim.
    { apply trim_id. eapply Forall_impl; [exact Hname|]. by intros y [? _]. }
    destruct name as [|x name']; [done|].
    cbn [omap list_omap snd fst group m_caps m_text cap_get Nat.eqb].
    by rewrite Htrim.
  - intros a x b ->. apply run_include_none.
    + intros ->. apply Hpre, elem_of_app. right. left.
    + intros Hq. destruct b as [|y b]; cbn [app head].
      * rewrite last_snoc in Hlast. destruct (Hlast x eq_refl) as [H1 H2].
        cbn [existsb] in Hq.
        destruct (Ascii.eqb x dquote) eqn:E1; [by apply Ascii.eqb_eq in E1|].
        destruct (Ascii.eqb x "'") eqn:E2; [by apply Ascii.eqb_eq in E2|]. done.
      * intros [= ->]. apply Hpre, elem_of_app. right. right. left.
  - rewrite <- !app_assoc. by apply run_include_plain.
  - done.
  - by destruct name.
  - intros pos. by apply (needs_matches_from "[" includeRegex post needs_includeRegex).
Qed.

(** X22.  One include directive in a text that has no other opening bracket
    (and no quote just before the directive), for a file name of ASCII
    characters without white space.  The directive is replaced
    in place by the file it names, its own includes expanded; the file
    is recorded when the compilation mode is on.  It is replaced by the
    empty text, with a warning, when the path leaves the template root
    by the test of [_isSafePath], when the file is on the inclusion
    stack, when it is the current file, or when it cannot be read. *)
Theorem processIncludes_expands_directive
    (depth : nat) (pre name post currentFile : str) (inclusionStack : gset str)
    (st : state) :
  "["%char ∉ pre →
  (∀ q, last pre = Some q → q ≠ dquote ∧ q ≠ "'"%char) →
  "["%char ∉ post →
  name ≠ [] →
  ascii_only name →
  Forall (fun y => is_space y = false ∧ y ≠ "]"%char) name →
  processIncludes CWD files (S depth) (pre ++ "[include " ++ name ++ "]" ++ post)
    currentFile inclusionStack st
  = let includePath := resolve_include CWD currentFile name in
    let relativeIncludePath := Path.relative (templatesAbsDir CWD) includePath in
    if negb (_isSafePath CWD includePath (templatesAbsDir CWD))
    then Some (pre ++ post, st, [UnsafePath name])
    else if bool_decide (includePath ∈ inclusionStack)
    then Some (pre ++ post, st, [CyclicInclude name])
    else if str_eqb relativeIncludePath currentFile
    then Some (pre ++ post, st, [SelfInclude name])
    else
      match files !! includePath with
      | None => Some (pre ++ post, st, [IncludeFailed name])
      | Some includedContent =>
          match
            processIncludes CWD files depth includedContent relativeIncludePath
              (inclusionStack ∪ {[ includePath ]})
              (if isCompilationMode st
               then record_include relativeIncludePath st else st)
          with
          | None => None
          | Some (expanded, st', log) => Some (pre ++ expanded ++ post, st', log)
          end
      end.
Proof.
  intros Hpre Hlast Hpost Hne _ Hname. rewrite processIncludes_step.
  rewrite include_matches_plain by done.
  cbn [length Nat.eqb sort_desc fold_right insert_desc include_loop].
  set (dir := list_ascii_of_string "[include " ++ name ++ list_ascii_of_string "]").
  replace (pre ++ list_ascii_of_string "[include " ++ name
           ++ list_ascii_of_string "]" ++ post)
    with (pre ++ dir ++ post) by (subst dir; by rewrite <- !app_assoc).
  rewrite slice_middle. cbv zeta.
  assert (∀ x : str, concat (rev ((([] ++ [post]) ++ [x]) ++ [slice (pre ++ dir ++ post) 0 (length pre)]))
                     = pre ++ x ++ post) as Hjoin.
  { intros x. rewrite slice_front. cbn [app rev concat]. by rewrite app_nil_r. }
  destruct (negb (_isSafePath CWD _ _)); [by rewrite Hjoin|].
  case_bool_decide; [by rewrite Hjoin|].
  destruct (str_eqb _ currentFile); [by rewrite Hjoin|].
  destruct (files !! _) as [includedContent|]; [|by rewrite Hjoin].
  destruct (processIncludes CWD files depth _ _ _ _) as [[[expanded st'] log]|]; [|done].
  by rewrite Hjoin.
Qed.

(** X23.  An include directive between two quotes is left as it is: nothing
    is read and no warning is written. *)
Theorem processIncludes_keeps_quoted_directive
    (depth : nat) (pre name post currentFile : str) (q q' : ascii)
    (inclusionStack : gset str) (st : state) :
  "["%char ∉ pre → "["%char ∉ post →
  q ∈ [dquote; "'"%char] → q' ∈ [dquote; "'"%char] →
  name ≠ [] →
  Forall (fun y => is_space y = false ∧ y ≠ "]"%char) name →
  processIncludes CWD files (S depth)
    (pre ++ q :: "[include " ++ name ++ "]" ++ q' :: post)
    currentFile inclusionStack st
  = Some (pre ++ q :: "[include " ++ name ++ "]" ++ q' :: post, st, []).
Proof.
  intros Hpre Hpost Hq Hq' Hne Hname. rewrite processIncludes_step.
  assert (include_matches
            (pre ++ q :: list_ascii_of_string "[include " ++ name
             ++ list_ascii_of_string "]" ++ q' :: post) = []) as ->; [|done].
  unfold include_matches.
  replace (pre ++ q :: list_ascii_of_string "[include " ++ name
           ++ list_ascii_of_string "]" ++ q' :: post)
    with (pre ++ (q :: list_ascii_of_string "[include " ++ name
                  ++ list_ascii_of_string "]" ++ [q']) ++ post)
    by (by repeat (rewrite <- ?app_assoc; cbn [app]; f_equal)).
  rewrite (matches_from_one includeRegex pre _ post
             {| m_text := q :: "[include " ++ name ++ "]" ++ [q']; m_rest := post;
                m_caps := [(3, [q']); (2, name); (1, [q])] |}).
  - by cbn [omap list_omap snd fst group m_caps m_text cap_get Nat.eqb].
  - intros a x b ->. apply run_include_none.
    + intros ->. apply Hpre, elem_of_app. right. left.
    + intros _. destruct b as [|y b]; cbn [app head].
      * intros [= ->]. apply quote_existsb in Hq. by vm_compute in Hq.
      * intros [= ->]. apply Hpre, elem_of_app. right. right. left.
  - rewrite <- run_include_quoted by done. f_equal.
    by repeat (rewrite <- ?app_assoc; cbn [app]; f_equal).
  - done.
  - done.
  - intros pos. by apply (needs_matches_from "[" includeRegex post needs_includeRegex).
Qed.

End IncludeDirective.

(** ** Tags that do not begin inside a text *)

Section TagFree.

Lemma exec_lit_i_fail (p : str) :
  ∀ (t : str) (c : caps) (k : str → caps → option (str * caps)),
    starts_with_i p t = false → exec (lit_i p) t c k = None.
Proof.
  unfold starts_with_i. induction p as [|x p IH]; intros t c k Ht; [done|].
  destruct t as [|y t]; [done|]. cbn [map] in Ht. rewrite starts_with_cons in Ht.
  cbn [lit_i]. rewrite exec_seq. unfold chr_i. rewrite exec_chr_cons.
  destruct (Ascii.eqb (upcase x) (upcase y)); [|done]. by apply IH.
Qed.

Lemma starts_with_longer (p s post : str) :
  length p ≤ length s → starts_with p (s ++ post) = starts_with p s.
Proof.
  revert s. induction p as [|x p IH]; intros [|y s] Hlen; cbn [length] in Hlen;
    try done; try lia.
  cbn [app]. rewrite !starts_with_cons. rewrite IH; [done|lia].
Qed.

Lemma starts_with_i_longer (p s post : str) :
  length p ≤ length s → starts_with_i p (s ++ post) = starts_with_i p s.
Proof.
  intros Hlen. unfold starts_with_i. rewrite map_app.
  apply starts_with_longer. by rewrite !length_map.
Qed.

Lemma begins_inside_false (tag body next : str) :
  begins_inside tag body next = false →
  ∀ b1 y b2, body = b1 ++ y :: b2 → starts_with_i tag (y :: b2 ++ next) = false.
Proof.
  intros Hfree b1 y b2 ->.
  destruct (starts_with_i tag (y :: b2 ++ next)) eqn:E; [|done].
  rewrite <- Hfree. symmetry. unfold begins_inside. apply existsb_exists.
  exists (length b1). split.
  - apply in_seq. rewrite length_app. cbn [length]. lia.
  - by rewrite <- app_assoc, drop_app_length.
Qed.

(** The same when more text follows [next], for a tag no longer than
    [next]. *)
Lemma begins_inside_post (tag body next post : str) :
  length tag ≤ S (length next) →
  begins_inside tag body next = false →
  ∀ b1 y b2, body = b1 ++ y :: b2 →
    starts_with_i tag (y :: b2 ++ next ++ post) = false.
Proof.
  intros Hlen Hfree b1 y b2 Hb.
  change (y :: b2 ++ next ++ post) with ((y :: b2) ++ next ++ post).
  rewrite app_assoc, starts_with_i_longer.
  - by apply (begins_inside_false tag body next Hfree b1).
  - rewrite length_app. cbn [length]. lia.
Qed.

Lemma free_of_elem (tags : list str) (body next tag : str) :
  free_of tags body next = true → tag ∈ tags → begins_inside tag body next = false.
Proof.
  unfold free_of. rewrite forallb_forall. intros Hfree Hin.
  apply negb_true_iff, Hfree. by apply list_elem_of_In.
Qed.

Lemma suffix_cons_cases (t l : str) (y : ascii) :
  t `suffix_of` y :: l → t = y :: l ∨ t `suffix_of` l.
Proof.
  destruct t as [|z t]; [right; apply suffix_nil|]. apply suffix_cons_inv.
Qed.

Lemma suffix_app_cases (a b t : str) :
  t `suffix_of` a ++ b → (∃ a1 y a2, a = a1 ++ y :: a2 ∧ t = y :: a2 ++ b) ∨ t `suffix_of` b.
Proof.
  induction a as [|x a IH]; intros Ht; [by right|].
  cbn [app] in Ht. apply suffix_cons_cases in Ht as [->|Ht].
  - left. by exists [], x, a.
  - destruct (IH Ht) as [(a1 & y & a2 & -> & ->)|?]; [|by right].
    left. by exists (x :: a1), y, a2.
Qed.

Lemma free_of_inside (tags : list str) (body next post tag : str) :
  free_of tags body next = true → tag ∈ tags → length tag ≤ S (length next) →
  ∀ b1 y b2 c k, body = b1 ++ y :: b2 →
    exec (lit_i tag) (y :: b2 ++ next ++ post) c k = None.
Proof.
  intros Hfree Hin Hlen b1 y b2 c k Hb. apply exec_lit_i_fail.
  apply (begins_inside_post tag body next post Hlen) with (b1 := b1); [|done].
  by apply (free_of_elem tags).
Qed.

Lemma exec_lit_i_longer (p q : str) :
  ∀ (t : str) (c : caps) (k : str → caps → option (str * caps)),
    (∀ k', exec (lit_i p) t c k' = None) → exec (lit_i (p ++ q)) t c k = None.
Proof.
  induction p as [|x p IH]; intros t c k Hp; [by specialize (Hp (fun _ _ => Some ([], [])))|].
  cbn [app lit_i]. rewrite exec_seq. destruct t as [|y t]; [done|].
  unfold chr_i. rewrite exec_chr_cons.
  destruct (Ascii.eqb (upcase x) (upcase y)) eqn:E; [|done].
  apply IH. intros k'. specialize (Hp k'). cbn [lit_i] in Hp.
  rewrite exec_seq in Hp. unfold chr_i in Hp. by rewrite exec_chr_cons, E in Hp.
Qed.

End TagFree.

(** ** One conditional *)

Section ReplaceOne.

Lemma replace_fold_pass {St : Type} (r : re) (f : str → found → St → str * St)
    (a s : str) :
  ∀ (before : str) (st : St),
    replace_fold r f (length a) before (a ++ s) st = replace_fold r f 0 (before ++ a) s st.
Proof.
  induction a as [|x a IH]; intros before st; cbn [length app].
  - by rewrite app_nil_r.
  - cbn [replace_fold]. rewrite IH. by rewrite <- app_assoc.
Qed.

(** One match in a text: none begins before it, none after it. *)
Lemma replace_fold_one {St : Type} (r : re) (f : str → found → St → str * St)
    (dir post : str) (m : found) :
  run r (dir ++ post) = Some m → m_text m = dir → dir ≠ [] →
  (∀ before st, replace_fold r f 0 before post st = (post, st)) →
  ∀ (pre before : str) (st : St),
    (∀ a x b, pre = a ++ x :: b → run r (x :: b ++ dir ++ post) = None) →
    replace_fold r f 0 before (pre ++ dir ++ post) st
    = (pre ++ fst (f (before ++ pre) m st) ++ post, snd (f (before ++ pre) m st)).
Proof.
  intros Hrun Htext Hdir Hpost. induction pre as [|x pre IH]; intros before st Hpre.
  - destruct dir as [|d dir]; [done|]. cbn [app replace_fold].
    change (d :: dir ++ post) with ((d :: dir) ++ post). rewrite Hrun, Htext.
    rewrite app_nil_r. destruct (f before m st) as [out st1].
    replace (length (d :: dir) - 1) with (length dir) by (cbn [length]; lia).
    rewrite replace_fold_pass, Hpost. cbn [length Nat.eqb fst snd app]. done.
  - cbn [app replace_fold]. rewrite (Hpre [] x pre eq_refl).
    rewrite IH by (intros a y b ->; exact (Hpre (x :: a) y b eq_refl)).
    by rewrite <- app_assoc.
Qed.

Lemma star_zero (a : re) (s : str) (c : caps) (k : str → caps → option (str * caps)) :
  (∀ k', exec a s c k' = None) → exec (Star true a) s c k = k s c.
Proof.
  intros Ha. rewrite exec_star. destruct (length s); [done|].
  cbn [star_loop]. by rewrite Ha.
Qed.

Lemma exec_lit_i_brace (p t : str) (c : caps) (k : str → caps → option (str * caps)) :
  head t ≠ Some "{"%char → exec (lit_i ("{"%char :: p)) t c k = None.
Proof.
  intros Ht. cbn [lit_i]. rewrite exec_seq. destruct t as [|y t]; [done|].
  unfold chr_i. rewrite exec_chr_cons, upcase_brace.
  destruct (Ascii.eqb "{" y) eqn:E; [|done]. apply Ascii.eqb_eq in E as <-. by destruct Ht.
Qed.

Lemma includes_without (c : ascii) (p s : str) : c ∉ s → includes s (c :: p) = false.
Proof.
  intros Hc. apply includes_false. intros s' [a ->]. destruct s' as [|y s']; [done|].
  rewrite starts_with_cons. destruct (Ascii.eqb c y) eqn:E; [|done].
  apply Ascii.eqb_eq in E as <-. destruct Hc. apply elem_of_app. right. left.
Qed.

End ReplaceOne.

Section Conditional.

Context (H : Host).

Lemma if_tail_inside (t : str) (c : caps) (k : str → caps → option (str * caps)) :
  (∀ c' k', exec (lit_i "{{else") t c' k' = None) →
  (∀ c' k', exec (lit_i "{{endif}}") t c' k' = None) →
  exec if_tail t c k = None.
Proof.
  intros Helse Hendif.
  unfold if_tail. cbn [seq]. rewrite exec_seq, exec_grp. unfold star at 1.
  rewrite star_zero by (intros k'; by rewrite exec_seq, Helse).
  rewrite exec_seq. unfold opt. rewrite exec_alt, exec_seq.
  change (list_ascii_of_string "{{else}}")
    with (list_ascii_of_string "{{else" ++ list_ascii_of_string "}}").
  rewrite exec_lit_i_longer by (intros k'; apply Helse). cbn [exec].
  apply Hendif.
Qed.

(** The tail at the end of the first branch, before [{{else}}]. *)
Lemma if_tail_else (B post : str) (c : caps) :
  free_of [list_ascii_of_string "{{endif}}"] B "{{endif}}" = true →
  exec if_tail ("{{else}}" ++ B ++ "{{endif}}" ++ post) c (fun s' c' => Some (s', c'))
  = Some (post, (4, B) :: (3, []) :: c).
Proof.
  intros HB. set (k0 := fun (s' : str) (c' : caps) => Some (s', c')).
  unfold if_tail. cbn [seq]. rewrite exec_seq, exec_grp. unfold star at 1.
  rewrite star_zero.
  2: { intros k'. rewrite exec_seq.
       change (list_ascii_of_string "{{else}}" ++ B ++ list_ascii_of_string "{{endif}}"
               ++ post)
         with (list_ascii_of_string "{{else"
               ++ "}"%char :: "}"%char :: B ++ list_ascii_of_string "{{endif}}" ++ post).
       rewrite exec_lit_i_app, exec_seq. unfold plus. rewrite exec_seq.
       unfold space at 1. by rewrite exec_chr_cons. }
  rewrite Nat.sub_diag, take_0. unfold cap_set at 1.
  rewrite exec_seq. unfold opt. rewrite exec_alt, exec_seq, exec_lit_i_app, exec_grp.
  unfold lazy_star, any. rewrite exec_star.
  rewrite (star_loop_lazy _ (list_ascii_of_string "{{endif}}" ++ post) _
             (post, (4, B) :: (3, []) :: c)); [done| | | |].
  - by apply Forall_true.
  - rewrite length_app. lia.
  - intros a1 x a2 HBeq.
    apply (free_of_inside [list_ascii_of_string "{{endif}}"] B "{{endif}}" post)
      with (b1 := a1); [done|by left|cbn [length]; lia|done].
  - rewrite exec_lit_i_app. unfold k0, cap_set. do 4 f_equal. apply take_prefix.
Qed.

(** The tail at the end of the only branch. *)
Lemma if_tail_endif (post : str) (c : caps) :
  exec if_tail ("{{endif}}" ++ post) c (fun s' c' => Some (s', c'))
  = Some (post, (3, []) :: c).
Proof.
  unfold if_tail. cbn [seq]. rewrite exec_seq, exec_grp. unfold star at 1.
  rewrite star_zero by (intros k'; by vm_compute).
  rewrite Nat.sub_diag, take_0. unfold cap_set at 1.
  rewrite exec_seq. unfold opt. rewrite exec_alt.
  assert (∀ k', exec (Seq (lit_i "{{else}}") (Grp 4 (lazy_star any)))
                  (list_ascii_of_string "{{endif}}" ++ post) ((3, []) :: c) k' = None)
    as -> by (intros k'; by vm_compute).
  cbn [exec]. by rewrite exec_lit_i_app.
Qed.

Lemma not_brace (y : ascii) :
  y ≠ "}"%char → negb (existsb (Ascii.eqb y) ["}"%char]) = true.
Proof.
  intros Hy. cbn [existsb]. destruct (Ascii.eqb y "}") eqn:E; [|done].
  by apply Ascii.eqb_eq in E.
Qed.

Lemma IfRegex_tail :
  IfRegex
  = Seq (lit_i "{{if")
      (Seq (plus space)
         (Seq (Grp 1 (plus (none_of ["}"%char])))
            (Seq (lit "}}") (Seq (Grp 2 (lazy_star any)) if_tail)))).
Proof. reflexivity. Qed.

(** [{{if cond}}A] followed by a text [rest] that the tail of the
    pattern matches. *)
Lemma run_IfRegex (x : ascii) (cond A rest post : str) (c : caps) :
  is_space x = false → x ≠ "}"%char → "}"%char ∉ cond →
  (∀ a1 y a2 c' k', A = a1 ++ y :: a2 → exec if_tail (y :: a2 ++ rest ++ post) c' k' = None) →
  (∀ c0, exec if_tail (rest ++ post) c0 (fun s' c' => Some (s', c'))
         = Some (post, c ++ c0)) →
  run IfRegex ("{{if " ++ (x :: cond) ++ "}}" ++ A ++ rest ++ post)
  = Some {| m_text := "{{if " ++ (x :: cond) ++ "}}" ++ A ++ rest; m_rest := post;
            m_caps := c ++ [(2, A); (1, x :: cond)] |}.
Proof.
  intros Hx Hxc Hcond HA Htail.
  set (k0 := fun (s' : str) (c' : caps) => Some (s', c')).
  unfold run. fold k0.
  set (input := list_ascii_of_string "{{if " ++ (x :: cond)
                ++ list_ascii_of_string "}}" ++ A ++ rest ++ post).
  assert (exec IfRegex input [] k0 = Some (post, c ++ [(2, A); (1, x :: cond)])) as ->.
  { rewrite IfRegex_tail.
    change input with (list_ascii_of_string "{{if"
                       ++ " "%char :: x :: cond ++ "}"%char :: "}"%char :: A ++ rest ++ post).
    rewrite exec_seq, exec_lit_i_app, exec_seq. unfold plus at 1. rewrite exec_seq.
    unfold space at 1. rewrite exec_chr_cons. change (is_space " ") with true.
    cbv iota beta. unfold space.
    rewrite star_stops by (intros ? ? [= <- <-]; exact Hx).
    rewrite exec_seq, exec_grp. unfold plus, none_of. rewrite exec_seq, exec_chr_cons.
    rewrite (not_brace x) by done. cbv iota beta.
    apply star_greedy.
    - apply Forall_forall. intros y Hy. apply not_brace. intros ->. by apply Hcond.
    - by intros ? ? [= <- <-].
    - rewrite exec_seq.
      change ("}"%char :: "}"%char :: A ++ rest ++ post)
        with (list_ascii_of_string "}}" ++ A ++ rest ++ post).
      rewrite exec_lit_app, exec_seq, exec_grp. unfold lazy_star, any.
      rewrite exec_star.
      rewrite (star_loop_lazy _ (rest ++ post) _ (post, c ++ [(2, A); (1, x :: cond)]));
        [done| | | |].
      + by apply Forall_true.
      + rewrite length_app. lia.
      + intros a1 y a2 HAeq. by apply (HA a1).
      + rewrite Htail. unfold cap_set. repeat f_equal; [apply take_prefix|].
        change (x :: cond ++ list_ascii_of_string "}}" ++ A ++ rest ++ post)
          with ((x :: cond) ++ list_ascii_of_string "}}" ++ A ++ rest ++ post).
        apply take_prefix. }
  do 2 f_equal. subst input.
  replace (list_ascii_of_string "{{if " ++ (x :: cond) ++ list_ascii_of_string "}}"
           ++ A ++ rest ++ post)
    with ((list_ascii_of_string "{{if " ++ (x :: cond) ++ list_ascii_of_string "}}"
           ++ A ++ rest) ++ post)
    by (by rewrite <- !app_assoc).
  apply take_prefix.
Qed.

Lemma run_IfRegex_none (y : ascii) (s : str) : y ≠ "{"%char → run IfRegex (y :: s) = None.
Proof.
  intros Hy. unfold run. rewrite IfRegex_tail, exec_seq.
  change (list_ascii_of_string "{{if") with ("{"%char :: list_ascii_of_string "{if").
  rewrite exec_lit_i_brace; [done|]. by intros [= ->].
Qed.

Lemma conditional_simple (variables : list (str * value (num H)))
    (text post cond A B : str) (tail_caps : caps) :
  tail_caps = [(4, B); (3, [])] ∨ (tail_caps = [(3, [])] ∧ B = []) →
  includes (A ++ B) "{{if" = false →
  conditional H variables
    {| m_text := text; m_rest := post; m_caps := tail_caps ++ [(2, A); (1, cond)] |} false
  = (if truthy H (_evaluateExpression H cond variables) then A else B, false).
Proof.
  intros Hcaps Hif. unfold conditional, group_, group. cbn [m_caps].
  assert (default [] (cap_get (tail_caps ++ [(2, A); (1, cond)]) 1) = cond
          ∧ default [] (cap_get (tail_caps ++ [(2, A); (1, cond)]) 2) = A
          ∧ default [] (cap_get (tail_caps ++ [(2, A); (1, cond)]) 3) = []
          ∧ default [] (cap_get (tail_caps ++ [(2, A); (1, cond)]) 4) = B)
    as (-> & -> & -> & ->).
  { by destruct Hcaps as [->|[-> ->]]. }
  cbn [length Nat.eqb app]. rewrite Hif.
  cbn [orb]. by destruct (truthy H _).
Qed.

Lemma processConditionals_one (variables : list (str * value (num H)))
    (x : ascii) (pre cond A B rest post : str) (tail_caps : caps) :
  "{"%char ∉ pre → "{"%char ∉ post →
  is_space x = false → "}"%char ∉ x :: cond →
  includes (A ++ B) "{{if" = false →
  (∀ a1 y a2 c' k', A = a1 ++ y :: a2 → exec if_tail (y :: a2 ++ rest ++ post) c' k' = None) →
  tail_caps = [(4, B); (3, [])] ∨ (tail_caps = [(3, [])] ∧ B = []) →
  (∀ c0, exec if_tail (rest ++ post) c0 (fun s' c' => Some (s', c'))
         = Some (post, tail_caps ++ c0)) →
  _processConditionals H (pre ++ "{{if " ++ (x :: cond) ++ "}}" ++ A ++ rest ++ post)
    variables
  = pre ++ (if truthy H (_evaluateExpression H (x :: cond) variables) then A else B)
    ++ post.
Proof.
  intros Hpre Hpost Hx Hcond Hif HA Hcaps Htail.
  apply not_elem_of_cons in Hcond as [Hxc Hcond].
  unfold _processConditionals. rewrite conditionals_loop_step. unfold replace_st.
  set (dir := list_ascii_of_string "{{if " ++ (x :: cond) ++ list_ascii_of_string "}}"
              ++ A ++ rest).
  replace (pre ++ list_ascii_of_string "{{if " ++ (x :: cond)
           ++ list_ascii_of_string "}}" ++ A ++ rest ++ post)
    with (pre ++ dir ++ post) by (subst dir; by rewrite <- !app_assoc).
  rewrite (replace_fold_one IfRegex _ dir post
             {| m_text := dir; m_rest := post;
                m_caps := tail_caps ++ [(2, A); (1, x :: cond)] |}).
  - by rewrite (conditional_simple variables dir post (x :: cond) A B tail_caps).
  - subst dir. rewrite <- !app_assoc. rewrite <- (run_IfRegex x cond A rest post) by done.
    done.
  - done.
  - done.
  - intros before st. apply replace_fold_plain; [apply braced_IfRegex|].
    by apply (includes_without "{" "{").
  - intros a y b ->. apply run_IfRegex_none. intros ->.
    apply Hpre, elem_of_app. right. left.
Qed.

Lemma if_tail_in_branch (A next post : str) :
  free_of [list_ascii_of_string "{{else"; list_ascii_of_string "{{endif}}"] A next = true →
  8 ≤ length next →
  ∀ a1 y a2 c' k', A = a1 ++ y :: a2 →
    exec if_tail (y :: a2 ++ next ++ post) c' k' = None.
Proof.
  intros HA Hlen a1 y a2 c' k' HAeq. apply if_tail_inside; intros c'' k''.
  - apply (free_of_inside _ A next post _ HA) with (b1 := a1);
      [|cbn [length list_ascii_of_string]; lia|done].
    left.
  - apply (free_of_inside _ A next post _ HA) with (b1 := a1);
      [|cbn [length list_ascii_of_string]; lia|done].
    right. left.
Qed.

(** X24.  One conditional in a text that has no brace before it and none
    after it, with branches in which no [{{else]...[}}] and no
    [{{endif}}] begins and that hold no [{{if], and with a condition
    whose evaluation returns a value.  With an [else] branch it is
    replaced by the first branch when that value holds and by the second
    when it does not; without one it is replaced by the branch or by
    nothing.  The tags of the branch chosen are left as they are. *)
Theorem processConditionals_picks_branch
    (variables : list (str * value (num H))) (x : ascii) (pre cond A B post : str)
    (v : value (num H)) :
  "{"%char ∉ pre → "{"%char ∉ post →
  is_space x = false → is_ascii x = true → "}"%char ∉ x :: cond →
  runInContext H ("(" ++ (x :: cond) ++ ")") (sandbox H variables) = Returns v →
  (free_of [list_ascii_of_string "{{else"; list_ascii_of_string "{{endif}}"] A "{{else}}"
   = true →
   free_of [list_ascii_of_string "{{endif}}"] B "{{endif}}" = true →
   includes (A ++ B) "{{if" = false →
   _processConditionals H
     (pre ++ "{{if " ++ (x :: cond) ++ "}}" ++ A ++ "{{else}}" ++ B ++ "{{endif}}" ++ post)
     variables
   = pre ++ (if truthy H v then A else B) ++ post)
  ∧ (free_of [list_ascii_of_string "{{else"; list_ascii_of_string "{{endif}}"] A "{{endif}}"
     = true →
     includes A "{{if" = false →
     _processConditionals H
       (pre ++ "{{if " ++ (x :: cond) ++ "}}" ++ A ++ "{{endif}}" ++ post) variables
     = pre ++ (if truthy H v then A else []) ++ post).
Proof.
  intros Hpre Hpost Hx _ Hcond Hv.
  assert (_evaluateExpression H (x :: cond) variables = v) as <-
    by (unfold _evaluateExpression; by rewrite Hv).
  split.
  - intros HA HB Hif.
    replace (pre ++ list_ascii_of_string "{{if " ++ (x :: cond)
             ++ list_ascii_of_string "}}" ++ A ++ list_ascii_of_string "{{else}}" ++ B
             ++ list_ascii_of_string "{{endif}}" ++ post)
      with (pre ++ list_ascii_of_string "{{if " ++ (x :: cond)
            ++ list_ascii_of_string "}}" ++ A
            ++ (list_ascii_of_string "{{else}}" ++ B ++ list_ascii_of_string "{{endif}}")
            ++ post)
      by (by rewrite <- !app_assoc).
    apply (processConditionals_one variables x pre cond A B _ post [(4, B); (3, [])]);
      [done..| |by left|].
    + intros a1 y a2 c' k' HAeq. rewrite <- !app_assoc.
      apply (if_tail_in_branch A "{{else}}" _ HA) with (a1 := a1);
        [cbn [length list_ascii_of_string]; lia|done].
    + intros c0. rewrite <- !app_assoc. by apply if_tail_else.
  - intros HA Hif.
    apply (processConditionals_one variables x pre cond A [] _ post [(3, [])]);
      [done..|by rewrite app_nil_r| |by right|].
    + intros a1 y a2 c' k' HAeq.
      apply (if_tail_in_branch A "{{endif}}" _ HA) with (a1 := a1);
        [cbn [length list_ascii_of_string]; lia|done].
    + intros c0. apply if_tail_endif.
Qed.

End Conditional.

(** ** One variable *)

Section BracePositions.

Lemma word_char (y : ascii) :
  is_word y = true →
  is_space y = false ∧ y ≠ "{"%char ∧ y ≠ "}"%char ∧ y ≠ "."%char ∧ y ≠ "`"%char.
Proof.
  intros Hy. destruct y as [[] [] [] [] [] [] [] []]; vm_compute in Hy;
    try discriminate; split_and!; (reflexivity || discriminate).
Qed.

Lemma replace_fold_nowhere {St : Type} (r : re) (f : str → found → St → str * St) :
  ∀ (s before : str) (st : St),
    (∀ t, t `suffix_of` s → run r t = None) →
    replace_fold r f 0 before s st = (s, st).
Proof.
  induction s as [|x s IH]; intros before st Hs; cbn [replace_fold].
  - by rewrite Hs.
  - rewrite (Hs (x :: s)) by done. rewrite IH; [done|].
    intros t Ht. apply Hs. by apply suffix_cons_r.
Qed.

(** Where a pair of opening braces can stand. *)
Lemma suffix_brace (key post : str) :
  "{"%char ∉ key → "{"%char ∉ post →
  ∀ pre t, "{"%char ∉ pre →
    t `suffix_of` pre ++ "{{" ++ key ++ "}}" ++ post →
    starts_with "{{" t = true →
    t = "{{" ++ key ++ "}}" ++ post.
Proof.
  intros Hkey Hpost.
  assert ("{"%char ∉ key ++ list_ascii_of_string "}}" ++ post) as Hrest.
  { intros [?|[?|?]%elem_of_app]%elem_of_app; [by apply Hkey| |by apply Hpost].
    by repeat (apply elem_of_cons in H as [?|H]; [done|]); apply elem_of_nil in H. }
  assert (∀ s t, "{"%char ∉ s → t `suffix_of` s → starts_with "{{" t = false) as Hnone.
  { intros s t Hs [a ->]. destruct t as [|y t]; [done|].
    change (list_ascii_of_string "{{") with ["{"%char; "{"%char].
    rewrite starts_with_cons. destruct (Ascii.eqb "{" y) eqn:E; [|done].
    apply Ascii.eqb_eq in E as <-. destruct Hs. apply elem_of_app. right. left. }
  induction pre as [|x pre IH]; intros t Hpre Ht Hstart.
  - change ([] ++ list_ascii_of_string "{{" ++ key ++ list_ascii_of_string "}}" ++ post)
      with ("{"%char :: "{"%char :: key ++ list_ascii_of_string "}}" ++ post) in Ht.
    apply suffix_cons_cases in Ht as [->|Ht]; [done|].
    apply suffix_cons_cases in Ht as [->|Ht].
    + change (list_ascii_of_string "{{") with ["{"%char; "{"%char] in Hstart.
      rewrite starts_with_cons in Hstart. apply andb_prop in Hstart as [_ Hstart].
      destruct (key ++ list_ascii_of_string "}}" ++ post) as [|y w] eqn:E; [done|].
      rewrite starts_with_cons in Hstart. destruct (Ascii.eqb "{" y) eqn:Ey; [|done].
      apply Ascii.eqb_eq in Ey as <-. destruct Hrest. left.
    + by rewrite (Hnone _ _ Hrest Ht) in Hstart.
  - apply not_elem_of_cons in Hpre as [Hx Hpre]. cbn [app] in Ht.
    apply suffix_cons_cases in Ht as [->|Ht].
    + change (list_ascii_of_string "{{") with ["{"%char; "{"%char] in Hstart.
      rewrite starts_with_cons in Hstart.
      destruct (Ascii.eqb "{" x) eqn:E; [|done]. by apply Ascii.eqb_eq in E.
    + by apply IH.
Qed.

Lemma star_loop_none (p : ascii → bool) (greedy : bool) (b : str) (c : caps)
    (k : str → caps → option (str * caps)) :
  (∀ x b', b = x :: b' → p x = false) →
  ∀ (a : str) (n : nat),
    Forall (fun y => p y = true) a →
    (∀ a1 a2, a = a1 ++ a2 → k (a2 ++ b) c = None) →
    star_loop (exec (Chr p)) greedy k n (a ++ b) c = None.
Proof.
  intros Hb. induction a as [|y a IH]; intros n Ha Hk.
  - cbn [app]. pose proof (Hk [] [] eq_refl) as Hk0. cbn [app] in Hk0.
    destruct n as [|n]; cbn [star_loop]; [done|]. rewrite Hk0.
    destruct b as [|x b']; cbn [exec]; [by destruct greedy|].
    rewrite (Hb x b' eq_refl). by destruct greedy.
  - apply Forall_cons in Ha as [Hy Ha].
    pose proof (Hk [] (y :: a) eq_refl) as Hk0.
    destruct n as [|n]; cbn [star_loop]; [done|]. rewrite Hk0.
    cbn [app exec]. rewrite Hy. cbn [length].
    replace (length (a ++ b) <? S (length (a ++ b))) with true
      by (symmetry; apply Nat.ltb_lt; lia).
    rewrite IH; [by destruct greedy|done|].
    intros a1 a2 ->. exact (Hk (y :: a1) a2 eq_refl).
Qed.

End BracePositions.

Section OneVariable.

Context (H : Host).

Lemma exec_two_braces (r : re) (t : str) (c : caps)
    (k : str → caps → option (str * caps)) :
  starts_with "{{" t = false → exec (Seq (chr "{") (Seq (chr "{") r)) t c k = None.
Proof.
  change (list_ascii_of_string "{{") with ["{"%char; "{"%char]. intros Ht.
  destruct t as [|y t]; [done|]. rewrite exec_seq. unfold chr at 1.
  rewrite exec_chr_cons. rewrite starts_with_cons in Ht.
  destruct (Ascii.eqb "{" y); [|done]. destruct t as [|z t]; [done|].
  rewrite exec_seq. unfold chr at 1. rewrite exec_chr_cons.
  rewrite starts_with_cons in Ht. by destruct (Ascii.eqb "{" z).
Qed.

Lemma run_variableRegex_elsewhere (k t : str) :
  starts_with "{{" t = false → run (variableRegex k) t = None.
Proof.
  intros Ht. unfold run. rewrite variableRegex_literal. cbn [app fold_right].
  by rewrite exec_two_braces.
Qed.

Lemma run_objectPropertyRegex_elsewhere (t : str) :
  starts_with "{{" t = false → run objectPropertyRegex t = None.
Proof.
  intros Ht. unfold run, objectPropertyRegex. cbn [seq]. rewrite exec_seq.
  by rewrite exec_lit.
Qed.

(** [{{key}}] is not a property access. *)
Lemma run_objectPropertyRegex_key (key post : str) :
  Forall (fun y => is_word y = true) key →
  run objectPropertyRegex ("{{" ++ key ++ "}}" ++ post) = None.
Proof.
  intros Hkey. unfold run, objectPropertyRegex. cbn [seq].
  rewrite exec_seq, exec_lit_app, exec_seq, exec_grp, exec_seq.
  unfold plus at 1. rewrite exec_seq. unfold word at 1.
  destruct key as [|x key]; [done|]. apply Forall_cons in Hkey as [Hx Hkey].
  cbn [app]. rewrite exec_chr_cons, Hx. unfold word at 1. rewrite exec_star.
  rewrite star_loop_none; [done| |done|].
  - by intros ? ? [= <- <-].
  - intros a1 a2 ->. rewrite exec_seq. rewrite exec_lit; [done|].
    change (list_ascii_of_string ".") with ["."%char].
    destruct a2 as [|y a2]; [done|]. cbn [app]. rewrite starts_with_cons.
    apply Forall_app in Hkey as [_ Hkey]. apply Forall_cons in Hkey as [Hy _].
    destruct (word_char y Hy) as (_ & _ & _ & Hdot & _).
    destruct (Ascii.eqb "." y) eqn:E; [|done]. by apply Ascii.eqb_eq in E.
Qed.

(** The literal part of the pattern of [k], tried on [key}}]. *)
Lemma exec_key_literal (post : str) (c : caps) :
  ∀ k key : str,
    Forall (fun y => is_word y = true) k →
    Forall (fun y => is_word y = true) key →
    exec (fold_right Seq Eps (map chr k ++ [star space; chr "}"; chr "}"]))
      (key ++ "}}" ++ post) c (fun s' c' => Some (s', c'))
    = if bool_decide (k = key) then Some (post, c) else None.
Proof.
  induction k as [|x k IH]; intros key Hk Hkey.
  - cbn [map app fold_right]. rewrite exec_seq. unfold star, space.
    destruct key as [|y key].
    + rewrite star_stops by (by intros ? ? [= <- <-]). by vm_compute.
    + apply Forall_cons in Hkey as [Hy _].
      destruct (word_char y Hy) as (Hs & _ & Hc & _).
      rewrite star_stops by (intros ? ? [= <- <-]; exact Hs).
      cbn [app]. rewrite exec_seq. unfold chr at 1. rewrite exec_chr_cons.
      rewrite bool_decide_eq_false_2 by done.
      destruct (Ascii.eqb "}" y) eqn:E; [|done]. by apply Ascii.eqb_eq in E.
  - apply Forall_cons in Hk as [Hx Hk]. cbn [map app fold_right].
    rewrite exec_seq. unfold chr at 1.
    destruct (word_char x Hx) as (_ & _ & Hc & _).
    destruct key as [|y key].
    + change ([] ++ list_ascii_of_string "}}" ++ post) with ("}"%char :: "}"%char :: post).
      rewrite exec_chr_cons. rewrite bool_decide_eq_false_2 by done.
      destruct (Ascii.eqb x "}") eqn:E; [|done]. by apply Ascii.eqb_eq in E.
    + apply Forall_cons in Hkey as [_ Hkey]. cbn [app]. rewrite exec_chr_cons.
      destruct (Ascii.eqb x y) eqn:E.
      * apply Ascii.eqb_eq in E as <-. rewrite IH by done.
        destruct (decide (k = key)) as [->|Hne].
        -- by rewrite !bool_decide_eq_true_2.
        -- rewrite !bool_decide_eq_false_2; [done| |done]. by intros [= ?].
      * rewrite bool_decide_eq_false_2; [done|]. intros [= -> _].
        by rewrite Ascii.eqb_refl in E.
Qed.

Lemma run_variableRegex_key (k key post : str) :
  Forall (fun y => is_word y = true) k →
  Forall (fun y => is_word y = true) key →
  run (variableRegex k) ("{{" ++ key ++ "}}" ++ post)
  = if bool_decide (k = key)
    then Some {| m_text := "{{" ++ key ++ "}}"; m_rest := post; m_caps := [] |}
    else None.
Proof.
  intros Hk Hkey. unfold run. rewrite variableRegex_literal.
  change (exec _ _ [] _)
    with (exec (Seq (chr "{") (Seq (chr "{") (Seq (star space)
            (fold_right Seq Eps (map chr k ++ [star space; chr "}"; chr "}"])))))
            ("{"%char :: "{"%char :: key ++ list_ascii_of_string "}}" ++ post) []
            (fun s' c' => Some (s', c'))).
  rewrite exec_seq. unfold chr at 1. rewrite exec_chr_cons. cbn [Ascii.eqb Bool.eqb andb].
  cbv iota. rewrite exec_seq. unfold chr at 1. rewrite exec_chr_cons.
  cbn [Ascii.eqb Bool.eqb andb]. cbv iota. rewrite exec_seq. unfold star at 1, space at 1.
  rewrite star_stops.
  2: { intros x s' Hs. destruct key as [|y key]; cbn [app] in Hs.
       - by injection Hs as <- _.
       - injection Hs as <- _. apply Forall_cons in Hkey as [Hy _].
         by destruct (word_char y Hy) as (? & _). }
  rewrite exec_key_literal by done. case_bool_decide; [|done].
  do 2 f_equal.
  replace (list_ascii_of_string "{{" ++ key ++ list_ascii_of_string "}}" ++ post)
    with ((list_ascii_of_string "{{" ++ key ++ list_ascii_of_string "}}") ++ post)
    by (by rewrite <- !app_assoc).
  apply take_prefix.
Qed.

Lemma replace_keys_plain (variables : list (str * value (num H))) :
  ∀ s, plain s → replace_keys H variables s = s.
Proof.
  induction variables as [|[k w] variables IH]; intros s Hs; [done|].
  unfold replace_keys. cbn [fold_left fst snd]. fold (replace_keys H variables).
  destruct (is_unsafe k); [by apply IH|].
  rewrite replace_text_plain by (apply braced_variableRegex || done). by apply IH.
Qed.

Lemma replace_text_other_key (k key pre post text : str) :
  "{"%char ∉ pre → "{"%char ∉ post →
  Forall (fun y => is_word y = true) k →
  Forall (fun y => is_word y = true) key →
  k ≠ key →
  replace_text (variableRegex k) 0 text (pre ++ "{{" ++ key ++ "}}" ++ post)
  = pre ++ "{{" ++ key ++ "}}" ++ post.
Proof.
  intros Hpre Hpost Hk Hkey Hne. unfold replace_text.
  rewrite replace_fold_nowhere; [done|]. intros t Ht.
  destruct (starts_with "{{" t) eqn:Hstart; [|by apply run_variableRegex_elsewhere].
  rewrite (suffix_brace key post) with (pre := pre) (t := t); try done.
  - rewrite run_variableRegex_key by done. by rewrite bool_decide_eq_false_2.
  - intros Hin. rewrite Forall_forall in Hkey. by destruct (word_char _ (Hkey _ Hin)) as (_ & ? & _).
Qed.

Lemma word_without_brace (key : str) :
  Forall (fun y => is_word y = true) key → "{"%char ∉ key.
Proof.
  intros Hkey Hin. rewrite Forall_forall in Hkey.
  by destruct (word_char _ (Hkey _ Hin)) as (_ & ? & _).
Qed.

Lemma replace_keys_skip (key pre post : str) :
  "{"%char ∉ pre → "{"%char ∉ post →
  Forall (fun y => is_word y = true) key →
  ∀ variables : list (str * value (num H)),
    Forall (fun kv => Forall (fun y => is_word y = true) (fst kv)) variables →
    (is_unsafe key = true ∨ JsObject.own variables key = None) →
    replace_keys H variables (pre ++ "{{" ++ key ++ "}}" ++ post)
    = pre ++ "{{" ++ key ++ "}}" ++ post.
Proof.
  intros Hpre Hpost Hkey. induction variables as [|[k w] variables IH];
    intros Hwords Hskip; [done|].
  apply Forall_cons in Hwords as [Hk Hwords]. cbn [fst] in Hk.
  unfold replace_keys. cbn [fold_left fst snd]. fold (replace_keys H variables).
  assert (is_unsafe key = true ∨ JsObject.own variables key = None) as Hskip'.
  { destruct Hskip as [?|Hown]; [by left|]. right. cbn [JsObject.own] in Hown.
    by destruct (str_eqb key k). }
  destruct (is_unsafe k) eqn:Eu; [by apply IH|].
  rewrite replace_text_other_key; [by apply IH|done..|].
  intros ->. destruct Hskip as [Hu|Hown]; [congruence|].
  cbn [JsObject.own] in Hown. by rewrite str_eqb_refl in Hown.
Qed.

Lemma replace_keys_found (key pre post : str) (v : value (num H)) :
  "{"%char ∉ pre → "{"%char ∉ post →
  Forall (fun y => is_word y = true) key →
  is_unsafe key = false →
  "{"%char ∉ substitution 0 pre
               {| m_text := "{{" ++ key ++ "}}"; m_rest := post; m_caps := [] |}
               (_safeToString H v) →
  ∀ variables : list (str * value (num H)),
    Forall (fun kv => Forall (fun y => is_word y = true) (fst kv)) variables →
    JsObject.own variables key = Some v →
    replace_keys H variables (pre ++ "{{" ++ key ++ "}}" ++ post)
    = pre ++ substitution 0 pre
               {| m_text := "{{" ++ key ++ "}}"; m_rest := post; m_caps := [] |}
               (_safeToString H v)
      ++ post.
Proof.
  intros Hpre Hpost Hkey Hsafe Hvalue.
  induction variables as [|[k w] variables IH]; intros Hwords Hown; [done|].
  apply Forall_cons in Hwords as [Hk Hwords]. cbn [fst] in Hk.
  unfold replace_keys. cbn [fold_left fst snd]. fold (replace_keys H variables).
  cbn [JsObject.own] in Hown. destruct (str_eqb key k) eqn:E.
  - apply str_eqb_eq in E as <-. injection Hown as ->. rewrite Hsafe.
    unfold replace_text.
    replace (pre ++ list_ascii_of_string "{{" ++ key ++ list_ascii_of_string "}}" ++ post)
      with (pre ++ (list_ascii_of_string "{{" ++ key ++ list_ascii_of_string "}}") ++ post)
      by (by rewrite <- !app_assoc).
    rewrite (replace_fold_one (variableRegex key) _ _ post
               {| m_text := "{{" ++ key ++ "}}"; m_rest := post; m_caps := [] |}).
    + cbn [fst app]. apply replace_keys_plain. apply (includes_without "{" "{").
      intros [?|[?|?]%elem_of_app]%elem_of_app; [by apply Hpre|by apply Hvalue|by apply Hpost].
    + rewrite <- !app_assoc, run_variableRegex_key by done.
      by rewrite bool_decide_eq_true_2.
    + done.
    + done.
    + intros before st. apply replace_fold_plain; [apply braced_variableRegex|].
      by apply (includes_without "{" "{").
    + intros a x b ->. apply run_variableRegex_elsewhere.
      change (list_ascii_of_string "{{") with ["{"%char; "{"%char].
      rewrite starts_with_cons. destruct (Ascii.eqb "{" x) eqn:Ex; [|done].
      apply Ascii.eqb_eq in Ex as <-. destruct Hpre. apply elem_of_app. right. left.
  - destruct (is_unsafe k); [by apply IH|].
    rewrite replace_text_other_key; [by apply IH|done..|].
    intros ->. by rewrite str_eqb_refl in E.
Qed.

Lemma not_in_tag (c : ascii) (pre key post : str) :
  c ∉ pre → c ∉ key → c ∉ post → c ≠ "{"%char → c ≠ "}"%char →
  c ∉ pre ++ "{{" ++ key ++ "}}" ++ post.
Proof.
  intros Hpre Hkey Hpost Ho Hc.
  intros [?|[Hin|[?|[Hin|?]%elem_of_app]%elem_of_app]%elem_of_app]%elem_of_app;
    try done.
  - repeat (apply elem_of_cons in Hin as [?|Hin]; [done|]). by apply elem_of_nil in Hin.
  - repeat (apply elem_of_cons in Hin as [?|Hin]; [done|]). by apply elem_of_nil in Hin.
Qed.

Lemma needs_quotedVarRegex : needs "`" quotedVarRegex.
Proof. do 2 apply needs_seq_l. apply needs_chr. Qed.

(** The two replacements before the keys leave [{{key}}] alone. *)
Lemma before_keys (variables : list (str * value (num H))) (key pre post : str) :
  "{"%char ∉ pre → "`"%char ∉ pre → "{"%char ∉ post → "`"%char ∉ post →
  Forall (fun y => is_word y = true) key →
  replace objectPropertyRegex (fun m =>
      _safeToString H (_getValueByPath H (VObj variables) (group_ m 1)))
    (replace quotedVarRegex (fun m => "{{" ++ group_ m 1 ++ "}}")
       (pre ++ "{{" ++ key ++ "}}" ++ post))
  = pre ++ "{{" ++ key ++ "}}" ++ post.
Proof.
  intros Hpre Hpreq Hpost Hpostq Hkey.
  rewrite (needs_replace "`" quotedVarRegex).
  2: { apply needs_quotedVarRegex. }
  2: { apply not_in_tag; try done. intros Hin. rewrite Forall_forall in Hkey.
       by destruct (word_char _ (Hkey _ Hin)) as (_ & _ & _ & _ & ?). }
  unfold replace. rewrite replace_fold_nowhere; [done|]. intros t Ht.
  destruct (starts_with "{{" t) eqn:Hstart; [|by apply run_objectPropertyRegex_elsewhere].
  rewrite (suffix_brace key post) with (pre := pre) (t := t); try done.
  - by apply run_objectPropertyRegex_key.
  - by apply word_without_brace.
Qed.

Lemma processVariablesAndExpressions_steps
    (variables : list (str * value (num H))) (content : str) :
  _processVariablesAndExpressions H content variables
  = replace expressionRegex (fun m =>
        let expression := group_ m 1 in
        if length (trim expression) =? 0 then []
        else if includes expression "user:" then m_text m
        else if is_keyword (trim expression) then m_text m
        else _safeToString H (_evaluateExpression H (trim expression) variables))
      (replace_keys H variables
         (replace objectPropertyRegex (fun m =>
              _safeToString H (_getValueByPath H (VObj variables) (group_ m 1)))
            (replace quotedVarRegex (fun m => "{{" ++ group_ m 1 ++ "}}") content))).
Proof. reflexivity. Qed.

Lemma processVariablesAndExpressions_found
    (variables : list (str * value (num H))) (pre key post : str) (v : value (num H)) :
  "{"%char ∉ pre → "`"%char ∉ pre → "{"%char ∉ post → "`"%char ∉ post →
  Forall (fun y => is_word y = true) key →
  Forall (fun kv => Forall (fun y => is_word y = true) (fst kv)) variables →
  is_unsafe key = false →
  JsObject.own variables key = Some v →
  "{"%char ∉ substitution 0 pre
               {| m_text := "{{" ++ key ++ "}}"; m_rest := post; m_caps := [] |}
               (_safeToString H v) →
  _processVariablesAndExpressions H (pre ++ "{{" ++ key ++ "}}" ++ post) variables
  = pre ++ substitution 0 pre
             {| m_text := "{{" ++ key ++ "}}"; m_rest := post; m_caps := [] |}
             (_safeToString H v)
    ++ post.
Proof.
  intros Hpre Hpreq Hpost Hpostq Hkey Hwords Hsafe Hown Hvalue.
  rewrite processVariablesAndExpressions_steps, before_keys by done.
  rewrite (replace_keys_found key pre post v) by done.
  apply replace_plain; [apply braced_expressionRegex|].
  apply (includes_without "{" "{").
  intros [?|[?|?]%elem_of_app]%elem_of_app; [by apply Hpre|by apply Hvalue|by apply Hpost].
Qed.

Lemma run_expressionRegex_elsewhere (t : str) :
  starts_with "{{" t = false → run expressionRegex t = None.
Proof.
  intros Ht. unfold run, expressionRegex. cbn [seq]. rewrite exec_seq.
  by rewrite exec_lit.
Qed.

Lemma run_expressionRegex_key (x : ascii) (key post : str) :
  Forall (fun y => is_word y = true) (x :: key) →
  run expressionRegex ("{{" ++ (x :: key) ++ "}}" ++ post)
  = Some {| m_text := "{{" ++ (x :: key) ++ "}}"; m_rest := post;
            m_caps := [(1, x :: key)] |}.
Proof.
  intros Hkey. apply Forall_cons in Hkey as [Hx Hkey].
  assert (∀ y, is_word y = true → negb (existsb (Ascii.eqb y) ["}"%char]) = true) as Hw.
  { intros y Hy. apply not_brace. by destruct (word_char y Hy) as (_ & _ & ? & _). }
  unfold run.
  assert (exec expressionRegex
            (list_ascii_of_string "{{" ++ (x :: key) ++ list_ascii_of_string "}}" ++ post)
            [] (fun s' c => Some (s', c))
          = Some (post, [(1, x :: key)])) as ->.
  { unfold expressionRegex. cbn [seq].
    rewrite exec_seq, exec_lit_app, exec_seq, exec_grp. unfold plus, none_of.
    rewrite exec_seq. cbn [app]. rewrite exec_chr_cons, (Hw x) by done. cbv iota beta.
    apply star_greedy.
    - eapply Forall_impl; [exact Hkey|]. exact Hw.
    - by intros ? ? [= <- <-].
    - rewrite exec_lit_app. unfold cap_set. do 4 f_equal.
      change (x :: key ++ list_ascii_of_string "}}" ++ post)
        with ((x :: key) ++ list_ascii_of_string "}}" ++ post).
      apply take_prefix. }
  do 2 f_equal.
  replace (list_ascii_of_string "{{" ++ (x :: key) ++ list_ascii_of_string "}}" ++ post)
    with ((list_ascii_of_string "{{" ++ (x :: key) ++ list_ascii_of_string "}}") ++ post)
    by (by rewrite <- !app_assoc).
  apply take_prefix.
Qed.

Lemma starts_with_elem (p t : str) (c : ascii) :
  starts_with p t = true → c ∈ p → c ∈ t.
Proof.
  revert t. induction p as [|x p IH]; intros [|y t] Hp Hc; try done.
  - by apply elem_of_nil in Hc.
  - rewrite starts_with_cons in Hp. apply andb_prop in Hp as [Hx Hp].
    apply Ascii.eqb_eq in Hx as <-.
    apply elem_of_cons in Hc as [->|Hc]; [left|right; by apply IH].
Qed.

Lemma includes_missing (c : ascii) (p s : str) : c ∈ p → c ∉ s → includes s p = false.
Proof.
  intros Hp Hs. apply includes_false. intros t [a ->].
  destruct (starts_with p t) eqn:E; [|done]. destruct Hs.
  apply elem_of_app. right. by apply (starts_with_elem p).
Qed.

Lemma word_not_colon (y : ascii) : is_word y = true → y ≠ ":"%char.
Proof. intros Hy ->. by vm_compute in Hy. Qed.

(** X25.  A tag [{{key}}] for a key of the context, in a text without any
    other brace or backquote, is replaced by the value of the key as
    [_safeToString] renders it, read as a replacement pattern: a dollar
    sign followed by a dollar sign, an ampersand, a backquote or a quote
    stands for a dollar sign, the tag, the text before it or the text
    after it.  A value without a dollar sign is inserted as it is.
    (Keys are words, the value inserted brings no brace.) *)
Theorem processVariablesAndExpressions_substitutes
    (variables : list (str * value (num H))) (pre key post : str) (v : value (num H)) :
  "{"%char ∉ pre → "`"%char ∉ pre → "{"%char ∉ post → "`"%char ∉ post →
  Forall (fun y => is_word y = true) key →
  Forall (fun kv => Forall (fun y => is_word y = true) (fst kv)) variables →
  is_unsafe key = false →
  JsObject.own variables key = Some v →
  "{"%char ∉ substitution 0 pre
               {| m_text := "{{" ++ key ++ "}}"; m_rest := post; m_caps := [] |}
               (_safeToString H v) →
  _processVariablesAndExpressions H (pre ++ "{{" ++ key ++ "}}" ++ post) variables
  = pre ++ substitution 0 pre
             {| m_text := "{{" ++ key ++ "}}"; m_rest := post; m_caps := [] |}
             (_safeToString H v)
    ++ post
  ∧ ("$"%char ∉ _safeToString H v →
     _processVariablesAndExpressions H (pre ++ "{{" ++ key ++ "}}" ++ post) variables
     = pre ++ _safeToString H v ++ post).
Proof.
  intros Hpre Hpreq Hpost Hpostq Hkey Hwords Hsafe Hown Hvalue.
  pose proof (processVariablesAndExpressions_found variables pre key post v
                Hpre Hpreq Hpost Hpostq Hkey Hwords Hsafe Hown Hvalue) as Hfound.
  split; [exact Hfound|]. intros Hdollar. rewrite Hfound.
  by rewrite substitution_plain.
Qed.

(** X26.  A tag [{{key}}] for a word that is no key of the context, or is an
    unsafe key, is left to the last step: it stays when the word is a
    keyword of the template language, else it is replaced by the value
    of the word evaluated as an expression. *)
Theorem processVariablesAndExpressions_evaluates
    (variables : list (str * value (num H))) (pre key post : str) :
  "{"%char ∉ pre → "`"%char ∉ pre → "{"%char ∉ post → "`"%char ∉ post →
  key ≠ [] →
  Forall (fun y => is_word y = true) key →
  Forall (fun kv => Forall (fun y => is_word y = true) (fst kv)) variables →
  is_unsafe key = true ∨ JsObject.own variables key = None →
  _processVariablesAndExpressions H (pre ++ "{{" ++ key ++ "}}" ++ post) variables
  = pre ++ (if is_keyword key then "{{" ++ key ++ "}}"
            else _safeToString H (_evaluateExpression H key variables))
    ++ post.
Proof.
  intros Hpre Hpreq Hpost Hpostq Hne Hkey Hwords Hskip.
  rewrite processVariablesAndExpressions_steps, before_keys by done.
  rewrite replace_keys_skip by done. unfold replace.
  destruct key as [|x key]; [done|].
  replace (pre ++ list_ascii_of_string "{{" ++ (x :: key) ++ list_ascii_of_string "}}"
           ++ post)
    with (pre ++ (list_ascii_of_string "{{" ++ (x :: key) ++ list_ascii_of_string "}}")
          ++ post)
    by (by rewrite <- !app_assoc).
  rewrite (replace_fold_one expressionRegex _ _ post
             {| m_text := "{{" ++ (x :: key) ++ "}}"; m_rest := post;
                m_caps := [(1, x :: key)] |}).
  - cbn [fst]. unfold group_, group. cbn [m_caps m_text cap_get Nat.eqb].
    unfold default. cbn [from_option id].
    rewrite trim_id.
    2: { eapply Forall_impl; [exact Hkey|]. intros y Hy.
         by destruct (word_char y Hy) as (? & _). }
    cbn [length Nat.eqb].
    rewrite (includes_missing ":" "user:").
    2: { apply (bool_decide_unpack _). by vm_compute. }
    2: { intros Hin. rewrite Forall_forall in Hkey. by apply (word_not_colon _ (Hkey _ Hin)). }
    by destruct (is_keyword (x :: key)).
  - rewrite <- !app_assoc. by apply run_expressionRegex_key.
  - done.
  - done.
  - intros before st. apply replace_fold_plain; [apply braced_expressionRegex|].
    by apply (includes_without "{" "{").
  - intros a y b ->. apply run_expressionRegex_elsewhere.
    change (list_ascii_of_string "{{") with ["{"%char; "{"%char].
    rewrite starts_with_cons. destruct (Ascii.eqb "{" y) eqn:Ey; [|done].
    apply Ascii.eqb_eq in Ey as <-. destruct Hpre. apply elem_of_app. right. left.
Qed.


End OneVariable.

(** ** One loop *)

Section ReplaceTry.

Lemma replace_try_nowhere (r : re) (f : found → option str) :
  ∀ s, (∀ t, t `suffix_of` s → run r t = None) → replace_try r f 0 s = Some s.
Proof.
  induction s as [|x s IH]; intros Hs; cbn [replace_try].
  - by rewrite Hs.
  - rewrite (Hs (x :: s)) by done. rewrite IH; [done|].
    intros t Ht. apply Hs. by apply suffix_cons_r.
Qed.

Lemma replace_try_pass (r : re) (f : found → option str) (a s : str) :
  replace_try r f (length a) (a ++ s) = replace_try r f 0 s.
Proof. induction a as [|x a IH]; [done|]. cbn [length app replace_try]. apply IH. Qed.

Lemma replace_try_one (r : re) (f : found → option str) (dir post : str) (m : found) :
  run r (dir ++ post) = Some m → m_text m = dir → dir ≠ [] →
  replace_try r f 0 post = Some post →
  ∀ pre : str,
    (∀ a x b, pre = a ++ x :: b → run r (x :: b ++ dir ++ post) = None) →
    replace_try r f 0 (pre ++ dir ++ post)
    = match f m with
      | Some out => Some (pre ++ out ++ post)
      | None => None
      end.
Proof.
  intros Hrun Htext Hdir Hpost. induction pre as [|x pre IH]; intros Hpre.
  - destruct dir as [|d dir]; [done|]. cbn [app replace_try].
    change (d :: dir ++ post) with ((d :: dir) ++ post). rewrite Hrun, Htext.
    destruct (f m) as [out|]; [|done].
    replace (length (d :: dir) - 1) with (length dir) by (cbn [length]; lia).
    rewrite replace_try_pass, Hpost. by cbn [length Nat.eqb app].
  - cbn [app replace_try]. rewrite (Hpre [] x pre eq_refl).
    rewrite IH by (intros a y b ->; exact (Hpre (x :: a) y b eq_refl)).
    by destruct (f m).
Qed.

(** A suffix that begins with two opening braces does not begin in a
    text without opening brace. *)
Lemma suffix_step (a rest t : str) :
  "{"%char ∉ a → t `suffix_of` a ++ rest → starts_with "{{" t = true →
  t `suffix_of` rest.
Proof.
  change (list_ascii_of_string "{{") with ["{"%char; "{"%char].
  induction a as [|x a IH]; intros Ha Ht Hstart; [done|].
  apply not_elem_of_cons in Ha as [Hx Ha]. cbn [app] in Ht.
  apply suffix_cons_cases in Ht as [->|Ht]; [|by apply IH].
  rewrite starts_with_cons in Hstart.
  destruct (Ascii.eqb "{" x) eqn:E; [|done]. by apply Ascii.eqb_eq in E.
Qed.

Lemma suffix_tag (c : ascii) (s t : str) :
  c ≠ "{"%char → t `suffix_of` "{"%char :: "{"%char :: c :: s →
  starts_with "{{" t = true →
  t = "{"%char :: "{"%char :: c :: s ∨ t `suffix_of` s.
Proof.
  change (list_ascii_of_string "{{") with ["{"%char; "{"%char].
  intros Hc Ht Hstart. apply suffix_cons_cases in Ht as [->|Ht]; [by left|].
  apply suffix_cons_cases in Ht as [->|Ht].
  { rewrite !starts_with_cons in Hstart. apply andb_prop in Hstart as [_ Hstart].
    destruct (Ascii.eqb "{" c) eqn:E; [|done]. by apply Ascii.eqb_eq in E. }
  apply suffix_cons_cases in Ht as [->|Ht]; [|by right].
  rewrite starts_with_cons in Hstart.
  destruct (Ascii.eqb "{" c) eqn:E; [|done]. by apply Ascii.eqb_eq in E.
Qed.

Lemma suffix_plain (s t : str) :
  "{"%char ∉ s → t `suffix_of` s → starts_with "{{" t = false.
Proof.
  intros Hs Ht. destruct (starts_with "{{" t) eqn:E; [|done].
  rewrite <- (app_nil_r s) in Ht. apply suffix_step in Ht; [|done..].
  apply suffix_nil_inv in Ht as ->. done.
Qed.

End ReplaceTry.

Section OneLoop.

Context (H : Host).

Lemma for_tail_inside (n : nat) (t : str) (c : caps)
    (k : str → caps → option (str * caps)) :
  (∀ c' k', exec (lit_i "{{empty}}") t c' k' = None) →
  (∀ c' k', exec (lit_i "{{endfor}}") t c' k' = None) →
  exec (for_tail n) t c k = None.
Proof.
  intros Hempty Hendfor.
  unfold for_tail. cbn [seq]. rewrite exec_seq. unfold opt. rewrite exec_alt, exec_seq.
  rewrite Hempty. cbn [exec]. apply Hendfor.
Qed.

Lemma for_tail_empty (n : nat) (E post : str) (c : caps) :
  free_of [list_ascii_of_string "{{for"; list_ascii_of_string "{{endfor}}"] E "{{endfor}}"
  = true →
  exec (for_tail n) ("{{empty}}" ++ E ++ "{{endfor}}" ++ post) c
    (fun s' c' => Some (s', c'))
  = Some (post, (n, E) :: c).
Proof.
  intros HE. unfold for_tail. cbn [seq].
  rewrite exec_seq. unfold opt. rewrite exec_alt, exec_seq, exec_lit_i_app, exec_grp.
  unfold lazy_star, any. rewrite exec_star.
  rewrite (star_loop_lazy _ (list_ascii_of_string "{{endfor}}" ++ post) _
             (post, (n, E) :: c)); [done| | | |].
  - by apply Forall_true.
  - rewrite length_app. lia.
  - intros a1 x a2 HEeq.
    apply (free_of_inside _ E "{{endfor}}" post _ HE) with (b1 := a1);
      [|cbn [length]; lia|done].
    right. left.
  - rewrite exec_lit_i_app. unfold cap_set. do 4 f_equal. apply take_prefix.
Qed.

Lemma for_tail_endfor (n : nat) (post : str) (c : caps) :
  exec (for_tail n) ("{{endfor}}" ++ post) c (fun s' c' => Some (s', c'))
  = Some (post, c).
Proof.
  unfold for_tail. cbn [seq]. rewrite exec_seq. unfold opt. rewrite exec_alt.
  assert (∀ k', exec (Seq (lit_i "{{empty}}") (Grp n (lazy_star any)))
                  (list_ascii_of_string "{{endfor}}" ++ post) c k' = None)
    as -> by (intros k'; by vm_compute).
  cbn [exec]. by rewrite exec_lit_i_app.
Qed.

Lemma forRegex_tail :
  forRegex
  = Seq (lit_i "{{for")
      (Seq (plus space)
         (Seq (Grp 1 (plus word))
            (Seq (plus space)
               (Seq (lit_i "in")
                  (Seq (plus space)
                     (Seq (Grp 2 (plus (none_of ["}"%char])))
                        (Seq (lit "}}") (Seq (Grp 3 (lazy_star any)) (for_tail 4))))))))).
Proof. reflexivity. Qed.

Lemma word_not_space (y : ascii) : is_word y = true → is_space y = false.
Proof. intros Hy. by destruct (word_char y Hy) as (? & _). Qed.

(** [{{for x in coll}}body] followed by a text [rest] that the tail of
    the pattern matches. *)
Lemma run_forRegex (x c0 : ascii) (xs coll body rest post : str) (c : caps) :
  Forall (fun y => is_word y = true) (x :: xs) →
  is_space c0 = false → "}"%char ∉ c0 :: coll →
  (∀ a1 y a2 c' k', body = a1 ++ y :: a2 →
     exec (for_tail 4) (y :: a2 ++ rest ++ post) c' k' = None) →
  (∀ c1, exec (for_tail 4) (rest ++ post) c1 (fun s' c' => Some (s', c'))
         = Some (post, c ++ c1)) →
  run forRegex ("{{for " ++ (x :: xs) ++ " in " ++ (c0 :: coll) ++ "}}" ++ body
                ++ rest ++ post)
  = Some {| m_text := "{{for " ++ (x :: xs) ++ " in " ++ (c0 :: coll) ++ "}}" ++ body
                      ++ rest;
            m_rest := post;
            m_caps := c ++ [(3, body); (2, c0 :: coll); (1, x :: xs)] |}.
Proof.
  intros Hx Hc0 Hcoll Hbody Htail.
  apply Forall_cons in Hx as [Hx Hxs]. apply not_elem_of_cons in Hcoll as [Hc0c Hcoll].
  set (k0 := fun (s' : str) (c' : caps) => Some (s', c')).
  unfold run. fold k0.
  set (input := list_ascii_of_string "{{for " ++ (x :: xs) ++ list_ascii_of_string " in "
                ++ (c0 :: coll) ++ list_ascii_of_string "}}" ++ body ++ rest ++ post).
  assert (exec forRegex input [] k0
          = Some (post, c ++ [(3, body); (2, c0 :: coll); (1, x :: xs)])) as ->.
  { rewrite forRegex_tail.
    change input
      with (list_ascii_of_string "{{for"
            ++ " "%char :: x :: xs
            ++ " "%char :: (list_ascii_of_string "in"
            ++ " "%char :: c0 :: coll
            ++ "}"%char :: "}"%char :: body ++ rest ++ post)).
    rewrite exec_seq, exec_lit_i_app, exec_seq. unfold plus at 1. rewrite exec_seq.
    unfold space at 1. rewrite exec_chr_cons. change (is_space " ") with true.
    cbv iota beta. unfold space at 1.
    rewrite star_stops by (intros ? ? [= <- <-]; by apply word_not_space).
    (* the loop variable *)
    rewrite exec_seq, exec_grp. unfold plus at 1, word. rewrite exec_seq, exec_chr_cons, Hx.
    apply star_greedy; [done|by intros ? ? [= <- <-]|].
    (* in *)
    rewrite exec_seq. unfold plus at 1. rewrite exec_seq.
    unfold space at 1. rewrite exec_chr_cons. change (is_space " ") with true.
    cbv iota beta. unfold space at 1.
    rewrite star_stops by (by intros ? ? [= <- <-]).
    rewrite exec_seq, exec_lit_i_app, exec_seq. unfold plus at 1. rewrite exec_seq.
    unfold space at 1. rewrite exec_chr_cons. change (is_space " ") with true.
    cbv iota beta. unfold space at 1.
    rewrite star_stops by (intros ? ? [= <- <-]; exact Hc0).
    (* the collection *)
    rewrite exec_seq, exec_grp. unfold plus, none_of. rewrite exec_seq, exec_chr_cons.
    rewrite (not_brace c0) by done. cbv iota beta.
    apply star_greedy.
    - apply Forall_forall. intros y Hy. apply not_brace. intros ->. by apply Hcoll.
    - by intros ? ? [= <- <-].
    - rewrite exec_seq.
      change ("}"%char :: "}"%char :: body ++ rest ++ post)
        with (list_ascii_of_string "}}" ++ body ++ rest ++ post).
      rewrite exec_lit_app, exec_seq, exec_grp. unfold lazy_star, any.
      rewrite exec_star.
      rewrite (star_loop_lazy _ (rest ++ post) _
                 (post, c ++ [(3, body); (2, c0 :: coll); (1, x :: xs)]));
        [done| | | |].
      + by apply Forall_true.
      + rewrite length_app. lia.
      + intros a1 y a2 Hbeq. by apply (Hbody a1).
      + rewrite Htail. unfold cap_set. repeat f_equal.
        * apply take_prefix.
        * change (c0 :: coll ++ list_ascii_of_string "}}" ++ body ++ rest ++ post)
            with ((c0 :: coll) ++ list_ascii_of_string "}}" ++ body ++ rest ++ post).
          apply take_prefix.
        * match goal with
          | |- take (length (x :: xs ++ ?b) - length ?b) _ = _ =>
              change (x :: xs ++ b) with ((x :: xs) ++ b)
          end.
          apply take_prefix. }
  do 2 f_equal. subst input.
  replace (list_ascii_of_string "{{for " ++ (x :: xs) ++ list_ascii_of_string " in "
           ++ (c0 :: coll) ++ list_ascii_of_string "}}" ++ body ++ rest ++ post)
    with ((list_ascii_of_string "{{for " ++ (x :: xs) ++ list_ascii_of_string " in "
           ++ (c0 :: coll) ++ list_ascii_of_string "}}" ++ body ++ rest) ++ post)
    by (by rewrite <- !app_assoc).
  apply take_prefix.
Qed.

Lemma word_not_comma (y : ascii) : is_word y = true → y ≠ ","%char.
Proof. intros Hy ->. by vm_compute in Hy. Qed.

(** A loop over one variable is no loop over a key and a value. *)
Lemma run_forKeyValueRegex_one (x : ascii) (xs rest : str) :
  Forall (fun y => is_word y = true) (x :: xs) →
  run forKeyValueRegex ("{{for " ++ (x :: xs) ++ " in " ++ rest) = None.
Proof.
  intros Hx. apply Forall_cons in Hx as [Hx Hxs].
  unfold run.
  change (list_ascii_of_string "{{for " ++ (x :: xs) ++ list_ascii_of_string " in " ++ rest)
    with (list_ascii_of_string "{{for"
          ++ " "%char :: x :: xs
          ++ " "%char :: "i"%char :: "n"%char :: " "%char :: rest).
  unfold forKeyValueRegex. cbn [seq].
  rewrite exec_seq, exec_lit_i_app, exec_seq. unfold plus at 1. rewrite exec_seq.
  unfold space at 1. rewrite exec_chr_cons. change (is_space " ") with true.
  cbv iota beta. unfold space at 1.
  rewrite star_stops by (intros ? ? [= <- <-]; by apply word_not_space).
  rewrite exec_seq, exec_grp. unfold plus at 1, word. rewrite exec_seq, exec_chr_cons, Hx.
  rewrite exec_star. rewrite star_loop_none; [done| |done|].
  - by intros ? ? [= <- <-].
  - intros a1 a2 ->. rewrite exec_seq. destruct a2 as [|y a2]; cbn [app].
    + unfold star at 1, space at 1. rewrite exec_star.
      change (" "%char :: "i"%char :: "n"%char :: " "%char :: rest)
        with ([" "%char] ++ "i"%char :: "n"%char :: " "%char :: rest).
      rewrite star_loop_none; [done| | |].
      * by intros ? ? [= <- <-].
      * by repeat constructor.
      * intros b1 b2 Hb. rewrite exec_seq. apply exec_lit.
        destruct b2 as [|z b2]; [done|]. destruct b1 as [|z' b1].
        -- by injection Hb as <- <-.
        -- injection Hb as _ Hb. by destruct b1.
    + apply Forall_app in Hxs as [_ Hxs]. apply Forall_cons in Hxs as [Hy _].
      unfold star at 1, space at 1.
      rewrite star_stops by (intros ? ? [= <- <-]; by apply word_not_space).
      rewrite exec_seq. apply exec_lit.
      change (list_ascii_of_string ",") with [","%char]. rewrite starts_with_cons.
      destruct (Ascii.eqb "," y) eqn:E; [|done].
      apply Ascii.eqb_eq in E as <-. by apply word_not_comma in Hy.
Qed.

Lemma run_forKeyValueRegex_elsewhere (t : str) :
  starts_with "{{" t = false → run forKeyValueRegex t = None.
Proof.
  intros Ht. unfold run, forKeyValueRegex. cbn [seq].
  rewrite exec_seq. by rewrite exec_lit_i.
Qed.

Lemma run_forRegex_elsewhere (t : str) :
  starts_with "{{" t = false → run forRegex t = None.
Proof.
  intros Ht. unfold run, forRegex. cbn [seq].
  rewrite exec_seq. by rewrite exec_lit_i.
Qed.

(** Where a pair of opening braces stands in [pre{{cA] followed by
    [rest]. *)
Lemma suffix_tag_step (c : ascii) (pre A rest t : str) :
  "{"%char ∉ pre → c ≠ "{"%char → "{"%char ∉ A →
  t `suffix_of` pre ++ "{"%char :: "{"%char :: c :: A ++ rest →
  starts_with "{{" t = true →
  t = "{"%char :: "{"%char :: c :: A ++ rest ∨ t `suffix_of` rest.
Proof.
  intros Hpre Hc HA Ht Hstart. apply suffix_step in Ht; [|done..].
  apply suffix_tag in Ht as [->|Ht]; [by left| |done|done]. right.
  by apply suffix_step in Ht.
Qed.

Lemma run_forKeyValueRegex_endfor (post t : str) :
  "{"%char ∉ post → t `suffix_of` "{{endfor}}" ++ post → run forKeyValueRegex t = None.
Proof.
  intros Hpost Ht.
  destruct (starts_with "{{" t) eqn:Hstart; [|by apply run_forKeyValueRegex_elsewhere].
  change (list_ascii_of_string "{{endfor}}" ++ post)
    with ([] ++ "{"%char :: "{"%char :: "e"%char :: list_ascii_of_string "ndfor}}" ++ post)
    in Ht.
  apply suffix_tag_step in Ht as [->|Ht]; [by vm_compute| |apply not_elem_of_nil|done| |done].
  - rewrite (suffix_plain post t) in Hstart; done.
  - apply (bool_decide_unpack _). by vm_compute.
Qed.

Lemma run_forKeyValueRegex_inside (body next post t : str) :
  begins_inside "{{for" body next = false → 4 ≤ length next →
  (∀ t', t' `suffix_of` next ++ post → run forKeyValueRegex t' = None) →
  t `suffix_of` body ++ next ++ post → run forKeyValueRegex t = None.
Proof.
  intros Hfor Hlen Hnext Ht.
  apply suffix_app_cases in Ht as [(b1 & y & b2 & Hb & ->)|Ht]; [|by apply Hnext].
  unfold run, forKeyValueRegex. cbn [seq]. rewrite exec_seq.
  rewrite exec_lit_i_fail; [done|].
  apply (begins_inside_post "{{for" body next post) with (b1 := b1); [|done..].
  cbn [length list_ascii_of_string]. lia.
Qed.

Lemma run_forKeyValueRegex_empty (E post t : str) :
  free_of [list_ascii_of_string "{{for"; list_ascii_of_string "{{endfor}}"] E "{{endfor}}"
  = true →
  "{"%char ∉ post →
  t `suffix_of` "{{empty}}" ++ E ++ "{{endfor}}" ++ post →
  run forKeyValueRegex t = None.
Proof.
  intros HE Hpost Ht.
  destruct (starts_with "{{" t) eqn:Hstart; [|by apply run_forKeyValueRegex_elsewhere].
  change (list_ascii_of_string "{{empty}}" ++ E ++ list_ascii_of_string "{{endfor}}"
          ++ post)
    with ([] ++ "{"%char :: "{"%char :: "e"%char
          :: list_ascii_of_string "mpty}}" ++ E ++ list_ascii_of_string "{{endfor}}" ++ post)
    in Ht.
  apply suffix_tag_step in Ht as [->|Ht]; [by vm_compute| |apply not_elem_of_nil|done| |done].
  - apply (run_forKeyValueRegex_inside E "{{endfor}}" post); [|cbn; lia| |done].
    + apply (free_of_elem _ _ _ _ HE). left.
    + intros t' Ht'. by apply (run_forKeyValueRegex_endfor post).
  - apply (bool_decide_unpack _). by vm_compute.
Qed.

Lemma processLoops_one (pv : str → list (str * value (num H)) → option str)
    (variables : list (str * value (num H))) (x c0 : ascii)
    (pre xs coll body next rest post : str) (tail_caps : caps)
    (emptyContent : option str) :
  "{"%char ∉ pre → "{"%char ∉ post →
  Forall (fun y => is_word y = true) (x :: xs) →
  is_space c0 = false → "}"%char ∉ c0 :: coll → "{"%char ∉ c0 :: coll →
  free_of [list_ascii_of_string "{{for"; list_ascii_of_string "{{empty}}";
           list_ascii_of_string "{{endfor}}"] body next = true →
  9 ≤ length next →
  (∀ t, t `suffix_of` (next ++ rest) ++ post → run forKeyValueRegex t = None) →
  (∀ c1, exec (for_tail 4) ((next ++ rest) ++ post) c1 (fun s' c' => Some (s', c'))
         = Some (post, tail_caps ++ c1)) →
  cap_get (tail_caps ++ [(3, body); (2, c0 :: coll); (1, x :: xs)]) 4 = emptyContent →
  (∀ n, n < 4 → cap_get tail_caps n = None) →
  _processLoops H pv
    (pre ++ "{{for " ++ (x :: xs) ++ " in " ++ (c0 :: coll) ++ "}}" ++ body
     ++ (next ++ rest) ++ post)
    variables
  = match processLoop H pv [x :: xs] (c0 :: coll) body emptyContent variables with
    | Some out => Some (pre ++ out ++ post)
    | None => None
    end.
Proof.
  intros Hpre Hpost Hx Hc0 Hcoll Hcollo Hbody Hlen Hrest Htail Hempty Hcaps.
  assert (∀ tag, tag ∈ [list_ascii_of_string "{{for"; list_ascii_of_string "{{empty}}";
                        list_ascii_of_string "{{endfor}}"] →
            ∀ a1 y a2 c' k', body = a1 ++ y :: a2 →
              exec (lit_i tag) (y :: a2 ++ (next ++ rest) ++ post) c' k' = None) as Hinside.
  { intros tag Htag a1 y a2 c' k' Hb. rewrite <- app_assoc.
    apply (free_of_inside _ body next (rest ++ post) _ Hbody) with (b1 := a1);
      [done| |done].
    repeat (apply elem_of_cons in Htag as [->|Htag];
            [cbn [length list_ascii_of_string]; lia|]).
    by apply elem_of_nil in Htag. }
  unfold _processLoops.
  rewrite replace_try_nowhere.
  2: { intros t Ht.
       destruct (starts_with "{{" t) eqn:Hstart;
         [|by apply run_forKeyValueRegex_elsewhere].
       replace (pre ++ list_ascii_of_string "{{for " ++ (x :: xs)
                ++ list_ascii_of_string " in " ++ (c0 :: coll)
                ++ list_ascii_of_string "}}" ++ body ++ (next ++ rest) ++ post)
         with (pre ++ "{"%char :: "{"%char :: "f"%char
               :: (list_ascii_of_string "or " ++ (x :: xs)
                   ++ list_ascii_of_string " in " ++ (c0 :: coll)
                   ++ list_ascii_of_string "}}")
               ++ body ++ (next ++ rest) ++ post) in Ht
         by (cbn [app list_ascii_of_string]; by repeat (rewrite <- !app_assoc; cbn [app])).
       apply suffix_tag_step in Ht as [->|Ht]; [| |done|done| |done].
       - rewrite <- !app_assoc.
         exact (run_forKeyValueRegex_one x xs _ Hx).
       - apply suffix_app_cases in Ht as [(b1 & y & b2 & Hb & ->)|Ht]; [|by apply Hrest].
         unfold run, forKeyValueRegex. cbn [seq]. rewrite exec_seq.
         rewrite (Hinside (list_ascii_of_string "{{for")) with (a1 := b1); [done| |done].
         left.
       - intros [Hin|[?|[Hin|[?|Hin]%elem_of_app]%elem_of_app]%elem_of_app]%elem_of_app;
           try done.
         + revert Hin. apply (bool_decide_unpack _). by vm_compute.
         + by apply (word_without_brace (x :: xs)).
         + revert Hin. apply (bool_decide_unpack _). by vm_compute.
         + revert Hin. apply (bool_decide_unpack _). by vm_compute. }
  set (dir := list_ascii_of_string "{{for " ++ (x :: xs) ++ list_ascii_of_string " in "
              ++ (c0 :: coll) ++ list_ascii_of_string "}}" ++ body ++ next ++ rest).
  replace (pre ++ list_ascii_of_string "{{for " ++ (x :: xs)
           ++ list_ascii_of_string " in " ++ (c0 :: coll)
           ++ list_ascii_of_string "}}" ++ body ++ (next ++ rest) ++ post)
    with (pre ++ dir ++ post) by (subst dir; by rewrite <- !app_assoc).
  rewrite (replace_try_one forRegex _ dir post
             {| m_text := dir; m_rest := post;
                m_caps := tail_caps ++ [(3, body); (2, c0 :: coll); (1, x :: xs)] |}).
  - unfold group_, group. cbn [m_caps]. rewrite Hempty.
    assert (∀ n v, n < 4 →
              cap_get (tail_caps ++ [(3, body); (2, c0 :: coll); (1, x :: xs)]) n = v →
              cap_get [(3, body); (2, c0 :: coll); (1, x :: xs)] n = v) as Hget.
    { intros n v Hn <-. specialize (Hcaps n Hn). clear -Hcaps.
      induction tail_caps as [|[k w] l IH]; [done|]. cbn [app cap_get] in *.
      destruct (k =? n); [done|]. by apply IH. }
    rewrite <- (Hget 1 _ ltac:(lia) eq_refl), <- (Hget 2 _ ltac:(lia) eq_refl),
      <- (Hget 3 _ ltac:(lia) eq_refl).
    done.
  - subst dir. rewrite <- !app_assoc.
    rewrite <- (run_forRegex x c0 xs coll body (next ++ rest) post tail_caps); try done.
    + by rewrite <- !app_assoc.
    + intros a1 y a2 c' k' Hb. apply for_tail_inside; intros c'' k''.
      * apply (Hinside (list_ascii_of_string "{{empty}}")) with (a1 := a1); [|done].
        right. left.
      * apply (Hinside (list_ascii_of_string "{{endfor}}")) with (a1 := a1); [|done].
        right. right. left.
  - done.
  - done.
  - apply replace_try_plain; [apply braced_forRegex|]. by apply (includes_without "{" "{").
  - intros a y b ->. apply run_forRegex_elsewhere.
    change (list_ascii_of_string "{{") with ["{"%char; "{"%char].
    rewrite starts_with_cons. destruct (Ascii.eqb "{" y) eqn:Ey; [|done].
    apply Ascii.eqb_eq in Ey as <-. destruct Hpre. apply elem_of_app. right. left.
Qed.

(** X27.  One loop over one variable in a text that has no brace before it and
    none after it, with a body (and an [empty] branch) in which no
    [{{for], [{{empty}}] or [{{endfor}}] begins.  The loop is replaced
    by what [processLoop] returns for the variable, the collection, the
    body and the [empty] branch; it is not taken for a loop over a key
    and a value. *)
Theorem processLoops_runs_loop
    (pv : str → list (str * value (num H)) → option str)
    (variables : list (str * value (num H))) (x c0 : ascii)
    (pre xs coll body E post : str) :
  "{"%char ∉ pre → "{"%char ∉ post →
  Forall (fun y => is_word y = true) (x :: xs) →
  is_space c0 = false → "}"%char ∉ c0 :: coll → "{"%char ∉ c0 :: coll →
  (free_of [list_ascii_of_string "{{for"; list_ascii_of_string "{{empty}}";
            list_ascii_of_string "{{endfor}}"] body "{{endfor}}" = true →
   _processLoops H pv
     (pre ++ "{{for " ++ (x :: xs) ++ " in " ++ (c0 :: coll) ++ "}}" ++ body
      ++ "{{endfor}}" ++ post) variables
   = match processLoop H pv [x :: xs] (c0 :: coll) body None variables with
     | Some out => Some (pre ++ out ++ post)
     | None => None
     end)
  ∧ (free_of [list_ascii_of_string "{{for"; list_ascii_of_string "{{empty}}";
              list_ascii_of_string "{{endfor}}"] body "{{empty}}" = true →
     free_of [list_ascii_of_string "{{for"; list_ascii_of_string "{{endfor}}"] E
       "{{endfor}}" = true →
     _processLoops H pv
       (pre ++ "{{for " ++ (x :: xs) ++ " in " ++ (c0 :: coll) ++ "}}" ++ body
        ++ "{{empty}}" ++ E ++ "{{endfor}}" ++ post) variables
     = match processLoop H pv [x :: xs] (c0 :: coll) body (Some E) variables with
       | Some out => Some (pre ++ out ++ post)
       | None => None
       end).
Proof.
  intros Hpre Hpost Hx Hc0 Hcoll Hcollo. split.
  - intros Hbody.
    replace (list_ascii_of_string "{{endfor}}" ++ post)
      with ((list_ascii_of_string "{{endfor}}" ++ []) ++ post) by (by rewrite app_nil_r).
    apply (processLoops_one pv variables x c0 pre xs coll body "{{endfor}}" [] post []);
      [done..|cbn [length list_ascii_of_string]; lia| | |done|done].
    + intros t Ht. rewrite app_nil_r in Ht. by apply (run_forKeyValueRegex_endfor post).
    + intros c1. rewrite app_nil_r. apply for_tail_endfor.
  - intros Hbody HE.
    replace (list_ascii_of_string "{{empty}}" ++ E ++ list_ascii_of_string "{{endfor}}"
             ++ post)
      with ((list_ascii_of_string "{{empty}}" ++ E ++ list_ascii_of_string "{{endfor}}")
            ++ post) by (by rewrite <- !app_assoc).
    apply (processLoops_one pv variables x c0 pre xs coll body "{{empty}}"
             (E ++ "{{endfor}}") post [(4, E)]);
      [done..|cbn [length list_ascii_of_string]; lia| | |done|].
    + intros t Ht. rewrite <- !app_assoc in Ht.
      by apply (run_forKeyValueRegex_empty E post).
    + intros c1. rewrite <- !app_assoc. by apply for_tail_empty.
    + intros n Hn. cbn [cap_get]. destruct n as [|[|[|[|n]]]]; try done. lia.
Qed.

(** X17.  A loop that runs no iteration, in a text as above (no brace
    before the loop and none after it, a body and an [empty] branch in
    which no tag of a loop begins).  With a reserved name as loop
    variable the loop is replaced by nothing, and its collection is not
    evaluated.  With a collection whose evaluation returns a value
    that does not hold ([null], [undefined], [false], [0], the empty
    string), the empty array or the object without properties, it is
    replaced by the [empty] branch as [processVariables] renders it. *)
Theorem processLoops_without_iterations
    (pv : str → list (str * value (num H)) → option str)
    (variables : list (str * value (num H))) (x c0 : ascii)
    (pre xs coll body E post : str) (v : value (num H)) :
  "{"%char ∉ pre → "{"%char ∉ post →
  Forall (fun y => is_word y = true) (x :: xs) →
  is_space c0 = false → is_ascii c0 = true →
  "}"%char ∉ c0 :: coll → "{"%char ∉ c0 :: coll →
  free_of [list_ascii_of_string "{{for"; list_ascii_of_string "{{empty}}";
           list_ascii_of_string "{{endfor}}"] body "{{empty}}" = true →
  free_of [list_ascii_of_string "{{for"; list_ascii_of_string "{{endfor}}"] E
    "{{endfor}}" = true →
  E ≠ [] →
  (is_unsafe (x :: xs) = true →
   _processLoops H pv
     (pre ++ "{{for " ++ (x :: xs) ++ " in " ++ (c0 :: coll) ++ "}}" ++ body
      ++ "{{empty}}" ++ E ++ "{{endfor}}" ++ post) variables
   = Some (pre ++ post))
  ∧ (is_unsafe (x :: xs) = false →
     runInContext H ("(" ++ (c0 :: coll) ++ ")") (sandbox H variables) = Returns v →
     truthy H v = false ∨ v = VArr [] ∨ v = VObj [] →
     _processLoops H pv
       (pre ++ "{{for " ++ (x :: xs) ++ " in " ++ (c0 :: coll) ++ "}}" ++ body
        ++ "{{empty}}" ++ E ++ "{{endfor}}" ++ post) variables
     = match pv E variables with
       | Some out => Some (pre ++ out ++ post)
       | None => None
       end).
Proof.
  intros Hpre Hpost Hx Hc0 _ Hcoll Hcollo Hbody HE HEne.
  assert (_processLoops H pv
            (pre ++ "{{for " ++ (x :: xs) ++ " in " ++ (c0 :: coll) ++ "}}" ++ body
             ++ "{{empty}}" ++ E ++ "{{endfor}}" ++ post) variables
          = match processLoop H pv [x :: xs] (c0 :: coll) body (Some E) variables with
            | Some out => Some (pre ++ out ++ post)
            | None => None
            end) as ->.
  { replace (list_ascii_of_string "{{empty}}" ++ E ++ list_ascii_of_string "{{endfor}}"
             ++ post)
      with ((list_ascii_of_string "{{empty}}" ++ E ++ list_ascii_of_string "{{endfor}}")
            ++ post) by (by rewrite <- !app_assoc).
    apply (processLoops_one pv variables x c0 pre xs coll body "{{empty}}"
             (E ++ "{{endfor}}") post [(4, E)]);
      [done..|cbn [length list_ascii_of_string]; lia| | |done|].
    + intros t Ht. rewrite <- !app_assoc in Ht.
      by apply (run_forKeyValueRegex_empty E post).
    + intros c1. rewrite <- !app_assoc. by apply for_tail_empty.
    + intros n Hn. cbn [cap_get]. destruct n as [|[|[|[|n]]]]; try done. lia. }
  unfold processLoop. cbn [existsb]. rewrite orb_false_r. split.
  - by intros ->.
  - intros -> Hv Hempty. cbv zeta. unfold _evaluateExpression. rewrite Hv.
    assert (is_empty_collection H v = true) as ->.
    { unfold is_empty_collection. destruct Hempty as [Hf|[->| ->]]; [by rewrite Hf|..].
      - by rewrite orb_true_r.
      - by rewrite orb_true_r. }
    destruct E as [|e E']; [done|]. done.
Qed.

End OneLoop.

(** ** One call of a user function *)

Section OneCall.

Context (H : Host).
Variable userFeatures_functions :
  str → option (list (value (num H)) → outcome (value (num H))).

Lemma run_userFuncRegex_elsewhere (t : str) :
  starts_with "{{" t = false → run userFuncRegex t = None.
Proof.
  intros Ht. unfold run, userFuncRegex. cbn [seq]. rewrite exec_seq.
  by rewrite exec_lit.
Qed.

(** [{{user:name(args)}}]. *)
Lemma run_userFuncRegex (x : ascii) (name args post : str) :
  Forall (fun y => is_space y = false ∧ y ≠ "("%char ∧ y ≠ ")"%char) (x :: name) →
  ")"%char ∉ args →
  run userFuncRegex ("{{user:" ++ (x :: name) ++ "(" ++ args ++ ")}}" ++ post)
  = Some {| m_text := "{{user:" ++ (x :: name) ++ "(" ++ args ++ ")}}"; m_rest := post;
            m_caps := [(2, args); (1, x :: name)] |}.
Proof.
  intros Hname Hargs. apply Forall_cons in Hname as [(Hx & Hxo & Hxc) Hname].
  set (k0 := fun (s' : str) (c' : caps) => Some (s', c')).
  set (namechar := fun c : ascii =>
         negb (is_space c || Ascii.eqb c "(" || Ascii.eqb c ")")).
  assert (∀ y, is_space y = false ∧ y ≠ "("%char ∧ y ≠ ")"%char → namechar y = true)
    as Hchar.
  { intros y (Hy & Hyo & Hyc). unfold namechar. rewrite Hy.
    destruct (Ascii.eqb y "(") eqn:E1; [by apply Ascii.eqb_eq in E1|].
    destruct (Ascii.eqb y ")") eqn:E2; [by apply Ascii.eqb_eq in E2|]. done. }
  unfold run. fold k0.
  set (input := list_ascii_of_string "{{user:" ++ (x :: name) ++ list_ascii_of_string "("
                ++ args ++ list_ascii_of_string ")}}" ++ post).
  assert (exec userFuncRegex input [] k0 = Some (post, [(2, args); (1, x :: name)])) as ->.
  { unfold userFuncRegex. fold namechar. cbn [seq].
    change input
      with (list_ascii_of_string "{{"
            ++ list_ascii_of_string "user:"
            ++ x :: name ++ "("%char :: args ++ ")"%char :: "}"%char :: "}"%char :: post).
    rewrite exec_seq, exec_lit_app, exec_seq. unfold star at 1, space at 1.
    rewrite star_stops by (by intros ? ? [= <- <-]).
    rewrite exec_seq, exec_lit_app, exec_seq. unfold star at 1, space at 1.
    rewrite star_stops by (intros ? ? [= <- <-]; exact Hx).
    (* the name *)
    rewrite exec_seq, exec_grp. unfold lazy_plus. rewrite exec_seq, exec_chr_cons.
    rewrite (Hchar x) by done. rewrite exec_star.
    rewrite (star_loop_lazy _ ("("%char :: args ++ ")"%char :: "}"%char :: "}"%char :: post)
               _ (post, [(2, args); (1, x :: name)])); [done| | | |].
    - eapply Forall_impl; [exact Hname|]. exact Hchar.
    - rewrite length_app. lia.
    - intros a1 y a2 ->. apply Forall_app in Hname as [_ Hname].
      apply Forall_cons in Hname as [(Hy & Hyo & Hyc) _].
      rewrite exec_seq. unfold star at 1, space at 1.
      rewrite star_stops by (intros ? ? [= <- <-]; exact Hy).
      rewrite exec_seq. apply exec_lit.
      change (list_ascii_of_string "(") with ["("%char]. rewrite starts_with_cons.
      destruct (Ascii.eqb "(" y) eqn:E; [|done]. by apply Ascii.eqb_eq in E.
    - (* the arguments *)
      rewrite exec_seq. unfold star at 1, space at 1.
      rewrite star_stops by (by intros ? ? [= <- <-]).
      rewrite exec_seq.
      change ("("%char :: args ++ ")"%char :: "}"%char :: "}"%char :: post)
        with (list_ascii_of_string "(" ++ args ++ ")"%char :: "}"%char :: "}"%char :: post).
      rewrite exec_lit_app, exec_seq, exec_grp. unfold star at 1, none_of.
      apply star_greedy.
      + apply Forall_forall. intros y Hy. cbn [existsb].
        destruct (Ascii.eqb y ")") eqn:E; [|done].
        apply Ascii.eqb_eq in E as ->. by destruct Hargs.
      + by intros ? ? [= <- <-].
      + rewrite exec_seq.
        change (")"%char :: "}"%char :: "}"%char :: post)
          with (list_ascii_of_string ")" ++ "}"%char :: "}"%char :: post).
        rewrite exec_lit_app, exec_seq. unfold star at 1, space at 1.
        rewrite star_stops by (by intros ? ? [= <- <-]).
        change ("}"%char :: "}"%char :: post) with (list_ascii_of_string "}}" ++ post).
        rewrite exec_lit_app. unfold k0, cap_set. repeat f_equal.
        * change (args ++ list_ascii_of_string ")" ++ list_ascii_of_string "}}" ++ post)
            with (args ++ (list_ascii_of_string ")" ++ list_ascii_of_string "}}" ++ post)).
          apply take_prefix.
        * match goal with
          | |- take (length (x :: name ++ ?b) - length ?b) _ = _ =>
              change (x :: name ++ b) with ((x :: name) ++ b)
          end.
          apply take_prefix. }
  do 2 f_equal. subst input.
  replace (list_ascii_of_string "{{user:" ++ (x :: name) ++ list_ascii_of_string "("
           ++ args ++ list_ascii_of_string ")}}" ++ post)
    with ((list_ascii_of_string "{{user:" ++ (x :: name) ++ list_ascii_of_string "("
           ++ args ++ list_ascii_of_string ")}}") ++ post)
    by (by rewrite <- !app_assoc).
  apply take_prefix.
Qed.

(** X28.  One call [{{user:name(args)}}], written in ASCII characters, in a
    text that has no brace before it and none after it.  It is replaced
    by nothing when the name is an unsafe key.  Else the registry
    object is asked for its member under the name, a function loaded
    or a member that every object inherits: the call is replaced by
    what the member returns for the arguments, as [_safeToString]
    renders it, and by nothing when there is no member or when the call
    throws. *)
Theorem processUserFunctions_calls_function
    (variables : list (str * value (num H))) (x : ascii) (pre name args post : str) :
  "{"%char ∉ pre → "{"%char ∉ post →
  ascii_only (x :: name) → ascii_only args →
  Forall (fun y => is_space y = false ∧ y ≠ "("%char ∧ y ≠ ")"%char) (x :: name) →
  ")"%char ∉ args →
  _processUserFunctions H userFeatures_functions
    (pre ++ "{{user:" ++ (x :: name) ++ "(" ++ args ++ ")}}" ++ post) variables
  = pre
    ++ (if is_unsafe (x :: name) then []
        else match userFeatures_functions (x :: name) with
             | None => []
             | Some f =>
                 match f (cleanedArgs H variables args) with
                 | Returns v => _safeToString H v
                 | Throws _ => []
                 end
             end)
    ++ post.
Proof.
  intros Hpre Hpost _ _ Hname Hargs. unfold _processUserFunctions, replace.
  set (dir := list_ascii_of_string "{{user:" ++ (x :: name) ++ list_ascii_of_string "("
              ++ args ++ list_ascii_of_string ")}}").
  replace (pre ++ list_ascii_of_string "{{user:" ++ (x :: name)
           ++ list_ascii_of_string "(" ++ args ++ list_ascii_of_string ")}}" ++ post)
    with (pre ++ dir ++ post) by (subst dir; by rewrite <- !app_assoc).
  rewrite (replace_fold_one userFuncRegex _ dir post
             {| m_text := dir; m_rest := post; m_caps := [(2, args); (1, x :: name)] |}).
  - cbn [fst]. unfold group_, group. cbn [m_caps cap_get Nat.eqb].
    unfold default. cbn [from_option id].
    destruct (is_unsafe (x :: name)); [done|]. unfold _executeUserFunction.
    destruct (userFeatures_functions (x :: name)) as [f|]; [|done].
    by destruct (f _).
  - subst dir. rewrite <- !app_assoc. by apply run_userFuncRegex.
  - done.
  - done.
  - intros before st. apply replace_fold_plain; [apply braced_userFuncRegex|].
    by apply (includes_without "{" "{").
  - intros a y b ->. apply run_userFuncRegex_elsewhere.
    change (list_ascii_of_string "{{") with ["{"%char; "{"%char].
    rewrite starts_with_cons. destruct (Ascii.eqb "{" y) eqn:Ey; [|done].
    apply Ascii.eqb_eq in Ey as <-. destruct Hpre. apply elem_of_app. right. left.
Qed.

End OneCall.

(** ** One variable through the whole pipeline *)

Section VariableThroughPipeline.

Context (H : Host).
Variable userFeatures_variables : list (str * value (num H)).
Variable userFeatures_functions :
  str → option (list (value (num H)) → outcome (value (num H))).

Lemma upcase_close (x : ascii) : upcase x = "}"%char → x = "}"%char.
Proof. destruct x as [[] [] [] [] [] [] [] []]; by vm_compute. Qed.

(** A keyword that must be followed by white space does not match at
    the head of a tag without white space. *)
Lemma lit_i_space_none (r : re) (rest : str) (c : caps)
    (k : str → caps → option (str * caps)) :
  ∀ p w : str,
    "}"%char ∉ p → Forall (fun y => is_space y = false) w → last w = Some "}"%char →
    exec (Seq (lit_i p) (Seq (plus space) r)) (w ++ rest) c k = None.
Proof.
  induction p as [|x p IH]; intros w Hp Hw Hlast.
  - destruct w as [|y w]; [done|]. apply Forall_cons in Hw as [Hy _].
    cbn [lit_i app]. rewrite !exec_seq. cbn [exec]. unfold plus. rewrite exec_seq.
    unfold space at 1. by rewrite exec_chr_cons, Hy.
  - destruct w as [|y w]; [done|]. apply Forall_cons in Hw as [Hy Hw].
    apply not_elem_of_cons in Hp as [Hx Hp].
    cbn [lit_i app]. rewrite !exec_seq. unfold chr_i at 1. rewrite exec_chr_cons.
    destruct (Ascii.eqb (upcase x) (upcase y)) eqn:E; [|done].
    destruct w as [|z w].
    + injection Hlast as ->. apply Ascii.eqb_eq in E.
      change (upcase "}") with "}"%char in E. by apply upcase_close in E.
    + specialize (IH (z :: w) Hp Hw Hlast). by rewrite exec_seq in IH.
Qed.

Lemma tag_word (key : str) :
  Forall (fun y => is_word y = true) key →
  Forall (fun y => is_space y = false) ("{{" ++ key ++ "}}")
  ∧ last ("{{" ++ key ++ "}}") = Some "}"%char.
Proof.
  intros Hkey. split.
  - apply Forall_app. split; [by repeat constructor|]. apply Forall_app.
    split; [|by repeat constructor].
    eapply Forall_impl; [exact Hkey|]. intros y Hy. by apply word_not_space.
  - rewrite app_assoc. change (list_ascii_of_string "}}") with (["}"%char] ++ ["}"%char]).
    by rewrite app_assoc, last_snoc.
Qed.

Lemma run_keyword_tag (key post : str) :
  Forall (fun y => is_word y = true) key →
  run forKeyValueRegex ("{{" ++ key ++ "}}" ++ post) = None
  ∧ run forRegex ("{{" ++ key ++ "}}" ++ post) = None
  ∧ run IfRegex ("{{" ++ key ++ "}}" ++ post) = None.
Proof.
  intros Hkey. destruct (tag_word key Hkey) as [Hw Hlast].
  assert (∀ p r, "}"%char ∉ p →
            exec (Seq (lit_i p) (Seq (plus space) r))
              (list_ascii_of_string "{{" ++ key ++ list_ascii_of_string "}}" ++ post) []
              (fun s' c => Some (s', c)) = None) as Hnone.
  { intros p r Hp.
    replace (list_ascii_of_string "{{" ++ key ++ list_ascii_of_string "}}" ++ post)
      with ((list_ascii_of_string "{{" ++ key ++ list_ascii_of_string "}}") ++ post)
      by (by rewrite <- !app_assoc).
    by apply lit_i_space_none. }
  split_and!.
  - unfold run. change forKeyValueRegex with (Seq (lit_i "{{for") (Seq (plus space)
      (seq [ Grp 1 (plus word); star space; lit ","; star space; Grp 2 (plus word);
             plus space; lit_i "in"; plus space; Grp 3 (plus (none_of ["}"%char]));
             lit "}}"; Grp 4 (lazy_star any);
             opt (seq [ lit_i "{{empty}}"; Grp 5 (lazy_star any) ]);
             lit_i "{{endfor}}" ]))).
    rewrite Hnone; [done|]. apply (bool_decide_unpack _). by vm_compute.
  - unfold run. rewrite forRegex_tail.
    rewrite Hnone; [done|]. apply (bool_decide_unpack _). by vm_compute.
  - unfold run. rewrite IfRegex_tail.
    rewrite Hnone; [done|]. apply (bool_decide_unpack _). by vm_compute.
Qed.

Lemma starts_with_within (p rest : str) :
  ∀ w, starts_with p (w ++ rest) = true → (∀ c, c ∈ p → c ∈ w) ∨ (∀ c, c ∈ w → c ∈ p).
Proof.
  induction p as [|x p IH]; intros w Hp.
  - left. intros c Hc. by apply elem_of_nil in Hc.
  - destruct w as [|y w].
    + right. intros c Hc. by apply elem_of_nil in Hc.
    + cbn [app] in Hp. rewrite starts_with_cons in Hp. apply andb_prop in Hp as [Hx Hp].
      apply Ascii.eqb_eq in Hx as <-.
      destruct (IH w Hp) as [Hin|Hin]; [left|right]; intros c [->|Hc]%elem_of_cons;
        try (by left); right; by apply Hin.
Qed.

Lemma run_userFuncRegex_tag (key post : str) :
  Forall (fun y => is_word y = true) key →
  run userFuncRegex ("{{" ++ key ++ "}}" ++ post) = None.
Proof.
  intros Hkey. unfold run, userFuncRegex. cbn [seq].
  rewrite exec_seq, exec_lit_app, exec_seq. unfold star at 1, space at 1.
  rewrite star_stops.
  2: { intros y s' Hs. destruct key as [|z key]; cbn [app] in Hs.
       - by injection Hs as <- _.
       - injection Hs as <- _. apply Forall_cons in Hkey as [Hz _].
         by apply word_not_space. }
  rewrite exec_seq. rewrite exec_lit; [done|].
  destruct (starts_with "user:" (key ++ list_ascii_of_string "}}" ++ post)) eqn:E; [|done].
  rewrite app_assoc in E. apply starts_with_within in E as [Hin|Hin].
  - assert (":"%char ∈ key ++ list_ascii_of_string "}}") as Hc.
    { apply Hin. apply (bool_decide_unpack _). by vm_compute. }
    apply elem_of_app in Hc as [Hc|Hc].
    + rewrite Forall_forall in Hkey. destruct (word_not_colon _ (Hkey _ Hc) eq_refl).
    + revert Hc. apply (bool_decide_unpack _). by vm_compute.
  - assert ("}"%char ∈ list_ascii_of_string "user:") as Hc.
    { apply Hin. apply elem_of_app. right. left. }
    revert Hc. apply (bool_decide_unpack _). by vm_compute.
Qed.

Lemma braced_search (r : re) : braced r → ∀ s, plain s → search r s = None.
Proof.
  intros Hr. induction s as [|x s IH]; intros Hs; cbn [search].
  - by rewrite braced_run.
  - rewrite braced_run by done. rewrite IH; [done|]. by eapply plain_tail.
Qed.

Lemma hasUnprocessedTags_plain (s : str) : plain s → _hasUnprocessedTags s = false.
Proof.
  intros Hs. unfold _hasUnprocessedTags, test. cbn [existsb].
  rewrite !braced_search; try done.
  - apply braced_objectPropertyRegex.
  - apply braced_expressionRegex.
  - apply braced_userFuncRegex.
  - apply braced_IfRegex.
  - apply braced_forKeyValueRegex.
  - apply braced_forRegex.
Qed.

(** The three phases before the variables leave [{{key}}] alone. *)
Lemma phases_before_variables
    (pv : str → list (str * value (num H)) → option str)
    (variables : list (str * value (num H))) (pre key post : str) :
  "{"%char ∉ pre → "{"%char ∉ post →
  Forall (fun y => is_word y = true) key →
  _processLoops H pv (pre ++ "{{" ++ key ++ "}}" ++ post) variables
  = Some (pre ++ "{{" ++ key ++ "}}" ++ post)
  ∧ _processConditionals H (pre ++ "{{" ++ key ++ "}}" ++ post) variables
    = pre ++ "{{" ++ key ++ "}}" ++ post
  ∧ _processUserFunctions H userFeatures_functions (pre ++ "{{" ++ key ++ "}}" ++ post)
      variables
    = pre ++ "{{" ++ key ++ "}}" ++ post.
Proof.
  intros Hpre Hpost Hkey.
  destruct (run_keyword_tag key post Hkey) as (Hkv & Hfor & Hif).
  assert (∀ r, (∀ t, starts_with "{{" t = false → run r t = None) →
            run r (list_ascii_of_string "{{" ++ key ++ list_ascii_of_string "}}" ++ post)
            = None →
            ∀ t, t `suffix_of` pre ++ "{{" ++ key ++ "}}" ++ post → run r t = None)
    as Hnowhere.
  { intros r Hr Hat t Ht. destruct (starts_with "{{" t) eqn:Hstart; [|by apply Hr].
    rewrite (suffix_brace key post) with (pre := pre) (t := t); try done.
    by apply word_without_brace. }
  split_and!.
  - unfold _processLoops.
    rewrite replace_try_nowhere
      by (apply Hnowhere; [apply run_forKeyValueRegex_elsewhere|done]).
    by rewrite replace_try_nowhere
      by (apply Hnowhere; [apply run_forRegex_elsewhere|done]).
  - unfold _processConditionals. rewrite conditionals_loop_step. unfold replace_st.
    rewrite replace_fold_nowhere; [done|]. apply Hnowhere; [|done].
    intros t Ht. unfold run. rewrite IfRegex_tail, exec_seq. by rewrite exec_lit_i.
  - unfold _processUserFunctions, replace.
    rewrite replace_fold_nowhere; [done|].
    apply Hnowhere; [apply run_userFuncRegex_elsewhere|by apply run_userFuncRegex_tag].
Qed.

Lemma spread_keys {V : Type} (a b : list (str * V)) (k : str) :
  k ∈ map fst (JsObject.spread a b) → k ∈ map fst a ∨ k ∈ map fst b.
Proof.
  intros Hk. destruct (JsObject.own (JsObject.spread a b) k) as [v|] eqn:E.
  - rewrite own_spread in E.
    destruct (JsObject.own (rev b) k) as [w|] eqn:Eb.
    + right. apply own_Some_elem in Eb. apply (proj1 (elem_of_rev _ _)) in Eb.
      apply list_elem_of_fmap. by exists (k, w).
    + left. apply own_Some_elem in E. apply (proj1 (elem_of_rev _ _)) in E.
      apply list_elem_of_fmap. by exists (k, v).
  - by apply own_None in E.
Qed.

(** X29.  A tag [{{key}}] in a text without any other brace or backquote,
    through [processVariables]: it is replaced by the value that the
    request variables hold under the key, else by the value that the
    user variables hold, as [_safeToString] renders it; one pass is
    made.  (Keys are words; the value rendered has no brace and no
    dollar sign.) *)
Theorem processVariables_substitutes
    (depth : nat) (pre key post : str)
    (requestVariables : list (str * value (num H))) (v : value (num H)) :
  "{"%char ∉ pre → "`"%char ∉ pre → "{"%char ∉ post → "`"%char ∉ post →
  Forall (fun y => is_word y = true) key →
  Forall (fun kv => Forall (fun y => is_word y = true) (fst kv)) userFeatures_variables →
  Forall (fun kv => Forall (fun y => is_word y = true) (fst kv)) requestVariables →
  NoDup (map fst userFeatures_variables) → NoDup (map fst requestVariables) →
  is_unsafe key = false →
  match JsObject.own requestVariables key with
  | Some w => Some w
  | None => JsObject.own userFeatures_variables key
  end = Some v →
  "{"%char ∉ _safeToString H v → "$"%char ∉ _safeToString H v →
  processVariables H userFeatures_variables userFeatures_functions (S depth)
    (pre ++ "{{" ++ key ++ "}}" ++ post) requestVariables
  = Some (pre ++ _safeToString H v ++ post).
Proof.
  intros Hpre Hpreq Hpost Hpostq Hkey Huser Hrequest Hnu Hnr Hsafe Hown Hbrace Hdollar.
  set (allVariables := JsObject.spread userFeatures_variables requestVariables).
  assert (Forall (fun kv => Forall (fun y => is_word y = true) (fst kv)) allVariables)
    as Hwords.
  { apply Forall_forall. intros [k w] Hin. cbn [fst].
    assert (k ∈ map fst allVariables) as Hk
      by (apply list_elem_of_fmap; by exists (k, w)).
    rewrite Forall_forall in Huser, Hrequest.
    apply spread_keys in Hk as [Hk|Hk]; apply list_elem_of_fmap in Hk as ([k' w'] & -> & Hk).
    - exact (Huser _ Hk).
    - exact (Hrequest _ Hk). }
  assert (JsObject.own allVariables key = Some v) as Hall.
  { unfold allVariables. by rewrite own_spread_objects. }
  cbn [processVariables]. fold allVariables. unfold _processIteratively.
  cbn [iterate]. unfold run_phases, processingPhases. cbn [fold_left].
  destruct (phases_before_variables
              (processVariables H userFeatures_variables userFeatures_functions depth)
              allVariables pre key post Hpre Hpost Hkey) as (-> & -> & ->).
  assert ("{"%char ∉ substitution 0 pre
            {| m_text := "{{" ++ key ++ "}}"; m_rest := post; m_caps := [] |}
            (_safeToString H v)) as Hvalue by (by rewrite substitution_plain).
  rewrite (processVariablesAndExpressions_found H allVariables pre key post v) by done.
  rewrite substitution_plain by done.
  rewrite hasUnprocessedTags_plain.
  - by rewrite andb_false_r.
  - apply (includes_without "{" "{").
    intros [?|[?|?]%elem_of_app]%elem_of_app; [by apply Hpre|by apply Hbrace|by apply Hpost].
Qed.

End VariableThroughPipeline.

(** ** The properties at concrete inputs *)

Lemma sandbox_guards_its_names_witness :
  JsObject.own (sandbox Node.host Demo.context) "constructor" = None
  ∧ JsObject.own (sandbox Node.host Demo.context) "Math"
    = Some (VFun (list_ascii_of_string "Math")).
Proof.
  pose proof (sandbox_guards_its_names Node.host Demo.context) as (Hunsafe & Hhelper & _).
  split.
  - apply Hunsafe. reflexivity.
  - apply Hhelper. apply (bool_decide_unpack _). vm_compute. reflexivity.
Defined.

Lemma sandbox_passes_safe_variables_witness :
  NoDup (map fst Demo.context)
  ∧ is_unsafe "title" = false
  ∧ JsObject.own (sandbox Node.host []) "title" = None
  ∧ JsObject.own (sandbox Node.host Demo.context) "title"
    = JsObject.own Demo.context "title".
Proof.
  assert (NoDup (map fst Demo.context)) as Hnd
    by (apply (bool_decide_unpack _); vm_compute; reflexivity).
  assert (is_unsafe "title" = false) as Hsafe by reflexivity.
  assert (JsObject.own (sandbox Node.host []) "title" = None) as Hfree
    by (vm_compute; reflexivity).
  split; [exact Hnd|]. split; [exact Hsafe|]. split; [exact Hfree|].
  exact (sandbox_passes_safe_variables Node.host Demo.context "title" Hnd Hsafe Hfree).
Defined.

Lemma loopVariables_binds_witness :
  NoDup (map fst Demo.context)
  ∧ JsObject.own
      (loopVariables Node.host Demo.context "title" None 1 3
         (VNum (Node.Int 1)) (VStr (list_ascii_of_string "b")))
      "title" = Some (VStr (list_ascii_of_string "b"))
  ∧ JsObject.own
      (loopVariables Node.host Demo.context "title" None 1 3
         (VNum (Node.Int 1)) (VStr (list_ascii_of_string "b")))
      "user" = JsObject.own Demo.context "user".
Proof.
  assert (NoDup (map fst Demo.context)) as Hnd
    by (apply (bool_decide_unpack _); vm_compute; reflexivity).
  split; [exact Hnd|].
  pose proof (loopVariables_binds Node.host Demo.context "title" 1 3
                (VNum (Node.Int 1)) (VStr (list_ascii_of_string "b")) Hnd)
    as [(Hitem & _ & _ & _ & Hother) _].
  split; [exact Hitem|]. apply Hother.
  apply (bool_decide_unpack _). vm_compute. reflexivity.
Defined.

Lemma getValueByPath_stops_at_unsafe_key_witness :
  list_ascii_of_string "constructor" ∈ split_on "." "user.constructor.name"
  ∧ is_unsafe "constructor" = true
  ∧ _getValueByPath Node.host (VObj Demo.context) "user.constructor.name" = VUndefined.
Proof.
  assert (list_ascii_of_string "constructor" ∈ split_on "." "user.constructor.name")
    as Hin by (apply (bool_decide_unpack _); vm_compute; reflexivity).
  assert (is_unsafe "constructor" = true) as Hu by reflexivity.
  split; [exact Hin|]. split; [exact Hu|].
  exact (getValueByPath_stops_at_unsafe_key Node.host (VObj Demo.context)
           "user.constructor.name" "constructor" Hin Hu).
Defined.

Lemma getValueByPath_own_properties_witness :
  ("."%char ∉ list_ascii_of_string "user") ∧ ("."%char ∉ list_ascii_of_string "name")
  ∧ is_unsafe "user" = false ∧ is_unsafe "name" = false
  ∧ (∀ s, JsObject.own Demo.context "user" = Some (VStr s) → ascii_only s)
  ∧ _getValueByPath Node.host (VObj Demo.context) "user.name"
    = VStr (list_ascii_of_string "Ann").
Proof.
  assert ("."%char ∉ list_ascii_of_string "user") as Ha
    by (apply (bool_decide_unpack _); vm_compute; reflexivity).
  assert ("."%char ∉ list_ascii_of_string "name") as Hb
    by (apply (bool_decide_unpack _); vm_compute; reflexivity).
  assert (is_unsafe "user" = false) as Hsa by reflexivity.
  assert (is_unsafe "name" = false) as Hsb by reflexivity.
  assert (∀ s, JsObject.own Demo.context "user" = Some (VStr s) → ascii_only s) as Hstr
    by (intros s Hs; vm_compute in Hs; discriminate Hs).
  split; [exact Ha|]. split; [exact Hb|]. split; [exact Hsa|]. split; [exact Hsb|].
  split; [exact Hstr|].
  exact (getValueByPath_own_properties Node.host Demo.context "user" "name"
           Ha Hb Hsa Hsb Hstr).
Defined.

Lemma ensureDoctypeFirst_puts_doctype_first_witness :
  (∀ c rest, trim_start (list_ascii_of_string "  <p>About</p>") = c :: rest →
             is_ascii c = true)
  ∧ Blocks._ensureDoctypeFirst "  <p>About</p>"
    = "<!DOCTYPE html>" ++ ["010"%char] ++ list_ascii_of_string "  <p>About</p>"
  ∧ starts_with "<!doctype"
      (toLowerCase (trim (Blocks._ensureDoctypeFirst "  <p>About</p>"))) = true.
Proof.
  assert (∀ c rest, trim_start (list_ascii_of_string "  <p>About</p>") = c :: rest →
                    is_ascii c = true) as Hhead.
  { intros c rest Hc. vm_compute in Hc. injection Hc as <- _. reflexivity. }
  split; [exact Hhead|]. split; [reflexivity|].
  exact (proj1 (ensureDoctypeFirst_puts_doctype_first "  <p>About</p>" Hhead)).
Defined.

Lemma cleanTemplateTags_only_removes_witness :
  ("["%char ∉ list_ascii_of_string "<p>About</p>")
  ∧ Blocks._cleanTemplateTags "<p>About</p>" = list_ascii_of_string "<p>About</p>".
Proof.
  assert ("["%char ∉ list_ascii_of_string "<p>About</p>") as Hc
    by (apply (bool_decide_unpack _); vm_compute; reflexivity).
  split; [exact Hc|].
  pose proof (cleanTemplateTags_only_removes "<p>About</p>") as [_ Hid].
  exact (Hid Hc).
Defined.

Lemma processIncludes_without_bracket_witness :
  ("["%char ∉ list_ascii_of_string "<p>About</p>")
  ∧ processIncludes Demo.site Demo.pages 1 "<p>About</p>" "about.html" ∅ initial
    = Some (list_ascii_of_string "<p>About</p>", initial, []).
Proof.
  assert ("["%char ∉ list_ascii_of_string "<p>About</p>") as Hc
    by (apply (bool_decide_unpack _); vm_compute; reflexivity).
  split; [exact Hc|].
  exact (processIncludes_without_bracket Demo.site Demo.pages 0 "<p>About</p>"
           "about.html" ∅ initial Hc).
Defined.

Lemma renderTemplate_without_directive_witness :
  Demo.pages !! Path.join (templatesAbsDir Demo.site) "base.html" = Some Demo.block_page
  ∧ starts_with "[" Demo.block_page = false
  ∧ renderTemplate Demo.site Demo.pages "base.html"
    = match Blocks._findBlockPositions Demo.block_page with
      | Throws e => Throws e
      | Returns _ =>
          Returns (Blocks._ensureDoctypeFirst (Blocks._cleanTemplateTags Demo.block_page))
      end.
Proof.
  assert (Demo.pages !! Path.join (templatesAbsDir Demo.site) "base.html"
          = Some Demo.block_page) as Hfile by (vm_compute; reflexivity).
  assert (starts_with "[" Demo.block_page = false) as Hhead by reflexivity.
  split; [exact Hfile|]. split; [exact Hhead|].
  exact (renderTemplate_without_directive Demo.site Demo.pages "base.html"
           Demo.block_page Hfile Hhead).
Defined.

Lemma renderTemplate_extends_witness :
  Demo.pages !! Path.join (templatesAbsDir Demo.site) "index.html"
  = Some ("[extends " ++ "base.html" ++ "]" ++ " the layout" ++ ["010"%char]
          ++ "[!main]Hello[~main]")
  ∧ list_ascii_of_string "base.html" ≠ []
  ∧ ascii_only (list_ascii_of_string "base.html")
  ∧ Forall (fun y => is_space y = false ∧ y ≠ "]"%char) (list_ascii_of_string "base.html")
  ∧ Forall (fun y => y ≠ "013"%char ∧ y ≠ "010"%char) (list_ascii_of_string " the layout")
  ∧ renderTemplate Demo.site Demo.pages "index.html"
    = Returns ("<!DOCTYPE html>" ++ ["010"%char] ++ list_ascii_of_string "<p>Hello</p>").
Proof.
  assert (Demo.pages !! Path.join (templatesAbsDir Demo.site) "index.html"
          = Some ("[extends " ++ "base.html" ++ "]" ++ " the layout" ++ ["010"%char]
                  ++ "[!main]Hello[~main]")) as Hfile by (vm_compute; reflexivity).
  assert (list_ascii_of_string "base.html" ≠ []) as Hne by discriminate.
  assert (Forall (fun y => is_space y = false ∧ y ≠ "]"%char)
            (list_ascii_of_string "base.html")) as Hname
    by (repeat constructor; discriminate).
  assert (Forall (fun y => y ≠ "013"%char ∧ y ≠ "010"%char)
            (list_ascii_of_string " the layout")) as Hcomment
    by (repeat constructor; discriminate).
  assert (ascii_only (list_ascii_of_string "base.html")) as Hascii
    by (repeat constructor).
  split; [exact Hfile|]. split; [exact Hne|]. split; [exact Hascii|].
  split; [exact Hname|]. split; [exact Hcomment|].
  rewrite (renderTemplate_extends Demo.site Demo.pages "index.html" "base.html"
             " the layout" "[!main]Hello[~main]" Hfile Hne Hascii Hname Hcomment).
  vm_compute. reflexivity.
Defined.

Lemma findEntryFile_names_a_page_witness :
  Forall (fun f => is_Some (Demo.pages !! Path.join (templatesAbsDir Demo.site) f))
    [ list_ascii_of_string "index.html"; list_ascii_of_string "about.html" ]
  ∧ ∃ entry pages,
      findEntryFile Demo.site Demo.pages
        [ list_ascii_of_string "index.html"; list_ascii_of_string "about.html" ]
      = Returns (entry, pages)
      ∧ pages ≡ₚ [ list_ascii_of_string "index.html"; list_ascii_of_string "about.html" ]
      ∧ (entry = None
         ↔ [ list_ascii_of_string "index.html"; list_ascii_of_string "about.html" ] = [])
      ∧ ∀ file, entry = Some file →
          file ∈ [ list_ascii_of_string "index.html"; list_ascii_of_string "about.html" ].
Proof.
  assert (Forall (fun f => is_Some (Demo.pages !! Path.join (templatesAbsDir Demo.site) f))
            [ list_ascii_of_string "index.html"; list_ascii_of_string "about.html" ])
    as Hread by (repeat constructor; vm_compute; eexists; reflexivity).
  split; [exact Hread|].
  exact (findEntryFile_names_a_page Demo.site Demo.pages _ Hread).
Defined.

Lemma findEntryFile_priorities_witness :
  Forall (unmarked Demo.site Demo.pages) [ list_ascii_of_string "index.html" ]
  ∧ marked Demo.site Demo.pages "start.html"
  ∧ findEntryFile Demo.site Demo.pages
      [ list_ascii_of_string "index.html"; list_ascii_of_string "start.html" ]
    = Returns (Some (list_ascii_of_string "start.html"),
               [ list_ascii_of_string "index.html"; list_ascii_of_string "start.html" ]).
Proof.
  assert (Forall (unmarked Demo.site Demo.pages) [ list_ascii_of_string "index.html" ])
    as Hbefore.
  { repeat constructor. exists Demo.extending_page. split; vm_compute; reflexivity. }
  assert (marked Demo.site Demo.pages "start.html") as Hmark.
  { exists (list_ascii_of_string "<!-- @entry --><p>Start</p>").
    split; vm_compute; reflexivity. }
  split; [exact Hbefore|]. split; [exact Hmark|].
  pose proof (findEntryFile_priorities Demo.site Demo.pages
                [ list_ascii_of_string "index.html"; list_ascii_of_string "start.html" ])
    as [Hfirst _].
  exact (Hfirst [ list_ascii_of_string "index.html" ] (list_ascii_of_string "start.html")
           [] eq_refl Hbefore Hmark).
Defined.

Lemma block_page_nested : nested Demo.block_page.
Proof.
  unfold Demo.block_page.
  do 3 (apply nested_char; [reflexivity|reflexivity|]).
  apply (nested_block "main" "main" "x" "</p>").
  - split; [repeat constructor|].
    split; [discriminate|]. repeat constructor; apply (bool_decide_unpack _); reflexivity.
  - split; [repeat constructor|].
    split; [discriminate|]. repeat constructor; apply (bool_decide_unpack _); reflexivity.
  - reflexivity.
  - apply nested_char; [reflexivity|reflexivity|]. apply nested_nil.
  - do 4 (apply nested_char; [reflexivity|reflexivity|]). apply nested_nil.
Qed.

Lemma validateTemplateFile_accepts_nested_witness :
  Demo.pages !! Path.join (templatesAbsDir Demo.site) "base.html" = Some Demo.block_page
  ∧ nested Demo.block_page
  ∧ Validator._validateTemplateStructure Demo.block_page = []
  ∧ validateTemplateFile Demo.site Demo.pages "base.html" false = Returns [].
Proof.
  assert (Demo.pages !! Path.join (templatesAbsDir Demo.site) "base.html"
          = Some Demo.block_page) as Hfile by (vm_compute; reflexivity).
  split; [exact Hfile|]. split; [exact block_page_nested|].
  exact (validateTemplateFile_accepts_nested Demo.site Demo.pages "base.html"
           Demo.block_page false Hfile block_page_nested).
Defined.

Lemma renderPage_static_page_witness :
  Demo.pages !! Path.join (templatesAbsDir Demo.site) "about.html"
  = Some (list_ascii_of_string "<p>About</p>")
  ∧ ("["%char ∉ list_ascii_of_string "<p>About</p>")
  ∧ includes "<p>About</p>" "{{" = false
  ∧ renderPage Node.host [] Demo.no_functions Demo.site Demo.pages 1 "about.html" []
      initial
    = Some (Returns (Blocks._ensureDoctypeFirst "<p>About</p>", initial, [])).
Proof.
  assert (Demo.pages !! Path.join (templatesAbsDir Demo.site) "about.html"
          = Some (list_ascii_of_string "<p>About</p>")) as Hfile
    by (vm_compute; reflexivity).
  assert ("["%char ∉ list_ascii_of_string "<p>About</p>") as Hc
    by (apply (bool_decide_unpack _); vm_compute; reflexivity).
  assert (includes "<p>About</p>" "{{" = false) as Hp by (vm_compute; reflexivity).
  split; [exact Hfile|]. split; [exact Hc|]. split; [exact Hp|].
  exact (renderPage_static_page Node.host [] Demo.no_functions Demo.site Demo.pages 0
           "about.html" "<p>About</p>" [] initial Hfile Hc Hp).
Defined.

Lemma injectHotReloadScript_inserts_once_witness :
  test DevServer.injectedRegex "<body>x</body>" = false
  ∧ DevServer.injectHotReloadScript "<body>x</body>"
    = "<body>x" ++ DevServer.socketScript ++ "</body>".
Proof.
  assert (test DevServer.injectedRegex "<body>x</body>" = false) as Htest
    by (vm_compute; reflexivity).
  split; [exact Htest|].
  pose proof (injectHotReloadScript_inserts_once "<body>x</body>") as (_ & Hinsert & _).
  destruct (Hinsert Htest) as (i & -> & Hi).
  assert (find_from "</body>" "<body>x</body>" = Some 7) as Efind
    by (vm_compute; reflexivity).
  rewrite Efind in Hi. subst i. reflexivity.
Defined.

Lemma findBlockPositions_records_disjoint_blocks_witness :
  Blocks._findBlockPositions Demo.base_page = Returns Demo.base_blocks
  ∧ NoDup (map Blocks.startIndex (all_blocks Demo.base_blocks)).
Proof.
  assert (Blocks._findBlockPositions Demo.base_page = Returns Demo.base_blocks) as Hb
    by (vm_compute; reflexivity).
  split; [exact Hb|].
  pose proof (findBlockPositions_records_disjoint_blocks Demo.base_page Demo.base_blocks Hb)
    as (_ & Hstarts & _).
  exact Hstarts.
Defined.

Lemma findBlockPositions_throws_on_inherited_names_witness :
  Blocks._findBlockPositions "[!toString]x[~toString]"
  = Throws "blocks[openName].push is not a function"
  ∧ ∃ startIndex openEndIndex closeStartIndex,
      slice "[!toString]x[~toString]" startIndex (startIndex + 2)
      = list_ascii_of_string "[!"
      ∧ indexOf "[!toString]x[~toString]" "]" startIndex = Some openEndIndex
      ∧ JsObject.inherited
          (trim (slice "[!toString]x[~toString]" (startIndex + 2) openEndIndex)) = true
      ∧ indexOf "[!toString]x[~toString]"
          ("[~" ++ trim (slice "[!toString]x[~toString]" (startIndex + 2) openEndIndex)
           ++ "]")
          (openEndIndex + 1) = Some closeStartIndex.
Proof.
  assert (Blocks._findBlockPositions "[!toString]x[~toString]"
          = Throws "blocks[openName].push is not a function") as Hthrows
    by (vm_compute; reflexivity).
  split; [exact Hthrows|].
  pose proof (findBlockPositions_throws_on_inherited_names "[!toString]x[~toString]")
    as [Honly _].
  destruct (Honly _ Hthrows) as [_ Hname]. exact Hname.
Defined.

Lemma templateFile_extension_is_optional_witness :
  list_ascii_of_string "/about" ≠ []
  ∧ starts_with (rev ".html") (rev "/about") = false
  ∧ DevServer.templateFile ("/about" ++ ".html") = DevServer.templateFile "/about"
  ∧ DevServer.templateFile "/about" = drop 1 "/about" ++ ".html".
Proof.
  assert (list_ascii_of_string "/about" ≠ []) as Hne by discriminate.
  assert (starts_with (rev ".html") (rev "/about") = false) as Hext by reflexivity.
  split; [exact Hne|]. split; [exact Hext|].
  exact (templateFile_extension_is_optional "/about" Hne Hext).
Defined.

Lemma processIncludes_expands_directive_witness :
  ("["%char ∉ list_ascii_of_string "<p>")
  ∧ (∀ q, last (list_ascii_of_string "<p>") = Some q → q ≠ dquote ∧ q ≠ "'"%char)
  ∧ ("["%char ∉ list_ascii_of_string "</p>")
  ∧ list_ascii_of_string "about.html" ≠ []
  ∧ ascii_only (list_ascii_of_string "about.html")
  ∧ Forall (fun y => is_space y = false ∧ y ≠ "]"%char)
      (list_ascii_of_string "about.html")
  ∧ processIncludes Demo.site Demo.pages 2
      ("<p>" ++ "[include " ++ "about.html" ++ "]" ++ "</p>") "index.html" ∅ initial
    = Some (list_ascii_of_string "<p><p>About</p></p>", initial, []).
Proof.
  assert ("["%char ∉ list_ascii_of_string "<p>") as Hpre
    by (apply (bool_decide_unpack _); vm_compute; reflexivity).
  assert (∀ q, last (list_ascii_of_string "<p>") = Some q → q ≠ dquote ∧ q ≠ "'"%char)
    as Hlast by (intros q [= <-]; split; discriminate).
  assert ("["%char ∉ list_ascii_of_string "</p>") as Hpost
    by (apply (bool_decide_unpack _); vm_compute; reflexivity).
  assert (list_ascii_of_string "about.html" ≠ []) as Hne by discriminate.
  assert (Forall (fun y => is_space y = false ∧ y ≠ "]"%char)
            (list_ascii_of_string "about.html")) as Hname
    by (repeat constructor; discriminate).
  assert (ascii_only (list_ascii_of_string "about.html")) as Hascii
    by (repeat constructor).
  split; [exact Hpre|]. split; [exact Hlast|]. split; [exact Hpost|].
  split; [exact Hne|]. split; [exact Hascii|]. split; [exact Hname|].
  rewrite (processIncludes_expands_directive Demo.site Demo.pages 1 "<p>" "about.html"
             "</p>" "index.html" ∅ initial Hpre Hlast Hpost Hne Hascii Hname).
  vm_compute. reflexivity.
Defined.

Lemma processIncludes_keeps_quoted_directive_witness :
  ("["%char ∉ list_ascii_of_string "<a b=")
  ∧ ("["%char ∉ list_ascii_of_string ">")
  ∧ dquote ∈ [dquote; "'"%char]
  ∧ list_ascii_of_string "about.html" ≠ []
  ∧ Forall (fun y => is_space y = false ∧ y ≠ "]"%char)
      (list_ascii_of_string "about.html")
  ∧ processIncludes Demo.site Demo.pages 1
      ("<a b=" ++ dquote :: "[include " ++ "about.html" ++ "]" ++ dquote :: ">")
      "index.html" ∅ initial
    = Some ("<a b=" ++ dquote :: "[include " ++ "about.html" ++ "]" ++ dquote :: ">",
            initial, []).
Proof.
  assert ("["%char ∉ list_ascii_of_string "<a b=") as Hpre
    by (apply (bool_decide_unpack _); vm_compute; reflexivity).
  assert ("["%char ∉ list_ascii_of_string ">") as Hpost
    by (apply (bool_decide_unpack _); vm_compute; reflexivity).
  assert (dquote ∈ [dquote; "'"%char]) as Hq
    by (apply (bool_decide_unpack _); vm_compute; reflexivity).
  assert (list_ascii_of_string "about.html" ≠ []) as Hne by discriminate.
  assert (Forall (fun y => is_space y = false ∧ y ≠ "]"%char)
            (list_ascii_of_string "about.html")) as Hname
    by (repeat constructor; discriminate).
  split; [exact Hpre|]. split; [exact Hpost|]. split; [exact Hq|].
  split; [exact Hne|]. split; [exact Hname|].
  exact (processIncludes_keeps_quoted_directive Demo.site Demo.pages 0 "<a b="
           "about.html" ">" "index.html" dquote dquote ∅ initial
           Hpre Hpost Hq Hq Hne Hname).
Defined.

Lemma processConditionals_picks_branch_witness :
  ("{"%char ∉ list_ascii_of_string "<p>") ∧ ("{"%char ∉ list_ascii_of_string "</p>")
  ∧ is_space "1" = false ∧ is_ascii "1" = true
  ∧ ("}"%char ∉ "1"%char :: list_ascii_of_string ">2")
  ∧ runInContext Node.host ("(" ++ ("1"%char :: list_ascii_of_string ">2") ++ ")")
      (sandbox Node.host []) = Returns (VBool false)
  ∧ free_of [list_ascii_of_string "{{else"; list_ascii_of_string "{{endif}}"]
      "<b>{{a}}</b>" "{{else}}" = true
  ∧ free_of [list_ascii_of_string "{{endif}}"] "<i>{{b}}</i>" "{{endif}}" = true
  ∧ includes ("<b>{{a}}</b>" ++ "<i>{{b}}</i>") "{{if" = false
  ∧ _processConditionals Node.host
      ("<p>" ++ "{{if " ++ ("1"%char :: ">2") ++ "}}" ++ "<b>{{a}}</b>" ++ "{{else}}"
       ++ "<i>{{b}}</i>" ++ "{{endif}}" ++ "</p>") []
    = list_ascii_of_string "<p><i>{{b}}</i></p>".
Proof.
  assert ("{"%char ∉ list_ascii_of_string "<p>") as Hpre
    by (apply (bool_decide_unpack _); vm_compute; reflexivity).
  assert ("{"%char ∉ list_ascii_of_string "</p>") as Hpost
    by (apply (bool_decide_unpack _); vm_compute; reflexivity).
  assert (is_space "1" = false) as Hx by reflexivity.
  assert ("}"%char ∉ "1"%char :: list_ascii_of_string ">2") as Hcond
    by (apply (bool_decide_unpack _); vm_compute; reflexivity).
  assert (free_of [list_ascii_of_string "{{else"; list_ascii_of_string "{{endif}}"]
            "<b>{{a}}</b>" "{{else}}" = true) as HA by (vm_compute; reflexivity).
  assert (free_of [list_ascii_of_string "{{endif}}"] "<i>{{b}}</i>" "{{endif}}" = true)
    as HB by (vm_compute; reflexivity).
  assert (includes ("<b>{{a}}</b>" ++ "<i>{{b}}</i>") "{{if" = false) as Hif
    by (vm_compute; reflexivity).
  assert (is_ascii "1" = true) as Hxa by reflexivity.
  assert (runInContext Node.host ("(" ++ ("1"%char :: list_ascii_of_string ">2") ++ ")")
            (sandbox Node.host []) = Returns (VBool false)) as Hv
    by (vm_compute; reflexivity).
  split; [exact Hpre|]. split; [exact Hpost|]. split; [exact Hx|]. split; [exact Hxa|].
  split; [exact Hcond|]. split; [exact Hv|].
  split; [exact HA|]. split; [exact HB|]. split; [exact Hif|].
  pose proof (processConditionals_picks_branch Node.host [] "1" "<p>" ">2"
                "<b>{{a}}</b>" "<i>{{b}}</i>" "</p>" (VBool false)
                Hpre Hpost Hx Hxa Hcond Hv) as [Helse _].
  rewrite (Helse HA HB Hif). reflexivity.
Defined.

Lemma processLoops_runs_loop_witness :
  ("{"%char ∉ list_ascii_of_string "<ul>") ∧ ("{"%char ∉ list_ascii_of_string "</ul>")
  ∧ Forall (fun y => is_word y = true) ("x"%char :: [])
  ∧ is_space "x" = false
  ∧ ("}"%char ∉ "x"%char :: list_ascii_of_string "s")
  ∧ ("{"%char ∉ "x"%char :: list_ascii_of_string "s")
  ∧ free_of [list_ascii_of_string "{{for"; list_ascii_of_string "{{empty}}";
             list_ascii_of_string "{{endfor}}"] "<li>{{x}}</li>" "{{endfor}}" = true
  ∧ _processLoops Node.host (Demo.render 2)
      ("<ul>" ++ "{{for " ++ ("x"%char :: []) ++ " in " ++ ("x"%char :: "s") ++ "}}"
       ++ "<li>{{x}}</li>" ++ "{{endfor}}" ++ "</ul>") Demo.one_two_three
    = Some (list_ascii_of_string "<ul><li>1</li><li>2</li><li>3</li></ul>").
Proof.
  assert ("{"%char ∉ list_ascii_of_string "<ul>") as Hpre
    by (apply (bool_decide_unpack _); vm_compute; reflexivity).
  assert ("{"%char ∉ list_ascii_of_string "</ul>") as Hpost
    by (apply (bool_decide_unpack _); vm_compute; reflexivity).
  assert (Forall (fun y => is_word y = true) ("x"%char :: [])) as Hx
    by (repeat constructor).
  assert (is_space "x" = false) as Hc0 by reflexivity.
  assert ("}"%char ∉ "x"%char :: list_ascii_of_string "s") as Hcoll
    by (apply (bool_decide_unpack _); vm_compute; reflexivity).
  assert ("{"%char ∉ "x"%char :: list_ascii_of_string "s") as Hcollo
    by (apply (bool_decide_unpack _); vm_compute; reflexivity).
  assert (free_of [list_ascii_of_string "{{for"; list_ascii_of_string "{{empty}}";
                   list_ascii_of_string "{{endfor}}"] "<li>{{x}}</li>" "{{endfor}}"
          = true) as Hbody by (vm_compute; reflexivity).
  split; [exact Hpre|]. split; [exact Hpost|]. split; [exact Hx|]. split; [exact Hc0|].
  split; [exact Hcoll|]. split; [exact Hcollo|]. split; [exact Hbody|].
  pose proof (processLoops_runs_loop Node.host (Demo.render 2) Demo.one_two_three
                "x" "x" "<ul>" [] "s" "<li>{{x}}</li>" [] "</ul>"
                Hpre Hpost Hx Hc0 Hcoll Hcollo) as [Hloop _].
  rewrite (Hloop Hbody). vm_compute. reflexivity.
Defined.

Lemma processLoops_without_iterations_witness :
  ("{"%char ∉ list_ascii_of_string "<ul>") ∧ ("{"%char ∉ list_ascii_of_string "</ul>")
  ∧ Forall (fun y => is_word y = true) ("x"%char :: [])
  ∧ is_space "x" = false ∧ is_ascii "x" = true
  ∧ ("}"%char ∉ "x"%char :: list_ascii_of_string "s")
  ∧ ("{"%char ∉ "x"%char :: list_ascii_of_string "s")
  ∧ free_of [list_ascii_of_string "{{for"; list_ascii_of_string "{{empty}}";
             list_ascii_of_string "{{endfor}}"] "<li>{{x}}</li>" "{{empty}}" = true
  ∧ free_of [list_ascii_of_string "{{for"; list_ascii_of_string "{{endfor}}"]
      "<li>none</li>" "{{endfor}}" = true
  ∧ list_ascii_of_string "<li>none</li>" ≠ []
  ∧ is_unsafe ("x"%char :: []) = false
  ∧ runInContext Node.host ("(" ++ ("x"%char :: list_ascii_of_string "s") ++ ")")
      (sandbox Node.host [(list_ascii_of_string "xs", VArr [])]) = Returns (VArr [])
  ∧ _processLoops Node.host (Demo.render 1)
      ("<ul>" ++ "{{for " ++ ("x"%char :: []) ++ " in " ++ ("x"%char :: "s") ++ "}}"
       ++ "<li>{{x}}</li>" ++ "{{empty}}" ++ "<li>none</li>" ++ "{{endfor}}" ++ "</ul>")
      [(list_ascii_of_string "xs", VArr [])]
    = Some (list_ascii_of_string "<ul><li>none</li></ul>").
Proof.
  assert ("{"%char ∉ list_ascii_of_string "<ul>") as Hpre
    by (apply (bool_decide_unpack _); vm_compute; reflexivity).
  assert ("{"%char ∉ list_ascii_of_string "</ul>") as Hpost
    by (apply (bool_decide_unpack _); vm_compute; reflexivity).
  assert (Forall (fun y => is_word y = true) ("x"%char :: [])) as Hx
    by (repeat constructor).
  assert (is_space "x" = false) as Hc0 by reflexivity.
  assert (is_ascii "x" = true) as Hc0a by reflexivity.
  assert ("}"%char ∉ "x"%char :: list_ascii_of_string "s") as Hcoll
    by (apply (bool_decide_unpack _); vm_compute; reflexivity).
  assert ("{"%char ∉ "x"%char :: list_ascii_of_string "s") as Hcollo
    by (apply (bool_decide_unpack _); vm_compute; reflexivity).
  assert (free_of [list_ascii_of_string "{{for"; list_ascii_of_string "{{empty}}";
                   list_ascii_of_string "{{endfor}}"] "<li>{{x}}</li>" "{{empty}}"
          = true) as Hbody by (vm_compute; reflexivity).
  assert (free_of [list_ascii_of_string "{{for"; list_ascii_of_string "{{endfor}}"]
            "<li>none</li>" "{{endfor}}" = true) as HE by (vm_compute; reflexivity).
  assert (list_ascii_of_string "<li>none</li>" ≠ []) as HEne by discriminate.
  assert (is_unsafe ("x"%char :: []) = false) as Hsafe by reflexivity.
  assert (runInContext Node.host ("(" ++ ("x"%char :: list_ascii_of_string "s") ++ ")")
            (sandbox Node.host [(list_ascii_of_string "xs", VArr [])])
          = Returns (VArr [])) as Hv by (vm_compute; reflexivity).
  split; [exact Hpre|]. split; [exact Hpost|]. split; [exact Hx|]. split; [exact Hc0|].
  split; [exact Hc0a|]. split; [exact Hcoll|]. split; [exact Hcollo|].
  split; [exact Hbody|]. split; [exact HE|]. split; [exact HEne|].
  split; [exact Hsafe|]. split; [exact Hv|].
  pose proof (processLoops_without_iterations Node.host (Demo.render 1)
                [(list_ascii_of_string "xs", VArr [])]
                "x" "x" "<ul>" [] "s" "<li>{{x}}</li>" "<li>none</li>" "</ul>" (VArr [])
                Hpre Hpost Hx Hc0 Hc0a Hcoll Hcollo Hbody HE HEne) as [_ Hempty].
  rewrite (Hempty Hsafe Hv (or_intror (or_introl eq_refl))). vm_compute. reflexivity.
Defined.

Lemma processVariablesAndExpressions_substitutes_witness :
  ("{"%char ∉ list_ascii_of_string "<h1>") ∧ ("`"%char ∉ list_ascii_of_string "<h1>")
  ∧ ("{"%char ∉ list_ascii_of_string "</h1>") ∧ ("`"%char ∉ list_ascii_of_string "</h1>")
  ∧ Forall (fun y => is_word y = true) (list_ascii_of_string "title")
  ∧ Forall (fun kv => Forall (fun y => is_word y = true) (fst kv)) Demo.context
  ∧ is_unsafe "title" = false
  ∧ JsObject.own Demo.context "title" = Some (VStr (list_ascii_of_string "T"))
  ∧ _processVariablesAndExpressions Node.host ("<h1>" ++ "{{" ++ "title" ++ "}}" ++ "</h1>")
      Demo.context
    = list_ascii_of_string "<h1>T</h1>".
Proof.
  assert ("{"%char ∉ list_ascii_of_string "<h1>") as Hpre
    by (apply (bool_decide_unpack _); vm_compute; reflexivity).
  assert ("`"%char ∉ list_ascii_of_string "<h1>") as Hpreq
    by (apply (bool_decide_unpack _); vm_compute; reflexivity).
  assert ("{"%char ∉ list_ascii_of_string "</h1>") as Hpost
    by (apply (bool_decide_unpack _); vm_compute; reflexivity).
  assert ("`"%char ∉ list_ascii_of_string "</h1>") as Hpostq
    by (apply (bool_decide_unpack _); vm_compute; reflexivity).
  assert (Forall (fun y => is_word y = true) (list_ascii_of_string "title")) as Hkey
    by (repeat constructor).
  assert (Forall (fun kv => Forall (fun y => is_word y = true) (fst kv)) Demo.context)
    as Hwords by (repeat constructor).
  assert (is_unsafe "title" = false) as Hsafe by reflexivity.
  assert (JsObject.own Demo.context "title" = Some (VStr (list_ascii_of_string "T")))
    as Hown by reflexivity.
  assert ("{"%char ∉ substitution 0 "<h1>"
            {| m_text := "{{" ++ "title" ++ "}}"; m_rest := "</h1>"; m_caps := [] |}
            (_safeToString Node.host (VStr (list_ascii_of_string "T")))) as Hvalue
    by (apply (bool_decide_unpack _); vm_compute; reflexivity).
  split; [exact Hpre|]. split; [exact Hpreq|]. split; [exact Hpost|].
  split; [exact Hpostq|]. split; [exact Hkey|]. split; [exact Hwords|].
  split; [exact Hsafe|]. split; [exact Hown|].
  pose proof (processVariablesAndExpressions_substitutes Node.host Demo.context "<h1>"
                "title" "</h1>" (VStr (list_ascii_of_string "T"))
                Hpre Hpreq Hpost Hpostq Hkey Hwords Hsafe Hown Hvalue) as [Hfound _].
  rewrite Hfound. vm_compute. reflexivity.
Defined.

Lemma processVariablesAndExpressions_evaluates_witness :
  ("{"%char ∉ list_ascii_of_string "<h1>") ∧ ("`"%char ∉ list_ascii_of_string "<h1>")
  ∧ ("{"%char ∉ list_ascii_of_string "</h1>") ∧ ("`"%char ∉ list_ascii_of_string "</h1>")
  ∧ list_ascii_of_string "missing" ≠ []
  ∧ Forall (fun y => is_word y = true) (list_ascii_of_string "missing")
  ∧ Forall (fun kv => Forall (fun y => is_word y = true) (fst kv)) Demo.context
  ∧ JsObject.own Demo.context "missing" = None
  ∧ _processVariablesAndExpressions Node.host ("<h1>" ++ "{{" ++ "missing" ++ "}}" ++ "</h1>")
      Demo.context
    = list_ascii_of_string "<h1></h1>".
Proof.
  assert ("{"%char ∉ list_ascii_of_string "<h1>") as Hpre
    by (apply (bool_decide_unpack _); vm_compute; reflexivity).
  assert ("`"%char ∉ list_ascii_of_string "<h1>") as Hpreq
    by (apply (bool_decide_unpack _); vm_compute; reflexivity).
  assert ("{"%char ∉ list_ascii_of_string "</h1>") as Hpost
    by (apply (bool_decide_unpack _); vm_compute; reflexivity).
  assert ("`"%char ∉ list_ascii_of_string "</h1>") as Hpostq
    by (apply (bool_decide_unpack _); vm_compute; reflexivity).
  assert (list_ascii_of_string "missing" ≠ []) as Hne by discriminate.
  assert (Forall (fun y => is_word y = true) (list_ascii_of_string "missing")) as Hkey
    by (repeat constructor).
  assert (Forall (fun kv => Forall (fun y => is_word y = true) (fst kv)) Demo.context)
    as Hwords by (repeat constructor).
  assert (JsObject.own Demo.context "missing" = None) as Hown by reflexivity.
  split; [exact Hpre|]. split; [exact Hpreq|]. split; [exact Hpost|].
  split; [exact Hpostq|]. split; [discriminate|]. split; [exact Hkey|].
  split; [exact Hwords|]. split; [exact Hown|].
  rewrite (processVariablesAndExpressions_evaluates Node.host Demo.context "<h1>"
             "missing" "</h1>" Hpre Hpreq Hpost Hpostq Hne Hkey Hwords (or_intror Hown)).
  vm_compute. reflexivity.
Defined.

Lemma processUserFunctions_calls_function_witness :
  ("{"%char ∉ list_ascii_of_string "<p>") ∧ ("{"%char ∉ list_ascii_of_string "</p>")
  ∧ ascii_only ("u"%char :: list_ascii_of_string "tils.greet")
  ∧ ascii_only (list_ascii_of_string "1, 2")
  ∧ Forall (fun y => is_space y = false ∧ y ≠ "("%char ∧ y ≠ ")"%char)
      ("u"%char :: list_ascii_of_string "tils.greet")
  ∧ (")"%char ∉ list_ascii_of_string "1, 2")
  ∧ _processUserFunctions Node.host Demo.greeting_functions
      ("<p>" ++ "{{user:" ++ ("u"%char :: "tils.greet") ++ "(" ++ "1, 2" ++ ")}}" ++ "</p>")
      []
    = list_ascii_of_string "<p>hello</p>".
Proof.
  assert ("{"%char ∉ list_ascii_of_string "<p>") as Hpre
    by (apply (bool_decide_unpack _); vm_compute; reflexivity).
  assert ("{"%char ∉ list_ascii_of_string "</p>") as Hpost
    by (apply (bool_decide_unpack _); vm_compute; reflexivity).
  assert (ascii_only ("u"%char :: list_ascii_of_string "tils.greet")) as Hascii
    by (repeat constructor).
  assert (ascii_only (list_ascii_of_string "1, 2")) as Hascii' by (repeat constructor).
  assert (Forall (fun y => is_space y = false ∧ y ≠ "("%char ∧ y ≠ ")"%char)
            ("u"%char :: list_ascii_of_string "tils.greet")) as Hname
    by (repeat constructor; discriminate).
  assert (")"%char ∉ list_ascii_of_string "1, 2") as Hargs
    by (apply (bool_decide_unpack _); vm_compute; reflexivity).
  split; [exact Hpre|]. split; [exact Hpost|]. split; [exact Hascii|].
  split; [exact Hascii'|]. split; [exact Hname|]. split; [exact Hargs|].
  rewrite (processUserFunctions_calls_function Node.host Demo.greeting_functions []
             "u" "<p>" "tils.greet" "1, 2" "</p>" Hpre Hpost Hascii Hascii' Hname Hargs).
  vm_compute. reflexivity.
Defined.

Lemma processVariables_substitutes_witness :
  ("{"%char ∉ list_ascii_of_string "<h1>") ∧ ("`"%char ∉ list_ascii_of_string "<h1>")
  ∧ ("{"%char ∉ list_ascii_of_string "</h1>") ∧ ("`"%char ∉ list_ascii_of_string "</h1>")
  ∧ Forall (fun y => is_word y = true) (list_ascii_of_string "title")
  ∧ Forall (fun kv => Forall (fun y => is_word y = true) (fst kv)) Demo.user_variables
  ∧ Forall (fun kv => Forall (fun y => is_word y = true) (fst kv)) Demo.context
  ∧ NoDup (map fst Demo.user_variables) ∧ NoDup (map fst Demo.context)
  ∧ is_unsafe "title" = false
  ∧ processVariables Node.host Demo.user_variables Demo.no_functions 1
      ("<h1>" ++ "{{" ++ "title" ++ "}}" ++ "</h1>") Demo.context
    = Some (list_ascii_of_string "<h1>T</h1>").
Proof.
  assert ("{"%char ∉ list_ascii_of_string "<h1>") as Hpre
    by (apply (bool_decide_unpack _); vm_compute; reflexivity).
  assert ("`"%char ∉ list_ascii_of_string "<h1>") as Hpreq
    by (apply (bool_decide_unpack _); vm_compute; reflexivity).
  assert ("{"%char ∉ list_ascii_of_string "</h1>") as Hpost
    by (apply (bool_decide_unpack _); vm_compute; reflexivity).
  assert ("`"%char ∉ list_ascii_of_string "</h1>") as Hpostq
    by (apply (bool_decide_unpack _); vm_compute; reflexivity).
  assert (Forall (fun y => is_word y = true) (list_ascii_of_string "title")) as Hkey
    by (repeat constructor).
  assert (Forall (fun kv => Forall (fun y => is_word y = true) (fst kv))
            Demo.user_variables) as Huser by (repeat constructor).
  assert (Forall (fun kv => Forall (fun y => is_word y = true) (fst kv)) Demo.context)
    as Hrequest by (repeat constructor).
  assert (NoDup (map fst Demo.user_variables)) as Hnu
    by (apply (bool_decide_unpack _); vm_compute; reflexivity).
  assert (NoDup (map fst Demo.context)) as Hnr
    by (apply (bool_decide_unpack _); vm_compute; reflexivity).
  assert (is_unsafe "title" = false) as Hsafe by reflexivity.
  assert (match JsObject.own Demo.context "title" with
          | Some w => Some w
          | None => JsObject.own Demo.user_variables "title"
          end = Some (VStr (list_ascii_of_string "T"))) as Hown by reflexivity.
  assert ("{"%char ∉ _safeToString Node.host (VStr (list_ascii_of_string "T")))
    as Hbrace by (apply (bool_decide_unpack _); vm_compute; reflexivity).
  assert ("$"%char ∉ _safeToString Node.host (VStr (list_ascii_of_string "T")))
    as Hdollar by (apply (bool_decide_unpack _); vm_compute; reflexivity).
  split; [exact Hpre|]. split; [exact Hpreq|]. split; [exact Hpost|].
  split; [exact Hpostq|]. split; [exact Hkey|]. split; [exact Huser|].
  split; [exact Hrequest|]. split; [exact Hnu|]. split; [exact Hnr|].
  split; [exact Hsafe|].
  rewrite (processVariables_substitutes Node.host Demo.user_variables Demo.no_functions 0
             "<h1>" "title" "</h1>" Demo.context (VStr (list_ascii_of_string "T"))
             Hpre Hpreq Hpost Hpostq Hkey Huser Hrequest Hnu Hnr Hsafe Hown Hbrace
             Hdollar).
  vm_compute. reflexivity.
Defined.
